(** * bids-fraud-features: a shallow embedding of the tagging engine and of
    the company resolver (src/featurize/featurize.py, src/featurize/utils.py)

    Data frames are modelled column-wise, Python exceptions by an error
    monad, the module-level list [files] by explicit state passing. What the
    program takes from libraries is modelled by what the program sees of
    it: pandas series operations element by element, [datetime.strptime]
    by the regular expressions of its two formats, the [disjoint_set]
    package by the canonical element of each element, [uuid.uuid1] by a
    supply of identifiers. *)

From stdpp Require Import gmap strings list sets pretty sorting.
From Stdlib Require Import ZArith Lia Ascii.
From Stdlib Require OrderedTypeEx.

Open Scope string_scope.
Open Scope list_scope.
Open Scope nat_scope.

(** ** Exceptions and the error monad *)

Inductive exn :=
| KeyError (key : string)
| IndexError
| ValueError
| TypeError
| UnboundLocalError (var : string).

Inductive result (A : Type) :=
| Ok (a : A)
| Raise (e : exn).
Arguments Ok {A} a.
Arguments Raise {A} e.

Definition bind {A B} (r : result A) (k : A → result B) : result B :=
  match r with
  | Ok a => k a
  | Raise e => Raise e
  end.

Notation "'do' x <- r ; k" := (bind r (fun x => k))
  (at level 10, x name, r at level 100, k at level 200,
   format "'[v' 'do'  x  <-  r ; '/' k ']'").

(** [for x in xs: s = body x s] *)
Fixpoint for_each {S A} (xs : list A) (body : A → S → result S) (s : S) : result S :=
  match xs with
  | [] => Ok s
  | x :: xs' => do s' <- body x s; for_each xs' body s'
  end.

(** [[f(x) for x in xs]] with a body that may raise *)
Fixpoint map_result {A B} (f : A → result B) (xs : list A) : result (list B) :=
  match xs with
  | [] => Ok []
  | x :: xs' => do y <- f x; do ys <- map_result f xs'; Ok (y :: ys)
  end.

(** [range(a, b)] *)
Definition range (a b : nat) : list nat := seq a (b - a).

(** [xs[i]] *)
Definition item {A} (xs : list A) (i : nat) : result A :=
  match xs !! i with
  | Some x => Ok x
  | None => Raise IndexError
  end.

(** ** Cells, series and data frames *)

(** What a cell of a frame holds: the float NaN of a missing entry, as
    [pd.read_csv] reads it; Python's [None], which [agg('first')] leaves
    for a group without a value in a column of strings and which
    [convert_nonnan_nans] returns; a string; or an integer (the 0/1 of a
    tag). *)
Inductive cell :=
| NaN
| PyNone
| Str (s : string)
| Int (z : Z).

#[global] Instance cell_eq_dec : EqDecision cell.
Proof. solve_decision. Defined.

Definition cell_enc (c : cell) : bool + string + Z :=
  match c with
  | NaN => inl (inl true)
  | PyNone => inl (inl false)
  | Str s => inl (inr s)
  | Int z => inr z
  end.

Definition cell_dec (x : bool + string + Z) : cell :=
  match x with
  | inl (inl true) => NaN
  | inl (inl false) => PyNone
  | inl (inr s) => Str s
  | inr z => Int z
  end.

#[global] Instance cell_countable : Countable cell :=
  inj_countable' cell_enc cell_dec
    (λ c, match c with
          | NaN => eq_refl | PyNone => eq_refl | Str _ => eq_refl | Int _ => eq_refl
          end).

(** A frame: its number of rows ([len(df)]) and its columns in order. *)
Record DataFrame := mkDF {
  nrows : nat;
  cols : list (string * list cell)
}.

Definition columns (df : DataFrame) : list string := (cols df).*1.

(** [name in df.columns] *)
Definition has_column (name : string) (df : DataFrame) : bool :=
  bool_decide (name ∈ columns df).

Fixpoint lookup_col (name : string) (cs : list (string * list cell)) : option (list cell) :=
  match cs with
  | [] => None
  | (k, v) :: cs' => if decide (k = name) then Some v else lookup_col name cs'
  end.

(** [df[name]] *)
Definition getitem (df : DataFrame) (name : string) : result (list cell) :=
  match lookup_col name (cols df) with
  | Some v => Ok v
  | None => Raise (KeyError name)
  end.

Fixpoint assign_col (name : string) (v : list cell) (cs : list (string * list cell))
  : list (string * list cell) :=
  match cs with
  | [] => [(name, v)]
  | (k, w) :: cs' =>
      if decide (k = name) then (k, v) :: cs' else (k, w) :: assign_col name v cs'
  end.

(** [df[name] = v]: an existing column is replaced where it stands, a new
    one is added after the last. *)
Definition setitem (df : DataFrame) (name : string) (v : list cell) : DataFrame :=
  mkDF (nrows df) (assign_col name v (cols df)).

(** [files[i][name] = v] on the shared list of frames *)
Definition set_file_column (files : list DataFrame) (i : nat) (name : string)
    (v : list cell) : result (list DataFrame) :=
  do f <- item files i; Ok (<[i := setitem f name v]> files).

(** [set(series)] *)
Definition to_set (s : list cell) : gset cell := list_to_set s.

(** [series.isin(values)] *)
Definition isin (s : list cell) (values : gset cell) : list bool :=
  (λ c, bool_decide (c ∈ values)) <$> s.

(** [a & b], [~a] and [.apply(int)] on boolean series of one frame *)
Definition series_and (a b : list bool) : list bool := zip_with andb a b.
Definition series_not (a : list bool) : list bool := negb <$> a.
Definition int_of_bool (b : bool) : cell := Int (if b then 1 else 0)%Z.
Definition apply_int (a : list bool) : list cell := int_of_bool <$> a.

(** [notnull()], [isna()]: NaN and [None] are the missing values. *)
Definition is_null (c : cell) : bool :=
  match c with NaN | PyNone => true | _ => false end.
Definition notnull (s : list cell) : list bool := (λ c, negb (is_null c)) <$> s.
Definition isna (s : list cell) : list bool := is_null <$> s.

Definition is_str (c : cell) : bool :=
  match c with Str _ => true | _ => false end.

(** A cell that only a column of dtype object holds *)
Definition is_object (c : cell) : bool :=
  match c with Str _ | PyNone => true | _ => false end.

(** The dtype of a column: object when a cell is a string or [None] and
    for a column without cells, numeric otherwise (float64 when an entry
    is missing: the column [read_csv] makes of a field that no record
    fills is float64). The [.str] accessor raises AttributeError on a
    numeric column, however few of its cells a mask has kept. *)
Definition object_dtype (s : list cell) : bool :=
  bool_decide (s = []) || existsb is_object s.

(** [series == value]: pandas gives false at a missing cell, and at every
    cell for a missing value. *)
Definition series_eq (s : list cell) (value : cell) : list bool :=
  (λ c, negb (is_null c) && negb (is_null value) && bool_decide (c = value)) <$> s.

(** [lst.append(1) if condition else lst.append(0)] (utils.py) *)
Definition append_tag_conditional (lst : list cell) (condition : bool) : list cell :=
  if condition then lst ++ [Int 1%Z] else lst ++ [Int 0%Z].

(** ** Lifecycle tags (featurize.py) *)

(** utils.py, [get_slugs_up_to_i_array] *)
Definition get_slugs_up_to_i_array (files : list DataFrame) : result (list (gset cell)) :=
  do f0 <- item files 0;
  do s0 <- getitem f0 "slug";
  for_each (range 1 (length files))
    (fun i slugs_up_to_i =>
       do fi <- item files i;
       do si <- getitem fi "slug";
       do prev <- item slugs_up_to_i (i - 1);
       Ok (slugs_up_to_i ++ [to_set si ∪ prev]))
    [to_set s0].

(** featurize.py, [tag_continued] *)
Definition tag_continued (files : list DataFrame) : result (list DataFrame) :=
  for_each (range 1 (length files))
    (fun i files =>
       do curr_file <- item files i;
       do prev_file <- item files (i - 1);
       do prev_slugs <- getitem prev_file "slug";
       let prev_slug_set := to_set prev_slugs in
       do curr_slugs <- getitem curr_file "slug";
       set_file_column files i "continued" (apply_int (isin curr_slugs prev_slug_set)))
    files.

(** featurize.py, [tag_disappear] *)
Definition tag_disappear (files : list DataFrame) : result (list DataFrame) :=
  for_each (range 0 (length files - 1))
    (fun i files =>
       do curr_file <- item files i;
       do next_file <- item files (i + 1);
       do next_slugs <- getitem next_file "slug";
       let next_slug_set := to_set next_slugs in
       do curr_slugs <- getitem curr_file "slug";
       set_file_column files i "disappeared"
         (apply_int (series_not (isin curr_slugs next_slug_set))))
    files.

(** featurize.py, [tag_reappear] *)
Definition tag_reappear (slugs_up_to_i : list (gset cell)) (files : list DataFrame)
  : result (list DataFrame) :=
  for_each (range 2 (length files))
    (fun i files =>
       do curr_file <- item files i;
       do prev_file <- item files (i - 1);
       do prev_slugs <- getitem prev_file "slug";
       let prev_slug_set := to_set prev_slugs in
       do curr_slugs <- getitem curr_file "slug";
       do up <- item slugs_up_to_i (i - 2);
       set_file_column files i "reappeared"
         (apply_int (series_and (isin curr_slugs up)
                                (series_not (isin curr_slugs prev_slug_set)))))
    files.

(** The slug set of wave [k] of the input, empty when there is no such wave
    or it has no slug column. *)
Definition slugs_at (files : list DataFrame) (k : nat) : gset cell :=
  match files !! k with
  | Some f => match lookup_col "slug" (cols f) with
              | Some s => to_set s
              | None => ∅
              end
  | None => ∅
  end.

(** The slug column of wave [k]. *)
Definition slug_column (files : list DataFrame) (k : nat) : list cell :=
  match files !! k with
  | Some f => default [] (lookup_col "slug" (cols f))
  | None => []
  end.

(** The column [name] of wave [k], if the wave and the column exist. *)
Definition column_at (files : list DataFrame) (k : nat) (name : string)
  : option (list cell) :=
  f ← files !! k; lookup_col name (cols f).

(** The union of the slug sets of waves [0..k] of the input. *)
Fixpoint slugs_up_to (files : list DataFrame) (k : nat) : gset cell :=
  match k with
  | 0 => slugs_at files 0
  | S k' => slugs_at files k ∪ slugs_up_to files k'
  end.

(** ** Adjacent field changes (featurize.py, [tag_field_changes]) *)

Definition TAG_CHANGE_FIELDS : list string := ["address"; "dispensary_name"; "email"].

(** Python's [a != b] on two values read from cells. A float NaN differs
    from every value, itself included; [None] differs from every value but
    [None]; values of different types differ. *)
Definition cell_ne (a b : cell) : bool :=
  match a, b with
  | NaN, _ => true
  | _, NaN => true
  | _, _ => bool_decide (a ≠ b)
  end.

(** [prev_field_value != curr_field_value], where the left side comes from
    a [defaultdict(lambda: None)]: Python's [None] for a slug the dict does
    not hold. *)
Definition value_ne (prev_field_value : option cell) (curr_field_value : cell) : bool :=
  cell_ne (default PyNone prev_field_value) curr_field_value.

(** The first inner loop: [prev_slug_to_prev_field_value], filled row by
    row, a later row of the same slug overwriting an earlier one. *)
Definition prev_slug_to_prev_field_value (prev_file : DataFrame)
    (prev_slug_column prev_field : list cell) : result (gmap cell cell) :=
  for_each (range 0 (nrows prev_file))
    (fun j d =>
       do prev_slug <- item prev_slug_column j;
       do v <- item prev_field j;
       Ok (<[prev_slug := v]> d))
    ∅.

(** The second inner loop: the list [changed_field]. *)
Definition changed_field_list (curr_file : DataFrame) (d : gmap cell cell)
    (curr_slug_column curr_field continued : list cell) : result (list cell) :=
  for_each (range 0 (nrows curr_file))
    (fun j changed_field =>
       do curr_slug <- item curr_slug_column j;
       let prev_field_value := d !! curr_slug in
       do curr_field_value <- item curr_field j;
       do cont <- item continued j;
       Ok (append_tag_conditional changed_field
             (bool_decide (cont = Int 1%Z) && value_ne prev_field_value curr_field_value)))
    [].

(** The loop [for field in TAG_CHANGE_FIELDS] on one pair of waves;
    [curr_file] is mutated in place, [break] leaves the loop. *)
Fixpoint tag_field_changes_fields (fields : list string) (prev_file curr_file : DataFrame)
  : result DataFrame :=
  match fields with
  | [] => Ok curr_file
  | field :: fields' =>
      if negb (has_column field curr_file) || negb (has_column field prev_file)
      then Ok curr_file
      else
        do prev_field <- getitem prev_file field;
        do curr_field <- getitem curr_file field;
        do prev_slug_column <- getitem prev_file "slug";
        do curr_slug_column <- getitem curr_file "slug";
        do continued <- getitem curr_file "continued";
        do d <- prev_slug_to_prev_field_value prev_file prev_slug_column prev_field;
        do changed_field <- changed_field_list curr_file d curr_slug_column curr_field continued;
        tag_field_changes_fields fields' prev_file
          (setitem curr_file ("changed_" +:+ field) changed_field)
  end.

Definition tag_field_changes (files : list DataFrame) : result (list DataFrame) :=
  for_each (range 1 (length files))
    (fun i files =>
       do curr_file <- item files i;
       do prev_file <- item files (i - 1);
       do curr_file' <- tag_field_changes_fields TAG_CHANGE_FIELDS prev_file curr_file;
       Ok (<[i := curr_file']> files))
    files.

(** ** Dates *)

Record datetime := mkDate { year : nat; month : nat; day : nat }.

Definition datetime_le (a b : datetime) : bool :=
  if year a <? year b then true
  else if year b <? year a then false
  else if month a <? month b then true
  else if month b <? month a then false
  else day a <=? day b.

(** The directives of the two formats the program uses, ['%m/%d/%Y'] and
    ['%Y-%m-%d'], and literal characters. *)
Inductive directive :=
| DirY
| DirM
| DirD
| Lit (a : ascii).

Definition fmt_mdY : list directive := [DirM; Lit "/"; DirD; Lit "/"; DirY].
Definition fmt_Ymd : list directive := [DirY; Lit "-"; DirM; Lit "-"; DirD].

Definition digit (a : ascii) : option nat :=
  let n := nat_of_ascii a in
  if (48 <=? n) && (n <=? 57) then Some (n - 48) else None.

(** What [_strptime] matches for one directive, as the alternatives of its
    regular expression in their order, each with the rest of the input:
    [%Y] is [\d\d\d\d], [%m] is [1[0-2]|0[1-9]|[1-9]], [%d] is
    [3[01]|[12]\d|0[1-9]|[1-9]| [1-9]]. *)
Definition alternatives (t : directive) (s : list ascii) : list (nat * list ascii) :=
  match t with
  | Lit c => match s with
             | a :: r => if decide (a = c) then [(0, r)] else []
             | [] => []
             end
  | DirY => match s with
            | a :: b :: c :: d :: r =>
                match digit a, digit b, digit c, digit d with
                | Some x, Some y, Some z, Some w => [(((x * 10 + y) * 10 + z) * 10 + w, r)]
                | _, _, _, _ => []
                end
            | _ => []
            end
  | DirM =>
      match s with
      | a :: b :: r =>
          match digit a, digit b with
          | Some 1, Some y => if y <=? 2 then [(10 + y, r)] else []
          | _, _ => []
          end
      | _ => []
      end ++
      match s with
      | a :: b :: r =>
          match digit a, digit b with
          | Some 0, Some y => if 1 <=? y then [(y, r)] else []
          | _, _ => []
          end
      | _ => []
      end ++
      match s with
      | a :: r =>
          match digit a with
          | Some x => if 1 <=? x then [(x, r)] else []
          | None => []
          end
      | [] => []
      end
  | DirD =>
      match s with
      | a :: b :: r =>
          match digit a, digit b with
          | Some 3, Some y => if y <=? 1 then [(30 + y, r)] else []
          | _, _ => []
          end
      | _ => []
      end ++
      match s with
      | a :: b :: r =>
          match digit a, digit b with
          | Some x, Some y => if (1 <=? x) && (x <=? 2) then [(x * 10 + y, r)] else []
          | _, _ => []
          end
      | _ => []
      end ++
      match s with
      | a :: b :: r =>
          match digit a, digit b with
          | Some 0, Some y => if 1 <=? y then [(y, r)] else []
          | _, _ => []
          end
      | _ => []
      end ++
      match s with
      | a :: r =>
          match digit a with
          | Some x => if 1 <=? x then [(x, r)] else []
          | None => []
          end
      | [] => []
      end ++
      match s with
      | a :: b :: r =>
          match digit b with
          | Some y => if bool_decide (a = " "%char) && (1 <=? y) then [(y, r)] else []
          | None => []
          end
      | _ => []
      end
  end.

Definition store (t : directive) (v : nat) (acc : datetime) : datetime :=
  match t with
  | DirY => mkDate v (month acc) (day acc)
  | DirM => mkDate (year acc) v (day acc)
  | DirD => mkDate (year acc) (month acc) v
  | Lit _ => acc
  end.

(** All the ways the format matches a prefix of the input, in the order a
    backtracking matcher finds them. *)
Fixpoint match_format (fmt : list directive) (s : list ascii) (acc : datetime)
  : list (datetime * list ascii) :=
  match fmt with
  | [] => [(acc, s)]
  | t :: fmt' =>
      flat_map (λ '(v, r), match_format fmt' r (store t v acc)) (alternatives t s)
  end.

Definition is_leap (y : nat) : bool :=
  ((y mod 4 =? 0) && negb (y mod 100 =? 0)) || (y mod 400 =? 0).

Definition days_in_month (y m : nat) : nat :=
  match m with
  | 2 => if is_leap y then 29 else 28
  | 4 | 6 | 9 | 11 => 30
  | _ => 31
  end.

(** [datetime.strptime(string, formt)]: the first match of the format's
    regular expression must end where the string ends, and the numbers
    must make a date; anything else is a [ValueError]. *)
Definition strptime (string : string) (formt : list directive) : result datetime :=
  match match_format formt (String.list_ascii_of_string string) (mkDate 1900 1 1) with
  | [] => Raise ValueError
  | (d, rest) :: _ =>
      match rest with
      | _ :: _ => Raise ValueError
      | [] =>
          if (1 <=? year d) && (1 <=? month d) && (month d <=? 12) && (1 <=? day d)
             && (day d <=? days_in_month (year d) (month d))
          then Ok d
          else Raise ValueError
      end
  end.

(** utils.py, [convert_str_to_datetime_maker(formt)]: a float (the NaN of
    a missing entry) is returned as it is, here [None]; a string goes to
    [strptime]; [strptime] refuses any other type, Python's [None]
    included. *)
Definition convert_str_to_datetime_maker (formt : list directive) (string : cell)
  : result (option datetime) :=
  match string with
  | NaN => Ok None
  | Str s => do d <- strptime s formt; Ok (Some d)
  | PyNone | Int _ => Raise TypeError
  end.

(** The dtype of a date column after [.apply(convert)]: of a column that
    has rows and in which every entry stayed the float NaN pandas makes a
    float64 series; of one that holds a date, a datetime64 series, with NaT
    for NaN. *)
Definition float64_dates (a : list (option datetime)) : bool :=
  match a with
  | [] => false
  | _ :: _ => forallb (λ x, match x with None => true | Some _ => false end) a
  end.

(** A comparison of two date columns row by row; with a missing date it
    is false. *)
Definition compare_rows (cmp : datetime → datetime → bool) (a b : list (option datetime))
  : list bool :=
  zip_with (λ x y, match x, y with
                   | Some p, Some q => cmp p q
                   | _, _ => false
                   end) a b.

(** [a <= b] and [a > b] on two such series of one frame: pandas refuses
    to order a float64 series and a datetime64 series (TypeError), and
    compares row by row otherwise. *)
Definition compare_dates (cmp : datetime → datetime → bool) (a b : list (option datetime))
  : result (list bool) :=
  if xorb (float64_dates a) (float64_dates b) then Raise TypeError
  else Ok (compare_rows cmp a b).

Definition series_le (a b : list (option datetime)) : result (list bool) :=
  compare_dates datetime_le a b.

Definition series_gt (a b : list (option datetime)) : result (list bool) :=
  compare_dates (λ p q, negb (datetime_le p q)) a b.

(** ** License tags (featurize.py) *)

Fixpoint contains (pat s : string) : bool :=
  String.prefix pat s ||
  match s with
  | EmptyString => false
  | String _ s' => contains pat s'
  end.

(** [series.str.contains(pat)] for a plain word; the NaN it gives for a
    missing entry counts as false under [&]. *)
Definition str_contains (s : list cell) (pat : string) : list bool :=
  (λ c, match c with Str x => contains pat x | _ => false end) <$> s.

Definition LICENSE_STATUSES : list string :=
  ["active"; "canceled"; "expired"; "revoked"; "suspended"].

(** The body of [for license_status in [...]] on [file], mutated in place. *)
Definition tag_license_category (license_status : string) (file : DataFrame)
  : result DataFrame :=
  let tag_name := license_status +:+ "_license" in
  do status <- getitem file "status";
  if bool_decide (Str license_status ∈ status) then
    do license <- getitem file "license";
    do issue_date <- getitem file "issue_date";
    do issue <- map_result (convert_str_to_datetime_maker fmt_mdY) issue_date;
    do access_date <- getitem file "access_date";
    do access <- map_result (convert_str_to_datetime_maker fmt_Ymd) access_date;
    do issued <- series_le issue access;
    do status <- getitem file "status";
    Ok (setitem file tag_name
          (apply_int (series_and (series_and (series_and (notnull license) (notnull issue_date))
                                             issued)
                                 (str_contains status license_status))))
  else Ok file.

(** The body of [if 'license' in files[i].columns] *)
Definition tag_license_status_file (file : DataFrame) : result DataFrame :=
  do file <- for_each LICENSE_STATUSES tag_license_category file;
  do license <- getitem file "license";
  do issue_date <- getitem file "issue_date";
  let file := setitem file "possible_license"
                (apply_int (series_and (notnull license) (isna issue_date))) in
  do license <- getitem file "license";
  do issue_date <- getitem file "issue_date";
  do issue_date' <- getitem file "issue_date";
  do issue <- map_result (convert_str_to_datetime_maker fmt_mdY) issue_date';
  do access_date <- getitem file "access_date";
  do access <- map_result (convert_str_to_datetime_maker fmt_Ymd) access_date;
  do future <- series_gt issue access;
  Ok (setitem file "future_license_explicit"
        (apply_int (series_and (series_and (notnull license) (notnull issue_date)) future))).

Definition tag_license_status (files : list DataFrame) : result (list DataFrame) :=
  for_each (range 0 (length files))
    (fun i files =>
       do file <- item files i;
       if has_column "license" file then
         do file' <- tag_license_status_file file;
         Ok (<[i := file']> files)
       else Ok files)
    files.

(** [series[mask]] *)
Definition select_mask (s : list cell) (mask : list bool) : list cell :=
  (filter (λ p, p.2 = true) (zip s mask)).*1.

(** [set(x['slug'][x['active_license'] == 1])] *)
Definition active_license_slugs (x : DataFrame) : result (gset cell) :=
  do slug <- getitem x "slug";
  do active_license <- getitem x "active_license";
  Ok (to_set (select_mask slug ((λ c, bool_decide (c = Int 1%Z)) <$> active_license))).

Definition tag_assumed_license_status (files : list DataFrame) : result (list DataFrame) :=
  do active_license_slugs_after_i <-
    for_each (reverse (range 0 (length files - 1)))
      (fun i after =>
         do file_after_i <- item files (i + 1);
         if has_column "license" file_after_i then
           do file_after_i_active_slugs <- active_license_slugs file_after_i;
           do first <- item after 0;
           Ok ((file_after_i_active_slugs ∪ first) :: after)
         else
           do first <- item after 0;
           Ok (first :: after))
      [∅];
  do active_license_slugs_at_i <-
    map_result (λ x, if has_column "license" x then active_license_slugs x else Ok ∅) files;
  for_each (range 0 (length files))
    (fun i files =>
       do file <- item files i;
       do slug <- getitem file "slug";
       do after_i <- item active_license_slugs_after_i i;
       do slug' <- getitem file "slug";
       do at_i <- item active_license_slugs_at_i i;
       set_file_column files i "assumed_license"
         (apply_int (series_and (isin slug after_i) (series_not (isin slug' at_i)))))
    files.

(** ** Output reconciliation *)

(** utils.py, [get_column_difference]: the columns of [df1], in order,
    that [df2] does not have. *)
Definition get_column_difference (df1 df2 : DataFrame) : list string :=
  foldl (λ diff column, if bool_decide (column ∈ columns df2) then diff else diff ++ [column])
        [] (columns df1).

(** The first loop of [standardize_files]: [max_tag_num] and
    [max_file_tag_set], the latter unbound until some wave sets it. *)
Definition max_file_tags (files full_files : list DataFrame)
  : result (Z * option (list string)) :=
  for_each (range 0 (length files))
    (fun i (st : Z * option (list string)) =>
       do f <- item files i;
       do full <- item full_files i;
       let file_tags := get_column_difference f full in
       if (st.1 <? Z.of_nat (length file_tags))%Z
       then Ok (Z.of_nat (length file_tags), Some file_tags)
       else Ok st)
    ((-1)%Z, None).

(** [for field in max_file_tag_set: if field not in file.columns: ...] *)
Definition fill_missing_tags (max_file_tag_set : list string) (file : DataFrame) : DataFrame :=
  foldl (λ file field,
           if has_column field file then file
           else setitem file field (replicate (nrows file) (Str "")))
        file max_file_tag_set.

Definition standardize_files (files full_files : list DataFrame)
  : result (list DataFrame * list string) :=
  do st <- max_file_tags files full_files;
  do files' <-
    for_each (range 0 (length files))
      (fun i files =>
         match st.2 with
         | None => Raise (UnboundLocalError "max_file_tag_set")
         | Some max_file_tag_set =>
             do file <- item files i;
             Ok (<[i := fill_missing_tags max_file_tag_set file]> files)
         end)
      files;
  match st.2 with
  | None => Raise (UnboundLocalError "max_file_tag_set")
  | Some max_file_tag_set => Ok (files', max_file_tag_set)
  end.

(** [df[names]] with a list of column names (featurize.py, [main]:
    [files[i][['slug'] + tag_list]]). pandas raises one KeyError that
    names the columns it misses; the model keeps the first of them. *)
Definition select_columns (names : list string) (df : DataFrame) : result DataFrame :=
  do cs <- map_result (λ name, do v <- getitem df name; Ok (name, v)) names;
  Ok (mkDF (nrows df) cs).

(** ** The company resolver (utils.py, [gen_company_mapping]) *)

(** [df.groupby('slug')]: the group keys are the distinct slugs in sorted
    order. Slugs are strings ([add_slug]); a row without one belongs to no
    group. *)
Fixpoint insert_key (s : string) (keys : list string) : list string :=
  match keys with
  | [] => [s]
  | k :: keys' =>
      match String.compare s k with
      | Lt => s :: keys
      | Eq => keys
      | Gt => k :: insert_key s keys'
      end
  end.

Definition group_keys (slug : list cell) : list string :=
  foldr (λ c keys, match c with Str s => insert_key s keys | _ => keys end) [] slug.

(** The values of a column on the rows of one group. *)
Definition group_values (key : string) (slug col : list cell) : list cell :=
  (filter (λ p, p.1 = Str key) (zip slug col)).*2.

(** The aggregation ['first'] on the column [col]: the first value of the
    group that is not missing; for a group without one, [None] in a column
    of dtype object and NaN in a numeric column. *)
Definition agg_first (col values : list cell) : cell :=
  default (if object_dtype col then PyNone else NaN)
          (head (filter (λ c, is_null c = false) values)).

(** What [frozenset(x)] holds of a column of product names. Iterating a
    numeric column makes a new float of every entry, and a NaN is equal to
    no float but itself: the NaN of row [j] of such a column is an element
    of its own. In a column of dtype object a missing name is the one NaN
    object pandas stores there, and equal values are equal elements. *)
Inductive product :=
| Name (c : cell)
| FloatNaN (j : nat).

#[global] Instance product_eq_dec : EqDecision product.
Proof. solve_decision. Defined.

#[global] Instance product_countable : Countable product :=
  inj_countable' (λ p, match p with Name c => inl c | FloatNaN j => inr j end)
                 (λ x, match x with inl c => Name c | inr j => FloatNaN j end)
                 (λ p, match p with Name _ => eq_refl | FloatNaN _ => eq_refl end).

(** The objects the rows of the column [product_name] give when a group
    is iterated. *)
Definition products (product_name : list cell) : list product :=
  imap (λ j c, if negb (object_dtype product_name) && bool_decide (c = NaN)
               then FloatNaN j else Name c) product_name.

(** [frozenset(x)] for the group of [key] *)
Definition group_products (key : string) (slug product_name : list cell) : gset product :=
  list_to_set (filter (λ p, p.1 = Str key) (zip slug (products product_name))).*2.

(** A row of [df_sim_2], indexed by its slug. Without a phone column the
    field [row_phone] is never read. *)
Record row := mkRow {
  row_sid : string;
  row_email : cell;
  row_phone : cell;
  row_product_name : gset product
}.

Definition group_rows (df : DataFrame) : result (list row) :=
  if has_column "phone" df then
    do email <- getitem df "email";
    do slug <- getitem df "slug";
    do phone <- getitem df "phone";
    do product_name <- getitem df "product_name";
    Ok ((λ key, mkRow key (agg_first email (group_values key slug email))
                      (agg_first phone (group_values key slug phone))
                      (group_products key slug product_name))
          <$> group_keys slug)
  else
    do email <- getitem df "email";
    do slug <- getitem df "slug";
    do product_name <- getitem df "product_name";
    Ok ((λ key, mkRow key (agg_first email (group_values key slug email)) NaN
                      (group_products key slug product_name))
          <$> group_keys slug).

(** The [DisjointSet] of the [disjoint_set] package, by what its interface
    shows: each element with the canonical element [find] returns for it,
    in the order the elements were added. *)
Definition DisjointSet := list (string * string).

Fixpoint ds_lookup (ds : DisjointSet) (x : string) : option string :=
  match ds with
  | [] => None
  | (e, r) :: ds' => if decide (e = x) then Some r else ds_lookup ds' x
  end.

(** [ds.find(x)]; an element not seen before is added as its own class. *)
Definition ds_find (ds : DisjointSet) (x : string) : DisjointSet * string :=
  match ds_lookup ds x with
  | Some r => (ds, r)
  | None => (ds ++ [(x, x)], x)
  end.

(** [ds.union(x, y)]: the class of [x] joins the class of [y], whose
    canonical element stays. *)
Definition ds_union (ds : DisjointSet) (x y : string) : DisjointSet :=
  let '(ds1, parent_x) := ds_find ds x in
  let '(ds2, parent_y) := ds_find ds1 y in
  if decide (parent_x = parent_y) then ds2
  else (λ p, if decide (p.2 = parent_x) then (p.1, parent_y) else p) <$> ds2.

(** [ds.itersets()]: the classes, in the order of their first elements. *)
Definition ds_itersets (ds : DisjointSet) : list (list string) :=
  let roots := foldl (λ seen r, if bool_decide (r ∈ seen) then seen else seen ++ [r]) [] ds.*2 in
  (λ r, (filter (λ p, p.2 = r) ds).*1) <$> roots.

(** The local variables of the bucketing loop; [prod_set], [email] and
    [phone] are unbound until an iteration assigns them. *)
Record locals := mkLocals {
  prod_set : option (gset product);
  email : option cell;
  phone : option cell;
  product_ht : list (gset product * list string);
  email_ht : list (cell * list string);
  phone_ht : list (cell * list string)
}.

(** Reading a local variable *)
Definition read_local {A} (name : string) (v : option A) : result A :=
  match v with
  | Some x => Ok x
  | None => Raise (UnboundLocalError name)
  end.

(** [ht[key].append(sid)] on a [defaultdict(lambda: [])] *)
Fixpoint ht_append {K} `{EqDecision K} (key : K) (sid : string) (ht : list (K * list string))
  : list (K * list string) :=
  match ht with
  | [] => [(key, [sid])]
  | (k, sids) :: ht' =>
      if decide (k = key) then (k, sids ++ [sid]) :: ht'
      else (k, sids) :: ht_append key sid ht'
  end.

(** One iteration of [for sid in df_sim_2.index] of the bucketing loop.
    The product set of a group is a frozenset, which is never null. *)
Definition bucket_row (has_phone : bool) (r : row) (st : locals) : result locals :=
  let prod_set' := Some (row_product_name r) in
  let email' := if is_null (row_email r) then email st else Some (row_email r) in
  let phone' := if has_phone
                then (if is_null (row_phone r) then phone st else Some (row_phone r))
                else phone st in
  do phone_ht' <- (if has_phone
                   then do p <- read_local "phone" phone';
                        Ok (ht_append p (row_sid r) (phone_ht st))
                   else Ok (phone_ht st));
  do ps <- read_local "prod_set" prod_set';
  do e <- read_local "email" email';
  Ok (mkLocals prod_set' email' phone'
               (ht_append ps (row_sid r) (product_ht st))
               (ht_append e (row_sid r) (email_ht st))
               phone_ht').

(** [first_sid = ht[key][0]; for curr_sid in ht[key][1:]: ds.union(...)] *)
Definition union_bucket (bucket : list string) (ds : DisjointSet) : result DisjointSet :=
  do first_sid <- item bucket 0;
  Ok (foldl (λ ds curr_sid, ds_union ds first_sid curr_sid) ds (drop 1 bucket)).

Definition union_buckets {K} (ht : list (K * list string)) (ds : DisjointSet)
  : result DisjointSet :=
  for_each ht (λ kv ds, union_bucket kv.2 ds) ds.

(** [df_sim_2.loc[sid, 'company_id'] = comp_id] *)
Definition loc_set (sid : string) (v : cell) (company_id : list (string * cell))
  : list (string * cell) :=
  (λ p, if decide (p.1 = sid) then (p.1, v) else p) <$> company_id.

(** The loop over [ds.itersets()]; [uuid1 n] is what the [n]-th call of
    [str(uuid.uuid1())] returns. *)
Definition assign_company_ids (uuid1 : nat → string) (comps : list (list string))
    (company_id : list (string * cell)) : list (string * cell) :=
  (foldl (λ st comp,
            let comp_id := uuid1 st.1 in
            (S st.1, foldl (λ col sid, loc_set sid (Str comp_id) col) st.2 comp))
         (0, company_id) comps).2.

(** The bucketing loop of [gen_company_mapping]. *)
Definition bucket_rows (has_phone : bool) (df_sim_2 : list row) : result locals :=
  for_each df_sim_2 (bucket_row has_phone) (mkLocals None None None [] [] []).

(** [gen_company_mapping] up to the last union: the disjoint set. *)
Definition company_classes (has_phone : bool) (df_sim_2 : list row) : result DisjointSet :=
  let ds := foldl (λ ds sid, (ds_find ds sid).1) [] (row_sid <$> df_sim_2) in
  do st <- bucket_rows has_phone df_sim_2;
  do ds <- union_buckets (product_ht st) ds;
  do ds <- union_buckets (email_ht st) ds;
  if has_phone then union_buckets (phone_ht st) ds else Ok ds.

(** The mapping written to [path]: one line per slug, in index order, with
    its company id. *)
Definition gen_company_mapping (uuid1 : nat → string) (df : DataFrame)
  : result (list (string * cell)) :=
  do df_sim_2 <- group_rows df;
  do ds <- company_classes (has_column "phone" df) df_sim_2;
  let company_id := (λ r, (row_sid r, Int 0%Z)) <$> df_sim_2 in
  Ok (assign_company_ids uuid1 (ds_itersets ds) company_id).

(** ** Grouping the waves by slug (featurize.py, [main]) *)

(** [file.groupby('slug').agg('first').reset_index()]: one row per slug, in
    sorted slug order; the slug comes first, every other column keeps its
    place and holds the first value of the group that is not missing
    ([None] or NaN, by the dtype of the column, for a group without one). *)
Definition group_first (file : DataFrame) : result DataFrame :=
  do slug <- getitem file "slug";
  let keys := group_keys slug in
  Ok (mkDF (length keys)
        (("slug", Str <$> keys) ::
         ((λ kv : string * list cell,
             (kv.1, (λ key, agg_first kv.2 (group_values key slug kv.2)) <$> keys))
            <$> filter (λ kv, kv.1 ≠ "slug") (cols file)))).

(** ** The purge of illegal storefronts (featurize.py) *)

(** Two functions of utils.py raise exceptions the tagging steps above
    never see: the [assert] of [get_index_of_date] and the AttributeError
    of the [.str] accessor in [add_slug]. Their results are outcomes. *)
Inductive outcome (A : Type) :=
| Returns (a : A)
| Raises (e : exn)
| AssertionError
| AttributeError.
Arguments Returns {A} a.
Arguments Raises {A} e.
Arguments AssertionError {A}.
Arguments AttributeError {A}.

Definition outcome_bind {A B} (r : outcome A) (k : A → outcome B) : outcome B :=
  match r with
  | Returns a => k a
  | Raises e => Raises e
  | AssertionError => AssertionError
  | AttributeError => AttributeError
  end.

Notation "'run' x <- r ; k" := (outcome_bind r (fun x => k))
  (at level 10, x name, r at level 100, k at level 200,
   format "'[v' 'run'  x  <-  r ; '/' k ']'").

Definition of_result {A} (r : result A) : outcome A :=
  match r with
  | Ok a => Returns a
  | Raise e => Raises e
  end.

(** The loop of [get_index_of_date], with [idx] as it stands on entry;
    [None] is what a Python function returns when it falls off its end. *)
Fixpoint index_of_date (date : string) (filenames : list string) (idx : nat) : option nat :=
  match filenames with
  | [] => None
  | filename :: filenames' =>
      if contains date filename then Some idx
      else index_of_date date filenames' (idx + 1)
  end.

(** utils.py, [get_index_of_date] *)
Definition get_index_of_date (date : string) (filenames : list string)
  : outcome (option nat) :=
  if bool_decide (String.length date = 6) then Returns (index_of_date date filenames 0)
  else AssertionError.

(** [xs[i]] for what [get_index_of_date] returned: [None] is no index. *)
Definition item_at {A} (xs : list A) (i : option nat) : result A :=
  match i with
  | Some i => item xs i
  | None => Raise TypeError
  end.

(** [xs[i - 1]]: Python counts the index [-1] from the end of the list. *)
Definition item_before {A} (xs : list A) (i : option nat) : result A :=
  match i with
  | Some 0 => item xs (length xs - 1)
  | Some (S i') => item xs i'
  | None => Raise TypeError
  end.

(** featurize.py, [tag_illegal_storefronts]; [filenames] and [files] are
    the module-level lists. *)
Definition tag_illegal_storefronts (filenames : list string)
    (slugs_at_i slugs_up_to_i : list (gset cell)) (files : list DataFrame)
  : outcome (list DataFrame) :=
  let dates := (λ x, String.substring 0 6 x) <$> filenames in
  if bool_decide ("191221" ∉ dates) || bool_decide ("200112" ∉ dates) then Returns files
  else
    run index_191221 <- get_index_of_date "191221" filenames;
    run index_200112 <- get_index_of_date "200112" filenames;
    of_result
      (do at_191221 <- item_at slugs_at_i index_191221;
       do at_200112 <- item_at slugs_at_i index_200112;
       let in_191221_not_200112 := at_191221 ∖ at_200112 in
       do before_191221 <- item_before slugs_up_to_i index_191221;
       do at_200112 <- item_at slugs_at_i index_200112;
       let before_191221_not_200112 := before_191221 ∖ at_200112 in
       do at_191221 <- item_at slugs_at_i index_191221;
       let before_191221_not_200112_or_191221 := before_191221_not_200112 ∖ at_191221 in
       for_each (range 0 (length files))
         (fun i files =>
            do filename <- item filenames i;
            if contains "200112" filename then Ok files
            else
              do file <- item files i;
              do slug <- getitem file "slug";
              do files <- set_file_column files i "illegal_1912"
                            (apply_int (isin slug in_191221_not_200112));
              do file <- item files i;
              do slug <- getitem file "slug";
              set_file_column files i "illegal_other"
                (apply_int (isin slug before_191221_not_200112_or_191221)))
         files).

(** ** Changes on reappearance (utils.py, featurize.py) *)

(** [df[mask]] with a boolean series of the frame: the rows where the mask
    holds. *)
Definition filter_rows (df : DataFrame) (mask : list bool) : DataFrame :=
  mkDF (length (filter (λ b, b = true) mask))
       ((λ kv : string * list cell, (kv.1, select_mask kv.2 mask)) <$> cols df).

(** The loop [for i in reversed(range(0, max_wave + 1))] of
    [get_last_appearance_field_value], entered at [i]: it leaves [i] at the
    wave where the [break] happened, at 0 when it never did. *)
Fixpoint last_appearance_wave (slug : cell) (slugs_at_i : list (gset cell)) (i : nat)
  : result nat :=
  do at_i <- item slugs_at_i i;
  if bool_decide (slug ∈ at_i) then Ok i
  else match i with
       | 0 => Ok 0
       | S i' => last_appearance_wave slug slugs_at_i i'
       end.

(** utils.py, [get_last_appearance_field_value]; with [max_wave < 0] the
    loop has no iteration and [i] is unbound. *)
Definition get_last_appearance_field_value (slug : cell) (max_wave : Z) (field : string)
    (slugs_at_i : list (gset cell)) (files : list DataFrame) : result cell :=
  do i <- (if (max_wave <? 0)%Z then Raise (UnboundLocalError "i")
           else last_appearance_wave slug slugs_at_i (Z.to_nat max_wave));
  do file <- item files i;
  do slugs <- getitem file "slug";
  let last_slug_subset := filter_rows file (series_eq slugs slug) in
  do values <- getitem last_slug_subset field;
  item values 0.

(** The loop over the rows of [curr_file] in [tag_reappear_field_changes]:
    the list [changed_field]. *)
Definition reappear_changed_field (i : nat) (field : string) (slugs_at_i : list (gset cell))
    (files : list DataFrame) (curr_file : DataFrame)
    (reappeared curr_field curr_slug_column old_changed_column : list cell)
  : result (list cell) :=
  for_each (range 0 (nrows curr_file))
    (fun j changed_field =>
       do r <- item reappeared j;
       if bool_decide (r = Int 1%Z) then
         do slug <- item curr_slug_column j;
         do prev_field_value <-
           get_last_appearance_field_value slug (Z.of_nat i - 2) field slugs_at_i files;
         do curr_field_value <- item curr_field j;
         Ok (append_tag_conditional changed_field (cell_ne prev_field_value curr_field_value))
       else
         do old <- item old_changed_column j;
         Ok (changed_field ++ [old]))
    [].

(** The loop [for field in TAG_CHANGE_FIELDS] on wave [i]; [break] leaves
    the loop at the first field some wave up to [i] lacks. *)
Fixpoint tag_reappear_fields (fields : list string) (i : nat) (slugs_at_i : list (gset cell))
    (files : list DataFrame) : result (list DataFrame) :=
  match fields with
  | [] => Ok files
  | field :: fields' =>
      if negb (forallb (has_column field) (take (i + 1) files)) then Ok files
      else
        do curr_file <- item files i;
        do reappeared <- getitem curr_file "reappeared";
        do curr_field <- getitem curr_file field;
        do curr_slug_column <- getitem curr_file "slug";
        do old_changed_column <- getitem curr_file ("changed_" +:+ field);
        do changed_field <-
          reappear_changed_field i field slugs_at_i files curr_file
            reappeared curr_field curr_slug_column old_changed_column;
        do files <- set_file_column files i ("changed_" +:+ field) changed_field;
        tag_reappear_fields fields' i slugs_at_i files
  end.

(** featurize.py, [tag_reappear_field_changes] *)
Definition tag_reappear_field_changes (slugs_at_i : list (gset cell))
    (files : list DataFrame) : result (list DataFrame) :=
  for_each (range 2 (length files))
    (fun i files =>
       do curr_file <- item files i;
       tag_reappear_fields TAG_CHANGE_FIELDS i slugs_at_i files)
    files.

(** ** Cleaning the waves (utils.py) *)

(** [df[series.str.contains(pat)]]: the mask of a string test. The NaN the
    test gives for a cell that is no string makes the indexing raise. *)
Definition str_mask (test : string → bool) (s : list cell) : result (list bool) :=
  map_result (λ c, match c with Str x => Ok (test x) | _ => Raise ValueError end) s.

(** [x.split(sep)] for a separator of one character *)
Fixpoint split (sep : ascii) (x : string) : list string :=
  match x with
  | EmptyString => [EmptyString]
  | String c x' =>
      if decide (c = sep) then EmptyString :: split sep x'
      else match split sep x' with
           | part :: parts => String c part :: parts
           | [] => [String c EmptyString]
           end
  end.

(** [lambda x: x.split('/')[-1]]; a cell that is no string has no [split]. *)
Definition last_part (c : cell) : outcome cell :=
  match c with
  | Str x => let parts := split "/" x in
             of_result (do part <- item parts (length parts - 1); Ok (Str part))
  | _ => AttributeError
  end.

Fixpoint map_outcome {A B} (f : A → outcome B) (xs : list A) : outcome (list B) :=
  match xs with
  | [] => Returns []
  | x :: xs' => run y <- f x; run ys <- map_outcome f xs'; Returns (y :: ys)
  end.

(** utils.py, [add_slug]. The pattern ['.*/.*'] is found in a string
    exactly when the string holds a ['/']. *)
Definition add_slug (df : DataFrame) : outcome DataFrame :=
  run url0 <- of_result (getitem df "url");
  let df := filter_rows df (notnull url0) in
  run url <- of_result (getitem df "url");
  let df := filter_rows df (is_str <$> url) in
  run url <- of_result (getitem df "url");
  if object_dtype url0 then
    run mask <- of_result (str_mask (contains "/") url);
    let df := filter_rows df mask in
    run url <- of_result (getitem df "url");
    run slug <- map_outcome last_part url;
    Returns (setitem df "slug" slug)
  else AttributeError.

(** [[0-9]] *)
Definition is_digit (c : ascii) : bool :=
  (48 <=? nat_of_ascii c) && (nat_of_ascii c <=? 57).

(** [series.astype(str)] on one cell: [str_of_number] is Python's [str] on
    the numbers of the column, digits for an integer column and the float
    notation for a numeric column with missing values. *)
Definition astype_str (str_of_number : Z → string) (c : cell) : string :=
  match c with
  | Str x => x
  | Int z => str_of_number z
  | NaN => "nan"
  | PyNone => "None"
  end.

(** The pattern ['^([0-9]|\().*'] is found in a string exactly when the
    string starts with a digit or an opening parenthesis. *)
Definition starts_like_phone (x : string) : bool :=
  match x with
  | String c _ => is_digit c || bool_decide (c = "("%char)
  | EmptyString => false
  end.

(** [str.replace("[^0-9]", "")], the pattern read as a regular expression
    (the default of the pandas of the time). *)
Fixpoint digits_of (x : string) : string :=
  match x with
  | EmptyString => EmptyString
  | String c x' => if is_digit c then String c (digits_of x') else digits_of x'
  end.

(** utils.py, [country_code] *)
Definition country_code (n : string) : result string :=
  match n with
  | EmptyString => Raise IndexError
  | String c _ => if bool_decide (c ≠ "1"%char) then Ok ("1" +:+ n) else Ok n
  end.

(** What a pattern between [^] and [$] has to match: the string, without
    its last character when that is a newline; [.] matches no newline. *)
Fixpoint chomp (x : string) : string :=
  match x with
  | EmptyString => EmptyString
  | String c x' =>
      match x' with
      | EmptyString => if bool_decide (c = "010"%char) then EmptyString else x
      | String _ _ => String c (chomp x')
      end
  end.

Fixpoint no_newline (x : string) : bool :=
  match x with
  | EmptyString => true
  | String c x' => negb (bool_decide (c = "010"%char)) && no_newline x'
  end.

(** ['^.{11}$'] *)
Definition eleven_chars (x : string) : bool :=
  no_newline (chomp x) && bool_decide (String.length (chomp x) = 11).

(** ['^((?!000000).)*$'] *)
Definition no_six_zeros (x : string) : bool :=
  no_newline (chomp x) && negb (contains "000000" (chomp x)).

(** utils.py, [clean_phone]. A cell that is no string gives NaN under the
    [.str] methods, has no [len] and cannot be indexed. *)
Definition clean_phone (str_of_number : Z → string) (df : DataFrame) : result DataFrame :=
  do phone <- getitem df "phone";
  let df_pclean := filter_rows df (notnull phone) in
  do phone <- getitem df_pclean "phone";
  let df_pclean :=
    setitem df_pclean "phone" ((λ c, Str (astype_str str_of_number c)) <$> phone) in
  do phone <- getitem df_pclean "phone";
  do mask <- str_mask starts_like_phone phone;
  let df_pclean := filter_rows df_pclean mask in
  do phone <- getitem df_pclean "phone";
  let df_pclean :=
    setitem df_pclean "stdrd_phone"
      ((λ c, match c with Str x => Str (digits_of x) | _ => NaN end) <$> phone) in
  do stdrd_phone <- getitem df_pclean "stdrd_phone";
  do lens <- map_result (λ c, match c with
                              | Str x => Ok (String.length x)
                              | _ => Raise TypeError
                              end) stdrd_phone;
  let df_pclean := filter_rows df_pclean ((λ n, bool_decide (0 < n)) <$> lens) in
  do stdrd_phone <- getitem df_pclean "stdrd_phone";
  do coded <- map_result (λ c, match c with
                               | Str n => do m <- country_code n; Ok (Str m)
                               | _ => Raise TypeError
                               end) stdrd_phone;
  let df_pclean := setitem df_pclean "stdrd_phone" coded in
  do stdrd_phone <- getitem df_pclean "stdrd_phone";
  let df_pclean :=
    setitem df_pclean "stdrd_phone"
      ((λ c, match c with Str x => Str (String.substring 0 11 x) | _ => NaN end)
         <$> stdrd_phone) in
  do stdrd_phone <- getitem df_pclean "stdrd_phone";
  do mask <- str_mask eleven_chars stdrd_phone;
  let df_pclean := filter_rows df_pclean mask in
  do stdrd_phone <- getitem df_pclean "stdrd_phone";
  do mask <- str_mask no_six_zeros stdrd_phone;
  Ok (filter_rows df_pclean mask).

(** ** Dispensary or delivery (featurize.py) *)

(** [re.match] of a pattern whose only special character is [.], which
    matches every character but a newline. *)
Fixpoint wild_prefix (pat x : string) : bool :=
  match pat with
  | EmptyString => true
  | String p pat' =>
      match x with
      | EmptyString => false
      | String c x' =>
          (if bool_decide (p = "."%char) then negb (bool_decide (c = "010"%char))
           else bool_decide (c = p)) && wild_prefix pat' x'
      end
  end.

(** [re.search] of such a pattern *)
Fixpoint wild_search (pat x : string) : bool :=
  wild_prefix pat x ||
  match x with
  | EmptyString => false
  | String _ x' => wild_search pat x'
  end.

(** [series.str.contains(pat).apply(int)]: the accessor raises on a numeric
    column, and [int] on the NaN the test gives a cell that is no string. *)
Definition contains_int (pat : string) (s : list cell) : outcome (list cell) :=
  if object_dtype s then
    of_result (map_result (λ c, match c with
                                | Str x => Ok (int_of_bool (wild_search pat x))
                                | _ => Raise ValueError
                                end) s)
  else AttributeError.

Fixpoint for_each_outcome {S A} (xs : list A) (body : A → S → outcome S) (s : S) : outcome S :=
  match xs with
  | [] => Returns s
  | x :: xs' => run s' <- body x s; for_each_outcome xs' body s'
  end.

(** featurize.py, [tag_dispensary_or_delivery] *)
Definition tag_dispensary_or_delivery (files : list DataFrame) : outcome (list DataFrame) :=
  for_each_outcome (range 0 (length files))
    (fun i files =>
       run file <- of_result (item files i);
       run url <- of_result (getitem file "url");
       run is_dispensary <- contains_int "weedmaps.com/dispensaries/" url;
       run files <- of_result (set_file_column files i "is_dispensary" is_dispensary);
       run file <- of_result (item files i);
       run url <- of_result (getitem file "url");
       run is_delivery <- contains_int "weedmaps.com/deliveries/" url;
       of_result (set_file_column files i "is_delivery" is_delivery))
    files.

(** ** Notions used in the statements *)

(** The company id the mapping gives to a slug. *)
Fixpoint company_of (mapping : list (string * cell)) (sid : string) : option cell :=
  match mapping with
  | [] => None
  | (k, c) :: mapping' => if decide (k = sid) then Some c else company_of mapping' sid
  end.

(** [ht[key]], the bucket of a key, empty for a key the table does not hold. *)
Fixpoint ht_get {K} `{EqDecision K} (key : K) (ht : list (K * list string)) : list string :=
  match ht with
  | [] => []
  | (k, sids) :: ht' => if decide (k = key) then sids else ht_get key ht'
  end.

(** Two elements of the disjoint set with the same canonical element. *)
Definition ds_same (ds : DisjointSet) (a b : string) : Prop :=
  ∃ r, ds_lookup ds a = Some r ∧ ds_lookup ds b = Some r.

(** The number of the last [uuid1] call whose class holds [sid], when the
    classes [comps] are numbered from [n]. *)
Fixpoint last_class (n : nat) (comps : list (list string)) (sid : string) : option nat :=
  match comps with
  | [] => None
  | comp :: comps' =>
      match last_class (S n) comps' sid with
      | Some k => Some k
      | None => if bool_decide (sid ∈ comp) then Some n else None
      end
  end.

(** The state of [files] while a loop [for i in range(a, ...)] that writes
    the column [name] of wave [i] has reached [b]: waves [a..b-1] carry the
    column [col k], the others are as they were. *)
Definition tagged_upto (files : list DataFrame) (name : string) (col : nat → list cell)
    (a b : nat) (fs : list DataFrame) : Prop :=
  ∀ k, fs !! k =
       (λ f, if bool_decide (a ≤ k < b) then setitem f name (col k) else f) <$> files !! k.

(** The column that [tag_reappear] writes on wave [i]. *)
Definition reappeared_column (files : list DataFrame) (i : nat) : list cell :=
  apply_int (series_and (isin (slug_column files i) (slugs_up_to files (i - 2)))
                        (series_not (isin (slug_column files i) (slugs_at files (i - 1))))).

(** The column that [tag_continued] writes on wave [i]. *)
Definition continued_column (files : list DataFrame) (i : nat) : list cell :=
  apply_int (isin (slug_column files i) (slugs_at files (i - 1))).

(** Every column of a frame has as many entries as the frame has rows. *)
Definition well_formed (df : DataFrame) : Prop :=
  Forall (λ kv, length kv.2 = nrows df) (cols df).

(** Two frames with the same number of rows and the same columns under the
    given names. *)
Definition same_on (names : list string) (f g : DataFrame) : Prop :=
  nrows f = nrows g ∧ ∀ name, name ∈ names → lookup_col name (cols f) = lookup_col name (cols g).

(** The columns the lifecycle steps read. *)
Definition tracked : list string := "slug" :: "continued" :: TAG_CHANGE_FIELDS.

(** [main], from [tag_continued()] to [tag_reappear(slugs_up_to_i)]. *)
Definition lifecycle_tags (files : list DataFrame) : result (list DataFrame) :=
  do files <- tag_continued files;
  do files <- tag_field_changes files;
  do files <- tag_disappear files;
  do slugs_up_to_i <- get_slugs_up_to_i_array files;
  tag_reappear slugs_up_to_i files.

(** The column [name] of a frame, empty when the frame has none. *)
Definition column_of (df : DataFrame) (name : string) : list cell :=
  default [] (lookup_col name (cols df)).

(** What the two inner loops of [tag_field_changes] compute, in closed
    form: the dict after its last insertion, and the list [changed_field]
    row by row. *)
Definition prev_values (prev_slug_column prev_field : list cell) : gmap cell cell :=
  list_to_map (reverse (zip prev_slug_column prev_field)).

Definition changed_values (d : gmap cell cell) (curr_slug_column curr_field continued : list cell)
  : list cell :=
  zip_with (λ sv cont, int_of_bool (bool_decide (cont = Int 1%Z) && value_ne (d !! sv.1) sv.2))
           (zip curr_slug_column curr_field) continued.

Definition changed_column (prev_file curr_file : DataFrame) (field : string) : list cell :=
  changed_values (prev_values (column_of prev_file "slug") (column_of prev_file field))
                 (column_of curr_file "slug") (column_of curr_file field)
                 (column_of curr_file "continued").

(** What the field loop of [tag_field_changes] leaves of a wave [curr0]
    whose predecessor is [prev]: the rows and every column not named
    [changed_<field>] as they were; [changed_<field>] written for the
    fields taken before the first one missing from a schema; the others
    untouched. *)
Definition field_changes_post (prev curr0 curr' : DataFrame) : Prop :=
  nrows curr' = nrows curr0 ∧
  (∀ name, (∀ g, g ∈ TAG_CHANGE_FIELDS → name ≠ "changed_" +:+ g) →
           lookup_col name (cols curr') = lookup_col name (cols curr0)) ∧
  (∀ n field, TAG_CHANGE_FIELDS !! n = Some field →
     (∀ m g, m ≤ n → TAG_CHANGE_FIELDS !! m = Some g →
             has_column g prev = true ∧ has_column g curr0 = true) →
     lookup_col ("changed_" +:+ field) (cols curr') = Some (changed_column prev curr0 field)) ∧
  (∀ n field, TAG_CHANGE_FIELDS !! n = Some field →
     (∃ m g, m ≤ n ∧ TAG_CHANGE_FIELDS !! m = Some g ∧
             (has_column g prev = false ∨ has_column g curr0 = false)) →
     lookup_col ("changed_" +:+ field) (cols curr') =
     lookup_col ("changed_" +:+ field) (cols curr0)).

(** A wave holds one row per slug (what [groupby('slug')] in [main]
    leaves). *)
Definition one_row_per_slug (df : DataFrame) : Prop := NoDup (column_of df "slug").

(** The column that [tag_disappear] writes on wave [i]. *)
Definition disappeared_column (files : list DataFrame) (i : nat) : list cell :=
  apply_int (series_not (isin (slug_column files i) (slugs_at files (i + 1)))).

(** Two lists of waves of the same length that agree on the column [name]
    of every wave. *)
Definition same_column (name : string) (fs fs' : list DataFrame) : Prop :=
  length fs = length fs' ∧ ∀ k, column_at fs k name = column_at fs' k name.

(** The columns the license steps read. *)
Definition license_columns : list string := ["license"; "status"; "issue_date"; "access_date"].

(** A date column after [.apply(convert_str_to_datetime_maker(formt))],
    for a column on which the conversion does not raise. *)
Definition parsed_dates (formt : list directive) (col : list cell) : list (option datetime) :=
  (λ c, match convert_str_to_datetime_maker formt c with
        | Ok d => d
        | Raise _ => None
        end) <$> col.

(** The column [tag_license_category] writes for a status word. *)
Definition category_column (file : DataFrame) (license_status : string) : list cell :=
  apply_int
    (series_and
       (series_and
          (series_and (notnull (column_of file "license")) (notnull (column_of file "issue_date")))
          (compare_rows datetime_le
             (parsed_dates fmt_mdY (column_of file "issue_date"))
             (parsed_dates fmt_Ymd (column_of file "access_date"))))
       (str_contains (column_of file "status") license_status)).

Definition possible_license_column (file : DataFrame) : list cell :=
  apply_int (series_and (notnull (column_of file "license")) (isna (column_of file "issue_date"))).

Definition future_license_column (file : DataFrame) : list cell :=
  apply_int
    (series_and
       (series_and (notnull (column_of file "license")) (notnull (column_of file "issue_date")))
       (compare_rows (λ p q, negb (datetime_le p q))
          (parsed_dates fmt_mdY (column_of file "issue_date"))
          (parsed_dates fmt_Ymd (column_of file "access_date")))).

(** A wave after the registry join: the columns the license step reads are
    there, and every date is missing or parses in its format. *)
Definition license_ready (file : DataFrame) : Prop :=
  well_formed file ∧
  has_column "license" file = true ∧ has_column "status" file = true ∧
  has_column "issue_date" file = true ∧ has_column "access_date" file = true ∧
  Forall (λ c, ∃ d, convert_str_to_datetime_maker fmt_mdY c = Ok d) (column_of file "issue_date") ∧
  Forall (λ c, ∃ d, convert_str_to_datetime_maker fmt_Ymd c = Ok d) (column_of file "access_date").

(** The two date columns of the wave come out of the conversion with the
    same dtype, so that the comparisons of the license step do not raise.
    This fails for a wave with rows in which every issue date is missing
    and some access date is not (or the other way round). *)
Definition dates_comparable (file : DataFrame) : Prop :=
  float64_dates (parsed_dates fmt_mdY (column_of file "issue_date")) =
  float64_dates (parsed_dates fmt_Ymd (column_of file "access_date")).

#[global] Instance dates_comparable_dec file : Decision (dates_comparable file).
Proof. unfold dates_comparable. apply _. Defined.

(** What [tag_license_status] does to one wave. *)
Definition tag_license_wave (file : DataFrame) : result DataFrame :=
  if has_column "license" file then tag_license_status_file file else Ok file.

(** One iteration of the loop over the status words, on a wave whose
    license columns are those of [file0]. *)
Definition category_step (file0 file : DataFrame) (license_status : string) : DataFrame :=
  if bool_decide (Str license_status ∈ column_of file0 "status")
  then setitem file (license_status +:+ "_license") (category_column file0 license_status)
  else file.

(** The tags of wave [k]: the columns of the tagged wave that the frame it
    was read from does not have. *)
Definition file_tags (files full_files : list DataFrame) (k : nat) : list string :=
  match files !! k, full_files !! k with
  | Some f, Some full => get_column_difference f full
  | _, _ => []
  end.

(** The state of [files] while a loop that rewrites wave [i] by [F] at its
    [i]-th iteration has reached [i]. *)
Definition wave_loop_inv (F : DataFrame → result DataFrame) (files : list DataFrame)
    (i : nat) (fs : list DataFrame) : Prop :=
  length fs = length files ∧
  (∀ k, i ≤ k → fs !! k = files !! k) ∧
  (∀ k f, k < i → files !! k = Some f → ∃ f', fs !! k = Some f' ∧ F f = Ok f').

(** The order of the slugs in an index: Python's order on [str]. *)
Definition slug_lt (a b : string) : Prop := String.compare a b = Lt.

(** Every canonical element of the disjoint set is an element of it, and
    its own canonical element. *)
Definition ds_rooted (ds : DisjointSet) : Prop :=
  ∀ a r, ds_lookup ds a = Some r → ds_lookup ds r = Some r.

(** What a local variable of the bucketing loop holds after each row: the
    value of the row, or, where the row has none, what the variable kept
    from the rows before it. *)
Fixpoint carried (cur : option cell) (values : list cell) : list (option cell) :=
  match values with
  | [] => []
  | v :: values' =>
      let cur' := if is_null v then cur else Some v in
      cur' :: carried cur' values'
  end.

(** Two slugs of the index filed in a common bucket: they have the same
    product-name set, or the loop held the same email at both, or, with a
    phone column, the same phone. *)
Definition linked (has_phone : bool) (rows : list row) (a b : string) : Prop :=
  ∃ i j ri rj,
    rows !! i = Some ri ∧ rows !! j = Some rj ∧ row_sid ri = a ∧ row_sid rj = b ∧
    (row_product_name ri = row_product_name rj ∨
     carried None (row_email <$> rows) !! i = carried None (row_email <$> rows) !! j ∨
     (has_phone = true ∧
      carried None (row_phone <$> rows) !! i = carried None (row_phone <$> rows) !! j)).

(** The slugs a wave shows with active_license = 1; none for a wave without
    license column. *)
Definition active_of (x : DataFrame) : gset cell :=
  if has_column "license" x
  then to_set (select_mask (column_of x "slug")
                 ((λ c, bool_decide (c = Int 1%Z)) <$> column_of x "active_license"))
  else ∅.

Definition active_at (files : list DataFrame) (k : nat) : gset cell :=
  from_option active_of ∅ (files !! k).

(** The slugs some wave after wave [i] shows with an active license. *)
Definition active_after (files : list DataFrame) (i : nat) : gset cell :=
  ⋃ (active_at files <$> seq (S i) (length files - S i)).

Definition assumed_license_column (files : list DataFrame) (i : nat) : list cell :=
  apply_int (series_and (isin (slug_column files i) (active_after files i))
                        (series_not (isin (slug_column files i) (active_at files i)))).

(** Wave [k] has a license column and a record of [slug] tagged
    active_license = 1. *)
Definition shows_active (files : list DataFrame) (k : nat) (slug : cell) : Prop :=
  ∃ f j, files !! k = Some f ∧ has_column "license" f = true ∧
         column_of f "slug" !! j = Some slug ∧
         column_of f "active_license" !! j = Some (Int 1%Z).

(** The columns [tag_illegal_storefronts] writes on a wave, for the waves
    [i1] of 19-12-21 and [i2] of 20-01-12 and the prefix union [before]. *)
Definition illegal_1912_column (files : list DataFrame) (i1 i2 i : nat) : list cell :=
  apply_int (isin (slug_column files i) (slugs_at files i1 ∖ slugs_at files i2)).

Definition illegal_other_column (files : list DataFrame) (before : gset cell) (i1 i2 i : nat)
  : list cell :=
  apply_int (isin (slug_column files i) ((before ∖ slugs_at files i2) ∖ slugs_at files i1)).

(** The wave whose prefix union [slugs_up_to_i[index_191221 - 1]] reads:
    the wave before [i1], and the last wave when [i1] is the first. *)
Definition wave_before (files : list DataFrame) (i1 : nat) : nat :=
  match i1 with
  | 0 => length files - 1
  | S i' => i'
  end.

(** The rows [add_slug] keeps: those whose url is a string with a ['/']. *)
Definition url_ok (c : cell) : bool :=
  match c with Str x => contains "/" x | _ => false end.

(** A string of digits *)
Fixpoint all_digits (x : string) : bool :=
  match x with
  | EmptyString => true
  | String c x' => is_digit c && all_digits x'
  end.

(** [1##########]: eleven digits, the first a 1, without six zeros in a
    row. *)
Definition standard_phone (x : string) : Prop :=
  String.length x = 11 ∧ all_digits x = true ∧ String.get 0 x = Some "1"%char ∧
  contains "000000" x = false.

(** A pattern without the special character [.] *)
Fixpoint literal (pat : string) : Prop :=
  match pat with
  | EmptyString => True
  | String p pat' => p ≠ "."%char ∧ literal pat'
  end.

(** A frame that differs from [f0] at most in the columns [changed_<g>]
    of the fields [g] of [done]. *)
Definition agree_except (done : list string) (f0 f : DataFrame) : Prop :=
  nrows f = nrows f0 ∧
  ∀ name, (∀ g, g ∈ done → name ≠ "changed_" +:+ g) →
          lookup_col name (cols f) = lookup_col name (cols f0).

(** The field is a column of every wave up to wave [i]. *)
Definition in_all_waves (files : list DataFrame) (i : nat) (field : string) : bool :=
  forallb (has_column field) (take (i + 1) files).

(** The fields [tag_reappear_field_changes] takes on wave [i]: those of
    TAG_CHANGE_FIELDS before the first that some wave up to [i] lacks. *)
Definition reappear_taken (files : list DataFrame) (i : nat) (field : string) : Prop :=
  ∃ n, TAG_CHANGE_FIELDS !! n = Some field ∧
       ∀ m g, m ≤ n → TAG_CHANGE_FIELDS !! m = Some g → in_all_waves files i g = true.

(** One entry of [changed_field]. *)
Definition reappear_changed_row (last : cell → result cell) (r slug curr old : cell) : cell :=
  if bool_decide (r = Int 1%Z)
  then match last slug with
       | Ok prev => int_of_bool (cell_ne prev curr)
       | Raise _ => NaN
       end
  else old.

Definition reappear_changed_values (last : cell → result cell)
    (reappeared slugs vals old : list cell) : list cell :=
  zip_with (λ rs vo, reappear_changed_row last rs.1 rs.2 vo.1 vo.2)
           (zip reappeared slugs) (zip vals old).

(** The column [changed_<field>] of wave [i] after
    [tag_reappear_field_changes]. *)
Definition reappear_changed_column (slugs_at_i : list (gset cell)) (files : list DataFrame)
    (i : nat) (curr : DataFrame) (field : string) : list cell :=
  reappear_changed_values
    (λ slug, get_last_appearance_field_value slug (Z.of_nat i - 2) field slugs_at_i files)
    (column_of curr "reappeared") (column_of curr "slug") (column_of curr field)
    (column_of curr ("changed_" +:+ field)).

(** ** Example waves *)

(** A wave of one record whose status is "active, pending renewal", issued
    before the day the wave was read. *)
Definition renewal_wave : DataFrame :=
  mkDF 1 [("slug", [Str "green-door"]);
          ("license", [Str "c10-0000001-lic"]);
          ("status", [Str "active, pending renewal"]);
          ("issue_date", [Str "01/01/2019"]);
          ("access_date", [Str "2020-01-12"])].

(** A wave of one active record whose issue date names a thirteenth month. *)
Definition bad_date_wave : DataFrame :=
  mkDF 1 [("slug", [Str "green-door"]);
          ("license", [Str "c10-0000001-lic"]);
          ("status", [Str "active"]);
          ("issue_date", [Str "13/01/2019"]);
          ("access_date", [Str "2020-01-12"])].

(** A wave of two records, one active, one expired with no issue date. *)
Definition license_wave : DataFrame :=
  mkDF 2 [("slug", [Str "green-door"; Str "blue-gate"]);
          ("license", [Str "c10-0000001-lic"; Str "c10-0000002-lic"]);
          ("status", [Str "active"; Str "expired"]);
          ("issue_date", [Str "01/01/2019"; NaN]);
          ("access_date", [Str "2020-01-12"; Str "2020-01-12"])].

(** A wave of four storefronts with four different product lists; the
    second and the fourth record no email. *)
Definition four_storefronts : DataFrame :=
  mkDF 4 [("slug", [Str "a"; Str "b"; Str "c"; Str "d"]);
          ("email", [Str "a@x.example"; NaN; Str "c@y.example"; NaN]);
          ("product_name", [Str "og kush"; Str "sour diesel"; Str "blue dream"; Str "gelato"])].

(** A wave in which the first two storefronts offer the same two products
    and the last two record the same email. *)
Definition shared_storefronts : DataFrame :=
  mkDF 6 [("slug", [Str "a"; Str "a"; Str "b"; Str "b"; Str "c"; Str "d"]);
          ("email", [Str "a@x.example"; Str "a@x.example"; Str "b@y.example";
                     Str "b@y.example"; Str "c@z.example"; Str "c@z.example"]);
          ("product_name", [Str "og kush"; Str "gelato"; Str "gelato"; Str "og kush";
                            Str "blue dream"; Str "haze"])].

(** A wave in which no record names a product: [read_csv] makes a float64
    column of the field. *)
Definition unnamed_products : DataFrame :=
  mkDF 3 [("slug", [Str "a"; Str "b"; Str "c"]);
          ("email", [Str "a@x.example"; Str "b@y.example"; Str "c@z.example"]);
          ("product_name", [NaN; NaN; NaN])].

(** The same wave without the first storefront: the first slug in sorted
    order records no email. *)
Definition no_first_email : DataFrame :=
  mkDF 3 [("slug", [Str "b"; Str "c"; Str "d"]);
          ("email", [NaN; Str "c@y.example"; NaN]);
          ("product_name", [Str "sour diesel"; Str "blue dream"; Str "gelato"])].

(** Two tagged waves as [main] leaves them before reconciliation, and the
    frame both were read from: the first wave carries [disappeared], the
    second, the last of the series, [continued] and [changed_email]. *)
Definition panel_frame : DataFrame :=
  mkDF 1 [("url", [Str "weedmaps.com/dispensaries/green-door"]); ("slug", [Str "green-door"]);
          ("email", [Str "info@green-door.example"])].

Definition first_tagged : DataFrame :=
  mkDF 1 [("slug", [Str "green-door"]);
          ("url", [Str "weedmaps.com/dispensaries/green-door"]);
          ("email", [Str "info@green-door.example"]);
          ("disappeared", [Int 0%Z])].

Definition last_tagged : DataFrame :=
  mkDF 1 [("slug", [Str "green-door"]);
          ("url", [Str "weedmaps.com/dispensaries/green-door"]);
          ("email", [Str "info@green-door.example"]);
          ("continued", [Int 1%Z]);
          ("changed_email", [Int 0%Z])].

(** Three waves after grouping: the storefront "green-door" is listed in
    the first, gone from the second, back in the third with a new address;
    "blue-gate" records no email. *)
Definition example_waves : list DataFrame :=
  [ mkDF 2 [("slug", [Str "blue-gate"; Str "green-door"]);
            ("address", [Str "1 main st"; Str "2 oak ave"]);
            ("dispensary_name", [Str "blue gate"; Str "green door"]);
            ("email", [PyNone; Str "info@green-door.example"])];
    mkDF 1 [("slug", [Str "blue-gate"]);
            ("address", [Str "9 main st"]);
            ("dispensary_name", [Str "blue gate"]);
            ("email", [PyNone])];
    mkDF 2 [("slug", [Str "green-door"; Str "red-barn"]);
            ("address", [Str "5 elm rd"; Str "7 pine ct"]);
            ("dispensary_name", [Str "green door"; Str "red barn"]);
            ("email", [Str "info@green-door.example"; PyNone])] ].

(** Two waves after grouping in which no record fills the email field:
    [read_csv] makes a float64 column of such a field, and grouping keeps
    its NaN. Nothing changes between the two waves. *)
Definition unfilled_email_waves : list DataFrame :=
  [ mkDF 1 [("slug", [Str "green-door"]);
            ("address", [Str "2 oak ave"]);
            ("dispensary_name", [Str "green door"]);
            ("email", [NaN])];
    mkDF 1 [("slug", [Str "green-door"]);
            ("address", [Str "2 oak ave"]);
            ("dispensary_name", [Str "green door"]);
            ("email", [NaN])] ].

(** A wave of two records whose licenses matched no entry of the registry:
    the join left them without status and issue date. *)
Definition undated_wave : DataFrame :=
  mkDF 2 [("slug", [Str "green-door"; Str "blue-gate"]);
          ("license", [Str "c10-0000001-lic"; Str "c10-0000002-lic"]);
          ("status", [NaN; NaN]);
          ("issue_date", [NaN; NaN]);
          ("access_date", [Str "2020-01-12"; Str "2020-01-12"])].

(** Two waves as [tag_license_status] leaves them: the first has no license
    information, the second shows one of its two storefronts with an active
    license. *)
Definition assumed_waves : list DataFrame :=
  [mkDF 2 [("slug", [Str "green-door"; Str "blue-gate"])];
   mkDF 2 [("slug", [Str "green-door"; Str "red-barn"]);
           ("license", [Str "c10-0000001-lic"; Str "c10-0000003-lic"]);
           ("active_license", [Int 1%Z; Int 0%Z])]].

(** Three waves named by the day they were read, around the purge. *)
Definition purge_filenames : list string :=
  ["191215_panel.csv"; "191221_panel.csv"; "200112_panel.csv"].

Definition purge_waves : list DataFrame :=
  [mkDF 2 [("slug", [Str "green-door"; Str "blue-gate"])];
   mkDF 2 [("slug", [Str "green-door"; Str "red-barn"])];
   mkDF 1 [("slug", [Str "green-door"])]].

(** A wave as it is read: one url is missing, one names no path. *)
Definition raw_wave : DataFrame :=
  mkDF 3 [("url", [Str "weedmaps.com/dispensaries/green-door"; NaN; Str "weedmaps.com"]);
          ("phone", [Str "(555) 010-2030"; Str "555 010 2040"; NaN])].

(** Two waves after grouping, with the urls of a dispensary and of a
    delivery service. *)
Definition url_waves : list DataFrame :=
  [mkDF 1 [("slug", [Str "green-door"]);
           ("url", [Str "https://weedmaps.com/dispensaries/green-door"])];
   mkDF 2 [("slug", [Str "green-door"; Str "fast-leaf"]);
           ("url", [Str "https://weedmaps.com/dispensaries/green-door";
                    Str "https://weedmaps.com/deliveries/fast-leaf"])]].

(** Three waves before [tag_reappear_field_changes]: a storefront of the
    first wave is missing from the second and back in the third, at a new
    address. *)
Definition reappear_waves : list DataFrame :=
  [mkDF 1 [("slug", [Str "green-door"]); ("address", [Str "1 Main St"])];
   mkDF 1 [("slug", [Str "blue-gate"]); ("address", [Str "5 Oak Ave"])];
   mkDF 2 [("slug", [Str "green-door"; Str "blue-gate"]);
           ("address", [Str "2 Main St"; Str "5 Oak Ave"]);
           ("continued", [Int 0%Z; Int 1%Z]);
           ("changed_address", [Int 0%Z; Int 0%Z]);
           ("reappeared", [Int 1%Z; Int 0%Z])]].

(** * Proofs *)

(** ** The error monad and loops *)

Lemma bind_Ok {A B} (r : result A) (k : A → result B) b :
  bind r k = Ok b ↔ ∃ a, r = Ok a ∧ k a = Ok b.
Proof. destruct r; simpl; split; [eauto | intros (? & [= <-] & ?); done | done | intros (? & ? & ?); done]. Qed.

Lemma item_Ok {A} (xs : list A) i x : item xs i = Ok x ↔ xs !! i = Some x.
Proof. unfold item. destruct (xs !! i); split; congruence. Qed.

Lemma item_lookup {A} (xs : list A) i x : xs !! i = Some x → item xs i = Ok x.
Proof. by intros ->%item_Ok. Qed.

Lemma for_each_app {S A} (xs ys : list A) (body : A → S → result S) s :
  for_each (xs ++ ys) body s = do s' <- for_each xs body s; for_each ys body s'.
Proof.
  revert s. induction xs as [|x xs IH]; intros s; simpl; [done|].
  destruct (body x s); simpl; [apply IH | done].
Qed.

(** A loop over [range(a, a+n)] that keeps an invariant indexed by the
    loop counter runs to its end. *)
Lemma for_each_seq_inv {S} (P : nat → S → Prop) (body : nat → S → result S) n a s :
  P a s →
  (∀ i s, a ≤ i < a + n → P i s → ∃ s', body i s = Ok s' ∧ P (Datatypes.S i) s') →
  ∃ s', for_each (seq a n) body s = Ok s' ∧ P (a + n) s'.
Proof.
  revert a s. induction n as [|n IH]; intros a s HP Hstep; simpl.
  - exists s. by rewrite Nat.add_0_r.
  - destruct (Hstep a s) as (s' & -> & HP'); [lia | done |]. simpl.
    destruct (IH (Datatypes.S a) s') as (s'' & Hrun & HP''); [done | |].
    + intros i t Hi. apply Hstep. lia.
    + exists s''. split; [done|]. by replace (a + Datatypes.S n) with (Datatypes.S a + n) by lia.
Qed.

(** ** Columns *)

Lemma lookup_col_assign_eq name v cs : lookup_col name (assign_col name v cs) = Some v.
Proof.
  induction cs as [|[k w] cs IH]; simpl.
  - by rewrite decide_True.
  - destruct (decide (k = name)) as [->|Hne]; simpl.
    + by rewrite decide_True.
    + by rewrite decide_False.
Qed.

Lemma lookup_col_assign_ne name other v cs :
  name ≠ other → lookup_col other (assign_col name v cs) = lookup_col other cs.
Proof.
  intros Hne. induction cs as [|[k w] cs IH]; simpl.
  - by rewrite decide_False.
  - destruct (decide (k = name)) as [->|Hk]; simpl.
    + by rewrite !decide_False.
    + by rewrite IH.
Qed.

Lemma lookup_col_is_Some name cs : is_Some (lookup_col name cs) ↔ name ∈ cs.*1.
Proof.
  induction cs as [|[k w] cs IH]; simpl.
  - split; [by intros [? ?] | by intros ?%elem_of_nil].
  - destruct (decide (k = name)) as [->|Hk].
    + split; [intros _; left | eauto].
    + rewrite IH. split; [by right | by intros [?|?]%elem_of_cons].
Qed.

Lemma has_column_lookup name df :
  has_column name df = true ↔ is_Some (lookup_col name (cols df)).
Proof. unfold has_column, columns. by rewrite bool_decide_eq_true, lookup_col_is_Some. Qed.

Lemma has_column_false name df :
  has_column name df = false ↔ lookup_col name (cols df) = None.
Proof.
  unfold has_column, columns. rewrite bool_decide_eq_false, <- lookup_col_is_Some.
  by rewrite eq_None_not_Some.
Qed.

Lemma getitem_Ok df name v : getitem df name = Ok v ↔ lookup_col name (cols df) = Some v.
Proof. unfold getitem. destruct (lookup_col name (cols df)); split; congruence. Qed.

Lemma lookup_col_setitem_eq df name v : lookup_col name (cols (setitem df name v)) = Some v.
Proof. apply lookup_col_assign_eq. Qed.

Lemma lookup_col_setitem_ne df name other v :
  name ≠ other → lookup_col other (cols (setitem df name v)) = lookup_col other (cols df).
Proof. apply lookup_col_assign_ne. Qed.

Lemma isin_lookup s values j c :
  s !! j = Some c → isin s values !! j = Some (bool_decide (c ∈ values)).
Proof. intros H. unfold isin. by rewrite list_lookup_fmap, H. Qed.

Lemma elem_of_slugs_up_to files k c :
  c ∈ slugs_up_to files k ↔ ∃ j, j ≤ k ∧ c ∈ slugs_at files j.
Proof.
  induction k as [|k IH]; simpl.
  - split; [intros ?; exists 0; auto | intros (j & Hj & ?)]. by replace j with 0 in * by lia.
  - rewrite elem_of_union, IH. split.
    + intros [?|(j & ? & ?)]; [exists (Datatypes.S k); auto | exists j; auto with lia].
    + intros (j & Hj & Hc). destruct (decide (j = Datatypes.S k)) as [->|]; [by left|].
      right. exists j. split; [lia | done].
Qed.

(** ** Loops that tag one wave per iteration *)

Lemma tagged_upto_start files name col a : tagged_upto files name col a a files.
Proof.
  intros k. rewrite bool_decide_eq_false_2 by lia. by destruct (files !! k).
Qed.

Lemma tagged_upto_length files name col a b fs :
  tagged_upto files name col a b fs → length fs = length files.
Proof.
  intros H. destruct (Nat.lt_trichotomy (length fs) (length files)) as [Hlt|[?|Hlt]]; [|done|].
  - destruct (lookup_lt_is_Some_2 files (length fs)) as [f Hf]; [done|].
    specialize (H (length fs)). rewrite Hf, lookup_ge_None_2 in H by lia. done.
  - destruct (lookup_lt_is_Some_2 fs (length files)) as [f Hf]; [done|].
    specialize (H (length files)). rewrite Hf, (lookup_ge_None_2 files) in H by lia. done.
Qed.

Lemma tagged_upto_column files name col a b fs k other :
  tagged_upto files name col a b fs → name ≠ other →
  column_at fs k other = column_at files k other.
Proof.
  intros H Hne. unfold column_at. rewrite (H k). destruct (files !! k) as [f|]; simpl; [|done].
  case_bool_decide; [by apply lookup_col_setitem_ne | done].
Qed.

Lemma tagged_upto_outside files name col a b fs k :
  tagged_upto files name col a b fs → ¬ (a ≤ k < b) → fs !! k = files !! k.
Proof.
  intros H Hk. rewrite (H k), bool_decide_eq_false_2 by done. by destruct (files !! k).
Qed.

Lemma tagged_upto_step files name col a b fs f :
  tagged_upto files name col a b fs → a ≤ b → files !! b = Some f →
  set_file_column fs b name (col b) = Ok (<[b := setitem f name (col b)]> fs) ∧
  tagged_upto files name col a (S b) (<[b := setitem f name (col b)]> fs).
Proof.
  intros H Hab Hf. split.
  - unfold set_file_column. rewrite (item_lookup fs b f); [done|].
    by rewrite (tagged_upto_outside _ _ _ _ _ _ _ H) by lia.
  - intros k. destruct (decide (k = b)) as [->|Hk].
    + rewrite list_lookup_insert_eq.
      * rewrite Hf. simpl. by rewrite bool_decide_eq_true_2 by lia.
      * rewrite (tagged_upto_length _ _ _ _ _ _ H). by apply lookup_lt_Some in Hf.
    + rewrite list_lookup_insert_ne by done. rewrite (H k).
      destruct (files !! k); simpl; [|done].
      by rewrite (bool_decide_ext (a ≤ k < b) (a ≤ k < S b)) by lia.
Qed.

(** A loop whose body, on every state it can meet, writes [col i] on wave
    [i] and nothing else, leaves [files] tagged on the whole range. *)
Lemma tag_loop files name col a b body :
  b ≤ length files →
  (∀ i fs, a ≤ i < b → tagged_upto files name col a i fs →
           body i fs = set_file_column fs i name (col i)) →
  ∃ fs, for_each (range a b) body files = Ok fs ∧ tagged_upto files name col a (a `max` b) fs.
Proof.
  intros Hb Hbody. unfold range.
  destruct (for_each_seq_inv (λ i fs, tagged_upto files name col a i fs) body (b - a) a files)
    as (fs & Hrun & Hinv).
  - apply tagged_upto_start.
  - intros i fs Hi Hinv. rewrite Hbody by (done || lia).
    destruct (lookup_lt_is_Some_2 files i) as [f Hf]; [lia|].
    destruct (tagged_upto_step files name col a i fs f) as [-> ?]; [done | lia | done |].
    eauto.
  - exists fs. split; [done|]. by replace (a `max` b) with (a + (b - a)) by lia.
Qed.

(** ** Slug sets *)

Lemma slug_column_getitem files k f :
  files !! k = Some f → has_column "slug" f = true →
  getitem f "slug" = Ok (slug_column files k) ∧ slugs_at files k = to_set (slug_column files k).
Proof.
  intros Hf [s Hs]%has_column_lookup. unfold getitem, slug_column, slugs_at.
  by rewrite Hf, Hs.
Qed.

Lemma get_slugs_up_to_i_array_spec files :
  files ≠ [] → Forall (λ f, has_column "slug" f = true) files →
  ∃ up, get_slugs_up_to_i_array files = Ok up ∧
        ∀ k, k < length files → up !! k = Some (slugs_up_to files k).
Proof.
  intros Hne Hslug. unfold get_slugs_up_to_i_array.
  destruct files as [|f0 files0] eqn:Hfiles; [done|]. rewrite <- Hfiles in *.
  assert (files !! 0 = Some f0) as H0 by by rewrite Hfiles.
  rewrite (item_lookup _ _ _ H0). simpl.
  destruct (slug_column_getitem files 0 f0 H0) as [-> Hs0].
  { by eapply (Forall_lookup_1 _ _ _ _ Hslug). }
  simpl. unfold range.
  destruct (for_each_seq_inv
    (λ i (acc : list (gset cell)), length acc = i ∧ ∀ k, k < i → acc !! k = Some (slugs_up_to files k))
    (λ i slugs_up_to_i,
       do fi <- item files i;
       do si <- getitem fi "slug";
       do prev <- item slugs_up_to_i (i - 1);
       Ok (slugs_up_to_i ++ [to_set si ∪ prev]))
    (length files - 1) 1 [to_set (slug_column files 0)]) as (up & Hrun & Hlen & Hup).
  - split; [done|]. intros k Hk. replace k with 0 by lia. simpl. by rewrite Hs0.
  - intros i acc Hi [Hlen Hacc].
    destruct (lookup_lt_is_Some_2 files i) as [fi Hfi]; [lia|].
    rewrite (item_lookup _ _ _ Hfi). simpl.
    destruct (slug_column_getitem files i fi Hfi) as [-> Hsi].
    { by eapply (Forall_lookup_1 _ _ _ _ Hslug). }
    simpl. rewrite (item_lookup acc (i - 1) (slugs_up_to files (i - 1))) by (apply Hacc; lia).
    simpl. eexists. split; [done|]. split.
    + rewrite length_app. simpl. lia.
    + intros k Hk. destruct (decide (k = i)) as [->|Hki].
      * rewrite lookup_app_r by lia. rewrite Hlen, Nat.sub_diag. simpl.
        destruct i as [|i']; [lia|]. simpl. rewrite Nat.sub_0_r. by rewrite Hsi.
      * rewrite lookup_app_l by lia. apply Hacc. lia.
  - exists up. split; [done|]. intros k Hk. apply Hup.
    assert (0 < length files) by (rewrite Hfiles; simpl; lia). lia.
Qed.

Lemma tagged_upto_slug files name col a b fs k f :
  tagged_upto files name col a b fs → name ≠ "slug" →
  files !! k = Some f → has_column "slug" f = true →
  ∃ g, fs !! k = Some g ∧ item fs k = Ok g ∧ getitem g "slug" = Ok (slug_column files k).
Proof.
  intros H Hne Hf Hslug. pose proof (H k) as Hk. rewrite Hf in Hk. simpl in Hk.
  eexists. split; [exact Hk|]. split; [by apply item_lookup|].
  destruct (slug_column_getitem files k f Hf Hslug) as [Hget _].
  apply getitem_Ok. apply getitem_Ok in Hget. rewrite <- Hget.
  case_bool_decide; [by apply lookup_col_setitem_ne | done].
Qed.

Lemma tag_reappear_spec files up :
  Forall (λ f, has_column "slug" f = true) files →
  (∀ k, k < length files → up !! k = Some (slugs_up_to files k)) →
  ∃ fs, tag_reappear up files = Ok fs ∧
        tagged_upto files "reappeared" (reappeared_column files) 2 (2 `max` length files) fs.
Proof.
  intros Hslug Hup. unfold tag_reappear. apply tag_loop; [done|].
  intros i fs Hi Hinv.
  destruct (lookup_lt_is_Some_2 files i) as [fi Hfi]; [lia|].
  destruct (lookup_lt_is_Some_2 files (i - 1)) as [fp Hfp]; [lia|].
  destruct (tagged_upto_slug _ _ _ _ _ _ i fi Hinv) as (gi & _ & -> & Hgi);
    [done | done | by eapply (Forall_lookup_1 _ _ _ _ Hslug) |].
  destruct (tagged_upto_slug _ _ _ _ _ _ (i - 1) fp Hinv) as (gp & _ & -> & Hgp);
    [done | done | by eapply (Forall_lookup_1 _ _ _ _ Hslug) |].
  simpl. rewrite Hgp, Hgi. simpl.
  rewrite (item_lookup up (i - 2) (slugs_up_to files (i - 2))) by (apply Hup; lia).
  simpl. unfold reappeared_column.
  by destruct (slug_column_getitem files (i - 1) fp Hfp) as [_ ->];
    [by eapply (Forall_lookup_1 _ _ _ _ Hslug)|].
Qed.

Lemma tag_continued_spec files :
  Forall (λ f, has_column "slug" f = true) files →
  ∃ fs, tag_continued files = Ok fs ∧
        tagged_upto files "continued" (continued_column files) 1 (1 `max` length files) fs.
Proof.
  intros Hslug. unfold tag_continued. apply tag_loop; [done|].
  intros i fs Hi Hinv.
  destruct (lookup_lt_is_Some_2 files i) as [fi Hfi]; [lia|].
  destruct (lookup_lt_is_Some_2 files (i - 1)) as [fp Hfp]; [lia|].
  destruct (tagged_upto_slug _ _ _ _ _ _ i fi Hinv) as (gi & _ & -> & Hgi);
    [done | done | by eapply (Forall_lookup_1 _ _ _ _ Hslug) |].
  destruct (tagged_upto_slug _ _ _ _ _ _ (i - 1) fp Hinv) as (gp & _ & -> & Hgp);
    [done | done | by eapply (Forall_lookup_1 _ _ _ _ Hslug) |].
  simpl. rewrite Hgp, Hgi. simpl. unfold continued_column.
  by destruct (slug_column_getitem files (i - 1) fp Hfp) as [_ ->];
    [by eapply (Forall_lookup_1 _ _ _ _ Hslug)|].
Qed.

Lemma tagged_upto_written files name col a b fs k :
  tagged_upto files name col a b fs → a ≤ k < b → k < length files →
  column_at fs k name = Some (col k).
Proof.
  intros H Hk Hlen. destruct (lookup_lt_is_Some_2 files k) as [f Hf]; [done|].
  unfold column_at. rewrite (H k), Hf. simpl. rewrite bool_decide_eq_true_2 by done.
  apply lookup_col_setitem_eq.
Qed.

Lemma reappeared_column_lookup files i j slug :
  slug_column files i !! j = Some slug →
  reappeared_column files i !! j =
    Some (int_of_bool (bool_decide (slug ∈ slugs_up_to files (i - 2)) &&
                       negb (bool_decide (slug ∈ slugs_at files (i - 1))))).
Proof.
  intros Hj. unfold reappeared_column, apply_int, series_and, series_not.
  rewrite list_lookup_fmap, lookup_zip_with, list_lookup_fmap.
  by rewrite !(isin_lookup _ _ _ _ Hj).
Qed.

Lemma continued_column_lookup files i j slug :
  slug_column files i !! j = Some slug →
  continued_column files i !! j =
    Some (int_of_bool (bool_decide (slug ∈ slugs_at files (i - 1)))).
Proof.
  intros Hj. unfold continued_column, apply_int.
  by rewrite list_lookup_fmap, (isin_lookup _ _ _ _ Hj).
Qed.

Lemma reappeared_column_length files i :
  length (reappeared_column files i) = length (slug_column files i).
Proof.
  unfold reappeared_column, apply_int, series_and, series_not, isin.
  rewrite length_fmap, length_zip_with, !length_fmap. lia.
Qed.

(** ** C1 *)

(** C1: on every list of waves that carry their slug column, and for every
    wave index [i >= 2], the prefix unions are computed, [tag_reappear]
    returns, and the reappeared tag it writes on a row of wave [i] is 0 or
    1, and is 1 exactly when the row's slug belongs to the slug set of some
    wave [0..i-2] and not to the slug set of wave [i-1]; waves 0 and 1 are
    left as they were (no reappeared tag is written on them). *)
Theorem tag_reappear_correct (files : list DataFrame) (i : nat) :
  Forall (λ f, has_column "slug" f = true) files →
  2 ≤ i < length files →
  ∃ up fs reappeared,
    get_slugs_up_to_i_array files = Ok up ∧
    tag_reappear up files = Ok fs ∧
    fs !! 0 = files !! 0 ∧ fs !! 1 = files !! 1 ∧
    column_at fs i "reappeared" = Some reappeared ∧
    length reappeared = length (slug_column files i) ∧
    ∀ j slug, slug_column files i !! j = Some slug →
      ∃ tag, reappeared !! j = Some (Int tag) ∧ (tag = 0 ∨ tag = 1)%Z ∧
        (tag = 1%Z ↔ (∃ k, k ≤ i - 2 ∧ slug ∈ slugs_at files k) ∧
                     slug ∉ slugs_at files (i - 1)).
Proof.
  intros Hslug Hi.
  destruct (get_slugs_up_to_i_array_spec files) as (up & Hup & Hupk);
    [by intros -> ; simpl in Hi; lia | done |].
  destruct (tag_reappear_spec files up Hslug Hupk) as (fs & Hrun & Hinv).
  exists up, fs, (reappeared_column files i).
  split; [done|]. split; [done|].
  split; [apply (tagged_upto_outside _ _ _ _ _ _ _ Hinv); lia|].
  split; [apply (tagged_upto_outside _ _ _ _ _ _ _ Hinv); lia|].
  split; [apply (tagged_upto_written _ _ _ _ _ _ _ Hinv); lia|].
  split; [apply reappeared_column_length|].
  intros j slug Hj. rewrite (reappeared_column_lookup _ _ _ _ Hj).
  unfold int_of_bool. pose proof (elem_of_slugs_up_to files (i - 2) slug) as Hiff.
  do 2 case_bool_decide; simpl; eexists; (split; [done|]); (split; [auto|]);
    split; try done; try tauto.
Qed.

(** ** Loops that rewrite one wave per iteration *)

Lemma for_each_partial {S A} (P : S → Prop) (xs : list A) (body : A → S → result S) s s' :
  P s → (∀ x t t', x ∈ xs → P t → body x t = Ok t' → P t') →
  for_each xs body s = Ok s' → P s'.
Proof.
  revert s. induction xs as [|x xs IH]; intros s HP Hstep; simpl.
  - by intros [= <-].
  - intros (t & Ht & Hrun)%bind_Ok. apply (IH t); [|intros; eapply Hstep; eauto using list_elem_of_further|done].
    eapply Hstep; eauto using list_elem_of_here.
Qed.

Lemma well_formed_lookup df name v :
  well_formed df → lookup_col name (cols df) = Some v → length v = nrows df.
Proof.
  unfold well_formed. induction (cols df) as [|[k w] cs IH]; simpl; [done|].
  intros [Hk Hcs]%Forall_cons. destruct (decide (k = name)); [by intros [= <-] | by apply IH].
Qed.

Lemma well_formed_setitem df name v :
  well_formed df → length v = nrows df → well_formed (setitem df name v).
Proof.
  unfold well_formed, setitem. simpl. intros Hwf Hv.
  induction (cols df) as [|[k w] cs IH]; simpl.
  - by repeat constructor.
  - apply Forall_cons in Hwf as [Hk Hcs]. destruct (decide (k = name)); constructor; auto.
Qed.

Lemma same_on_refl names f : same_on names f f.
Proof. by split. Qed.

Lemma same_on_trans names f g h : same_on names f g → same_on names g h → same_on names f h.
Proof. intros [? Hfg] [? Hgh]. split; [congruence|]. intros n Hn. by rewrite Hfg, Hgh. Qed.

Lemma same_on_sym names f g : same_on names f g → same_on names g f.
Proof. intros [? Hfg]. split; [done|]. intros n Hn. by rewrite Hfg. Qed.

Lemma same_on_setitem names f name v : name ∉ names → same_on names f (setitem f name v).
Proof.
  intros Hn. split; [done|]. intros n Hin. symmetry. apply lookup_col_setitem_ne.
  by intros ->.
Qed.

Lemma same_on_has_column names f g name :
  same_on names f g → name ∈ names → has_column name f = has_column name g.
Proof.
  intros [_ H] Hn. destruct (has_column name g) eqn:Hg.
  - apply has_column_lookup. rewrite (H name Hn). by apply has_column_lookup.
  - apply has_column_false. rewrite (H name Hn). by apply has_column_false.
Qed.

Lemma same_on_getitem names f g name :
  same_on names f g → name ∈ names → getitem f name = getitem g name.
Proof. intros [_ H] Hn. unfold getitem. by rewrite (H name Hn). Qed.

(** ** The inner loops of [tag_field_changes] *)

Lemma prev_slug_to_prev_field_value_spec prev_file slugs vals :
  length slugs = nrows prev_file → length vals = nrows prev_file →
  prev_slug_to_prev_field_value prev_file slugs vals = Ok (prev_values slugs vals).
Proof.
  intros Hs Hv. unfold prev_slug_to_prev_field_value, range. rewrite Nat.sub_0_r.
  destruct (for_each_seq_inv
    (λ j (d : gmap cell cell), d = list_to_map (reverse (take j (zip slugs vals))))
    (λ j d, do prev_slug <- item slugs j; do v <- item vals j; Ok (<[prev_slug := v]> d))
    (nrows prev_file) 0 ∅) as (d & -> & Hd).
  - done.
  - intros j d Hj ->.
    destruct (lookup_lt_is_Some_2 slugs j) as [s Hsj]; [lia|].
    destruct (lookup_lt_is_Some_2 vals j) as [v Hvj]; [lia|].
    rewrite (item_lookup _ _ _ Hsj), (item_lookup _ _ _ Hvj). simpl.
    eexists. split; [done|].
    assert (zip slugs vals !! j = Some (s, v)) as Hz.
    { rewrite lookup_zip_with, Hsj. simpl. by rewrite Hvj. }
    by rewrite (take_S_r _ _ _ Hz), reverse_snoc.
  - f_equal. rewrite Hd. unfold prev_values. simpl. rewrite take_ge; [done|].
    rewrite length_zip. lia.
Qed.

Lemma changed_values_length d slugs vals conts :
  length slugs = length conts → length vals = length conts →
  length (changed_values d slugs vals conts) = length conts.
Proof.
  intros Hs Hv. unfold changed_values. rewrite length_zip_with, length_zip. lia.
Qed.

Lemma changed_values_lookup d slugs vals conts j s v c :
  slugs !! j = Some s → vals !! j = Some v → conts !! j = Some c →
  changed_values d slugs vals conts !! j =
    Some (int_of_bool (bool_decide (c = Int 1%Z) && value_ne (d !! s) v)).
Proof.
  intros Hs Hv Hc. unfold changed_values.
  rewrite !lookup_zip_with, Hs. simpl. rewrite Hv. simpl. by rewrite Hc.
Qed.

Lemma changed_field_list_spec curr_file d slugs vals conts :
  length slugs = nrows curr_file → length vals = nrows curr_file →
  length conts = nrows curr_file →
  changed_field_list curr_file d slugs vals conts = Ok (changed_values d slugs vals conts).
Proof.
  intros Hs Hv Hc. unfold changed_field_list, range. rewrite Nat.sub_0_r.
  destruct (for_each_seq_inv
    (λ j (acc : list cell), acc = take j (changed_values d slugs vals conts))
    (λ j changed_field,
       do curr_slug <- item slugs j;
       let prev_field_value := d !! curr_slug in
       do curr_field_value <- item vals j;
       do cont <- item conts j;
       Ok (append_tag_conditional changed_field
             (bool_decide (cont = Int 1%Z) && value_ne prev_field_value curr_field_value)))
    (nrows curr_file) 0 []) as (acc & Hrun & Hacc).
  - done.
  - intros j acc Hj ->.
    destruct (lookup_lt_is_Some_2 slugs j) as [s Hsj]; [lia|].
    destruct (lookup_lt_is_Some_2 vals j) as [v Hvj]; [lia|].
    destruct (lookup_lt_is_Some_2 conts j) as [c Hcj]; [lia|].
    rewrite (item_lookup _ _ _ Hsj). simpl.
    rewrite (item_lookup _ _ _ Hvj), (item_lookup _ _ _ Hcj). simpl.
    eexists. split; [done|].
    rewrite (take_S_r _ _ _ (changed_values_lookup d _ _ _ _ _ _ _ Hsj Hvj Hcj)).
    unfold append_tag_conditional, int_of_bool.
    by destruct (bool_decide (c = Int 1%Z) && value_ne (d !! s) v).
  - etrans; [exact Hrun|]. f_equal. rewrite Hacc. simpl. rewrite take_ge; [done|].
    rewrite changed_values_length; lia.
Qed.

Lemma changed_name_tracked field name : name ∈ tracked → "changed_" +:+ field ≠ name.
Proof.
  unfold tracked, TAG_CHANGE_FIELDS. rewrite !elem_of_cons, elem_of_nil.
  intros H Heq. subst name. cbn in H.
  destruct H as [H|[H|[H|[H|[H|[]]]]]]; discriminate H.
Qed.

Lemma changed_name_inj f g : "changed_" +:+ f = "changed_" +:+ g → f = g.
Proof. intros H. cbn in H. by injection H. Qed.

Lemma getitem_column_of df name :
  has_column name df = true → getitem df name = Ok (column_of df name).
Proof.
  intros [v Hv]%has_column_lookup. unfold getitem, column_of. by rewrite Hv.
Qed.

Lemma column_of_length df name :
  well_formed df → has_column name df = true → length (column_of df name) = nrows df.
Proof.
  intros Hwf [v Hv]%has_column_lookup. unfold column_of. rewrite Hv. simpl.
  by eapply well_formed_lookup.
Qed.

Lemma same_on_column_of names f g name :
  same_on names f g → name ∈ names → column_of f name = column_of g name.
Proof. intros [_ H] Hn. unfold column_of. by rewrite (H name Hn). Qed.

Lemma tag_field_changes_fields_spec fields prev curr0 :
  NoDup fields → (∀ g, g ∈ fields → g ∈ tracked) →
  well_formed prev → well_formed curr0 →
  has_column "slug" prev = true → has_column "slug" curr0 = true →
  has_column "continued" curr0 = true →
  ∀ curr, same_on tracked curr0 curr →
  ∃ curr', tag_field_changes_fields fields prev curr = Ok curr' ∧
    nrows curr' = nrows curr ∧
    (∀ name, (∀ g, g ∈ fields → name ≠ "changed_" +:+ g) →
             lookup_col name (cols curr') = lookup_col name (cols curr)) ∧
    (∀ n field, fields !! n = Some field →
       (∀ m g, m ≤ n → fields !! m = Some g →
               has_column g prev = true ∧ has_column g curr0 = true) →
       lookup_col ("changed_" +:+ field) (cols curr') = Some (changed_column prev curr0 field)) ∧
    (∀ n field, fields !! n = Some field →
       (∃ m g, m ≤ n ∧ fields !! m = Some g ∧
               (has_column g prev = false ∨ has_column g curr0 = false)) →
       lookup_col ("changed_" +:+ field) (cols curr') =
       lookup_col ("changed_" +:+ field) (cols curr)).
Proof.
  intros Hnd Htr Hwfp Hwfc Hsp Hsc Hcc.
  assert ("slug" ∈ tracked) as Tslug by (unfold tracked; rewrite !elem_of_cons; auto).
  assert ("continued" ∈ tracked) as Tcont by (unfold tracked; rewrite !elem_of_cons; auto).
  induction fields as [|field rest IH]; intros curr Hsame.
  - exists curr. repeat split; try done.
  - apply NoDup_cons in Hnd as [Hfresh Hnd].
    assert (field ∈ tracked) as Tfield by (apply Htr; left).
    simpl. rewrite <- (same_on_has_column _ _ _ field Hsame Tfield).
    destruct (has_column field curr0) eqn:Hfc; destruct (has_column field prev) eqn:Hfp; simpl.
    2,3,4: exists curr; split; [done|]; split; [done|]; split; [done|]; split; [|done];
      intros n g Hn Hall; destruct (Hall 0 field) as [? ?]; [lia | done | congruence].
    rewrite (getitem_column_of prev field Hfp). simpl.
    rewrite <- (same_on_getitem _ _ _ field Hsame Tfield), (getitem_column_of curr0 field Hfc).
    simpl. rewrite (getitem_column_of prev "slug" Hsp). simpl.
    rewrite <- (same_on_getitem _ _ _ "slug" Hsame Tslug), (getitem_column_of curr0 "slug" Hsc).
    simpl.
    rewrite <- (same_on_getitem _ _ _ "continued" Hsame Tcont),
      (getitem_column_of curr0 "continued" Hcc).
    simpl. rewrite prev_slug_to_prev_field_value_spec by by apply column_of_length.
    simpl. destruct Hsame as [Hrows Hsame].
    rewrite changed_field_list_spec by (rewrite <- Hrows; by apply column_of_length).
    simpl. fold (changed_column prev curr0 field).
    set (curr2 := setitem curr ("changed_" +:+ field) (changed_column prev curr0 field)).
    destruct (IH Hnd) with (curr := curr2) as (curr' & Hrun & Hn & Hframe & Hwritten & Hskipped).
    { intros g Hg. apply Htr. by right. }
    { apply (same_on_trans _ _ curr); [by split|].
      apply same_on_setitem. intros Hin. by apply (changed_name_tracked field) in Hin. }
    exists curr'. split; [done|]. split; [done|].
    assert (∀ g, g ∈ rest → "changed_" +:+ field ≠ "changed_" +:+ g) as Hne.
    { intros g Hg Heq%changed_name_inj. by subst. }
    split; [|split].
    + intros name Hname. rewrite Hframe by (intros g Hg; apply Hname; by right).
      apply lookup_col_setitem_ne. intros Heq. by apply (Hname field); [left|].
    + intros [|n] g Hg Hall; simpl in Hg.
      * injection Hg as <-. rewrite Hframe by done. apply lookup_col_setitem_eq.
      * apply (Hwritten n g Hg). intros m h Hm Hh. apply (Hall (S m) h); [lia | done].
    + intros [|n] g Hg (m & h & Hm & Hh & Hmiss); simpl in Hg.
      * assert (m = 0) as -> by lia. simpl in Hh. injection Hh as <-. injection Hg as <-.
        destruct Hmiss; congruence.
      * destruct m as [|m]; simpl in Hh.
        { injection Hh as <-. destruct Hmiss; congruence. }
        rewrite (Hskipped n g Hg) by (exists m, h; split; [lia | done]).
        apply lookup_col_setitem_ne. apply Hne. by eapply list_elem_of_lookup_2.
Qed.

Lemma prev_values_lookup slugs vals s v :
  NoDup slugs → length slugs = length vals →
  prev_values slugs vals !! s = Some v ↔ ∃ j, slugs !! j = Some s ∧ vals !! j = Some v.
Proof.
  intros Hnd Hlen. unfold prev_values. rewrite <- elem_of_list_to_map.
  - rewrite elem_of_reverse, list_elem_of_lookup. split.
    + intros (j & Hj). exists j. apply lookup_zip_with_Some in Hj as (x & y & [= -> ->] & ? & ?).
      done.
    + intros (j & Hs & Hv). exists j. apply lookup_zip_with_Some. eauto.
  - rewrite fmap_reverse, fst_zip by lia. by rewrite reverse_Permutation.
Qed.

Lemma tag_field_changes_fields_prev fields prev prev' curr :
  (∀ g, g ∈ fields → g ∈ tracked) → same_on tracked prev prev' →
  tag_field_changes_fields fields prev curr = tag_field_changes_fields fields prev' curr.
Proof.
  intros Htr Hsame. revert curr. induction fields as [|field rest IH]; intros curr; [done|].
  assert ("slug" ∈ tracked) as Tslug by (unfold tracked; rewrite !elem_of_cons; auto).
  assert (field ∈ tracked) as Tfield by (apply Htr; left).
  simpl. rewrite (same_on_has_column _ _ _ field Hsame Tfield).
  rewrite (same_on_getitem _ _ _ field Hsame Tfield), (same_on_getitem _ _ _ "slug" Hsame Tslug).
  unfold prev_slug_to_prev_field_value. destruct Hsame as [-> _].
  destruct (negb (has_column field curr) || negb (has_column field prev')); [done|].
  destruct (getitem prev' field); simpl; [|done].
  destruct (getitem curr field); simpl; [|done].
  destruct (getitem prev' "slug"); simpl; [|done].
  destruct (getitem curr "slug"); simpl; [|done].
  destruct (getitem curr "continued"); simpl; [|done].
  match goal with |- bind ?r _ = _ => destruct r; simpl; [|done] end.
  match goal with |- bind ?r _ = _ => destruct r; simpl; [|done] end.
  apply IH. intros g Hg. apply Htr. by right.
Qed.

(** ** The outer loop of [tag_field_changes] *)

Lemma TAG_CHANGE_FIELDS_tracked g : g ∈ TAG_CHANGE_FIELDS → g ∈ tracked.
Proof. intros Hg. unfold tracked. by do 2 right. Qed.

Lemma TAG_CHANGE_FIELDS_NoDup : NoDup TAG_CHANGE_FIELDS.
Proof. apply (bool_decide_unpack _). by vm_compute. Qed.

Lemma field_changes_post_same_on prev curr0 curr' :
  field_changes_post prev curr0 curr' → same_on tracked curr0 curr'.
Proof.
  intros (Hn & Hframe & _). split; [done|]. intros name Hname. symmetry. apply Hframe.
  intros g _ ->. by apply (changed_name_tracked g) in Hname.
Qed.

Lemma tag_field_changes_spec fs0 :
  Forall well_formed fs0 →
  Forall (λ f, has_column "slug" f = true) fs0 →
  (∀ k f, 1 ≤ k → fs0 !! k = Some f → has_column "continued" f = true) →
  ∃ fs, tag_field_changes fs0 = Ok fs ∧ length fs = length fs0 ∧ fs !! 0 = fs0 !! 0 ∧
    ∀ k prev curr0, 1 ≤ k → fs0 !! (k - 1) = Some prev → fs0 !! k = Some curr0 →
      ∃ curr', fs !! k = Some curr' ∧ field_changes_post prev curr0 curr'.
Proof.
  intros Hwf Hslug Hcont. unfold tag_field_changes, range.
  destruct (for_each_seq_inv
    (λ i fs, length fs = length fs0 ∧
             (∀ k, k = 0 ∨ i ≤ k → fs !! k = fs0 !! k) ∧
             (∀ k prev curr0, 1 ≤ k < i → fs0 !! (k - 1) = Some prev → fs0 !! k = Some curr0 →
                ∃ curr', fs !! k = Some curr' ∧ field_changes_post prev curr0 curr'))
    (λ i files,
       do curr_file <- item files i;
       do prev_file <- item files (i - 1);
       do curr_file' <- tag_field_changes_fields TAG_CHANGE_FIELDS prev_file curr_file;
       Ok (<[i := curr_file']> files))
    (length fs0 - 1) 1 fs0) as (fs & Hrun & Hlen & Hout & Hin).
  - split; [done|]. split; [done|]. intros k ? ? ?. lia.
  - intros i fs Hi (Hlen & Hout & Hin).
    destruct (lookup_lt_is_Some_2 fs0 i) as [curr0 Hcurr0]; [lia|].
    destruct (lookup_lt_is_Some_2 fs0 (i - 1)) as [prev0 Hprev0]; [lia|].
    assert (∃ p, fs !! (i - 1) = Some p ∧ same_on tracked prev0 p) as (p & Hp & Hsame).
    { destruct (decide (i - 1 = 0)) as [Hz|Hz].
      - exists prev0. split; [|apply same_on_refl]. rewrite Hout by auto. done.
      - destruct (lookup_lt_is_Some_2 fs0 (i - 1 - 1)) as [pp Hpp]; [lia|].
        destruct (Hin (i - 1) pp prev0) as (p & Hp & Hpost); [lia | done | done |].
        exists p. split; [done|]. by eapply field_changes_post_same_on. }
    rewrite (item_lookup fs i curr0) by (rewrite Hout by auto; done). cbn [bind].
    rewrite (item_lookup fs (i - 1) p Hp). cbn [bind].
    rewrite <- (tag_field_changes_fields_prev _ prev0 p)
      by (done || apply TAG_CHANGE_FIELDS_tracked).
    destruct (tag_field_changes_fields_spec TAG_CHANGE_FIELDS prev0 curr0)
      with (curr := curr0) as (curr' & -> & Hpost).
    { apply TAG_CHANGE_FIELDS_NoDup. }
    { apply TAG_CHANGE_FIELDS_tracked. }
    { by eapply (Forall_lookup_1 _ _ _ _ Hwf). }
    { by eapply (Forall_lookup_1 _ _ _ _ Hwf). }
    { by eapply (Forall_lookup_1 _ _ _ _ Hslug). }
    { by eapply (Forall_lookup_1 _ _ _ _ Hslug). }
    { apply (Hcont i); [lia | done]. }
    { apply same_on_refl. }
    cbn [bind]. eexists. split; [done|]. split; [by rewrite length_insert|]. split.
    + intros k Hk. rewrite list_lookup_insert_ne by lia. apply Hout. lia.
    + intros k prev c0 Hk Hprev Hc0. destruct (decide (k = i)) as [->|Hki].
      * rewrite list_lookup_insert_eq by lia. exists curr'. split; [done|].
        by simplify_eq.
      * rewrite list_lookup_insert_ne by done. apply Hin; [lia | done | done].
  - exists fs. split; [done|]. split; [done|]. split; [apply Hout; auto|].
    intros k prev curr0 Hk Hprev Hcurr0. apply Hin; [|done|done].
    apply lookup_lt_Some in Hcurr0. lia.
Qed.

(** ** C7 *)

Lemma slug_column_eq files k f : files !! k = Some f → slug_column files k = column_of f "slug".
Proof. intros Hf. unfold slug_column, column_of. by rewrite Hf. Qed.

Lemma slugs_at_eq files k f : files !! k = Some f → slugs_at files k = to_set (column_of f "slug").
Proof.
  intros Hf. unfold slugs_at, column_of. rewrite Hf.
  by destruct (lookup_col "slug" (cols f)).
Qed.

Lemma continued_column_length files k :
  length (continued_column files k) = length (slug_column files k).
Proof. unfold continued_column, apply_int, isin. by rewrite !length_fmap. Qed.

(** What [tag_continued] leaves of wave [k]. *)
Lemma tag_continued_wave files fs1 k f :
  tagged_upto files "continued" (continued_column files) 1 (1 `max` length files) fs1 →
  files !! k = Some f →
  ∃ g, fs1 !! k = Some g ∧ nrows g = nrows f ∧
       (∀ name, name ≠ "continued" → lookup_col name (cols g) = lookup_col name (cols f)) ∧
       (1 ≤ k → lookup_col "continued" (cols g) = Some (continued_column files k)) ∧
       (well_formed f → has_column "slug" f = true → well_formed g).
Proof.
  intros Hinv Hf. pose proof (Hinv k) as Hk. rewrite Hf in Hk. simpl in Hk.
  eexists. split; [exact Hk|]. apply lookup_lt_Some in Hf as Hlt.
  case_bool_decide as Hrange.
  - split; [done|]. split; [intros name Hne; by apply lookup_col_setitem_ne|].
    split; [intros _; apply lookup_col_setitem_eq|].
    intros Hwf Hslug. apply well_formed_setitem; [done|].
    rewrite continued_column_length, (slug_column_eq _ _ _ Hf). by apply column_of_length.
  - split; [done|]. split; [done|]. split; [intros ?; lia | done].
Qed.

Lemma cell_ne_spec a b : cell_ne a b = true ↔ a ≠ b ∨ (a = NaN ∧ b = NaN).
Proof.
  destruct a, b; simpl; rewrite ?bool_decide_eq_true; split; intros H; try done;
    try (by left); try (by right); try (destruct H as [H|[H1 H2]]; done).
Qed.

(** C7: on waves that are well formed, carry their slug column and hold one
    row per slug, [tag_continued] followed by [tag_field_changes] returns,
    and for every wave [i >= 1] and every monitored field, in the order of
    [TAG_CHANGE_FIELDS]: when the field and all fields before it are in the
    schemas of waves [i-1] and [i], the tag [changed_<field>] of a row is 0
    or 1, and is 1 exactly when the row's continued tag is 1 and the value
    the field has in wave [i-1] on the row of the same slug is another
    value than the row's, or both are the float NaN: a field that is NaN
    in both waves (a field no record of either wave fills) is tagged as
    changed, whereas one that is [None] in both (a missing value of a
    column of strings after grouping) is not. When the field or a field
    before it is missing from either schema, [changed_<field>] is not
    written on wave [i]. *)
Theorem tag_field_changes_correct (files : list DataFrame) (i : nat) (prev curr : DataFrame) :
  Forall well_formed files →
  Forall (λ f, has_column "slug" f = true) files →
  Forall one_row_per_slug files →
  1 ≤ i → files !! (i - 1) = Some prev → files !! i = Some curr →
  ∃ fs1 fs2 curr',
    tag_continued files = Ok fs1 ∧ tag_field_changes fs1 = Ok fs2 ∧ fs2 !! i = Some curr' ∧
    ∀ n field, TAG_CHANGE_FIELDS !! n = Some field →
      ((∀ m g, m ≤ n → TAG_CHANGE_FIELDS !! m = Some g →
               has_column g prev = true ∧ has_column g curr = true) →
       ∃ changed continued,
         lookup_col ("changed_" +:+ field) (cols curr') = Some changed ∧
         lookup_col "continued" (cols curr') = Some continued ∧
         ∀ j slug, column_of curr "slug" !! j = Some slug →
           ∃ tag cont v,
             changed !! j = Some (Int tag) ∧ continued !! j = Some cont ∧
             column_of curr field !! j = Some v ∧ (tag = 0 ∨ tag = 1)%Z ∧
             (tag = 1%Z ↔
              cont = Int 1%Z ∧
              ∃ j' v', column_of prev "slug" !! j' = Some slug ∧
                       column_of prev field !! j' = Some v' ∧
                       (v' ≠ v ∨ (v' = NaN ∧ v = NaN)))) ∧
      ((∃ m g, m ≤ n ∧ TAG_CHANGE_FIELDS !! m = Some g ∧
               (has_column g prev = false ∨ has_column g curr = false)) →
       lookup_col ("changed_" +:+ field) (cols curr') =
       lookup_col ("changed_" +:+ field) (cols curr)).
Proof.
  intros Hwf Hslug Hnd Hi Hprev Hcurr.
  destruct (tag_continued_spec files Hslug) as (fs1 & Hrun1 & Hinv).
  assert (∀ k f, files !! k = Some f → well_formed f ∧ has_column "slug" f = true) as Hfile.
  { intros k f Hf. split.
    - by apply (Forall_lookup_1 _ _ _ _ Hwf Hf).
    - by apply (Forall_lookup_1 _ _ _ _ Hslug Hf). }
  assert (length fs1 = length files) as Hlen1 by by eapply tagged_upto_length.
  destruct (tag_field_changes_spec fs1) as (fs2 & Hrun2 & Hlen2 & _ & Hpost).
  { apply Forall_lookup_2. intros k g Hg.
    destruct (lookup_lt_is_Some_2 files k) as [f Hf]; [apply lookup_lt_Some in Hg; lia|].
    destruct (tag_continued_wave files fs1 k f Hinv Hf) as (g' & Hg' & _ & _ & _ & Hwfg).
    destruct (Hfile k f Hf). simplify_eq. auto. }
  { apply Forall_lookup_2. intros k g Hg.
    destruct (lookup_lt_is_Some_2 files k) as [f Hf]; [apply lookup_lt_Some in Hg; lia|].
    destruct (tag_continued_wave files fs1 k f Hinv Hf) as (g' & Hg' & _ & Hsame & _).
    destruct (Hfile k f Hf) as [_ Hs]. simplify_eq.
    apply has_column_lookup. rewrite Hsame by done. by apply has_column_lookup. }
  { intros k g Hk Hg.
    destruct (lookup_lt_is_Some_2 files k) as [f Hf]; [apply lookup_lt_Some in Hg; lia|].
    destruct (tag_continued_wave files fs1 k f Hinv Hf) as (g' & Hg' & _ & _ & Hc & _).
    simplify_eq. apply has_column_lookup. rewrite Hc by done. eauto. }
  destruct (tag_continued_wave files fs1 (i - 1) prev Hinv Hprev) as (p1 & Hp1 & _ & Hsp & _).
  destruct (tag_continued_wave files fs1 i curr Hinv Hcurr) as (c1 & Hc1 & _ & Hsc & Hcc & _).
  specialize (Hcc Hi).
  destruct (Hpost i p1 c1 Hi Hp1 Hc1) as (curr' & Hcurr' & _ & Hframe & Hwritten & Hskipped).
  exists fs1, fs2, curr'. split; [done|]. split; [done|]. split; [done|].
  assert (∀ g, g ∈ TAG_CHANGE_FIELDS → g ≠ "continued") as Hgc.
  { intros g Hg ->. revert Hg. unfold TAG_CHANGE_FIELDS.
    rewrite !elem_of_cons, elem_of_nil. intros [H|[H|[H|[]]]]; discriminate H. }
  assert (∀ g f f1, (∀ name, name ≠ "continued" → lookup_col name (cols f1) = lookup_col name (cols f)) →
            g ≠ "continued" → has_column g f1 = has_column g f) as Hhas.
  { intros g f f1 Hsame Hg. destruct (has_column g f) eqn:Hgf.
    - apply has_column_lookup. rewrite Hsame by done. by apply has_column_lookup.
    - apply has_column_false. rewrite Hsame by done. by apply has_column_false. }
  intros n field Hfield. split.
  - intros Hall.
    assert (field ∈ TAG_CHANGE_FIELDS) as Hin by by eapply list_elem_of_lookup_2.
    assert (has_column field prev = true ∧ has_column field curr = true) as [Hfp Hfc]
      by by apply (Hall n field).
    exists (changed_column p1 c1 field), (continued_column files i).
    split; [|split].
    + apply (Hwritten n field Hfield). intros m g Hm Hg.
      assert (g ∈ TAG_CHANGE_FIELDS) as Hgin by by eapply list_elem_of_lookup_2.
      rewrite (Hhas g prev p1), (Hhas g curr c1) by auto. by apply (Hall m g).
    + rewrite Hframe; [done|]. intros g _ Heq. symmetry in Heq. revert Heq.
      apply changed_name_tracked. unfold tracked. rewrite !elem_of_cons. auto.
    + intros j slug Hj.
      assert (column_of p1 "slug" = column_of prev "slug") as Eps
        by (unfold column_of; by rewrite Hsp).
      assert (column_of p1 field = column_of prev field) as Epf
        by (unfold column_of; by rewrite Hsp by auto).
      assert (column_of c1 "slug" = column_of curr "slug") as Ecs
        by (unfold column_of; by rewrite Hsc).
      assert (column_of c1 field = column_of curr field) as Ecf
        by (unfold column_of; by rewrite Hsc by auto).
      assert (column_of c1 "continued" = continued_column files i) as Ecc
        by (unfold column_of; by rewrite Hcc).
      destruct (Hfile _ _ Hprev) as [Hwfp Hslp]. destruct (Hfile _ _ Hcurr) as [Hwfc Hslc].
      destruct (lookup_lt_is_Some_2 (column_of curr field) j) as [v Hv].
      { rewrite column_of_length by done. rewrite <- (column_of_length curr "slug") by done.
        by eapply lookup_lt_Some. }
      pose proof (continued_column_lookup files i j slug) as Hcont.
      rewrite (slug_column_eq _ _ _ Hcurr) in Hcont. specialize (Hcont Hj).
      unfold changed_column. rewrite Eps, Epf, Ecs, Ecf, Ecc.
      rewrite (changed_values_lookup _ _ _ _ _ _ _ _ Hj Hv Hcont).
      eexists _, _, v. split; [done|]. split; [done|]. split; [done|].
      rewrite (slugs_at_eq _ _ _ Hprev).
      assert (NoDup (column_of prev "slug")) as Hndp by by eapply (Forall_lookup_1 _ _ _ _ Hnd).
      assert (length (column_of prev "slug") = length (column_of prev field)) as Hlenp
        by by rewrite !column_of_length.
      unfold int_of_bool at 1.
      destruct (decide (slug ∈ to_set (column_of prev "slug"))) as [Hmem|Hmem].
      * rewrite !(bool_decide_eq_true_2 _ Hmem). simpl.
        apply elem_of_list_to_set, list_elem_of_lookup in Hmem as (j' & Hj').
        destruct (lookup_lt_is_Some_2 (column_of prev field) j') as [v' Hv'].
        { rewrite <- Hlenp. by eapply lookup_lt_Some. }
        assert (prev_values (column_of prev "slug") (column_of prev field) !! slug = Some v')
          as -> by (apply prev_values_lookup; eauto).
        unfold value_ne. simpl.
        assert (∀ j2 v2, column_of prev "slug" !! j2 = Some slug →
                         column_of prev field !! j2 = Some v2 → v2 = v') as Huniq.
        { intros j2 v2 Hs2 Hv2. assert (j2 = j') as -> by by eapply NoDup_lookup.
          congruence. }
        destruct (cell_ne v' v) eqn:Hne.
        { split; [auto|]. split; [|done]. intros _. split; [done|].
          exists j', v'. split; [done|]. split; [done|]. by apply cell_ne_spec. }
        split; [auto|]. split; [done|].
        intros (_ & j2 & v2 & Hs2 & Hv2 & Hne2). rewrite (Huniq _ _ Hs2 Hv2) in Hne2.
        apply cell_ne_spec in Hne2. congruence.
      * rewrite !(bool_decide_eq_false_2 _ Hmem). simpl.
        split; [auto|]. split; [done|]. by intros [? _].
  - intros (m & g & Hm & Hg & Hmiss).
    assert (g ∈ TAG_CHANGE_FIELDS) as Hgin by by eapply list_elem_of_lookup_2.
    rewrite (Hskipped n field Hfield).
    + apply Hsc. apply changed_name_tracked. unfold tracked. rewrite !elem_of_cons. auto.
    + exists m, g. rewrite (Hhas g prev p1), (Hhas g curr c1) by auto. done.
Qed.

(** ** C8 *)

Lemma tag_disappear_spec files :
  Forall (λ f, has_column "slug" f = true) files →
  ∃ fs, tag_disappear files = Ok fs ∧
        tagged_upto files "disappeared" (disappeared_column files) 0 (length files - 1) fs.
Proof.
  intros Hslug. unfold tag_disappear.
  destruct (tag_loop files "disappeared" (disappeared_column files) 0 (length files - 1)
    (λ i files,
       do curr_file <- item files i;
       do next_file <- item files (i + 1);
       do next_slugs <- getitem next_file "slug";
       let next_slug_set := to_set next_slugs in
       do curr_slugs <- getitem curr_file "slug";
       set_file_column files i "disappeared"
         (apply_int (series_not (isin curr_slugs next_slug_set))))) as (fs & Hrun & Hinv);
    [lia | | by exists fs].
  intros i fs Hi Hinv.
  destruct (lookup_lt_is_Some_2 files i) as [fi Hfi]; [lia|].
  destruct (lookup_lt_is_Some_2 files (i + 1)) as [fn Hfn]; [lia|].
  destruct (tagged_upto_slug _ _ _ _ _ _ i fi Hinv) as (gi & _ & -> & Hgi);
    [done | done | by eapply (Forall_lookup_1 _ _ _ _ Hslug) |].
  destruct (tagged_upto_slug _ _ _ _ _ _ (i + 1) fn Hinv) as (gn & _ & -> & Hgn);
    [done | done | by eapply (Forall_lookup_1 _ _ _ _ Hslug) |].
  simpl. rewrite Hgn, Hgi. simpl. unfold disappeared_column.
  by destruct (slug_column_getitem files (i + 1) fn Hfn) as [_ ->];
    [by eapply (Forall_lookup_1 _ _ _ _ Hslug)|].
Qed.

Lemma same_column_refl name fs : same_column name fs fs.
Proof. by split. Qed.

Lemma same_column_trans name fs1 fs2 fs3 :
  same_column name fs1 fs2 → same_column name fs2 fs3 → same_column name fs1 fs3.
Proof. intros [? H12] [? H23]. split; [congruence|]. intros k. by rewrite H12, H23. Qed.

Lemma tagged_upto_same_column files name col a b fs other :
  tagged_upto files name col a b fs → name ≠ other → same_column other files fs.
Proof.
  intros H Hne. split; [symmetry; by eapply tagged_upto_length|].
  intros k. symmetry. by eapply tagged_upto_column.
Qed.

Lemma same_column_has_column name fs fs' :
  same_column name fs fs' → Forall (λ f, has_column name f = true) fs →
  Forall (λ f, has_column name f = true) fs'.
Proof.
  intros [Hlen Hcol] Hall. apply Forall_lookup_2. intros k g Hg.
  destruct (lookup_lt_is_Some_2 fs k) as [f Hf]; [apply lookup_lt_Some in Hg; lia|].
  apply has_column_lookup. specialize (Hcol k). unfold column_at in Hcol.
  rewrite Hf, Hg in Hcol. simpl in Hcol. rewrite <- Hcol. apply has_column_lookup.
  by apply (Forall_lookup_1 _ _ _ _ Hall Hf).
Qed.

Lemma slug_column_column_at files k :
  slug_column files k = default [] (column_at files k "slug").
Proof. unfold slug_column, column_at. by destruct (files !! k). Qed.

Lemma slugs_at_column_at files k :
  slugs_at files k = from_option to_set ∅ (column_at files k "slug").
Proof. unfold slugs_at, column_at. by destruct (files !! k). Qed.

Lemma same_column_slugs fs fs' k :
  same_column "slug" fs fs' →
  slug_column fs k = slug_column fs' k ∧ slugs_at fs k = slugs_at fs' k.
Proof.
  intros [_ H]. by rewrite !slug_column_column_at, !slugs_at_column_at, (H k).
Qed.

Lemma same_column_slugs_up_to fs fs' k :
  same_column "slug" fs fs' → slugs_up_to fs k = slugs_up_to fs' k.
Proof.
  intros H. induction k as [|k IH]; simpl.
  - apply (same_column_slugs fs fs' 0 H).
  - rewrite IH. f_equal. apply (same_column_slugs fs fs' (S k) H).
Qed.

Lemma tag_field_changes_same_column fs0 fs name :
  length fs = length fs0 → fs !! 0 = fs0 !! 0 →
  (∀ k prev curr0, 1 ≤ k → fs0 !! (k - 1) = Some prev → fs0 !! k = Some curr0 →
     ∃ curr', fs !! k = Some curr' ∧ field_changes_post prev curr0 curr') →
  name ∈ tracked → same_column name fs0 fs.
Proof.
  intros Hlen H0 Hpost Hname. split; [done|]. intros k. unfold column_at.
  destruct (decide (k = 0)) as [->|Hk]; [by rewrite H0|].
  destruct (fs0 !! k) as [curr0|] eqn:Hc.
  - destruct (lookup_lt_is_Some_2 fs0 (k - 1)) as [prev Hprev];
      [apply lookup_lt_Some in Hc; lia|].
    destruct (Hpost k prev curr0) as (curr' & -> & Hp); [lia | done | done |]. simpl.
    apply field_changes_post_same_on in Hp as [_ Hp]. by apply Hp.
  - rewrite lookup_ge_None_2; [done|]. apply lookup_ge_None_1 in Hc. lia.
Qed.

Lemma tag_continued_ready files fs1 :
  tagged_upto files "continued" (continued_column files) 1 (1 `max` length files) fs1 →
  Forall well_formed files → Forall (λ f, has_column "slug" f = true) files →
  Forall well_formed fs1 ∧ Forall (λ f, has_column "slug" f = true) fs1 ∧
  (∀ k f, 1 ≤ k → fs1 !! k = Some f → has_column "continued" f = true).
Proof.
  intros Hinv Hwf Hslug.
  assert (length fs1 = length files) as Hlen by by eapply tagged_upto_length.
  split; [|split].
  - apply Forall_lookup_2. intros k g Hg.
    destruct (lookup_lt_is_Some_2 files k) as [f Hf]; [apply lookup_lt_Some in Hg; lia|].
    destruct (tag_continued_wave files fs1 k f Hinv Hf) as (g' & Hg' & _ & _ & _ & Hwfg).
    simplify_eq. apply Hwfg.
    + by apply (Forall_lookup_1 _ _ _ _ Hwf Hf).
    + by apply (Forall_lookup_1 _ _ _ _ Hslug Hf).
  - apply (same_column_has_column "slug" files); [|done].
    by eapply tagged_upto_same_column.
  - intros k g Hk Hg.
    destruct (lookup_lt_is_Some_2 files k) as [f Hf]; [apply lookup_lt_Some in Hg; lia|].
    destruct (tag_continued_wave files fs1 k f Hinv Hf) as (g' & Hg' & _ & _ & Hc & _).
    simplify_eq. apply has_column_lookup. rewrite Hc by done. eauto.
Qed.

(** C8: on well-formed waves that carry their slug column, the lifecycle
    steps of [main] from [tag_continued] to [tag_reappear] return, and on
    every wave [i >= 2] a row whose reappeared tag is 1 has continued tag 0
    and a slug that belongs to the slug set of some wave [0..i-2]. *)
Theorem reappeared_not_continued (files : list DataFrame) (i : nat) :
  Forall well_formed files →
  Forall (λ f, has_column "slug" f = true) files →
  2 ≤ i < length files →
  ∃ fs reappeared continued,
    lifecycle_tags files = Ok fs ∧
    column_at fs i "slug" = Some (slug_column files i) ∧
    column_at fs i "reappeared" = Some reappeared ∧
    column_at fs i "continued" = Some continued ∧
    ∀ j slug, slug_column files i !! j = Some slug →
      reappeared !! j = Some (Int 1%Z) →
      continued !! j = Some (Int 0%Z) ∧ ∃ k, k ≤ i - 2 ∧ slug ∈ slugs_at files k.
Proof.
  intros Hwf Hslug Hi.
  destruct (tag_continued_spec files Hslug) as (fs1 & Hrun1 & Hinv1).
  destruct (tag_continued_ready files fs1 Hinv1 Hwf Hslug) as (Hwf1 & Hslug1 & Hcont1).
  destruct (tag_field_changes_spec fs1 Hwf1 Hslug1 Hcont1) as (fs2 & Hrun2 & Hlen2 & H20 & Hpost).
  assert (∀ name, name ∈ tracked → same_column name fs1 fs2) as S12
    by (intros name Hname; by apply tag_field_changes_same_column).
  assert ("slug" ∈ tracked) as Tslug by (unfold tracked; rewrite !elem_of_cons; auto).
  assert ("continued" ∈ tracked) as Tcont by (unfold tracked; rewrite !elem_of_cons; auto).
  assert (Forall (λ f, has_column "slug" f = true) fs2) as Hslug2
    by (eapply same_column_has_column; [by apply S12 | done]).
  destruct (tag_disappear_spec fs2 Hslug2) as (fs3 & Hrun3 & Hinv3).
  assert (∀ name, name ≠ "disappeared" → same_column name fs2 fs3) as S23
    by (intros name Hname; eapply tagged_upto_same_column; [done | congruence]).
  assert (Forall (λ f, has_column "slug" f = true) fs3) as Hslug3
    by (eapply same_column_has_column; [by apply S23 | done]).
  assert (same_column "slug" files fs3) as Sslug.
  { eapply same_column_trans; [by eapply tagged_upto_same_column|].
    eapply same_column_trans; [by apply S12 | by apply S23]. }
  assert (length fs3 = length files) as Hlen3 by (symmetry; apply Sslug).
  destruct (get_slugs_up_to_i_array_spec fs3) as (up & Hup & Hupk);
    [intros ->; simpl in Hlen3; lia | done |].
  destruct (tag_reappear_spec fs3 up Hslug3 Hupk) as (fs4 & Hrun4 & Hinv4).
  exists fs4, (reappeared_column fs3 i), (continued_column files i).
  split; [|split; [|split; [|split]]].
  - unfold lifecycle_tags. rewrite Hrun1. simpl. rewrite Hrun2. simpl. rewrite Hrun3. simpl.
    by rewrite Hup.
  - rewrite (tagged_upto_column _ _ _ _ _ _ i "slug" Hinv4) by done.
    destruct Sslug as [_ <-]. rewrite slug_column_column_at.
    destruct (lookup_lt_is_Some_2 files i) as [f Hf]; [lia|].
    unfold column_at. rewrite Hf. simpl.
    by destruct (proj1 (has_column_lookup "slug" f) (Forall_lookup_1 _ _ _ _ Hslug Hf)) as [s ->].
  - apply (tagged_upto_written _ _ _ _ _ _ _ Hinv4); lia.
  - rewrite (tagged_upto_column _ _ _ _ _ _ i "continued" Hinv4) by done.
    assert (same_column "continued" fs2 fs3) as [_ <-] by by apply S23.
    destruct (S12 "continued" Tcont) as [_ <-].
    apply (tagged_upto_written _ _ _ _ _ _ _ Hinv1); lia.
  - intros j slug Hj.
    destruct (same_column_slugs files fs3 i Sslug) as [Hcol _].
    destruct (same_column_slugs files fs3 (i - 1) Sslug) as [_ Hprev].
    rewrite (reappeared_column_lookup fs3 i j slug) by by rewrite <- Hcol.
    rewrite (continued_column_lookup files i j slug Hj).
    rewrite <- (same_column_slugs_up_to files fs3 (i - 2) Sslug), <- Hprev.
    rewrite <- elem_of_slugs_up_to. unfold int_of_bool.
    do 2 case_bool_decide; simpl; intros Hre; try discriminate Hre; by split.
Qed.

(** ** Loops that rewrite each wave on its own *)

Lemma for_each_seq_partial {S} (P : nat → S → Prop) (body : nat → S → result S) n a s s' :
  P a s →
  (∀ i t t', a ≤ i < a + n → P i t → body i t = Ok t' → P (Datatypes.S i) t') →
  for_each (seq a n) body s = Ok s' → P (a + n) s'.
Proof.
  revert a s. induction n as [|n IH]; intros a s HP Hstep; simpl.
  - intros [= <-]. by rewrite Nat.add_0_r.
  - intros (t & Ht & Hrun)%bind_Ok.
    replace (a + Datatypes.S n) with (Datatypes.S a + n) by lia.
    apply (IH (Datatypes.S a) t); [|intros i u u' Hi; apply Hstep; lia|done].
    apply (Hstep a s t); [lia | done | done].
Qed.

Section wave_loop.
Variable F : DataFrame → result DataFrame.
Variable body : nat → list DataFrame → result (list DataFrame).
Hypothesis body_wave : ∀ i fs f,
  fs !! i = Some f → body i fs = do f' <- F f; Ok (<[i := f']> fs).

Lemma wave_loop_step files i fs f t :
  wave_loop_inv F files i fs → files !! i = Some f → body i fs = Ok t →
  wave_loop_inv F files (S i) t.
Proof.
  intros (Hlen & Hout & Hin) Hf Hbody.
  rewrite (body_wave i fs f) in Hbody by (rewrite Hout by lia; done).
  apply bind_Ok in Hbody as (f' & Hf' & [= <-]).
  split; [by rewrite length_insert|]. split.
  - intros k Hk. rewrite list_lookup_insert_ne by lia. apply Hout. lia.
  - intros k g Hk Hg. destruct (decide (k = i)) as [->|Hki].
    + rewrite list_lookup_insert_eq by (apply lookup_lt_Some in Hf; lia).
      simplify_eq. eauto.
    + rewrite list_lookup_insert_ne by done. apply Hin; [lia | done].
Qed.

(** If the loop returns, every wave was rewritten by [F]. *)
Lemma wave_loop_partial files fs :
  for_each (range 0 (length files)) body files = Ok fs →
  length fs = length files ∧
  ∀ i f, files !! i = Some f → ∃ f', fs !! i = Some f' ∧ F f = Ok f'.
Proof.
  unfold range. rewrite Nat.sub_0_r. intros Hrun.
  apply (for_each_seq_partial (wave_loop_inv F files)) in Hrun as (Hlen & _ & Hin).
  - split; [done|]. intros i f Hf. apply Hin; [|done]. by apply lookup_lt_Some in Hf.
  - split; [done|]. split; [done|]. intros; lia.
  - intros i t t' Hi Hinv Hbody.
    destruct (lookup_lt_is_Some_2 files i) as [f Hf]; [lia|].
    by eapply wave_loop_step.
Qed.

(** If [F] returns on every wave, so does the loop. *)
Lemma wave_loop_total files :
  (∀ i f, files !! i = Some f → ∃ f', F f = Ok f') →
  ∃ fs, for_each (range 0 (length files)) body files = Ok fs.
Proof.
  intros HF. unfold range. rewrite Nat.sub_0_r.
  destruct (for_each_seq_inv (wave_loop_inv F files) body (length files) 0 files) as (fs & Hrun & _);
    [| |by exists fs].
  - split; [done|]. split; [done|]. intros; lia.
  - intros i fs Hi Hinv.
    destruct (lookup_lt_is_Some_2 files i) as [f Hf]; [lia|].
    destruct (HF i f Hf) as [f' Hf'].
    pose proof Hinv as (Hlen & Hout & Hin).
    exists (<[i := f']> fs). split.
    + rewrite (body_wave i fs f) by (rewrite Hout by lia; done). by rewrite Hf'.
    + apply (wave_loop_step files i fs f); [done | done |].
      rewrite (body_wave i fs f) by (rewrite Hout by lia; done). by rewrite Hf'.
Qed.

(** If [F] returns or raises [e] on every wave, the loop returns or raises
    [e]. *)
Lemma wave_loop_raises files e :
  (∀ i f, files !! i = Some f → (∃ f', F f = Ok f') ∨ F f = Raise e) →
  (∃ fs, for_each (range 0 (length files)) body files = Ok fs) ∨
  for_each (range 0 (length files)) body files = Raise e.
Proof.
  intros HF. unfold range. rewrite Nat.sub_0_r.
  assert (∀ n a fs, a + n = length files → wave_loop_inv F files a fs →
            (∃ fs', for_each (seq a n) body fs = Ok fs') ∨
            for_each (seq a n) body fs = Raise e) as Hloop.
  { induction n as [|n IH]; intros a fs Han Hinv; simpl; [left; eauto|].
    destruct (lookup_lt_is_Some_2 files a) as [f Hf]; [lia|].
    pose proof Hinv as (Hlen & Hout & Hin).
    rewrite (body_wave a fs f) by (rewrite Hout by lia; done).
    destruct (HF a f Hf) as [[f' Hf']| ->]; [|by right].
    rewrite Hf'. cbn [bind]. apply IH; [lia|].
    apply (wave_loop_step files a fs f); [done | done |].
    rewrite (body_wave a fs f) by (rewrite Hout by lia; done). by rewrite Hf'. }
  apply Hloop; [done|]. split; [done|]. split; [done|]. intros; lia.
Qed.
End wave_loop.

Lemma tag_license_status_body i fs f :
  fs !! i = Some f →
  (do file <- item fs i;
   if has_column "license" file then
     do file' <- tag_license_status_file file; Ok (<[i := file']> fs)
   else Ok fs) = do f' <- tag_license_wave f; Ok (<[i := f']> fs).
Proof.
  intros Hf. rewrite (item_lookup _ _ _ Hf). simpl. unfold tag_license_wave.
  destruct (has_column "license" f); [done|]. simpl. by rewrite list_insert_id.
Qed.

Lemma tag_license_status_partial files fs :
  tag_license_status files = Ok fs →
  length fs = length files ∧
  ∀ i f, files !! i = Some f → ∃ f', fs !! i = Some f' ∧ tag_license_wave f = Ok f'.
Proof. apply wave_loop_partial, tag_license_status_body. Qed.

Lemma tag_license_status_total files :
  (∀ i f, files !! i = Some f → ∃ f', tag_license_wave f = Ok f') →
  ∃ fs, tag_license_status files = Ok fs.
Proof. apply wave_loop_total, tag_license_status_body. Qed.

Lemma tag_license_status_raises files e :
  (∀ i f, files !! i = Some f → (∃ f', tag_license_wave f = Ok f') ∨
                                 tag_license_wave f = Raise e) →
  (∃ fs, tag_license_status files = Ok fs) ∨ tag_license_status files = Raise e.
Proof. apply wave_loop_raises, tag_license_status_body. Qed.

(** ** License tags of one wave *)

Lemma map_result_Ok_Forall {A B} (f : A → result B) xs ys :
  map_result f xs = Ok ys → Forall (λ x, ∃ y, f x = Ok y) xs.
Proof.
  revert ys. induction xs as [|x xs IH]; intros ys; simpl; [by constructor|].
  intros (y & Hy & (ys' & Hys & _)%bind_Ok)%bind_Ok. constructor; eauto.
Qed.

Lemma apply_convert formt col :
  Forall (λ c, ∃ d, convert_str_to_datetime_maker formt c = Ok d) col →
  map_result (convert_str_to_datetime_maker formt) col = Ok (parsed_dates formt col).
Proof.
  induction 1 as [|c col [d Hd] _ IH]; [done|].
  cbn [map_result]. rewrite Hd. cbn [bind]. rewrite IH. cbn [bind].
  unfold parsed_dates. rewrite fmap_cons. by rewrite Hd.
Qed.

Lemma for_each_foldl {S A} (P : S → Prop) (xs : list A) (body : A → S → result S)
    (g : S → A → S) s :
  P s → (∀ x t, x ∈ xs → P t → body x t = Ok (g t x) ∧ P (g t x)) →
  for_each xs body s = Ok (foldl g s xs) ∧ P (foldl g s xs).
Proof.
  revert s. induction xs as [|x xs IH]; intros s HP Hstep; simpl; [done|].
  destruct (Hstep x s) as [-> HP']; [by left | done |]. simpl.
  apply IH; [done|]. intros y t Hy. apply Hstep. by right.
Qed.

Ltac license_cases Hw :=
  unfold LICENSE_STATUSES in Hw; rewrite !elem_of_cons, elem_of_nil in Hw;
  destruct Hw as [->|[->|[->|[->|[->|[]]]]]].

Lemma license_tag_fresh w name :
  w ∈ LICENSE_STATUSES →
  name ∈ "possible_license" :: "future_license_explicit" :: license_columns →
  w +:+ "_license" ≠ name.
Proof.
  intros Hw. unfold license_columns. rewrite !elem_of_cons, elem_of_nil.
  intros H Heq. subst name.
  license_cases Hw; cbn in H; destruct H as [H|[H|[H|[H|[H|[H|[]]]]]]]; discriminate H.
Qed.

Lemma license_tag_inj w w' :
  w ∈ LICENSE_STATUSES → w' ∈ LICENSE_STATUSES →
  w +:+ "_license" = w' +:+ "_license" → w = w'.
Proof.
  intros Hw Hw' H. license_cases Hw; license_cases Hw'; cbn in H;
    (reflexivity || discriminate H).
Qed.

Lemma LICENSE_STATUSES_NoDup : NoDup LICENSE_STATUSES.
Proof. apply (bool_decide_unpack _). by vm_compute. Qed.

Lemma license_getitems file0 file :
  license_ready file0 → same_on license_columns file0 file →
  getitem file "license" = Ok (column_of file0 "license") ∧
  getitem file "status" = Ok (column_of file0 "status") ∧
  getitem file "issue_date" = Ok (column_of file0 "issue_date") ∧
  getitem file "access_date" = Ok (column_of file0 "access_date").
Proof.
  intros (Hwf & Hl & Hs & Hi & Ha & _) Hsame.
  assert (∀ name, name ∈ license_columns → has_column name file0 = true →
                  getitem file name = Ok (column_of file0 name)) as Hget.
  { intros name Hname Hhas. rewrite <- (same_on_getitem _ _ _ name Hsame Hname).
    by apply getitem_column_of. }
  repeat split; (apply Hget; [apply (bool_decide_unpack _); by vm_compute | done]).
Qed.

Lemma compare_dates_Ok cmp a b :
  float64_dates a = float64_dates b → compare_dates cmp a b = Ok (compare_rows cmp a b).
Proof. intros H. unfold compare_dates. rewrite H. by destruct (float64_dates b). Qed.

Lemma compare_dates_Raise cmp a b :
  float64_dates a ≠ float64_dates b → compare_dates cmp a b = Raise TypeError.
Proof.
  intros H. unfold compare_dates. by destruct (float64_dates a), (float64_dates b).
Qed.

Lemma tag_license_category_spec file0 file w :
  license_ready file0 → dates_comparable file0 → same_on license_columns file0 file →
  tag_license_category w file = Ok (category_step file0 file w).
Proof.
  intros Hready Hcmp Hsame.
  destruct (license_getitems file0 file Hready Hsame) as (Gl & Gs & Gi & Ga).
  destruct Hready as (_ & _ & _ & _ & _ & Hpi & Hpa).
  unfold tag_license_category, category_step.
  rewrite Gs. cbn [bind]. case_bool_decide; [|done].
  rewrite Gl, Gi. cbn [bind]. rewrite (apply_convert _ _ Hpi). cbn [bind].
  rewrite Ga. cbn [bind]. rewrite (apply_convert _ _ Hpa). cbn [bind].
  unfold series_le. by rewrite (compare_dates_Ok _ _ _ Hcmp).
Qed.

(** On a wave whose date columns come out with different dtypes, an
    iteration of the loop over the status words leaves the wave as it was
    or raises TypeError. *)
Lemma tag_license_category_incomparable file0 file w :
  license_ready file0 → ¬ dates_comparable file0 → same_on license_columns file0 file →
  tag_license_category w file = Ok file ∨ tag_license_category w file = Raise TypeError.
Proof.
  intros Hready Hcmp Hsame.
  destruct (license_getitems file0 file Hready Hsame) as (Gl & Gs & Gi & Ga).
  destruct Hready as (_ & _ & _ & _ & _ & Hpi & Hpa).
  unfold tag_license_category.
  rewrite Gs. cbn [bind]. case_bool_decide; [|by left]. right.
  rewrite Gl, Gi. cbn [bind]. rewrite (apply_convert _ _ Hpi). cbn [bind].
  rewrite Ga. cbn [bind]. rewrite (apply_convert _ _ Hpa). cbn [bind].
  unfold series_le. by rewrite (compare_dates_Raise _ _ _ Hcmp).
Qed.

Lemma category_step_same_on file0 file w :
  w ∈ LICENSE_STATUSES → same_on license_columns file0 file →
  same_on license_columns file0 (category_step file0 file w).
Proof.
  intros Hw Hsame. unfold category_step. case_bool_decide; [|done].
  eapply same_on_trans; [done|]. apply same_on_setitem. intros Hin.
  apply (license_tag_fresh w (w +:+ "_license") Hw); [by do 2 right | done].
Qed.

Lemma category_fold_frame file0 ws file name :
  (∀ w, w ∈ ws → Str w ∈ column_of file0 "status" → w +:+ "_license" ≠ name) →
  lookup_col name (cols (foldl (category_step file0) file ws)) = lookup_col name (cols file).
Proof.
  revert file. induction ws as [|x ws IH]; intros file Hne; simpl; [done|].
  rewrite IH by (intros w Hw; apply Hne; by right).
  unfold category_step. case_bool_decide; [|done].
  apply lookup_col_setitem_ne, Hne; [by left | done].
Qed.

Lemma category_fold_written file0 ws file w :
  NoDup ws → (∀ x, x ∈ ws → x ∈ LICENSE_STATUSES) → w ∈ ws →
  Str w ∈ column_of file0 "status" →
  lookup_col (w +:+ "_license") (cols (foldl (category_step file0) file ws)) =
  Some (category_column file0 w).
Proof.
  revert file. induction ws as [|x ws IH]; intros file Hnd Hsub Hw Hin.
  - by apply elem_of_nil in Hw.
  - apply NoDup_cons in Hnd as [Hx Hnd]. simpl. apply elem_of_cons in Hw as [->|Hw].
    + rewrite category_fold_frame.
      * unfold category_step. rewrite bool_decide_eq_true_2 by done.
        apply lookup_col_setitem_eq.
      * intros w Hw _ Heq.
        apply license_tag_inj in Heq; [by subst | apply Hsub; by right | apply Hsub; by left].
    + apply IH; [done | | done | done]. intros y Hy. apply Hsub. by right.
Qed.

Lemma tag_license_status_file_spec file0 :
  license_ready file0 → dates_comparable file0 →
  tag_license_status_file file0 =
    Ok (setitem (setitem (foldl (category_step file0) file0 LICENSE_STATUSES)
                         "possible_license" (possible_license_column file0))
                "future_license_explicit" (future_license_column file0)).
Proof.
  intros Hready Hcmp. unfold tag_license_status_file.
  destruct (for_each_foldl (same_on license_columns file0) LICENSE_STATUSES
              tag_license_category (category_step file0) file0) as [-> Hsame].
  { apply same_on_refl. }
  { intros w t Hw Ht. split; [by apply tag_license_category_spec|].
    by apply category_step_same_on. }
  set (fc := foldl (category_step file0) file0 LICENSE_STATUSES) in *.
  assert (same_on license_columns file0
            (setitem fc "possible_license" (possible_license_column file0))) as Hsame2.
  { eapply same_on_trans; [done|]. apply same_on_setitem.
    unfold license_columns. rewrite !elem_of_cons, elem_of_nil.
    intros [H|[H|[H|[H|[]]]]]; discriminate H. }
  destruct (license_getitems file0 fc Hready Hsame) as (Gl & _ & Gi & _).
  destruct (license_getitems file0 _ Hready Hsame2) as (Gl2 & _ & Gi2 & Ga2).
  destruct Hready as (_ & _ & _ & _ & _ & Hpi & Hpa).
  cbn [bind]. rewrite Gl, Gi. cbn [bind]. fold (possible_license_column file0).
  rewrite Gl2, Gi2. cbn [bind]. rewrite (apply_convert _ _ Hpi). cbn [bind].
  rewrite Ga2. cbn [bind]. rewrite (apply_convert _ _ Hpa). cbn [bind].
  unfold series_gt. by rewrite (compare_dates_Ok _ _ _ Hcmp).
Qed.

(** On a wave whose date columns come out of the conversion with
    different dtypes the license step raises TypeError: at the first
    status word that is the status of a record, or else at the comparison
    for [future_license_explicit]. *)
Lemma tag_license_status_file_incomparable file0 :
  license_ready file0 → ¬ dates_comparable file0 →
  tag_license_status_file file0 = Raise TypeError.
Proof.
  intros Hready Hcmp. unfold tag_license_status_file.
  assert (∀ ws file, same_on license_columns file0 file →
            for_each ws tag_license_category file = Ok file ∨
            for_each ws tag_license_category file = Raise TypeError) as Hloop.
  { induction ws as [|w ws IH]; intros file Hsame; simpl; [by left|].
    destruct (tag_license_category_incomparable file0 file w Hready Hcmp Hsame) as [-> | ->];
      [|by right].
    cbn [bind]. by apply IH. }
  destruct (Hloop LICENSE_STATUSES file0 (same_on_refl _ _)) as [-> | ->]; [|done].
  assert (same_on license_columns file0
            (setitem file0 "possible_license" (possible_license_column file0))) as Hsame2.
  { apply same_on_setitem.
    unfold license_columns. rewrite !elem_of_cons, elem_of_nil.
    intros [H|[H|[H|[H|[]]]]]; discriminate H. }
  destruct (license_getitems file0 file0 Hready (same_on_refl _ _)) as (Gl & _ & Gi & _).
  destruct (license_getitems file0 _ Hready Hsame2) as (Gl2 & _ & Gi2 & Ga2).
  destruct Hready as (_ & _ & _ & _ & _ & Hpi & Hpa).
  cbn [bind]. rewrite Gl, Gi. cbn [bind]. fold (possible_license_column file0).
  rewrite Gl2, Gi2. cbn [bind]. rewrite (apply_convert _ _ Hpi). cbn [bind].
  rewrite Ga2. cbn [bind]. rewrite (apply_convert _ _ Hpa). cbn [bind].
  unfold series_gt. by rewrite (compare_dates_Raise _ _ _ Hcmp).
Qed.

Lemma category_column_lookup file w j lic iss acc st :
  column_of file "license" !! j = Some lic →
  column_of file "issue_date" !! j = Some iss →
  column_of file "access_date" !! j = Some acc →
  column_of file "status" !! j = Some st →
  category_column file w !! j =
    Some (int_of_bool
            (negb (is_null lic) && negb (is_null iss) &&
             match parsed_dates fmt_mdY [iss], parsed_dates fmt_Ymd [acc] with
             | [Some p], [Some q] => datetime_le p q
             | _, _ => false
             end &&
             match st with Str x => contains w x | _ => false end)).
Proof.
  intros Hl Hi Ha Hs.
  unfold category_column, apply_int, series_and, compare_rows, notnull, str_contains,
    parsed_dates.
  rewrite list_lookup_fmap, !lookup_zip_with, !list_lookup_fmap, Hl, Hi, Ha, Hs. simpl.
  by destruct (convert_str_to_datetime_maker fmt_mdY iss) as [[?|]|],
              (convert_str_to_datetime_maker fmt_Ymd acc) as [[?|]|].
Qed.

Lemma tag_license_status_spec files :
  (∀ k f, files !! k = Some f → has_column "license" f = true →
          license_ready f ∧ dates_comparable f) →
  ∃ fs, tag_license_status files = Ok fs ∧
    ∀ i file, files !! i = Some file → has_column "license" file = true →
      fs !! i =
        Some (setitem (setitem (foldl (category_step file) file LICENSE_STATUSES)
                               "possible_license" (possible_license_column file))
                      "future_license_explicit" (future_license_column file)).
Proof.
  intros Hready. destruct (tag_license_status_total files) as [fs Hrun].
  { intros i f Hf. unfold tag_license_wave. destruct (has_column "license" f) eqn:Hl; [|eauto].
    destruct (Hready i f Hf Hl) as [Hr Hc].
    rewrite tag_license_status_file_spec by done. eauto. }
  exists fs. split; [done|]. intros i file Hfile Hl.
  destruct (tag_license_status_partial files fs Hrun) as [_ Hwave].
  destruct (Hwave i file Hfile) as (file' & -> & Hfile'). f_equal.
  unfold tag_license_wave in Hfile'. rewrite Hl in Hfile'.
  destruct (Hready i file Hfile Hl) as [Hr Hc].
  rewrite tag_license_status_file_spec in Hfile' by done. congruence.
Qed.

Lemma license_tag_lookup file w :
  w ∈ LICENSE_STATUSES →
  lookup_col (w +:+ "_license")
    (cols (setitem (setitem (foldl (category_step file) file LICENSE_STATUSES)
                            "possible_license" (possible_license_column file))
                   "future_license_explicit" (future_license_column file))) =
  if bool_decide (Str w ∈ column_of file "status")
  then Some (category_column file w)
  else lookup_col (w +:+ "_license") (cols file).
Proof.
  intros Hw.
  rewrite !lookup_col_setitem_ne
    by (intros Heq; symmetry in Heq; revert Heq; apply license_tag_fresh;
        [done | rewrite !elem_of_cons; auto]).
  case_bool_decide as Hin.
  - apply category_fold_written; [apply LICENSE_STATUSES_NoDup | done | done | done].
  - apply category_fold_frame. intros x Hx Hpresent Heq.
    apply license_tag_inj in Heq; [by subst | done | done].
Qed.

Lemma int_of_bool_tag (b : bool) (P : Prop) :
  (b = true ↔ P) →
  ∃ tag, Some (int_of_bool b) = Some (Int tag) ∧ (tag = 0 ∨ tag = 1)%Z ∧ (tag = 1%Z ↔ P).
Proof.
  intros HP. destruct b; simpl; eexists; (split; [done|]); (split; [auto|]).
  - split; [intros _; by apply HP | done].
  - split; [done | intros HP'%HP; done].
Qed.


Lemma dates_le_true iss acc :
  match parsed_dates fmt_mdY [iss], parsed_dates fmt_Ymd [acc] with
  | [Some p], [Some q] => datetime_le p q
  | _, _ => false
  end = true ↔
  ∃ d1 d2, convert_str_to_datetime_maker fmt_mdY iss = Ok (Some d1) ∧
           convert_str_to_datetime_maker fmt_Ymd acc = Ok (Some d2) ∧
           datetime_le d1 d2 = true.
Proof.
  unfold parsed_dates. rewrite !fmap_cons, !fmap_nil.
  destruct (convert_str_to_datetime_maker fmt_mdY iss) as [[d1|]|e1];
    destruct (convert_str_to_datetime_maker fmt_Ymd acc) as [[d2|]|e2];
    split; try done; try (intros (? & ? & ? & ? & ?); congruence).
  intros Hle. by exists d1, d2.
Qed.

Lemma str_contains_true st w :
  match st with Str x => contains w x | _ => false end = true ↔
  ∃ s, st = Str s ∧ contains w s = true.
Proof.
  destruct st as [| |s|z]; split; try done; try (intros (? & ? & ?); congruence).
  intros H. by exists s.
Qed.

(** ** C3 *)

(** C3 (amended): on waves that are ready for the license step and whose
    two date columns pandas can compare (not a wave with records in which
    every issue date is missing and an access date is not, or the other
    way round: there the step raises TypeError, see C6),
    [tag_license_status] returns, and for a wave with a license column and
    a status word [w] of the five: when [w] is the whole status of at least
    one record of the wave, the tag [w_license] of a record is 0 or 1, and
    is 1 exactly when its license identifier is present, its issue date is
    present, the issue date is not after the access date, and its status
    text contains [w]; when [w] is the whole status of no record, the step
    writes no [w_license] column on the wave. *)
Theorem tag_license_status_correct (files : list DataFrame) (i : nat) (file : DataFrame)
    (w : string) :
  (∀ k f, files !! k = Some f → has_column "license" f = true →
          license_ready f ∧ dates_comparable f) →
  files !! i = Some file → has_column "license" file = true → w ∈ LICENSE_STATUSES →
  ∃ fs file',
    tag_license_status files = Ok fs ∧ fs !! i = Some file' ∧
    (Str w ∉ column_of file "status" →
     lookup_col (w +:+ "_license") (cols file') = lookup_col (w +:+ "_license") (cols file)) ∧
    (Str w ∈ column_of file "status" →
     ∃ tags, lookup_col (w +:+ "_license") (cols file') = Some tags ∧
       ∀ j lic iss acc st,
         column_of file "license" !! j = Some lic →
         column_of file "issue_date" !! j = Some iss →
         column_of file "access_date" !! j = Some acc →
         column_of file "status" !! j = Some st →
         ∃ tag, tags !! j = Some (Int tag) ∧ (tag = 0 ∨ tag = 1)%Z ∧
           (tag = 1%Z ↔
            is_null lic = false ∧ is_null iss = false ∧
            (∃ d1 d2, convert_str_to_datetime_maker fmt_mdY iss = Ok (Some d1) ∧
                      convert_str_to_datetime_maker fmt_Ymd acc = Ok (Some d2) ∧
                      datetime_le d1 d2 = true) ∧
            (∃ s, st = Str s ∧ contains w s = true))).
Proof.
  intros Hready Hfile Hl Hw.
  destruct (tag_license_status_spec files Hready) as (fs & Hrun & Hfs).
  eexists fs, _. split; [done|]. split; [by apply Hfs|].
  rewrite (license_tag_lookup file w Hw). split.
  - intros Hnot. by rewrite bool_decide_eq_false_2.
  - intros Hin. rewrite bool_decide_eq_true_2 by done.
    eexists. split; [done|]. intros j lic iss acc st Hlic Hiss Hacc Hst.
    rewrite (category_column_lookup file w j lic iss acc st Hlic Hiss Hacc Hst).
    apply int_of_bool_tag. rewrite !andb_true_iff, !negb_true_iff.
    rewrite dates_le_true, str_contains_true. tauto.
Qed.


(** C3, as stated, fails: the record of [renewal_wave] has a license, an
    issue date before the access date and a status that contains "active"
    (the formula of the tag gives 1), and [tag_license_status] returns a
    wave without any [active_license] column, because no record of the wave
    has the status "active" itself. *)
Lemma active_pending_renewal_untagged :
  category_column renewal_wave "active" = [Int 1%Z] ∧
  ∃ fs, tag_license_status [renewal_wave] = Ok fs ∧
        column_at fs 0 "active_license" = None ∧
        column_at fs 0 "possible_license" = Some [Int 0%Z].
Proof. split; [by vm_compute|]. eexists. split; [by vm_compute|]. by vm_compute. Qed.

(** ** C4 *)

(** C4: on [renewal_wave], a wave with a license column for which
    [tag_license_status] wrote no [active_license] column,
    [tag_assumed_license_status] raises [KeyError]. *)
Theorem assumed_license_raises :
  has_column "license" renewal_wave = true ∧
  ∃ fs, tag_license_status [renewal_wave] = Ok fs ∧
        column_at fs 0 "active_license" = None ∧
        tag_assumed_license_status fs = Raise (KeyError "active_license").
Proof. split; [by vm_compute|]. eexists. split; [by vm_compute|]. by vm_compute. Qed.

(** ** C6 *)

Lemma strptime_raises string formt e : strptime string formt = Raise e → e = ValueError.
Proof.
  unfold strptime.
  destruct (match_format formt (String.list_ascii_of_string string) (mkDate 1900 1 1))
    as [|[d [|a rest]] alts]; try by intros [= <-].
  by destruct (_ && _); [|intros [= <-]].
Qed.

Lemma convert_malformed formt s :
  (∀ d, strptime s formt ≠ Ok d) →
  convert_str_to_datetime_maker formt (Str s) = Raise ValueError.
Proof.
  intros Hbad. simpl. destruct (strptime s formt) as [d|e] eqn:Hs.
  - by destruct (Hbad d).
  - simpl. by rewrite (strptime_raises _ _ _ Hs).
Qed.

Lemma tag_license_category_same_on w t t' :
  w ∈ LICENSE_STATUSES → tag_license_category w t = Ok t' → same_on license_columns t t'.
Proof.
  intros Hw. unfold tag_license_category. intros (status & _ & H)%bind_Ok.
  case_bool_decide; [|injection H as <-; apply same_on_refl].
  apply bind_Ok in H as (? & _ & H). apply bind_Ok in H as (? & _ & H).
  apply bind_Ok in H as (? & _ & H). apply bind_Ok in H as (? & _ & H).
  apply bind_Ok in H as (? & _ & H). apply bind_Ok in H as (? & _ & H).
  apply bind_Ok in H as (? & _ & H).
  injection H as <-. apply same_on_setitem. intros Hin.
  apply (license_tag_fresh w (w +:+ "_license") Hw); [by do 2 right | done].
Qed.

(** A wave on which the license step returns has dates that all convert. *)
Lemma tag_license_status_file_dates file file' :
  tag_license_status_file file = Ok file' →
  Forall (λ c, ∃ d, convert_str_to_datetime_maker fmt_mdY c = Ok d) (column_of file "issue_date") ∧
  Forall (λ c, ∃ d, convert_str_to_datetime_maker fmt_Ymd c = Ok d) (column_of file "access_date").
Proof.
  unfold tag_license_status_file. intros (fc & Hfc & H)%bind_Ok.
  assert (same_on license_columns file fc) as Hsame.
  { revert Hfc. apply for_each_partial; [apply same_on_refl|].
    intros w t t' Hw Ht Hstep. eapply same_on_trans; [done|].
    by apply (tag_license_category_same_on w). }
  apply bind_Ok in H as (lic & _ & H). apply bind_Ok in H as (iss & _ & H).
  apply bind_Ok in H as (? & _ & H). apply bind_Ok in H as (? & _ & H).
  apply bind_Ok in H as (issue_date & Hi & H). apply bind_Ok in H as (issue & Hissue & H).
  apply bind_Ok in H as (access_date & Ha & H). apply bind_Ok in H as (access & Haccess & _).
  assert (same_on license_columns file (setitem fc "possible_license"
            (apply_int (series_and (notnull lic) (isna iss))))) as [_ Hsame2].
  { eapply same_on_trans; [done|]. apply same_on_setitem.
    unfold license_columns. rewrite !elem_of_cons, elem_of_nil.
    intros [E|[E|[E|[E|[]]]]]; discriminate E. }
  apply getitem_Ok in Hi, Ha.
  rewrite <- Hsame2 in Hi, Ha by (apply (bool_decide_unpack _); by vm_compute).
  unfold column_of. rewrite Hi, Ha. simpl.
  split; by eapply map_result_Ok_Forall.
Qed.

Lemma future_license_lookup file :
  lookup_col "future_license_explicit"
    (cols (setitem (setitem (foldl (category_step file) file LICENSE_STATUSES)
                            "possible_license" (possible_license_column file))
                   "future_license_explicit" (future_license_column file))) =
  Some (future_license_column file).
Proof. apply lookup_col_setitem_eq. Qed.

Lemma future_license_column_lookup file j lic iss acc :
  column_of file "license" !! j = Some lic →
  column_of file "issue_date" !! j = Some iss →
  column_of file "access_date" !! j = Some acc →
  future_license_column file !! j =
    Some (int_of_bool
            (negb (is_null lic) && negb (is_null iss) &&
             match parsed_dates fmt_mdY [iss], parsed_dates fmt_Ymd [acc] with
             | [Some p], [Some q] => negb (datetime_le p q)
             | _, _ => false
             end)).
Proof.
  intros Hl Hi Ha.
  unfold future_license_column, apply_int, series_and, compare_rows, notnull, parsed_dates.
  rewrite list_lookup_fmap, !lookup_zip_with, !list_lookup_fmap, Hl, Hi, Ha. simpl.
  by destruct (convert_str_to_datetime_maker fmt_mdY iss) as [[?|]|],
              (convert_str_to_datetime_maker fmt_Ymd acc) as [[?|]|].
Qed.

Lemma float64_dates_true a :
  a ≠ [] → (∀ x, x ∈ a → x = None) → float64_dates a = true.
Proof.
  destruct a as [|x a]; [done|]. intros _ Hall. simpl.
  rewrite (Hall x) by by left. simpl. apply forallb_forall. intros y Hy.
  rewrite (Hall y); [done|]. right. by apply list_elem_of_In.
Qed.

Lemma float64_dates_false a d : Some d ∈ a → float64_dates a = false.
Proof.
  intros Hin. destruct a as [|x a]; [by apply elem_of_nil in Hin|].
  unfold float64_dates. apply not_true_is_false. rewrite forallb_forall.
  intros Hall. specialize (Hall (Some d)). by discriminate Hall; apply list_elem_of_In.
Qed.

(** C6 (amended): a date string that fails to parse is not treated as
    absent: [convert_str_to_datetime_maker] raises [ValueError] on it, and
    [tag_license_status] raises on every list of waves in which a wave with
    a license column holds such a string in its issue or access dates. A
    missing date (NaN) is treated as absent only where pandas can compare
    the two date columns: on such waves the step returns, and a record
    whose issue date or access date is missing gets 0 for
    [future_license_explicit] and for every category tag written. On a
    wave with records in which every issue date is missing and an access
    date is not, the comparison itself raises [TypeError]. *)
Theorem malformed_date_raises :
  (∀ formt s, (∀ d, strptime s formt ≠ Ok d) →
     convert_str_to_datetime_maker formt (Str s) = Raise ValueError) ∧
  (∀ files i file s,
     files !! i = Some file → has_column "license" file = true →
     (Str s ∈ column_of file "issue_date" ∧ (∀ d, strptime s fmt_mdY ≠ Ok d)) ∨
     (Str s ∈ column_of file "access_date" ∧ (∀ d, strptime s fmt_Ymd ≠ Ok d)) →
     ∃ e, tag_license_status files = Raise e) ∧
  (∀ files i file,
     (∀ k f, files !! k = Some f → has_column "license" f = true →
             license_ready f ∧ dates_comparable f) →
     files !! i = Some file → has_column "license" file = true →
     ∃ fs file' future,
       tag_license_status files = Ok fs ∧ fs !! i = Some file' ∧
       lookup_col "future_license_explicit" (cols file') = Some future ∧
       ∀ j lic iss acc st,
         column_of file "license" !! j = Some lic →
         column_of file "issue_date" !! j = Some iss →
         column_of file "access_date" !! j = Some acc →
         column_of file "status" !! j = Some st →
         iss = NaN ∨ acc = NaN →
         future !! j = Some (Int 0%Z) ∧
         ∀ w tags, w ∈ LICENSE_STATUSES → Str w ∈ column_of file "status" →
                   lookup_col (w +:+ "_license") (cols file') = Some tags →
                   tags !! j = Some (Int 0%Z)) ∧
  (∀ files i file s,
     (∀ k f, files !! k = Some f → has_column "license" f = true → license_ready f) →
     files !! i = Some file → has_column "license" file = true →
     column_of file "issue_date" ≠ [] →
     (∀ c, c ∈ column_of file "issue_date" → c = NaN) →
     Str s ∈ column_of file "access_date" →
     tag_license_status files = Raise TypeError).
Proof.
  split; [apply convert_malformed|]. split; [|split].
  - intros files i file s Hfile Hl Hbad.
    destruct (tag_license_status files) as [fs|e] eqn:Hrun; [|by exists e].
    destruct (tag_license_status_partial files fs Hrun) as [_ Hwave].
    destruct (Hwave i file Hfile) as (file' & _ & Hfile').
    unfold tag_license_wave in Hfile'. rewrite Hl in Hfile'.
    destruct (tag_license_status_file_dates file file' Hfile') as [Hi Ha].
    destruct Hbad as [[Hin Hs]|[Hin Hs]].
    + destruct (proj1 (Forall_forall _ _) Hi _ Hin) as [d Hd].
      by rewrite (convert_malformed _ _ Hs) in Hd.
    + destruct (proj1 (Forall_forall _ _) Ha _ Hin) as [d Hd].
      by rewrite (convert_malformed _ _ Hs) in Hd.
  - intros files i file Hready Hfile Hl.
    destruct (tag_license_status_spec files Hready) as (fs & Hrun & Hfs).
    eexists fs, _, _. split; [done|]. split; [by apply Hfs|].
    split; [apply future_license_lookup|].
    intros j lic iss acc st Hlic Hiss Hacc Hst Hnan.
    assert (∀ f, match parsed_dates fmt_mdY [iss], parsed_dates fmt_Ymd [acc] with
                 | [Some p], [Some q] => f p q
                 | _, _ => false
                 end = false) as Hcmp.
    { intros f. unfold parsed_dates. rewrite !fmap_cons, !fmap_nil.
      destruct Hnan as [-> | ->]; simpl; [done|].
      by destruct (convert_str_to_datetime_maker fmt_mdY iss) as [[?|]|]. }
    split.
    + rewrite (future_license_column_lookup file j lic iss acc Hlic Hiss Hacc).
      by rewrite (Hcmp (λ p q, negb (datetime_le p q))), andb_false_r.
    + intros w tags Hw Hin. rewrite (license_tag_lookup file w Hw).
      rewrite bool_decide_eq_true_2 by done. intros [= <-].
      rewrite (category_column_lookup file w j lic iss acc st Hlic Hiss Hacc Hst).
      by rewrite (Hcmp datetime_le), andb_false_r.
  - intros files i file s Hready Hfile Hl Hrows Hmissing Haccess.
    assert (¬ dates_comparable file) as Hcmp.
    { unfold dates_comparable. rewrite float64_dates_true.
      - destruct (Hready i file Hfile Hl) as (_ & _ & _ & _ & _ & _ & Hpa).
        destruct (proj1 (Forall_forall _ _) Hpa _ Haccess) as [d Hd]. simpl in Hd.
        destruct (strptime s fmt_Ymd) as [d'|] eqn:Hs; [|done].
        rewrite (float64_dates_false _ d'); [done|].
        unfold parsed_dates. apply list_elem_of_fmap. exists (Str s). split; [|done].
        simpl. by rewrite Hs.
      - unfold parsed_dates. by destruct (column_of file "issue_date").
      - intros x (c & -> & Hc)%list_elem_of_fmap. by rewrite (Hmissing c Hc). }
    destruct (tag_license_status_raises files TypeError) as [[fs Hrun]|Hrun]; [| |done].
    + intros k f Hf. unfold tag_license_wave.
      destruct (has_column "license" f) eqn:Hlf; [|left; eauto].
      pose proof (Hready k f Hf Hlf) as Hr.
      destruct (decide (dates_comparable f)) as [Hc|Hc].
      * left. rewrite tag_license_status_file_spec by done. eauto.
      * right. by apply tag_license_status_file_incomparable.
    + destruct (tag_license_status_partial files fs Hrun) as [_ Hwave].
      destruct (Hwave i file Hfile) as (file' & _ & Hfile').
      unfold tag_license_wave in Hfile'. rewrite Hl in Hfile'.
      rewrite tag_license_status_file_incomparable in Hfile' by by eauto. done.
Qed.

(** C6, as stated, fails: the issue date "13/01/2019" of [bad_date_wave]
    does not parse, and [tag_license_status] raises [ValueError] instead of
    returning tags that are 0. *)
Lemma malformed_issue_date_crashes :
  strptime "13/01/2019" fmt_mdY = Raise ValueError ∧
  tag_license_status [bad_date_wave] = Raise ValueError.
Proof. split; by vm_compute. Qed.


(** ** C5 *)

Lemma fill_missing_tags_nrows tags file : nrows (fill_missing_tags tags file) = nrows file.
Proof.
  unfold fill_missing_tags. revert file. induction tags as [|t tags IH]; intros file; simpl; [done|].
  rewrite IH. by destruct (has_column t file).
Qed.

Lemma fill_missing_tags_lookup tags file name :
  lookup_col name (cols (fill_missing_tags tags file)) =
  match lookup_col name (cols file) with
  | Some v => Some v
  | None => if bool_decide (name ∈ tags) then Some (replicate (nrows file) (Str "")) else None
  end.
Proof.
  unfold fill_missing_tags. revert file.
  induction tags as [|t tags IH]; intros file; cbn [foldl].
  - destruct (lookup_col name (cols file)); [done|].
    by rewrite bool_decide_eq_false_2 by apply not_elem_of_nil.
  - rewrite IH. destruct (decide (t = name)) as [->|Hne].
    + destruct (has_column name file) eqn:Hhas.
      * apply has_column_lookup in Hhas as [v Hv]. by rewrite Hv.
      * rewrite lookup_col_setitem_eq. apply has_column_false in Hhas. rewrite Hhas.
        by rewrite bool_decide_eq_true_2 by by left.
    + assert (lookup_col name (cols (if has_column t file then file
                else setitem file t (replicate (nrows file) (Str "")))) =
              lookup_col name (cols file)) as ->.
      { destruct (has_column t file); [done|]. by apply lookup_col_setitem_ne. }
      assert (nrows (if has_column t file then file
                else setitem file t (replicate (nrows file) (Str ""))) = nrows file) as ->
        by by destruct (has_column t file).
      destruct (lookup_col name (cols file)); [done|].
      rewrite (bool_decide_ext (name ∈ tags) (name ∈ t :: tags)); [done|].
      rewrite elem_of_cons. split; [auto | by intros [->|?]].
Qed.

Lemma max_file_tags_spec files full_files :
  length full_files = length files → files ≠ [] →
  ∃ m, max_file_tags files full_files =
         Ok (Z.of_nat (length (file_tags files full_files m)), Some (file_tags files full_files m)) ∧
       m < length files ∧
       (∀ k, k < length files →
             length (file_tags files full_files k) ≤ length (file_tags files full_files m)) ∧
       (∀ k, k < m →
             length (file_tags files full_files k) < length (file_tags files full_files m)).
Proof.
  intros Hlen Hne. unfold max_file_tags, range. rewrite Nat.sub_0_r.
  set (tags := file_tags files full_files).
  destruct (for_each_seq_inv
    (λ i (st : Z * option (list string)),
       (i = 0 ∧ st = ((-1)%Z, None)) ∨
       ∃ m, m < i ∧ st = (Z.of_nat (length (tags m)), Some (tags m)) ∧
            (∀ k, k < i → length (tags k) ≤ length (tags m)) ∧
            (∀ k, k < m → length (tags k) < length (tags m)))
    (λ i (st : Z * option (list string)),
       do f <- item files i;
       do full <- item full_files i;
       let file_tags := get_column_difference f full in
       if (st.1 <? Z.of_nat (length file_tags))%Z
       then Ok (Z.of_nat (length file_tags), Some file_tags)
       else Ok st)
    (length files) 0 ((-1)%Z, None)) as (st & Hrun & Hinv).
  - by left.
  - intros i st Hi Hinv.
    destruct (lookup_lt_is_Some_2 files i) as [f Hf]; [lia|].
    destruct (lookup_lt_is_Some_2 full_files i) as [full Hfull]; [lia|].
    rewrite (item_lookup _ _ _ Hf), (item_lookup _ _ _ Hfull). cbn [bind].
    assert (get_column_difference f full = tags i) as ->
      by (unfold tags, file_tags; by rewrite Hf, Hfull).
    destruct (Z.ltb_spec st.1 (Z.of_nat (length (tags i)))) as [Hlt|Hge].
    + eexists. split; [done|]. right. exists i. split; [lia|]. split; [done|].
      destruct Hinv as [[-> ->]|(m & Hm & -> & Hle & Hlow)].
      * split; intros k Hk; [|lia]. by replace k with 0 by lia.
      * simpl in Hlt. split; intros k Hk.
        -- destruct (decide (k = i)) as [->|]; [done|]. specialize (Hle k). lia.
        -- specialize (Hle k). lia.
    + eexists. split; [done|]. right.
      destruct Hinv as [[-> ->]|(m & Hm & -> & Hle & Hlow)]; [simpl in Hge; lia|].
      exists m. split; [lia|]. split; [done|]. split; [|done].
      intros k Hk. destruct (decide (k = i)) as [->|]; [simpl in Hge; lia|].
      apply Hle. lia.
  - destruct Hinv as [[Hz _]|(m & Hm & -> & Hle & Hlow)].
    { destruct files; [done | simpl in Hz; lia]. }
    exists m. split; [exact Hrun|]. split; [done|]. split; [|done]. intros k Hk. by apply Hle.
Qed.

(** C5 (amended): on a series of at least one wave, [standardize_files]
    returns the tag list of the first wave that has the greatest number of
    tags -- not the union of the tags of all waves --, and every wave keeps
    its rows and its columns, receives each tag of that list it lacks as a
    column of empty strings, a marker that is neither 0 nor 1, and receives
    no other column. *)
Theorem standardize_files_correct (files full_files : list DataFrame) :
  length full_files = length files → files ≠ [] →
  ∃ fs tags m,
    standardize_files files full_files = Ok (fs, tags) ∧
    m < length files ∧ tags = file_tags files full_files m ∧
    (∀ k, k < length files → length (file_tags files full_files k) ≤ length tags) ∧
    (∀ k, k < m → length (file_tags files full_files k) < length tags) ∧
    Str "" ≠ Int 0%Z ∧ Str "" ≠ Int 1%Z ∧
    ∀ i f, files !! i = Some f →
      ∃ f', fs !! i = Some f' ∧ nrows f' = nrows f ∧
        (∀ name v, lookup_col name (cols f) = Some v → lookup_col name (cols f') = Some v) ∧
        (∀ name, name ∈ tags → has_column name f = false →
                 lookup_col name (cols f') = Some (replicate (nrows f) (Str ""))) ∧
        (∀ name, name ∉ tags → has_column name f = false →
                 lookup_col name (cols f') = None).
Proof.
  intros Hlen Hne.
  destruct (max_file_tags_spec files full_files Hlen Hne) as (m & Hmax & Hm & Hle & Hlow).
  set (tags := file_tags files full_files m) in *.
  set (body := λ (i : nat) (files : list DataFrame),
         do file <- item files i; Ok (<[i := fill_missing_tags tags file]> files)).
  assert (∀ i fs f, fs !! i = Some f →
            body i fs = do f' <- Ok (fill_missing_tags tags f); Ok (<[i := f']> fs)) as Hbody.
  { intros i fs f Hf. unfold body. by rewrite (item_lookup _ _ _ Hf). }
  destruct (wave_loop_total _ body Hbody files) as [fs Hrun]; [eauto|].
  destruct (wave_loop_partial _ body Hbody files fs Hrun) as [_ Hwave].
  exists fs, tags, m. split.
  { unfold standardize_files. rewrite Hmax. cbn [bind snd]. fold body. by rewrite Hrun. }
  split; [done|]. split; [done|]. split; [done|]. split; [done|].
  split; [done|]. split; [done|].
  intros i f Hf. destruct (Hwave i f Hf) as (f' & Hf' & [= <-]).
  exists (fill_missing_tags tags f). split; [done|].
  split; [apply fill_missing_tags_nrows|]. split; [|split].
  - intros name v Hv. by rewrite fill_missing_tags_lookup, Hv.
  - intros name Hin Hhas%has_column_false.
    by rewrite fill_missing_tags_lookup, Hhas, bool_decide_eq_true_2.
  - intros name Hin Hhas%has_column_false.
    by rewrite fill_missing_tags_lookup, Hhas, bool_decide_eq_false_2.
Qed.

(** C5, as stated, fails: [first_tagged] carries the tag [disappeared], so
    the tag belongs to the union of the tags observed; [last_tagged] has
    more tags, its tag list is the one returned, and it leaves reconciliation
    without a [disappeared] column. *)
Lemma reconciliation_not_union :
  "disappeared" ∈ file_tags [first_tagged; last_tagged] [panel_frame; panel_frame] 0 ∧
  ∃ fs, standardize_files [first_tagged; last_tagged] [panel_frame; panel_frame] =
          Ok (fs, ["continued"; "changed_email"]) ∧
        column_at fs 1 "disappeared" = None ∧
        column_at fs 0 "continued" = Some [Str ""].
Proof.
  split; [apply (bool_decide_unpack _); by vm_compute|].
  eexists. split; [by vm_compute|]. by vm_compute.
Qed.


(** ** The company resolver *)

(** C10: on every wave whose first slug, in the sorted order of the index
    of [df_sim_2], records no email, the bucketing loop of
    [gen_company_mapping] reads a local variable no iteration has bound:
    the function raises [UnboundLocalError] and writes no mapping. *)
Theorem gen_company_mapping_unbound (uuid1 : nat → string) (df : DataFrame)
    (r : row) (rows : list row) :
  group_rows df = Ok (r :: rows) → is_null (row_email r) = true →
  gen_company_mapping uuid1 df =
    Raise (UnboundLocalError
             (if has_column "phone" df && is_null (row_phone r) then "phone" else "email")).
Proof.
  intros Hrows Hemail. unfold gen_company_mapping. rewrite Hrows. cbn [bind].
  unfold company_classes, bucket_rows. cbn [for_each].
  unfold bucket_row at 1. rewrite Hemail. cbn [is_null email phone].
  destruct (has_column "phone" df); [|done].
  by destruct (is_null (row_phone r)).
Qed.

Lemma company_of_loc_set sid v col a :
  company_of (loc_set sid v col) a =
  if decide (a = sid) then (λ _, v) <$> company_of col a else company_of col a.
Proof.
  unfold loc_set. induction col as [|[k c] col IH]; simpl.
  - by destruct (decide (a = sid)).
  - destruct (decide (k = sid)) as [->|Hk]; simpl.
    + destruct (decide (sid = a)) as [<-|Hne]; [by rewrite decide_True|].
      exact IH.
    + destruct (decide (k = a)) as [->|Hne]; [by rewrite decide_False|].
      exact IH.
Qed.

Lemma loc_set_keys sid v col : (loc_set sid v col).*1 = col.*1.
Proof.
  unfold loc_set. induction col as [|[k c] col IH]; csimpl; [done|].
  rewrite IH. by destruct (decide (k = sid)).
Qed.

Lemma company_of_class v comp col a :
  company_of (foldl (λ col sid, loc_set sid v col) col comp) a =
  if bool_decide (a ∈ comp) then (λ _, v) <$> company_of col a else company_of col a.
Proof.
  revert col. induction comp as [|sid comp IH]; intros col; cbn [foldl].
  - by rewrite bool_decide_eq_false_2 by apply not_elem_of_nil.
  - rewrite IH, company_of_loc_set.
    destruct (decide (a = sid)) as [->|Hne].
    + rewrite (bool_decide_eq_true_2 (sid ∈ sid :: comp)) by by left.
      case_bool_decide; [|done]. by destruct (company_of col sid).
    + rewrite (bool_decide_ext (a ∈ sid :: comp) (a ∈ comp)); [done|].
      rewrite elem_of_cons. split; [by intros [?|?] | auto].
Qed.

Lemma class_keys v comp col : (foldl (λ col sid, loc_set sid v col) col comp).*1 = col.*1.
Proof.
  revert col. induction comp as [|sid comp IH]; intros col; simpl; [done|].
  by rewrite IH, loc_set_keys.
Qed.

Lemma company_of_assign uuid1 comps n col a :
  company_of
    (foldl (λ (st : nat * list (string * cell)) comp,
              let comp_id := uuid1 st.1 in
              (S st.1, foldl (λ col sid, loc_set sid (Str comp_id) col) st.2 comp))
           (n, col) comps).2 a =
  match last_class n comps a with
  | Some k => (λ _, Str (uuid1 k)) <$> company_of col a
  | None => company_of col a
  end.
Proof.
  revert n col. induction comps as [|comp comps IH]; intros n col;
    cbn [foldl last_class fst snd].
  { reflexivity. }
  rewrite IH, company_of_class.
  destruct (last_class (S n) comps a) as [k|]; case_bool_decide; try done.
  by destruct (company_of col a).
Qed.

Lemma assign_keys uuid1 comps n col :
  (foldl (λ (st : nat * list (string * cell)) comp,
            let comp_id := uuid1 st.1 in
            (S st.1, foldl (λ col sid, loc_set sid (Str comp_id) col) st.2 comp))
         (n, col) comps).2.*1 = col.*1.
Proof.
  revert n col. induction comps as [|comp comps IH]; intros n col;
    cbn [foldl fst snd]; [done|].
  by rewrite IH, class_keys.
Qed.

Lemma company_of_zeros (rows : list row) a :
  company_of ((λ r, (row_sid r, Int 0%Z)) <$> rows) a =
  if bool_decide (a ∈ row_sid <$> rows) then Some (Int 0%Z) else None.
Proof.
  induction rows as [|r rows IH]; csimpl; [done|].
  destruct (decide (row_sid r = a)) as [<-|Hne].
  - by rewrite bool_decide_eq_true_2 by by left.
  - rewrite IH.
    rewrite (bool_decide_ext (a ∈ row_sid <$> rows) (a ∈ row_sid r :: (row_sid <$> rows)));
      [done|].
    rewrite elem_of_cons. split; [auto | by intros [?|?]].
Qed.

(** ** C9 *)

(** C9: two runs of [gen_company_mapping] on the same wave, each with its
    own supply of identifiers that never repeats one, raise the same
    exception or write mappings over the same slugs in which two slugs
    share a company identifier in the first exactly when they share one in
    the second. *)
Theorem partition_stable (uuid1 uuid1' : nat → string) (df : DataFrame) :
  Inj (=) (=) uuid1 → Inj (=) (=) uuid1' →
  match gen_company_mapping uuid1 df, gen_company_mapping uuid1' df with
  | Ok m1, Ok m2 =>
      m1.*1 = m2.*1 ∧
      ∀ a b, company_of m1 a = company_of m1 b ↔ company_of m2 a = company_of m2 b
  | Raise e1, Raise e2 => e1 = e2
  | _, _ => False
  end.
Proof.
  intros Hinj Hinj'. unfold gen_company_mapping.
  destruct (group_rows df) as [rows|e]; [|done]. cbn [bind].
  destruct (company_classes (has_column "phone" df) rows) as [ds|e]; [|done]. cbn [bind].
  unfold assign_company_ids. split; [by rewrite !assign_keys|].
  intros a b. rewrite !company_of_assign, !company_of_zeros.
  destruct (last_class 0 (ds_itersets ds) a) as [k|],
           (last_class 0 (ds_itersets ds) b) as [k'|];
    do 2 case_bool_decide; simpl; split; try done.
  - intros [= Hk%Hinj]. by subst.
  - intros [= Hk%Hinj']. by subst.
Qed.

(** ** The disjoint set *)

Lemma ds_lookup_None ds x : ds_lookup ds x = None ↔ x ∉ ds.*1.
Proof.
  induction ds as [|[e r] ds IH]; csimpl.
  - split; [intros _; apply not_elem_of_nil | done].
  - destruct (decide (e = x)) as [->|Hne].
    + split; [done | intros []; by left].
    + rewrite IH, not_elem_of_cons. split; [by intros ?; split; [intros ->|] | by intros [_ ?]].
Qed.

Lemma ds_lookup_elem ds a r : NoDup ds.*1 → ds_lookup ds a = Some r ↔ (a, r) ∈ ds.
Proof.
  induction ds as [|[e q] ds IH]; csimpl; intros Hnd.
  - split; [done | by intros ?%elem_of_nil].
  - apply NoDup_cons in Hnd as [Hfresh Hnd]. rewrite elem_of_cons.
    destruct (decide (e = a)) as [->|Hne].
    + split; [intros [= ->]; by left|]. intros [[= ->]|Hin]; [done|].
      destruct Hfresh. apply list_elem_of_fmap. by exists (a, r).
    + rewrite (IH Hnd). split; [auto|]. by intros [[= -> ->]|?].
Qed.

Lemma ds_lookup_snoc ds x z :
  ds_lookup (ds ++ [(x, x)]) z =
  match ds_lookup ds z with
  | Some r => Some r
  | None => if decide (x = z) then Some x else None
  end.
Proof.
  induction ds as [|[e r] ds IH]; simpl; [done|].
  by destruct (decide (e = z)).
Qed.

Lemma ds_find_lookup ds x z r :
  ds_lookup ds z = Some r → ds_lookup (ds_find ds x).1 z = Some r.
Proof.
  intros Hz. unfold ds_find. destruct (ds_lookup ds x); simpl; [done|].
  by rewrite ds_lookup_snoc, Hz.
Qed.

Lemma ds_find_self ds x : ds_lookup (ds_find ds x).1 x = Some (ds_find ds x).2.
Proof.
  unfold ds_find. destruct (ds_lookup ds x) as [r|] eqn:Hx; simpl; [done|].
  by rewrite ds_lookup_snoc, Hx, decide_True.
Qed.

Lemma ds_find_NoDup ds x : NoDup ds.*1 → NoDup (ds_find ds x).1.*1.
Proof.
  intros Hnd. unfold ds_find. destruct (ds_lookup ds x) as [r|] eqn:Hx; simpl; [done|].
  rewrite fmap_app. apply NoDup_app. split; [done|]. split; [|apply NoDup_singleton].
  intros y Hy ->%list_elem_of_singleton. by apply ds_lookup_None in Hx.
Qed.

Lemma ds_lookup_relabel ds p q z :
  ds_lookup ((λ e : string * string, if decide (e.2 = p) then (e.1, q) else e) <$> ds) z =
  (λ r, if decide (r = p) then q else r) <$> ds_lookup ds z.
Proof.
  induction ds as [|[e r] ds IH]; csimpl; [done|].
  destruct (decide (r = p)) as [->|Hr]; simpl; destruct (decide (e = z)); simpl; try done.
  - by rewrite decide_True.
  - by rewrite decide_False.
Qed.

Lemma relabel_keys (ds : DisjointSet) p q :
  ((λ e : string * string, if decide (e.2 = p) then (e.1, q) else e) <$> ds).*1 = ds.*1.
Proof.
  induction ds as [|[e r] ds IH]; csimpl; [done|].
  rewrite IH. by destruct (decide (r = p)).
Qed.

Lemma ds_union_NoDup ds x y : NoDup ds.*1 → NoDup (ds_union ds x y).*1.
Proof.
  intros Hnd. unfold ds_union.
  destruct (ds_find ds x) as [ds1 px] eqn:H1. destruct (ds_find ds1 y) as [ds2 py] eqn:H2.
  assert (NoDup ds2.*1) as Hnd2.
  { replace ds2 with (ds_find ds1 y).1 by by rewrite H2. apply ds_find_NoDup.
    replace ds1 with (ds_find ds x).1 by by rewrite H1. by apply ds_find_NoDup. }
  destruct (decide (px = py)); [done|]. by rewrite relabel_keys.
Qed.

Lemma ds_union_mono ds x y a b : ds_same ds a b → ds_same (ds_union ds x y) a b.
Proof.
  intros (r & Ha & Hb). unfold ds_union.
  destruct (ds_find ds x) as [ds1 px] eqn:H1. destruct (ds_find ds1 y) as [ds2 py] eqn:H2.
  assert (∀ z, ds_lookup ds z = Some r → ds_lookup ds2 z = Some r) as Hkeep.
  { intros z Hz. replace ds2 with (ds_find ds1 y).1 by by rewrite H2. apply ds_find_lookup.
    replace ds1 with (ds_find ds x).1 by by rewrite H1. by apply ds_find_lookup. }
  destruct (decide (px = py)); [exists r; auto|].
  eexists. by rewrite !ds_lookup_relabel, (Hkeep a Ha), (Hkeep b Hb).
Qed.

Lemma ds_union_same ds x y : ds_same (ds_union ds x y) x y.
Proof.
  unfold ds_union.
  destruct (ds_find ds x) as [ds1 px] eqn:H1. destruct (ds_find ds1 y) as [ds2 py] eqn:H2.
  assert (ds_lookup ds2 x = Some px) as Hx.
  { replace ds2 with (ds_find ds1 y).1 by by rewrite H2. apply ds_find_lookup.
    replace ds1 with (ds_find ds x).1 by by rewrite H1.
    replace px with (ds_find ds x).2 by by rewrite H1. apply ds_find_self. }
  assert (ds_lookup ds2 y = Some py) as Hy.
  { replace ds2 with (ds_find ds1 y).1 by by rewrite H2.
    replace py with (ds_find ds1 y).2 by by rewrite H2. apply ds_find_self. }
  destruct (decide (px = py)) as [->|Hne]; [by exists py|].
  exists py. rewrite !ds_lookup_relabel, Hx, Hy. simpl.
  by rewrite decide_True, decide_False by done.
Qed.

Lemma ds_same_sym ds a b : ds_same ds a b → ds_same ds b a.
Proof. intros (r & ? & ?). by exists r. Qed.

Lemma ds_same_trans ds a b c : ds_same ds a b → ds_same ds b c → ds_same ds a c.
Proof. intros (r & ? & ?) (q & ? & ?). exists r. split; [done|]. congruence. Qed.

Lemma union_first_spec first rest ds :
  NoDup ds.*1 →
  NoDup (foldl (λ ds curr_sid, ds_union ds first curr_sid) ds rest).*1 ∧
  (∀ a b, ds_same ds a b →
          ds_same (foldl (λ ds curr_sid, ds_union ds first curr_sid) ds rest) a b) ∧
  (∀ c, c ∈ rest →
        ds_same (foldl (λ ds curr_sid, ds_union ds first curr_sid) ds rest) first c).
Proof.
  revert ds. induction rest as [|c rest IH]; intros ds Hnd; simpl.
  - split; [done|]. split; [done|]. by intros c ?%elem_of_nil.
  - destruct (IH (ds_union ds first c)) as (Hnd' & Hmono & Hfirst);
      [by apply ds_union_NoDup|].
    split; [done|]. split; [intros a b Hab; by apply Hmono, ds_union_mono|].
    intros c' [->|Hc']%elem_of_cons; [apply Hmono, ds_union_same | by apply Hfirst].
Qed.

Lemma union_bucket_spec bucket ds ds' :
  union_bucket bucket ds = Ok ds' → NoDup ds.*1 →
  NoDup ds'.*1 ∧
  (∀ a b, ds_same ds a b → ds_same ds' a b) ∧
  (∀ a b, a ∈ bucket → b ∈ bucket → ds_same ds a a → ds_same ds b b → ds_same ds' a b).
Proof.
  unfold union_bucket. destruct bucket as [|first rest]; [done|]. simpl. rewrite drop_0.
  intros [= <-] Hnd.
  destruct (union_first_spec first rest ds Hnd) as (Hnd' & Hmono & Hfirst).
  split; [done|]. split; [done|].
  assert (∀ a, a ∈ first :: rest → ds_same ds a a →
            ds_same (foldl (λ ds curr_sid, ds_union ds first curr_sid) ds rest) first a)
    as Hall.
  { intros a [->|Ha]%elem_of_cons Haa; [by apply Hmono | by apply Hfirst]. }
  intros a b Ha Hb Haa Hbb. eapply ds_same_trans; [apply ds_same_sym|]; by apply Hall.
Qed.

Lemma union_buckets_spec {K} (ht : list (K * list string)) ds ds' :
  union_buckets ht ds = Ok ds' → NoDup ds.*1 →
  NoDup ds'.*1 ∧
  (∀ a b, ds_same ds a b → ds_same ds' a b) ∧
  (∀ kv a b, kv ∈ ht → a ∈ kv.2 → b ∈ kv.2 → ds_same ds a a → ds_same ds b b →
             ds_same ds' a b).
Proof.
  unfold union_buckets. revert ds. induction ht as [|kv ht IH]; intros ds; simpl.
  - intros [= <-] Hnd. split; [done|]. split; [done|]. by intros kv a b ?%elem_of_nil.
  - intros (ds1 & Hb & Hrest)%bind_Ok Hnd.
    destruct (union_bucket_spec _ _ _ Hb Hnd) as (Hnd1 & Hmono1 & Hsame1).
    destruct (IH ds1 Hrest Hnd1) as (Hnd' & Hmono & Hsame).
    split; [done|]. split; [intros a b Hab; by apply Hmono, Hmono1|].
    intros kv' a b [->|Hin]%elem_of_cons Ha Hb' Haa Hbb.
    + by apply Hmono, Hsame1.
    + apply (Hsame kv'); auto.
Qed.

Lemma initial_classes (index : list string) ds :
  NoDup ds.*1 →
  NoDup (foldl (λ ds sid, (ds_find ds sid).1) ds index).*1 ∧
  (∀ a b, ds_same ds a b → ds_same (foldl (λ ds sid, (ds_find ds sid).1) ds index) a b) ∧
  (∀ a, a ∈ index → ds_same (foldl (λ ds sid, (ds_find ds sid).1) ds index) a a).
Proof.
  revert ds. induction index as [|sid index IH]; intros ds Hnd; simpl.
  - split; [done|]. split; [done|]. by intros a ?%elem_of_nil.
  - destruct (IH (ds_find ds sid).1) as (Hnd' & Hmono & Hin); [by apply ds_find_NoDup|].
    split; [done|]. split.
    + intros a b (r & Ha & Hb). apply Hmono. exists r. split; by apply ds_find_lookup.
    + intros a [->|Ha]%elem_of_cons; [|by apply Hin].
      apply Hmono. eexists. split; apply ds_find_self.
Qed.

(** ** The buckets *)

Lemma ht_get_append_eq {K} `{EqDecision K} (key : K) sid ht :
  ht_get key (ht_append key sid ht) = ht_get key ht ++ [sid].
Proof.
  induction ht as [|[k sids] ht IH]; simpl.
  - by rewrite decide_True.
  - destruct (decide (k = key)) as [->|Hne]; simpl.
    + by rewrite decide_True.
    + by rewrite decide_False.
Qed.

Lemma ht_get_append_ne {K} `{EqDecision K} (key key' : K) sid ht :
  key ≠ key' → ht_get key' (ht_append key sid ht) = ht_get key' ht.
Proof.
  intros Hne. induction ht as [|[k sids] ht IH]; simpl.
  - by rewrite decide_False.
  - destruct (decide (k = key)) as [->|Hk]; simpl.
    + by rewrite !decide_False.
    + by rewrite IH.
Qed.

Lemma ht_get_append_mono {K} `{EqDecision K} (key key' : K) sid ht a :
  a ∈ ht_get key' ht → a ∈ ht_get key' (ht_append key sid ht).
Proof.
  intros Ha. destruct (decide (key = key')) as [->|Hne].
  - rewrite ht_get_append_eq. apply elem_of_app. by left.
  - by rewrite ht_get_append_ne.
Qed.

Lemma ht_get_elem {K} `{EqDecision K} (key : K) ht a :
  a ∈ ht_get key ht → (key, ht_get key ht) ∈ ht.
Proof.
  induction ht as [|[k sids] ht IH]; simpl; [by intros ?%elem_of_nil|].
  destruct (decide (k = key)) as [->|Hne]; [by left|]. intros Ha. right. by apply IH.
Qed.

Lemma ht_append_keys {K} `{EqDecision K} (key k : K) sid ht :
  k ∈ (ht_append key sid ht).*1 → k = key ∨ k ∈ ht.*1.
Proof.
  induction ht as [|[k' sids] ht IH]; csimpl.
  - intros ->%list_elem_of_singleton. by left.
  - destruct (decide (k' = key)) as [->|Hne]; csimpl; [by right|].
    intros [->|Hin]%elem_of_cons; [right; by left|].
    destruct (IH Hin); [by left | right; by right].
Qed.

(** What one iteration of the bucketing loop does, when it returns. *)
Lemma bucket_row_Ok hp r st st' :
  bucket_row hp r st = Ok st' →
  product_ht st' = ht_append (row_product_name r) (row_sid r) (product_ht st) ∧
  (∃ e, (if is_null (row_email r) then email st else Some (row_email r)) = Some e ∧
        email st' = Some e ∧ email_ht st' = ht_append e (row_sid r) (email_ht st)) ∧
  (if hp
   then ∃ p, (if is_null (row_phone r) then phone st else Some (row_phone r)) = Some p ∧
             phone st' = Some p ∧ phone_ht st' = ht_append p (row_sid r) (phone_ht st)
   else phone st' = phone st ∧ phone_ht st' = phone_ht st).
Proof.
  unfold bucket_row. intros (pht & Hp & H)%bind_Ok.
  apply bind_Ok in H as (ps & [= <-] & H). apply bind_Ok in H as (e & He & [= <-]). simpl.
  split; [done|]. split.
  - exists e.
    assert ((if is_null (row_email r) then email st else Some (row_email r)) = Some e) as HX
      by (destruct (if is_null (row_email r) then _ else _); simpl in He; congruence).
    done.
  - destruct hp; [|by injection Hp as <-].
    apply bind_Ok in Hp as (p & Hp & [= <-]). exists p.
    assert ((if is_null (row_phone r) then phone st else Some (row_phone r)) = Some p) as HX
      by (destruct (if is_null (row_phone r) then _ else _); simpl in Hp; congruence).
    done.
Qed.

Lemma bucket_rows_members hp rows st st' :
  for_each rows (bucket_row hp) st = Ok st' →
  (∀ key a, a ∈ ht_get key (product_ht st) → a ∈ ht_get key (product_ht st')) ∧
  (∀ key a, a ∈ ht_get key (email_ht st) → a ∈ ht_get key (email_ht st')) ∧
  (∀ r, r ∈ rows →
        row_sid r ∈ ht_get (row_product_name r) (product_ht st') ∧
        (is_null (row_email r) = false →
         row_sid r ∈ ht_get (row_email r) (email_ht st'))).
Proof.
  revert st. induction rows as [|r rows IH]; intros st; simpl.
  - intros [= <-]. split; [done|]. split; [done|]. by intros r ?%elem_of_nil.
  - intros (st1 & Hstep & Hrest)%bind_Ok.
    destruct (bucket_row_Ok _ _ _ _ Hstep) as (Hp & (e & He & _ & Hemail) & _).
    destruct (IH st1 Hrest) as (Mp & Me & Hrows).
    split; [|split].
    + intros key a Ha. apply Mp. rewrite Hp. by apply ht_get_append_mono.
    + intros key a Ha. apply Me. rewrite Hemail. by apply ht_get_append_mono.
    + intros r' [->|Hin]%elem_of_cons; [|by apply Hrows]. split.
      * apply Mp. rewrite Hp, ht_get_append_eq. apply elem_of_app. right. by left.
      * intros Hne. apply Me. rewrite Hemail. rewrite Hne in He. injection He as <-.
        rewrite ht_get_append_eq. apply elem_of_app. right. by left.
Qed.

(** No iteration of the bucketing loop files a slug under a missing email
    or phone. *)
Lemma bucket_rows_keys hp rows st :
  bucket_rows hp rows = Ok st →
  (∀ k, k ∈ (email_ht st).*1 → is_null k = false) ∧
  (∀ k, k ∈ (phone_ht st).*1 → is_null k = false).
Proof.
  unfold bucket_rows. intros Hrun.
  apply (for_each_partial
           (λ st : locals, (∀ e, email st = Some e → is_null e = false) ∧
                           (∀ p, phone st = Some p → is_null p = false) ∧
                           (∀ k, k ∈ (email_ht st).*1 → is_null k = false) ∧
                           (∀ k, k ∈ (phone_ht st).*1 → is_null k = false))) in Hrun.
  - by destruct Hrun as (_ & _ & ? & ?).
  - simpl. repeat split; try done; by intros k ?%elem_of_nil.
  - intros r t t' _ (He & Hp & Hek & Hpk) Hstep.
    destruct (bucket_row_Ok _ _ _ _ Hstep) as (_ & (e & Hsel & -> & ->) & Hphone).
    assert (is_null e = false) as Hne.
    { destruct (is_null (row_email r)) eqn:Hr; [by apply He|]. by injection Hsel as <-. }
    assert ((∀ p, phone t' = Some p → is_null p = false) ∧
            (∀ k, k ∈ (phone_ht t').*1 → is_null k = false)) as [? ?].
    { destruct hp.
      - destruct Hphone as (p & Hselp & -> & ->).
        assert (is_null p = false) as Hnp.
        { destruct (is_null (row_phone r)) eqn:Hr; [by apply Hp|]. by injection Hselp as <-. }
        split; [by intros ? [= <-]|]. intros k [->|?]%ht_append_keys; auto.
      - destruct Hphone as [-> ->]. done. }
    split; [by intros ? [= <-]|]. split; [done|]. split; [|done].
    intros k [->|?]%ht_append_keys; auto.
Qed.

(** ** Classes and company identifiers *)

Lemma first_occurrences_elem (l acc : list string) r :
  r ∈ foldl (λ seen r, if bool_decide (r ∈ seen) then seen else seen ++ [r]) acc l ↔
  r ∈ acc ∨ r ∈ l.
Proof.
  revert acc. induction l as [|x l IH]; intros acc; simpl.
  - split; [auto | by intros [?|?%elem_of_nil]].
  - rewrite IH, elem_of_cons. case_bool_decide as Hx.
    + split; [intros [?|?]; auto | intros [?|[->|?]]; auto].
    + rewrite elem_of_app, list_elem_of_singleton. tauto.
Qed.

Lemma class_elem (ds : DisjointSet) r a :
  a ∈ (filter (λ p, p.2 = r) ds).*1 ↔ (a, r) ∈ ds.
Proof.
  rewrite list_elem_of_fmap. split.
  - intros ([a' r'] & -> & [Hr Hin]%list_elem_of_filter). simpl in Hr. by subst.
  - intros Hin. exists (a, r). split; [done|]. by apply list_elem_of_filter.
Qed.

Lemma itersets_same ds a b comp :
  NoDup ds.*1 → ds_same ds a b → comp ∈ ds_itersets ds → a ∈ comp ↔ b ∈ comp.
Proof.
  intros Hnd (q & Ha & Hb). unfold ds_itersets.
  intros (r & -> & _)%list_elem_of_fmap.
  rewrite !class_elem, <- !ds_lookup_elem by done. rewrite Ha, Hb. done.
Qed.

Lemma itersets_cover ds a r :
  NoDup ds.*1 → ds_lookup ds a = Some r → ∃ comp, comp ∈ ds_itersets ds ∧ a ∈ comp.
Proof.
  intros Hnd Ha. apply ds_lookup_elem in Ha as Hin; [|done].
  exists (filter (λ p, p.2 = r) ds).*1. split; [|by apply class_elem].
  unfold ds_itersets. apply list_elem_of_fmap. exists r. split; [done|].
  apply first_occurrences_elem. right. apply list_elem_of_fmap. by exists (a, r).
Qed.

Lemma last_class_ext n comps a b :
  (∀ comp, comp ∈ comps → a ∈ comp ↔ b ∈ comp) → last_class n comps a = last_class n comps b.
Proof.
  revert n. induction comps as [|comp comps IH]; intros n Hext; simpl; [done|].
  rewrite (IH (S n)) by (intros c Hc; apply Hext; by right).
  rewrite (bool_decide_ext (a ∈ comp) (b ∈ comp)); [done|]. apply Hext. by left.
Qed.

Lemma last_class_Some n comps a comp :
  comp ∈ comps → a ∈ comp → is_Some (last_class n comps a).
Proof.
  revert n. induction comps as [|c comps IH]; intros n Hin Ha; [by apply elem_of_nil in Hin|].
  simpl. apply elem_of_cons in Hin as [->|Hin].
  - destruct (last_class (S n) comps a); [eauto|]. rewrite bool_decide_eq_true_2 by done. eauto.
  - destruct (IH (S n) Hin Ha) as [k ->]. eauto.
Qed.

Lemma same_class_company uuid1 ds (rows : list row) a b :
  NoDup ds.*1 → ds_same ds a b →
  a ∈ row_sid <$> rows → b ∈ row_sid <$> rows →
  ∃ id, company_of (assign_company_ids uuid1 (ds_itersets ds)
                      ((λ r, (row_sid r, Int 0%Z)) <$> rows)) a = Some (Str id) ∧
        company_of (assign_company_ids uuid1 (ds_itersets ds)
                      ((λ r, (row_sid r, Int 0%Z)) <$> rows)) b = Some (Str id).
Proof.
  intros Hnd Hsame Ha Hb. unfold assign_company_ids.
  rewrite !company_of_assign, !company_of_zeros, !bool_decide_eq_true_2 by done.
  rewrite <- (last_class_ext 0 (ds_itersets ds) a b)
    by (intros comp Hcomp; by apply (itersets_same ds)).
  destruct Hsame as (r & Hr & _).
  destruct (itersets_cover ds a r Hnd Hr) as (comp & Hcomp & Hin).
  destruct (last_class_Some 0 _ a comp Hcomp Hin) as [k ->]. simpl. eauto.
Qed.

Lemma company_classes_spec hp rows ds :
  company_classes hp rows = Ok ds →
  NoDup ds.*1 ∧
  ∀ r1 r2, r1 ∈ rows → r2 ∈ rows →
    row_product_name r1 = row_product_name r2 ∨
    (row_email r1 = row_email r2 ∧ is_null (row_email r1) = false) →
    ds_same ds (row_sid r1) (row_sid r2).
Proof.
  unfold company_classes. intros (st & Hst & H)%bind_Ok.
  apply bind_Ok in H as (ds1 & Hds1 & H). apply bind_Ok in H as (ds2 & Hds2 & Hds3).
  destruct (initial_classes (row_sid <$> rows) []) as (Hnd0 & _ & Hin0); [constructor|].
  set (ds0 := foldl (λ ds sid, (ds_find ds sid).1) [] (row_sid <$> rows)) in *.
  destruct (union_buckets_spec _ _ _ Hds1 Hnd0) as (Hnd1 & Hmono1 & Hsame1).
  destruct (union_buckets_spec _ _ _ Hds2 Hnd1) as (Hnd2 & Hmono2 & Hsame2).
  assert (NoDup ds.*1 ∧ ∀ a b, ds_same ds2 a b → ds_same ds a b) as [Hnd Hmono3].
  { destruct hp; [|by injection Hds3 as <-].
    by destruct (union_buckets_spec _ _ _ Hds3 Hnd2) as (? & ? & _). }
  split; [done|]. intros r1 r2 Hr1 Hr2 Hcond.
  destruct (bucket_rows_members _ _ _ _ Hst) as (_ & _ & Hmem).
  destruct (Hmem r1 Hr1) as [Hp1 He1]. destruct (Hmem r2 Hr2) as [Hp2 He2].
  assert (∀ r, r ∈ rows → ds_same ds0 (row_sid r) (row_sid r)) as Hel
    by (intros r Hr; by apply Hin0, list_elem_of_fmap_2).
  apply Hmono3. destruct Hcond as [Hprod|[Hemail Hne]].
  - apply Hmono2. rewrite <- Hprod in Hp2.
    eapply (Hsame1 (row_product_name r1, _)); [by eapply ht_get_elem | done | done | |]; auto.
  - rewrite <- Hemail in He2.
    eapply (Hsame2 (row_email r1, _)); [by eapply ht_get_elem, He1 | by apply He1
      | apply He2; congruence | |]; apply Hmono1; auto.
Qed.

(** ** C2 *)

Lemma group_products_elem key slug product_name p :
  p ∈ group_products key slug product_name ↔
  ∃ j c, slug !! j = Some (Str key) ∧ product_name !! j = Some c ∧
         p = if negb (object_dtype product_name) && bool_decide (c = NaN)
             then FloatNaN j else Name c.
Proof.
  unfold group_products, products. rewrite elem_of_list_to_set, list_elem_of_fmap. split.
  - intros ([s q] & -> & [Heq Hz]%list_elem_of_filter). simpl in *. subst s.
    apply list_elem_of_lookup in Hz as [j Hj].
    apply lookup_zip_with_Some in Hj as (s & q' & [= <- <-] & Hs & Hq).
    rewrite list_lookup_imap in Hq. apply fmap_Some in Hq as (c & Hc & ->).
    by exists j, c.
  - intros (j & c & Hs & Hc & ->). eexists (Str key, _). split; [done|].
    apply list_elem_of_filter. split; [done|].
    apply (list_elem_of_lookup_2 _ j). apply lookup_zip_with_Some.
    eexists _, _. split; [done|]. split; [done|].
    by rewrite list_lookup_imap, Hc.
Qed.

Lemma group_rows_products df rows r :
  group_rows df = Ok rows → r ∈ rows →
  row_product_name r =
    group_products (row_sid r) (column_of df "slug") (column_of df "product_name").
Proof.
  unfold group_rows. destruct (has_column "phone" df).
  - intros (em & _ & H)%bind_Ok. apply bind_Ok in H as (slug & Hslug & H).
    apply bind_Ok in H as (ph & _ & H). apply bind_Ok in H as (pn & Hpn & [= <-]).
    apply getitem_Ok in Hslug, Hpn. unfold column_of. rewrite Hslug, Hpn. simpl.
    by intros (key & -> & _)%list_elem_of_fmap.
  - intros (em & _ & H)%bind_Ok. apply bind_Ok in H as (slug & Hslug & H).
    apply bind_Ok in H as (pn & Hpn & [= <-]).
    apply getitem_Ok in Hslug, Hpn. unfold column_of. rewrite Hslug, Hpn. simpl.
    by intros (key & -> & _)%list_elem_of_fmap.
Qed.

(** C2 (amended): whenever [gen_company_mapping] writes a mapping, no
    bucket of the email or phone table is keyed by a missing value (NaN or
    [None]); two slugs with equal product-name sets get one company
    identifier, and so do two slugs with the same recorded email. The
    product-name set of a slug holds the names of its rows, and, in a
    numeric product_name column (one without a string), one float object
    for each row without a name: a set that holds one is equal to the set
    of no other slug, so that slugs without product names do not share a
    company on that ground. In a column of strings the missing names are
    one NaN object, and sets that hold nothing else are equal. *)
Theorem company_buckets_correct (uuid1 : nat → string) (df : DataFrame)
    (mapping : list (string * cell)) :
  gen_company_mapping uuid1 df = Ok mapping →
  ∃ rows st,
    group_rows df = Ok rows ∧ bucket_rows (has_column "phone" df) rows = Ok st ∧
    (∀ k, k ∈ (email_ht st).*1 → is_null k = false) ∧
    (∀ k, k ∈ (phone_ht st).*1 → is_null k = false) ∧
    (∀ r1 r2, r1 ∈ rows → r2 ∈ rows →
       row_product_name r1 = row_product_name r2 ∨
       (row_email r1 = row_email r2 ∧ is_null (row_email r1) = false) →
       ∃ id, company_of mapping (row_sid r1) = Some (Str id) ∧
             company_of mapping (row_sid r2) = Some (Str id)) ∧
    (∀ r p, r ∈ rows →
       (p ∈ row_product_name r ↔
        ∃ j c, column_of df "slug" !! j = Some (Str (row_sid r)) ∧
               column_of df "product_name" !! j = Some c ∧
               p = if negb (object_dtype (column_of df "product_name")) &&
                      bool_decide (c = NaN)
                   then FloatNaN j else Name c)) ∧
    (∀ r1 r2 j, r1 ∈ rows → r2 ∈ rows → row_sid r1 ≠ row_sid r2 →
       FloatNaN j ∈ row_product_name r1 → row_product_name r1 ≠ row_product_name r2) ∧
    (∀ r1 r2, r1 ∈ rows → r2 ∈ rows →
       object_dtype (column_of df "product_name") = true →
       row_product_name r1 = {[Name NaN]} → row_product_name r2 = {[Name NaN]} →
       ∃ id, company_of mapping (row_sid r1) = Some (Str id) ∧
             company_of mapping (row_sid r2) = Some (Str id)).
Proof.
  unfold gen_company_mapping. intros (rows & Hrows & H)%bind_Ok.
  apply bind_Ok in H as (ds & Hds & [= <-]).
  assert (∃ st, bucket_rows (has_column "phone" df) rows = Ok st) as [st Hst].
  { unfold company_classes in Hds. apply bind_Ok in Hds as (st & Hst & _). eauto. }
  exists rows, st. split; [done|]. split; [done|].
  destruct (bucket_rows_keys _ _ _ Hst) as [? ?]. split; [done|]. split; [done|].
  destruct (company_classes_spec _ _ _ Hds) as [Hnd Hsame].
  assert (∀ r1 r2, r1 ∈ rows → r2 ∈ rows →
            row_product_name r1 = row_product_name r2 ∨
            (row_email r1 = row_email r2 ∧ is_null (row_email r1) = false) →
            ∃ id, company_of (assign_company_ids uuid1 (ds_itersets ds)
                                ((λ r, (row_sid r, Int 0%Z)) <$> rows)) (row_sid r1)
                    = Some (Str id) ∧
                  company_of (assign_company_ids uuid1 (ds_itersets ds)
                                ((λ r, (row_sid r, Int 0%Z)) <$> rows)) (row_sid r2)
                    = Some (Str id)) as Hcompany.
  { intros r1 r2 Hr1 Hr2 Hcond.
    apply same_class_company; [done | by apply Hsame | |]; by apply list_elem_of_fmap_2. }
  assert (∀ r p, r ∈ rows →
            (p ∈ row_product_name r ↔
             ∃ j c, column_of df "slug" !! j = Some (Str (row_sid r)) ∧
                    column_of df "product_name" !! j = Some c ∧
                    p = if negb (object_dtype (column_of df "product_name")) &&
                           bool_decide (c = NaN)
                        then FloatNaN j else Name c)) as Helem.
  { intros r p Hr. rewrite (group_rows_products df rows r Hrows Hr).
    apply group_products_elem. }
  split; [done|]. split; [done|]. split.
  - intros r1 r2 j Hr1 Hr2 Hne Hin Heq.
    pose proof Hin as Hin2. rewrite Heq in Hin2.
    apply (Helem r1 _ Hr1) in Hin as (j1 & c1 & Hs1 & _ & Hp1).
    apply (Helem r2 _ Hr2) in Hin2 as (j2 & c2 & Hs2 & _ & Hp2).
    assert (j1 = j) as -> by (destruct (_ && _) in Hp1; congruence).
    assert (j2 = j) as -> by (destruct (_ && _) in Hp2; congruence).
    congruence.
  - intros r1 r2 Hr1 Hr2 _ H1 H2. apply Hcompany; [done | done |]. left. congruence.
Qed.


(** C2, as stated, fails: in [four_storefronts] the slugs "b" and "d" both
    lack an email, and the mapping puts them in different companies: each
    is filed under the email of the slug before it. *)
Lemma missing_emails_not_unioned :
  ∃ mapping, gen_company_mapping pretty four_storefronts = Ok mapping ∧
    column_of four_storefronts "email" !! 1 = Some NaN ∧
    column_of four_storefronts "email" !! 3 = Some NaN ∧
    company_of mapping "b" = Some (Str "0") ∧
    company_of mapping "d" = Some (Str "1").
Proof. eexists. split; [by vm_compute|]. by vm_compute. Qed.


(** * The theorems at concrete waves *)

Lemma example_waves_slug : Forall (λ f, has_column "slug" f = true) example_waves.
Proof. repeat constructor. Qed.

Lemma example_waves_well_formed : Forall well_formed example_waves.
Proof. repeat (apply Forall_cons; split); try apply Forall_nil; repeat constructor. Qed.

Lemma example_waves_one_row : Forall one_row_per_slug example_waves.
Proof.
  repeat (apply Forall_cons; split); try apply Forall_nil;
    unfold one_row_per_slug; apply (bool_decide_unpack _); by vm_compute.
Qed.

Lemma license_wave_ready k f :
  [license_wave] !! k = Some f → has_column "license" f = true →
  license_ready f ∧ dates_comparable f.
Proof.
  destruct k as [|k]; [|done]. intros [= <-] _. split; [|reflexivity].
  unfold license_ready. split; [repeat constructor|]. do 4 (split; [reflexivity|]).
  split; repeat (apply Forall_cons; split); try apply Forall_nil;
    eexists; vm_compute; reflexivity.
Qed.

Lemma undated_wave_ready k f :
  [undated_wave] !! k = Some f → has_column "license" f = true → license_ready f.
Proof.
  destruct k as [|k]; [|done]. intros [= <-] _.
  unfold license_ready. split; [repeat constructor|]. do 4 (split; [reflexivity|]).
  split; repeat (apply Forall_cons; split); try apply Forall_nil;
    eexists; vm_compute; reflexivity.
Qed.

Lemma tag_reappear_correct_witness :
  ∃ up fs reappeared,
    get_slugs_up_to_i_array example_waves = Ok up ∧
    tag_reappear up example_waves = Ok fs ∧
    column_at fs 2 "reappeared" = Some reappeared ∧
    length reappeared = length (slug_column example_waves 2).
Proof.
  destruct (tag_reappear_correct example_waves 2) as (up & fs & re & ? & ? & _ & _ & ? & ? & _).
  - exact example_waves_slug.
  - simpl. lia.
  - by exists up, fs, re.
Defined.

Lemma unfilled_email_waves_ready :
  Forall well_formed unfilled_email_waves ∧
  Forall (λ f, has_column "slug" f = true) unfilled_email_waves ∧
  Forall one_row_per_slug unfilled_email_waves.
Proof.
  split; [|split].
  - repeat (apply Forall_cons; split); try apply Forall_nil; repeat constructor.
  - repeat constructor.
  - repeat (apply Forall_cons; split); try apply Forall_nil;
      unfold one_row_per_slug; apply (bool_decide_unpack _); by vm_compute.
Qed.

(** The failing input of C7: the storefront of [unfilled_email_waves]
    records no email in either wave, and its changed_email tag is 1. *)
Lemma tag_field_changes_correct_witness :
  ∃ fs1 fs2 curr' changed,
    tag_continued unfilled_email_waves = Ok fs1 ∧ tag_field_changes fs1 = Ok fs2 ∧
    fs2 !! 1 = Some curr' ∧
    column_at unfilled_email_waves 0 "email" = Some [NaN] ∧
    column_at unfilled_email_waves 1 "email" = Some [NaN] ∧
    lookup_col "changed_email" (cols curr') = Some changed ∧
    changed !! 0 = Some (Int 1%Z).
Proof.
  destruct unfilled_email_waves_ready as (Hwf & Hslug & Hone).
  edestruct (tag_field_changes_correct unfilled_email_waves 1)
    as (fs1 & fs2 & curr' & Hrun1 & Hrun2 & Hcurr' & Hfields);
    [exact Hwf | exact Hslug | exact Hone | lia | reflexivity | reflexivity |].
  destruct (Hfields 2 "email" eq_refl) as [Htaken _].
  destruct Htaken as (changed & continued & Hchanged & Hcontinued & Hrows).
  { intros [|[|[|m]]] g Hm [= <-]; (split; reflexivity) || lia. }
  destruct (Hrows 0 (Str "green-door") eq_refl)
    as (tag & cont & v & Htag & Hcont & Hv & _ & Hiff).
  injection Hv as <-.
  assert (cont = Int 1%Z) as ->.
  { vm_compute in Hrun1. injection Hrun1 as <-.
    vm_compute in Hrun2. injection Hrun2 as <-.
    vm_compute in Hcurr'. injection Hcurr' as <-.
    vm_compute in Hcontinued. injection Hcontinued as <-.
    vm_compute in Hcont. by injection Hcont as <-. }
  assert (tag = 1%Z) as ->.
  { apply Hiff. split; [done|]. exists 0, NaN. split; [reflexivity|]. split; [reflexivity|].
    by right. }
  exists fs1, fs2, curr', changed. repeat (split; [done|]). done.
Defined.

(** On grouped waves a storefront without email has [None] in both waves,
    and its changed_email tag is 0: "blue-gate" in [example_waves] changed
    its address only. *)
Lemma unrecorded_email_unchanged :
  ∃ fs1 fs2,
    tag_continued example_waves = Ok fs1 ∧ tag_field_changes fs1 = Ok fs2 ∧
    column_at fs2 1 "changed_address" = Some [Int 1%Z] ∧
    column_at fs2 1 "changed_email" = Some [Int 0%Z].
Proof. eexists _, _. split; [by vm_compute|]. split; by vm_compute. Qed.

Lemma reappeared_not_continued_witness :
  ∃ fs reappeared continued,
    lifecycle_tags example_waves = Ok fs ∧
    column_at fs 2 "reappeared" = Some reappeared ∧
    column_at fs 2 "continued" = Some continued.
Proof.
  destruct (reappeared_not_continued example_waves 2) as (fs & re & co & ? & _ & ? & ? & _).
  - exact example_waves_well_formed.
  - exact example_waves_slug.
  - simpl. lia.
  - by exists fs, re, co.
Defined.

Lemma tag_license_status_correct_witness :
  ∃ fs file', tag_license_status [license_wave] = Ok fs ∧ fs !! 0 = Some file'.
Proof.
  destruct (tag_license_status_correct [license_wave] 0 license_wave "active")
    as (fs & file' & ? & ? & _).
  - exact license_wave_ready.
  - reflexivity.
  - reflexivity.
  - apply (bool_decide_unpack _). by vm_compute.
  - by exists fs, file'.
Defined.

Lemma malformed_date_raises_witness :
  convert_str_to_datetime_maker fmt_mdY (Str "13/01/2019") = Raise ValueError ∧
  (∃ e, tag_license_status [bad_date_wave] = Raise e) ∧
  (∃ fs, tag_license_status [license_wave] = Ok fs) ∧
  tag_license_status [undated_wave] = Raise TypeError.
Proof.
  destruct malformed_date_raises as (Hconvert & Hraise & Hmissing & Htype).
  split; [|split; [|split]].
  - apply Hconvert. intros d. by vm_compute.
  - apply (Hraise [bad_date_wave] 0 bad_date_wave "13/01/2019"); [reflexivity | reflexivity |].
    left. split; [apply (bool_decide_unpack _); by vm_compute | intros d; by vm_compute].
  - destruct (Hmissing [license_wave] 0 license_wave) as (fs & _ & _ & ? & _).
    + exact license_wave_ready.
    + reflexivity.
    + reflexivity.
    + by exists fs.
  - apply (Htype [undated_wave] 0 undated_wave "2020-01-12").
    + exact undated_wave_ready.
    + reflexivity.
    + reflexivity.
    + discriminate.
    + intros c Hc. apply (bool_decide_unpack _) in Hc || idtac.
      change (column_of undated_wave "issue_date") with [NaN; NaN] in Hc.
      rewrite !elem_of_cons, elem_of_nil in Hc. by destruct Hc as [->|[->|[]]].
    + apply (bool_decide_unpack _). by vm_compute.
Defined.

Lemma standardize_files_correct_witness :
  ∃ fs tags, standardize_files [first_tagged; last_tagged] [panel_frame; panel_frame] =
               Ok (fs, tags).
Proof.
  destruct (standardize_files_correct [first_tagged; last_tagged] [panel_frame; panel_frame])
    as (fs & tags & m & ? & _).
  - reflexivity.
  - discriminate.
  - by exists fs, tags.
Defined.

(** In [shared_storefronts] the slugs "a" and "b" have the same product
    set and share a company; so do "c" and "d", which record the same
    email. *)
Lemma company_buckets_correct_witness :
  ∃ mapping ab cd,
    gen_company_mapping pretty shared_storefronts = Ok mapping ∧
    company_of mapping "a" = Some (Str ab) ∧ company_of mapping "b" = Some (Str ab) ∧
    company_of mapping "c" = Some (Str cd) ∧ company_of mapping "d" = Some (Str cd).
Proof.
  assert (∃ mapping, gen_company_mapping pretty shared_storefronts = Ok mapping)
    as [mapping Hrun] by (eexists; vm_compute; reflexivity).
  destruct (company_buckets_correct pretty shared_storefronts mapping Hrun)
    as (rows & st & Hrows & _ & _ & _ & Hsame & _).
  assert (group_rows shared_storefronts =
            Ok [mkRow "a" (Str "a@x.example") NaN {[Name (Str "og kush"); Name (Str "gelato")]};
                mkRow "b" (Str "b@y.example") NaN {[Name (Str "og kush"); Name (Str "gelato")]};
                mkRow "c" (Str "c@z.example") NaN {[Name (Str "blue dream")]};
                mkRow "d" (Str "c@z.example") NaN {[Name (Str "haze")]}]) as Hgr
    by (vm_compute; reflexivity).
  rewrite Hgr in Hrows. injection Hrows as <-.
  edestruct Hsame as (ab & Hida & Hidb);
    [apply list_elem_of_here
    |apply list_elem_of_further, list_elem_of_here
    |left; reflexivity|].
  edestruct Hsame as (cd & Hidc & Hidd);
    [do 2 apply list_elem_of_further; apply list_elem_of_here
    |do 3 apply list_elem_of_further; apply list_elem_of_here
    |right; split; reflexivity|].
  cbn [row_sid] in Hida, Hidb, Hidc, Hidd.
  exists mapping, ab, cd. repeat (split; [assumption|]). assumption.
Defined.

(** In [unnamed_products] no storefront names a product, and each is a
    company of its own: the sets of float NaN objects are not equal. *)
Lemma unnamed_products_apart :
  gen_company_mapping pretty unnamed_products =
    Ok [("a", Str "0"); ("b", Str "1"); ("c", Str "2")].
Proof. by vm_compute. Qed.

Lemma shifted_pretty_inj : Inj (=) (=) (λ n : nat, pretty (S n)).
Proof. intros x y H. apply (inj pretty) in H. lia. Qed.

Lemma partition_stable_witness :
  match gen_company_mapping pretty four_storefronts,
        gen_company_mapping (λ n : nat, pretty (S n)) four_storefronts with
  | Ok m1, Ok m2 =>
      m1.*1 = m2.*1 ∧
      ∀ a b, company_of m1 a = company_of m1 b ↔ company_of m2 a = company_of m2 b
  | Raise e1, Raise e2 => e1 = e2
  | _, _ => False
  end.
Proof.
  apply (partition_stable pretty (λ n : nat, pretty (S n)) four_storefronts).
  - apply pretty_nat_inj.
  - exact shifted_pretty_inj.
Defined.

Lemma gen_company_mapping_unbound_witness :
  gen_company_mapping pretty no_first_email = Raise (UnboundLocalError "email").
Proof.
  apply (gen_company_mapping_unbound pretty no_first_email
           (mkRow "b" PyNone NaN (list_to_set [Name (Str "sour diesel")]))
           [mkRow "c" (Str "c@y.example") NaN (list_to_set [Name (Str "blue dream")]);
            mkRow "d" PyNone NaN (list_to_set [Name (Str "gelato")])]).
  - vm_compute. reflexivity.
  - reflexivity.
Defined.

(** * Further properties of the tagging steps *)

(** ** Continuity and disappearance *)

Lemma disappeared_column_lookup files i j slug :
  slug_column files i !! j = Some slug →
  disappeared_column files i !! j =
    Some (int_of_bool (negb (bool_decide (slug ∈ slugs_at files (i + 1))))).
Proof.
  intros Hj. unfold disappeared_column, apply_int, series_not.
  by rewrite !list_lookup_fmap, (isin_lookup _ _ _ _ Hj).
Qed.

Lemma disappeared_column_length files i :
  length (disappeared_column files i) = length (slug_column files i).
Proof. unfold disappeared_column, apply_int, series_not, isin. by rewrite !length_fmap. Qed.

(** X1: on waves that carry their slug column, [tag_continued] returns;
    the continued tag of a row of a wave [i >= 1] is 0 or 1, and is 1
    exactly when the row's slug is a slug of wave [i-1]; the first wave is
    left as it was. *)
Theorem tag_continued_correct (files : list DataFrame) (i : nat) :
  Forall (λ f, has_column "slug" f = true) files →
  1 ≤ i < length files →
  ∃ fs continued,
    tag_continued files = Ok fs ∧
    fs !! 0 = files !! 0 ∧
    column_at fs i "continued" = Some continued ∧
    length continued = length (slug_column files i) ∧
    ∀ j slug, slug_column files i !! j = Some slug →
      ∃ tag, continued !! j = Some (Int tag) ∧ (tag = 0 ∨ tag = 1)%Z ∧
             (tag = 1%Z ↔ slug ∈ slugs_at files (i - 1)).
Proof.
  intros Hslug Hi. destruct (tag_continued_spec files Hslug) as (fs & Hrun & Hinv).
  exists fs, (continued_column files i). split; [done|].
  split; [apply (tagged_upto_outside _ _ _ _ _ _ _ Hinv); lia|].
  split; [apply (tagged_upto_written _ _ _ _ _ _ _ Hinv); lia|].
  split; [apply continued_column_length|].
  intros j slug Hj. rewrite (continued_column_lookup _ _ _ _ Hj).
  apply int_of_bool_tag, bool_decide_eq_true.
Qed.

Lemma tag_continued_correct_witness :
  ∃ fs continued,
    tag_continued example_waves = Ok fs ∧ column_at fs 1 "continued" = Some continued.
Proof.
  destruct (tag_continued_correct example_waves 1) as (fs & co & ? & _ & ? & _).
  - exact example_waves_slug.
  - simpl. lia.
  - by exists fs, co.
Defined.

(** X2: on waves that carry their slug column, [tag_disappear] returns;
    the disappeared tag of a row of a wave [i] that has a successor is 0 or
    1, and is 1 exactly when the row's slug is no slug of wave [i+1]; the
    last wave is left as it was. *)
Theorem tag_disappear_correct (files : list DataFrame) (i : nat) :
  Forall (λ f, has_column "slug" f = true) files →
  i + 1 < length files →
  ∃ fs disappeared,
    tag_disappear files = Ok fs ∧
    fs !! (length files - 1) = files !! (length files - 1) ∧
    column_at fs i "disappeared" = Some disappeared ∧
    length disappeared = length (slug_column files i) ∧
    ∀ j slug, slug_column files i !! j = Some slug →
      ∃ tag, disappeared !! j = Some (Int tag) ∧ (tag = 0 ∨ tag = 1)%Z ∧
             (tag = 1%Z ↔ slug ∉ slugs_at files (i + 1)).
Proof.
  intros Hslug Hi. destruct (tag_disappear_spec files Hslug) as (fs & Hrun & Hinv).
  exists fs, (disappeared_column files i). split; [done|].
  split; [apply (tagged_upto_outside _ _ _ _ _ _ _ Hinv); lia|].
  split; [apply (tagged_upto_written _ _ _ _ _ _ _ Hinv); lia|].
  split; [apply disappeared_column_length|].
  intros j slug Hj. rewrite (disappeared_column_lookup _ _ _ _ Hj).
  apply int_of_bool_tag. rewrite negb_true_iff. apply bool_decide_eq_false.
Qed.

Lemma tag_disappear_correct_witness :
  ∃ fs disappeared,
    tag_disappear example_waves = Ok fs ∧ column_at fs 0 "disappeared" = Some disappeared.
Proof.
  destruct (tag_disappear_correct example_waves 0) as (fs & di & ? & _ & ? & _).
  - exact example_waves_slug.
  - simpl. lia.
  - by exists fs, di.
Defined.

(** ** The lifecycle tags together *)

Lemma slugs_at_elem files k slug :
  slug ∈ slugs_at files k ↔ ∃ j, slug_column files k !! j = Some slug.
Proof.
  unfold slugs_at, slug_column. destruct (files !! k) as [f|]; simpl.
  - destruct (lookup_col "slug" (cols f)) as [s|]; simpl.
    + unfold to_set. rewrite elem_of_list_to_set. apply list_elem_of_lookup.
    + split; [set_solver | by intros [j ?]].
  - split; [set_solver | by intros [j ?]].
Qed.

Lemma reappeared_column_same fs fs' i :
  same_column "slug" fs fs' → reappeared_column fs i = reappeared_column fs' i.
Proof.
  intros S. unfold reappeared_column.
  destruct (same_column_slugs fs fs' i S) as [-> _].
  destruct (same_column_slugs fs fs' (i - 1) S) as [_ ->].
  by rewrite (same_column_slugs_up_to fs fs' (i - 2) S).
Qed.

Lemma disappeared_column_same fs fs' i :
  same_column "slug" fs fs' → disappeared_column fs i = disappeared_column fs' i.
Proof.
  intros S. unfold disappeared_column.
  destruct (same_column_slugs fs fs' i S) as [-> _].
  by destruct (same_column_slugs fs fs' (i + 1) S) as [_ ->].
Qed.

Lemma lifecycle_tags_columns files :
  files ≠ [] →
  Forall well_formed files →
  Forall (λ f, has_column "slug" f = true) files →
  ∃ fs, lifecycle_tags files = Ok fs ∧ length fs = length files ∧
    ∀ i, column_at fs i "slug" = column_at files i "slug" ∧
         (1 ≤ i < length files →
          column_at fs i "continued" = Some (continued_column files i)) ∧
         (i + 1 < length files →
          column_at fs i "disappeared" = Some (disappeared_column files i)) ∧
         (2 ≤ i < length files →
          column_at fs i "reappeared" = Some (reappeared_column files i)).
Proof.
  intros Hne Hwf Hslug.
  destruct (tag_continued_spec files Hslug) as (fs1 & Hrun1 & Hinv1).
  destruct (tag_continued_ready files fs1 Hinv1 Hwf Hslug) as (Hwf1 & Hslug1 & Hcont1).
  destruct (tag_field_changes_spec fs1 Hwf1 Hslug1 Hcont1) as (fs2 & Hrun2 & Hlen2 & H20 & Hpost).
  assert (∀ name, name ∈ tracked → same_column name fs1 fs2) as S12
    by (intros name Hname; by apply tag_field_changes_same_column).
  assert ("slug" ∈ tracked) as Tslug by (unfold tracked; rewrite !elem_of_cons; auto).
  assert ("continued" ∈ tracked) as Tcont by (unfold tracked; rewrite !elem_of_cons; auto).
  assert (Forall (λ f, has_column "slug" f = true) fs2) as Hslug2
    by (eapply same_column_has_column; [by apply S12 | done]).
  destruct (tag_disappear_spec fs2 Hslug2) as (fs3 & Hrun3 & Hinv3).
  assert (∀ name, name ≠ "disappeared" → same_column name fs2 fs3) as S23
    by (intros name Hname; eapply tagged_upto_same_column; [done | congruence]).
  assert (Forall (λ f, has_column "slug" f = true) fs3) as Hslug3
    by (eapply same_column_has_column; [by apply S23 | done]).
  assert (same_column "slug" files fs2) as Sslug2.
  { eapply same_column_trans; [by eapply tagged_upto_same_column | by apply S12]. }
  assert (same_column "slug" files fs3) as Sslug.
  { eapply same_column_trans; [exact Sslug2 | by apply S23]. }
  assert (length fs2 = length files) as Hlen2' by (symmetry; apply Sslug2).
  assert (length fs3 = length files) as Hlen3 by (symmetry; apply Sslug).
  destruct (get_slugs_up_to_i_array_spec fs3) as (up & Hup & Hupk);
    [intros ->; destruct files; simpl in Hlen3; [done | lia] | done |].
  destruct (tag_reappear_spec fs3 up Hslug3 Hupk) as (fs4 & Hrun4 & Hinv4).
  exists fs4. split; [|split].
  - unfold lifecycle_tags. rewrite Hrun1. simpl. rewrite Hrun2. simpl. rewrite Hrun3. simpl.
    by rewrite Hup.
  - rewrite (tagged_upto_length _ _ _ _ _ _ Hinv4). done.
  - intros i. split; [|split; [|split]].
    + rewrite (tagged_upto_column _ _ _ _ _ _ i "slug" Hinv4) by done.
      by destruct Sslug as [_ <-].
    + intros Hi. rewrite (tagged_upto_column _ _ _ _ _ _ i "continued" Hinv4) by done.
      assert (same_column "continued" fs2 fs3) as [_ <-] by by apply S23.
      destruct (S12 "continued" Tcont) as [_ <-].
      apply (tagged_upto_written _ _ _ _ _ _ _ Hinv1); lia.
    + intros Hi. rewrite (tagged_upto_column _ _ _ _ _ _ i "disappeared" Hinv4) by done.
      rewrite (disappeared_column_same files fs2 i Sslug2).
      apply (tagged_upto_written _ _ _ _ _ _ _ Hinv3); lia.
    + intros Hi. rewrite (reappeared_column_same files fs3 i Sslug).
      apply (tagged_upto_written _ _ _ _ _ _ _ Hinv4); lia.
Qed.

Lemma latest_wave (P : nat → Prop) (n : nat) :
  (∀ k, Decision (P k)) → (∃ k, k ≤ n ∧ P k) →
  ∃ k, k ≤ n ∧ P k ∧ ∀ k', k < k' ≤ n → ¬ P k'.
Proof.
  intros Hdec. induction n as [|n IH]; intros (k & Hk & HP).
  - exists 0. replace k with 0 in HP by lia. split; [done|]. split; [done|]. lia.
  - destruct (decide (P (S n))) as [Hn|Hn].
    + exists (S n). split; [done|]. split; [done|]. lia.
    + destruct IH as (k0 & Hk0 & HP0 & Hlast).
      * exists k. split; [|done]. destruct (decide (k = S n)) as [->|]; [done | lia].
      * exists k0. split; [lia|]. split; [done|].
        intros k' Hk'. destruct (decide (k' = S n)) as [->|]; [done | apply Hlast; lia].
Qed.

(** X3: after the lifecycle steps of [main], a row of wave [i] has
    disappeared = 0 exactly when its slug has a row in wave [i+1], and that
    row then carries continued = 1; conversely a row of wave [i+1] has
    continued = 1 exactly when its slug has a row in wave [i], which then
    carries disappeared = 0. *)
Theorem disappeared_then_not_continued (files : list DataFrame) (i : nat) :
  Forall well_formed files →
  Forall (λ f, has_column "slug" f = true) files →
  i + 1 < length files →
  ∃ fs disappeared continued,
    lifecycle_tags files = Ok fs ∧
    column_at fs i "disappeared" = Some disappeared ∧
    column_at fs (i + 1) "continued" = Some continued ∧
    (∀ j slug, slug_column files i !! j = Some slug →
       (disappeared !! j = Some (Int 0%Z) ↔
        ∃ j', slug_column files (i + 1) !! j' = Some slug) ∧
       (∀ j', slug_column files (i + 1) !! j' = Some slug →
              disappeared !! j = Some (Int 0%Z) ∧ continued !! j' = Some (Int 1%Z))) ∧
    (∀ j' slug, slug_column files (i + 1) !! j' = Some slug →
       (continued !! j' = Some (Int 1%Z) ↔ ∃ j, slug_column files i !! j = Some slug)).
Proof.
  intros Hwf Hslug Hi.
  destruct (lifecycle_tags_columns files) as (fs & Hrun & Hlen & Hcols);
    [intros ->; simpl in Hi; lia | done | done |].
  exists fs, (disappeared_column files i), (continued_column files (i + 1)).
  split; [done|]. split; [by apply (Hcols i)|].
  split; [apply (Hcols (i + 1)); lia|].
  assert (∀ j slug, slug_column files i !! j = Some slug →
     (disappeared_column files i !! j = Some (Int 0%Z) ↔ slug ∈ slugs_at files (i + 1))) as Hdis.
  { intros j slug Hj. rewrite (disappeared_column_lookup _ _ _ _ Hj).
    unfold int_of_bool. case_bool_decide; simpl; split; intros; done. }
  assert (∀ j' slug, slug_column files (i + 1) !! j' = Some slug →
     (continued_column files (i + 1) !! j' = Some (Int 1%Z) ↔ slug ∈ slugs_at files i)) as Hcon.
  { intros j' slug Hj'. rewrite (continued_column_lookup _ _ _ _ Hj').
    replace (i + 1 - 1) with i by lia.
    unfold int_of_bool. case_bool_decide; simpl; split; intros; done. }
  split.
  - intros j slug Hj. split.
    + by rewrite (Hdis j slug Hj), slugs_at_elem.
    + intros j' Hj'. split.
      * apply (Hdis j slug Hj), slugs_at_elem. by exists j'.
      * apply (Hcon j' slug Hj'), slugs_at_elem. by exists j.
  - intros j' slug Hj'. by rewrite (Hcon j' slug Hj'), slugs_at_elem.
Qed.

Lemma disappeared_then_not_continued_witness :
  ∃ fs disappeared continued,
    lifecycle_tags example_waves = Ok fs ∧
    column_at fs 0 "disappeared" = Some disappeared ∧
    column_at fs 1 "continued" = Some continued.
Proof.
  destruct (disappeared_then_not_continued example_waves 0)
    as (fs & di & co & ? & ? & ? & _).
  - exact example_waves_well_formed.
  - exact example_waves_slug.
  - simpl. lia.
  - by exists fs, di, co.
Defined.

(** X4: after the lifecycle steps of [main], a row of a wave [i >= 2] has
    reappeared = 1 exactly when its slug was last seen in some wave
    [k <= i-2], in a row tagged disappeared = 1, and in no wave strictly
    between [k] and [i]: a storefront reappears only after disappearing. *)
Theorem reappeared_after_disappeared (files : list DataFrame) (i : nat) :
  Forall well_formed files →
  Forall (λ f, has_column "slug" f = true) files →
  2 ≤ i < length files →
  ∃ fs reappeared,
    lifecycle_tags files = Ok fs ∧
    column_at fs i "reappeared" = Some reappeared ∧
    ∀ j slug, slug_column files i !! j = Some slug →
      (reappeared !! j = Some (Int 1%Z) ↔
       ∃ k j' disappeared,
         k + 2 ≤ i ∧ slug_column files k !! j' = Some slug ∧
         column_at fs k "disappeared" = Some disappeared ∧
         disappeared !! j' = Some (Int 1%Z) ∧
         ∀ k', k < k' < i → slug ∉ slugs_at files k').
Proof.
  intros Hwf Hslug Hi.
  destruct (lifecycle_tags_columns files) as (fs & Hrun & Hlen & Hcols);
    [intros ->; simpl in Hi; lia | done | done |].
  exists fs, (reappeared_column files i). split; [done|].
  split; [by apply (Hcols i)|].
  intros j slug Hj. rewrite (reappeared_column_lookup _ _ _ _ Hj).
  assert (Some (int_of_bool (bool_decide (slug ∈ slugs_up_to files (i - 2)) &&
                             negb (bool_decide (slug ∈ slugs_at files (i - 1))))) =
          Some (Int 1%Z) ↔
          slug ∈ slugs_up_to files (i - 2) ∧ slug ∉ slugs_at files (i - 1)) as Hre.
  { unfold int_of_bool. do 2 case_bool_decide; simpl; split; intros H'; try done;
      destruct H'; done. }
  split.
  - intros Hone. apply Hre in Hone as [Hup Hprev]. apply elem_of_slugs_up_to in Hup.
    destruct (latest_wave (λ k, slug ∈ slugs_at files k) (i - 2)) as (k & Hk & Hin & Hlast);
      [intros k; apply _ | done |].
    apply slugs_at_elem in Hin as [j' Hj'].
    assert (slug ∉ slugs_at files (k + 1)) as Hnext.
    { destruct (decide (k + 1 = i - 1)) as [->|]; [done | apply Hlast; lia]. }
    exists k, j', (disappeared_column files k).
    split; [lia|]. split; [done|]. split; [apply (Hcols k); lia|]. split.
    + rewrite (disappeared_column_lookup _ _ _ _ Hj').
      by rewrite bool_decide_eq_false_2.
    + intros k' Hk'. destruct (decide (k' = i - 1)) as [->|]; [done | apply Hlast; lia].
  - intros (k & j' & di & Hk & Hj' & _ & _ & Hgap). apply Hre. split.
    + apply elem_of_slugs_up_to. exists k. split; [lia|]. apply slugs_at_elem. by exists j'.
    + apply Hgap. lia.
Qed.

Lemma reappeared_after_disappeared_witness :
  ∃ fs reappeared,
    lifecycle_tags example_waves = Ok fs ∧ column_at fs 2 "reappeared" = Some reappeared.
Proof.
  destruct (reappeared_after_disappeared example_waves 2) as (fs & re & ? & ? & _).
  - exact example_waves_well_formed.
  - exact example_waves_slug.
  - simpl. lia.
  - by exists fs, re.
Defined.

(** ** Prefix unions of slug sets *)

Lemma get_slugs_up_to_i_array_length files up :
  get_slugs_up_to_i_array files = Ok up → length up = length files.
Proof.
  unfold get_slugs_up_to_i_array. intros Hrun.
  apply bind_Ok in Hrun as (f0 & Hf0 & Hrun). apply bind_Ok in Hrun as (s0 & Hs0 & Hrun).
  apply item_Ok in Hf0. apply lookup_lt_Some in Hf0. unfold range in Hrun.
  apply (for_each_seq_partial (λ i (acc : list (gset cell)), length acc = i)) in Hrun.
  - lia.
  - done.
  - intros i t t' Hi Ht Hbody.
    apply bind_Ok in Hbody as (fi & _ & Hbody). apply bind_Ok in Hbody as (si & _ & Hbody).
    apply bind_Ok in Hbody as (prev & _ & [= <-]). rewrite length_app. simpl. lia.
Qed.

Lemma slugs_up_to_mono files i j : i ≤ j → slugs_up_to files i ⊆ slugs_up_to files j.
Proof.
  intros Hij c. rewrite !elem_of_slugs_up_to. intros (k & Hk & Hc). exists k. split; [lia | done].
Qed.

(** X5: [get_slugs_up_to_i_array] raises IndexError on an empty wave list;
    on a non-empty list of waves with a slug column it returns one set per
    wave, the set of wave [i] holds exactly the slugs of waves [0..i], and
    the sets grow with the wave index. *)
Theorem get_slugs_up_to_i_array_correct :
  get_slugs_up_to_i_array [] = Raise IndexError ∧
  ∀ files : list DataFrame,
    files ≠ [] →
    Forall (λ f, has_column "slug" f = true) files →
    ∃ slugs_up_to_i,
      get_slugs_up_to_i_array files = Ok slugs_up_to_i ∧
      length slugs_up_to_i = length files ∧
      ∀ i a, slugs_up_to_i !! i = Some a →
        (∀ slug, slug ∈ a ↔ ∃ k, k ≤ i ∧ slug ∈ slugs_at files k) ∧
        ∀ j b, i ≤ j → slugs_up_to_i !! j = Some b → a ⊆ b.
Proof.
  split; [done|]. intros files Hne Hslug.
  destruct (get_slugs_up_to_i_array_spec files Hne Hslug) as (up & Hrun & Hup).
  pose proof (get_slugs_up_to_i_array_length files up Hrun) as Hlen.
  exists up. split; [done|]. split; [done|].
  intros i a Hi. pose proof (lookup_lt_Some _ _ _ Hi) as Hlt.
  rewrite Hup in Hi by lia. injection Hi as <-. split.
  - intros slug. apply elem_of_slugs_up_to.
  - intros j b Hij Hj. pose proof (lookup_lt_Some _ _ _ Hj) as Hltj.
    rewrite Hup in Hj by lia. injection Hj as <-. by apply slugs_up_to_mono.
Qed.

Lemma get_slugs_up_to_i_array_correct_witness :
  ∃ slugs_up_to_i,
    get_slugs_up_to_i_array example_waves = Ok slugs_up_to_i ∧
    length slugs_up_to_i = length example_waves.
Proof.
  destruct (proj2 get_slugs_up_to_i_array_correct example_waves) as (up & ? & ? & _).
  - done.
  - exact example_waves_slug.
  - by exists up.
Defined.

(** ** Grouping by slug *)

Lemma slug_lt_trans a b c : slug_lt a b → slug_lt b c → slug_lt a c.
Proof.
  unfold slug_lt. intros Hab Hbc.
  apply OrderedTypeEx.String_as_OT.cmp_lt.
  eapply OrderedTypeEx.String_as_OT.lt_trans; by apply OrderedTypeEx.String_as_OT.cmp_lt.
Qed.

Lemma slug_lt_irrefl a : ¬ slug_lt a a.
Proof.
  unfold slug_lt. intros H.
  assert (String.compare a a = Eq) as Heq by by apply OrderedTypeEx.String_as_OT.cmp_eq.
  congruence.
Qed.

Lemma slug_lt_flip a b : String.compare a b = Gt → slug_lt b a.
Proof.
  unfold slug_lt. intros H. rewrite String.compare_antisym, H. done.
Qed.

Lemma insert_key_elem s keys x : x ∈ insert_key s keys ↔ x = s ∨ x ∈ keys.
Proof.
  induction keys as [|k keys IH]; simpl.
  - rewrite list_elem_of_singleton. split; [by left | intros [?|?%elem_of_nil]; done].
  - destruct (String.compare s k) eqn:Hc.
    + apply String.compare_eq_iff in Hc as ->. split; [by right | intros [->|?]; [left | done]].
    + rewrite elem_of_cons. done.
    + rewrite !elem_of_cons, IH. tauto.
Qed.

Lemma insert_key_sorted s keys :
  StronglySorted slug_lt keys → StronglySorted slug_lt (insert_key s keys).
Proof.
  induction keys as [|k keys IH]; intros Hs; simpl.
  - by repeat constructor.
  - apply StronglySorted_inv in Hs as [Hs Hk]. destruct (String.compare s k) eqn:Hc.
    + by constructor.
    + constructor; [by constructor|]. constructor; [done|].
      eapply Forall_impl; [exact Hk|]. intros x Hx. by eapply slug_lt_trans.
    + constructor; [by apply IH|]. apply Forall_forall. intros x [->|Hx]%insert_key_elem.
      * by apply slug_lt_flip.
      * by apply (proj1 (Forall_forall _ _) Hk).
Qed.

Lemma group_keys_elem slug s : s ∈ group_keys slug ↔ Str s ∈ slug.
Proof.
  unfold group_keys. induction slug as [|c slug IH]; simpl.
  - by rewrite !elem_of_nil.
  - rewrite elem_of_cons. destruct c as [| |t|z].
    + rewrite IH. split; [by right | by intros [?|?]].
    + rewrite IH. split; [by right | by intros [?|?]].
    + rewrite insert_key_elem, IH. split; intros [H|H]; auto; [left; congruence|].
      left. congruence.
    + rewrite IH. split; [by right | by intros [?|?]].
Qed.

Lemma group_keys_sorted slug : StronglySorted slug_lt (group_keys slug).
Proof.
  unfold group_keys. induction slug as [|c slug IH]; simpl; [constructor|].
  destruct c; [done | done | by apply insert_key_sorted | done].
Qed.

Lemma sorted_keys_NoDup keys : StronglySorted slug_lt keys → NoDup keys.
Proof.
  induction 1 as [|k keys Hs IH Hk]; constructor; [|done].
  intros Hin. by apply (slug_lt_irrefl k), (proj1 (Forall_forall _ _) Hk).
Qed.

Lemma group_keys_NoDup slug : NoDup (group_keys slug).
Proof. apply sorted_keys_NoDup, group_keys_sorted. Qed.

(** X6: [main] groups every wave by slug. On a wave with a slug column the
    grouping returns a frame whose columns all have one cell per row, whose
    slug column lists the string slugs of the wave once each, in increasing
    order, and which has the same columns as the wave; without the slug
    column it raises KeyError. *)
Theorem group_first_correct (file : DataFrame) :
  (has_column "slug" file = false → group_first file = Raise (KeyError "slug")) ∧
  (has_column "slug" file = true →
   ∃ grouped keys,
     group_first file = Ok grouped ∧
     well_formed grouped ∧
     column_of grouped "slug" = Str <$> keys ∧
     StronglySorted slug_lt keys ∧
     one_row_per_slug grouped ∧
     (∀ s, s ∈ keys ↔ Str s ∈ column_of file "slug") ∧
     ∀ name, has_column name grouped = has_column name file).
Proof.
  split.
  - intros Hno. apply has_column_false in Hno. unfold group_first, getitem. by rewrite Hno.
  - intros Hslug. unfold group_first. rewrite (getitem_column_of _ _ Hslug). cbn [bind].
    eexists _, (group_keys (column_of file "slug")). split; [done|].
    assert (column_of
      (mkDF (length (group_keys (column_of file "slug")))
         (("slug", Str <$> group_keys (column_of file "slug")) ::
          ((λ kv : string * list cell,
              (kv.1, (λ key, agg_first kv.2 (group_values key (column_of file "slug") kv.2))
                       <$> group_keys (column_of file "slug")))
             <$> filter (λ kv, kv.1 ≠ "slug") (cols file)))) "slug" =
      Str <$> group_keys (column_of file "slug")) as Hcol by done.
    split; [|split; [done|split; [apply group_keys_sorted|split; [|split]]]].
    + unfold well_formed. cbn [cols nrows]. constructor; [cbn [snd]; by rewrite length_fmap|].
      apply Forall_fmap, Forall_forall. intros kv _. unfold compose. cbn [snd nrows].
      by rewrite length_fmap.
    + unfold one_row_per_slug. rewrite Hcol. apply NoDup_fmap_2; [|apply group_keys_NoDup].
      by intros ?? [=].
    + intros s. apply group_keys_elem.
    + intros name. unfold has_column, columns. cbn [cols]. apply bool_decide_ext.
      rewrite fmap_cons, elem_of_cons. cbn [fst].
      rewrite <- list_fmap_compose.
      destruct (decide (name = "slug")) as [->|Hne].
      * split; [intros _|by left]. unfold has_column, columns in Hslug.
        by apply bool_decide_eq_true in Hslug.
      * rewrite !list_elem_of_fmap. split.
        -- intros [?|(kv & -> & Hkv)]; [done|]. apply list_elem_of_filter in Hkv as [_ Hkv].
           by exists kv.
        -- intros (kv & -> & Hkv). right. exists kv. split; [done|].
           apply list_elem_of_filter. done.
Qed.

Lemma group_first_correct_witness :
  ∃ grouped keys,
    group_first four_storefronts = Ok grouped ∧ column_of grouped "slug" = Str <$> keys.
Proof.
  destruct (proj2 (group_first_correct four_storefronts)) as (g & keys & ? & _ & ? & _).
  - reflexivity.
  - by exists g, keys.
Defined.

(** [agg('first')] of a group none of whose cells is filled: [None] in a
    column of objects, NaN in a column of numbers. *)
Lemma agg_first_missing col values :
  Forall (λ c, is_null c = true) values →
  agg_first col values = if object_dtype col then PyNone else NaN.
Proof.
  intros Hall. unfold agg_first.
  replace (filter (λ c, is_null c = false) values) with (@nil cell); first done.
  induction Hall as [|c l Hc _ IH]; first done.
  rewrite filter_cons_False; first done.
  by rewrite Hc.
Qed.

(** [agg('first')] of a group with a filled cell: the first of them. *)
Lemma agg_first_filled col values c :
  head (filter (λ c, is_null c = false) values) = Some c →
  agg_first col values = c ∧ is_null c = false ∧ c ∈ values.
Proof.
  intros Hhd. unfold agg_first. rewrite Hhd. split; first done.
  assert (Hin : c ∈ filter (λ c, is_null c = false) values).
  { destruct (filter _ values); simplify_eq/=. apply list_elem_of_here. }
  by apply list_elem_of_filter in Hin.
Qed.

(** In the wave of four storefronts the two that record no email come out
    of the grouping with [None] for it. *)
Lemma grouped_unrecorded_email :
  ∃ grouped,
    group_first four_storefronts = Ok grouped ∧
    column_of grouped "email" = [Str "a@x.example"; PyNone; Str "c@y.example"; PyNone].
Proof. eexists. split; reflexivity. Qed.

(** ** The index of the company mapping *)

Lemma group_rows_sids df rows :
  group_rows df = Ok rows →
  has_column "slug" df = true ∧ row_sid <$> rows = group_keys (column_of df "slug").
Proof.
  unfold group_rows. destruct (has_column "phone" df).
  - intros (em & _ & H)%bind_Ok. apply bind_Ok in H as (slug & Hslug & H).
    apply bind_Ok in H as (ph & _ & H). apply bind_Ok in H as (pn & _ & [= <-]).
    apply getitem_Ok in Hslug.
    split; [apply has_column_lookup; by rewrite Hslug|].
    unfold column_of. rewrite Hslug. simpl. rewrite <- list_fmap_compose.
    by rewrite <- (list_fmap_id (group_keys slug)) at 2.
  - intros (em & _ & H)%bind_Ok. apply bind_Ok in H as (slug & Hslug & H).
    apply bind_Ok in H as (pn & _ & [= <-]).
    apply getitem_Ok in Hslug.
    split; [apply has_column_lookup; by rewrite Hslug|].
    unfold column_of. rewrite Hslug. simpl. rewrite <- list_fmap_compose.
    by rewrite <- (list_fmap_id (group_keys slug)) at 2.
Qed.

Lemma company_of_elem (mapping : list (string * cell)) a c :
  NoDup mapping.*1 → (a, c) ∈ mapping → company_of mapping a = Some c.
Proof.
  induction mapping as [|[k v] mapping IH]; csimpl; intros Hnd Hin.
  - by apply elem_of_nil in Hin.
  - apply NoDup_cons in Hnd as [Hfresh Hnd]. apply elem_of_cons in Hin as [[= <- <-]|Hin].
    + by rewrite decide_True.
    + rewrite decide_False; [by apply IH|]. intros ->. apply Hfresh.
      apply list_elem_of_fmap. by exists (a, c).
Qed.

(** X7: the mapping [gen_company_mapping] writes has one line per string
    slug of the wave, in increasing slug order and without repetition, and
    every company identifier in it is one that [uuid1] generated: no line
    keeps the initial zero. *)
Theorem company_mapping_index (uuid1 : nat → string) (df : DataFrame)
    (mapping : list (string * cell)) :
  gen_company_mapping uuid1 df = Ok mapping →
  StronglySorted slug_lt mapping.*1 ∧
  NoDup mapping.*1 ∧
  (∀ slug, slug ∈ mapping.*1 ↔ Str slug ∈ column_of df "slug") ∧
  ∀ slug id, (slug, id) ∈ mapping → ∃ n, id = Str (uuid1 n).
Proof.
  unfold gen_company_mapping. intros (rows & Hrows & H)%bind_Ok.
  apply bind_Ok in H as (ds & Hds & [= <-]).
  destruct (group_rows_sids _ _ Hrows) as [Hslug Hsids].
  assert ((assign_company_ids uuid1 (ds_itersets ds)
             ((λ r, (row_sid r, Int 0%Z)) <$> rows)).*1 = group_keys (column_of df "slug"))
    as Hkeys.
  { unfold assign_company_ids. rewrite assign_keys, <- list_fmap_compose. exact Hsids. }
  rewrite Hkeys. split; [apply group_keys_sorted|]. split; [apply group_keys_NoDup|].
  split; [intros slug; apply group_keys_elem|].
  intros slug id Hin.
  assert (slug ∈ row_sid <$> rows) as Hsid.
  { rewrite Hsids, <- Hkeys. apply list_elem_of_fmap. by exists (slug, id). }
  apply company_of_elem in Hin; [|rewrite Hkeys; apply group_keys_NoDup].
  destruct (company_classes_spec _ _ _ Hds) as [Hnd Hsame].
  apply list_elem_of_fmap in Hsid as (r & -> & Hr).
  destruct (Hsame r r Hr Hr) as (q & Hq & _); [by left|].
  destruct (itersets_cover ds (row_sid r) q Hnd Hq) as (comp & Hcomp & Hmem).
  destruct (last_class_Some 0 _ _ comp Hcomp Hmem) as [k Hk].
  unfold assign_company_ids in Hin. rewrite company_of_assign, Hk, company_of_zeros in Hin.
  rewrite bool_decide_eq_true_2 in Hin by by apply list_elem_of_fmap_2.
  injection Hin as <-. by exists k.
Qed.

Lemma company_mapping_index_witness :
  NoDup [("a", Str "0"); ("b", Str "0"); ("c", Str "1"); ("d", Str "1")].*1.
Proof.
  apply (company_mapping_index pretty four_storefronts
           [("a", Str "0"); ("b", Str "0"); ("c", Str "1"); ("d", Str "1")]).
  vm_compute. reflexivity.
Defined.

(** ** The classes of the disjoint set are the buckets' closure *)

Lemma ds_find_rooted ds x : ds_rooted ds → ds_rooted (ds_find ds x).1.
Proof.
  unfold ds_find. destruct (ds_lookup ds x) as [q|] eqn:Hx; simpl; [done|].
  intros Hroot a r. rewrite !ds_lookup_snoc.
  destruct (ds_lookup ds a) as [q|] eqn:Ha.
  - intros [= <-]. by rewrite (Hroot _ _ Ha).
  - destruct (decide (x = a)) as [->|]; [|done]. intros [= <-].
    by rewrite Hx, decide_True.
Qed.

Lemma ds_find_sound (R : relation string) ds x :
  Reflexive R → ds_rooted ds → (∀ a b, ds_same ds a b → R a b) →
  ∀ a b, ds_same (ds_find ds x).1 a b → R a b.
Proof.
  unfold ds_find. destruct (ds_lookup ds x) as [q|] eqn:Hx; simpl; [done|].
  intros Hrefl Hroot HR a b (r & Ha & Hb). rewrite ds_lookup_snoc in Ha, Hb.
  destruct (ds_lookup ds a) as [ra|] eqn:Ha', (ds_lookup ds b) as [rb|] eqn:Hb'.
  - apply HR. exists r. split; congruence.
  - destruct (decide (x = b)) as [->|]; [|done].
    assert (ra = b) as -> by congruence. apply Hroot in Ha'. congruence.
  - destruct (decide (x = a)) as [->|]; [|done].
    assert (rb = a) as -> by congruence. apply Hroot in Hb'. congruence.
  - destruct (decide (x = a)) as [->|]; [|done]. destruct (decide (a = b)) as [->|]; done.
Qed.

Lemma ds_union_sound (R : relation string) ds x y :
  Equivalence R → R x y → ds_rooted ds → (∀ a b, ds_same ds a b → R a b) →
  ds_rooted (ds_union ds x y) ∧ ∀ a b, ds_same (ds_union ds x y) a b → R a b.
Proof.
  intros HE Hxy Hroot HR. unfold ds_union.
  destruct (ds_find ds x) as [ds1 px] eqn:H1. destruct (ds_find ds1 y) as [ds2 py] eqn:H2.
  assert (ds_rooted ds1) as Hroot1
    by (replace ds1 with (ds_find ds x).1 by (by rewrite H1); by apply ds_find_rooted).
  assert (ds_rooted ds2) as Hroot2
    by (replace ds2 with (ds_find ds1 y).1 by (by rewrite H2); by apply ds_find_rooted).
  assert (∀ a b, ds_same ds1 a b → R a b) as HR1.
  { replace ds1 with (ds_find ds x).1 by (by rewrite H1). apply ds_find_sound; [apply _|done..]. }
  assert (∀ a b, ds_same ds2 a b → R a b) as HR2.
  { replace ds2 with (ds_find ds1 y).1 by (by rewrite H2). apply ds_find_sound; [apply _|done..]. }
  assert (ds_lookup ds2 x = Some px) as Hx.
  { replace ds2 with (ds_find ds1 y).1 by by rewrite H2. apply ds_find_lookup.
    replace ds1 with (ds_find ds x).1 by by rewrite H1.
    replace px with (ds_find ds x).2 by by rewrite H1. apply ds_find_self. }
  assert (ds_lookup ds2 y = Some py) as Hy.
  { replace ds2 with (ds_find ds1 y).1 by by rewrite H2.
    replace py with (ds_find ds1 y).2 by by rewrite H2. apply ds_find_self. }
  assert (∀ a r, ds_lookup ds2 a = Some r → R a r) as Hcanon.
  { intros a r Ha. apply HR2. exists r. split; [done|]. by apply (Hroot2 a). }
  destruct (decide (px = py)) as [Heq|Hne]; [done|]. split.
  - intros a r. rewrite !ds_lookup_relabel.
    destruct (ds_lookup ds2 a) as [q|] eqn:Ha; [|done]. simpl.
    destruct (decide (q = px)) as [->|Hq]; intros [= <-].
    + rewrite (Hroot2 _ _ Hy). simpl. by rewrite decide_False by done.
    + rewrite (Hroot2 _ _ Ha). simpl. by rewrite decide_False.
  - intros a b (r & Ha & Hb). rewrite ds_lookup_relabel in Ha, Hb.
    destruct (ds_lookup ds2 a) as [ra|] eqn:Ha'; [|done].
    destruct (ds_lookup ds2 b) as [rb|] eqn:Hb'; [|done]. simpl in Ha, Hb.
    pose proof (Hcanon a ra Ha') as Ra. pose proof (Hcanon b rb Hb') as Rb.
    pose proof (Hcanon x px Hx) as Rx. pose proof (Hcanon y py Hy) as Ry.
    destruct (decide (ra = px)) as [->|Hra], (decide (rb = px)) as [->|Hrb].
    + by rewrite Ra, Rb.
    + assert (rb = py) as -> by congruence. by rewrite Ra, <- Rx, Hxy, Ry, Rb.
    + assert (ra = py) as -> by congruence. by rewrite Ra, <- Ry, <- Hxy, Rx, Rb.
    + assert (ra = rb) as -> by congruence. by rewrite Ra, Rb.
Qed.

Lemma union_first_sound (R : relation string) first rest ds :
  Equivalence R → (∀ c, c ∈ rest → R first c) →
  ds_rooted ds → (∀ a b, ds_same ds a b → R a b) →
  ds_rooted (foldl (λ ds curr_sid, ds_union ds first curr_sid) ds rest) ∧
  ∀ a b, ds_same (foldl (λ ds curr_sid, ds_union ds first curr_sid) ds rest) a b → R a b.
Proof.
  intros HE. revert ds. induction rest as [|c rest IH]; intros ds Hrest Hroot HR; simpl.
  - done.
  - destruct (ds_union_sound R ds first c) as [Hroot' HR']; [done | apply Hrest; by left | done..|].
    apply IH; [|done..]. intros c' Hc'. apply Hrest. by right.
Qed.

Lemma union_bucket_sound (R : relation string) bucket ds ds' :
  Equivalence R → union_bucket bucket ds = Ok ds' →
  (∀ a b, a ∈ bucket → b ∈ bucket → R a b) →
  ds_rooted ds → (∀ a b, ds_same ds a b → R a b) →
  ds_rooted ds' ∧ ∀ a b, ds_same ds' a b → R a b.
Proof.
  intros HE. unfold union_bucket. destruct bucket as [|first rest]; [done|]. simpl.
  rewrite drop_0. intros [= <-] Hb Hroot HR.
  apply union_first_sound; [done| |done..]. intros c Hc. apply Hb; [by left | by right].
Qed.

Lemma union_buckets_sound {K} (R : relation string) (ht : list (K * list string)) ds ds' :
  Equivalence R → union_buckets ht ds = Ok ds' →
  (∀ kv a b, kv ∈ ht → a ∈ kv.2 → b ∈ kv.2 → R a b) →
  ds_rooted ds → (∀ a b, ds_same ds a b → R a b) →
  ds_rooted ds' ∧ ∀ a b, ds_same ds' a b → R a b.
Proof.
  intros HE. unfold union_buckets. revert ds.
  induction ht as [|kv ht IH]; intros ds; simpl.
  - by intros [= <-].
  - intros (ds1 & Hstep & Hrest)%bind_Ok Hb Hroot HR.
    destruct (union_bucket_sound R _ _ _ HE Hstep) as [Hroot1 HR1];
      [intros a b; apply Hb; by left | done..|].
    apply (IH ds1); [done| |done..]. intros kv' a b Hkv. apply Hb. by right.
Qed.

Lemma initial_sound (R : relation string) (index : list string) ds :
  Reflexive R → ds_rooted ds → (∀ a b, ds_same ds a b → R a b) →
  ds_rooted (foldl (λ ds sid, (ds_find ds sid).1) ds index) ∧
  ∀ a b, ds_same (foldl (λ ds sid, (ds_find ds sid).1) ds index) a b → R a b.
Proof.
  intros Hrefl. revert ds. induction index as [|x index IH]; intros ds Hroot HR; simpl.
  - done.
  - apply IH; [by apply ds_find_rooted | by apply ds_find_sound].
Qed.

Lemma ht_get_append_elem {K} `{EqDecision K} (key key' : K) sid ht a :
  a ∈ ht_get key' (ht_append key sid ht) ↔ a ∈ ht_get key' ht ∨ (key' = key ∧ a = sid).
Proof.
  destruct (decide (key = key')) as [->|Hne].
  - rewrite ht_get_append_eq, elem_of_app, list_elem_of_singleton. tauto.
  - rewrite ht_get_append_ne by done. split; [by left | intros [?|[? ?]]; [done | congruence]].
Qed.

Lemma ht_append_NoDup {K} `{EqDecision K} (key : K) sid (ht : list (K * list string)) :
  NoDup ht.*1 → NoDup (ht_append key sid ht).*1.
Proof.
  induction ht as [|[k sids] ht IH]; csimpl; intros Hnd.
  - apply NoDup_singleton.
  - apply NoDup_cons in Hnd as [Hfresh Hnd].
    destruct (decide (k = key)) as [->|Hne]; csimpl; [by constructor|].
    constructor; [|by apply IH]. intros [?|?]%ht_append_keys; done.
Qed.

Lemma ht_get_bucket {K} `{EqDecision K} (ht : list (K * list string)) kv :
  NoDup ht.*1 → kv ∈ ht → ht_get kv.1 ht = kv.2.
Proof.
  induction ht as [|[k sids] ht IH]; csimpl; intros Hnd Hin.
  - by apply elem_of_nil in Hin.
  - apply NoDup_cons in Hnd as [Hfresh Hnd]. apply elem_of_cons in Hin as [->|Hin].
    + simpl. by rewrite decide_True.
    + rewrite decide_False; [by apply IH|]. intros ->. apply Hfresh.
      apply list_elem_of_fmap. by exists kv.
Qed.

Lemma exists_lookup_cons {A} (P : nat → A → Prop) x xs :
  (∃ i r, (x :: xs) !! i = Some r ∧ P i r) ↔
  P 0 x ∨ ∃ i r, xs !! i = Some r ∧ P (S i) r.
Proof.
  split.
  - intros ([|i] & r & Hr & HP); simpl in Hr; [injection Hr as <-; by left|]. right; eauto.
  - intros [HP|(i & r & Hr & HP)]; [by exists 0, x | by exists (S i), r].
Qed.

(** Who sits in which bucket when the bucketing loop returns. *)
Lemma bucket_rows_tables hp rows st0 st :
  for_each rows (bucket_row hp) st0 = Ok st →
  (∀ key a, a ∈ ht_get key (product_ht st) ↔
     a ∈ ht_get key (product_ht st0) ∨
     ∃ i r, rows !! i = Some r ∧ row_sid r = a ∧ row_product_name r = key) ∧
  (∀ key a, a ∈ ht_get key (email_ht st) ↔
     a ∈ ht_get key (email_ht st0) ∨
     ∃ i r, rows !! i = Some r ∧ row_sid r = a ∧
            carried (email st0) (row_email <$> rows) !! i = Some (Some key)) ∧
  (∀ i, i < length rows →
     ∃ e, carried (email st0) (row_email <$> rows) !! i = Some (Some e)) ∧
  (if hp
   then (∀ key a, a ∈ ht_get key (phone_ht st) ↔
           a ∈ ht_get key (phone_ht st0) ∨
           ∃ i r, rows !! i = Some r ∧ row_sid r = a ∧
                  carried (phone st0) (row_phone <$> rows) !! i = Some (Some key)) ∧
        (∀ i, i < length rows →
           ∃ p, carried (phone st0) (row_phone <$> rows) !! i = Some (Some p))
   else phone_ht st = phone_ht st0).
Proof.
  revert st0. induction rows as [|r rows IH]; intros st0.
  - simpl. intros [= <-]. split; [|split; [|split]].
    + intros key a. split; [by left | by intros [?|(i & r & ? & _)]].
    + intros key a. split; [by left | by intros [?|(i & r & ? & _)]].
    + intros i ?. lia.
    + destruct hp; [|done]. split; [|intros i ?; lia].
      intros key a. split; [by left | by intros [?|(i & r & ? & _)]].
  - cbn [for_each]. intros (st1 & Hstep & Hrest)%bind_Ok.
    destruct (bucket_row_Ok _ _ _ _ Hstep) as (Hp & (e & He & He1 & Hemail) & Hphone).
    destruct (IH st1 Hrest) as (Tp & Te & Ce & Tph).
    split; [|split; [|split]].
    + intros key a. rewrite Tp, Hp, ht_get_append_elem, exists_lookup_cons.
      split; [intros [[?|[-> ->]]|?]; auto | intros [?|[[<- <-]|?]]; auto].
    + intros key a. rewrite He1 in Te. rewrite Te, Hemail, ht_get_append_elem, exists_lookup_cons.
      cbn [fmap list_fmap carried]. rewrite He. cbn [lookup list_lookup].
      split.
      * intros [[?|[-> ->]]|?]; auto.
      * intros [?|[[<- [= <-]]|?]]; auto.
    + rewrite He1 in Ce. intros [|i] Hi; cbn [fmap list_fmap carried]; rewrite He.
      * by exists e.
      * apply Ce. simpl in Hi. lia.
    + destruct hp.
      * destruct Hphone as (p & Hsel & Hp1 & Hpht). destruct Tph as [Tph Cph]. split.
        -- intros key a. rewrite Hp1 in Tph.
           rewrite Tph, Hpht, ht_get_append_elem, exists_lookup_cons.
           cbn [fmap list_fmap carried]. rewrite Hsel. cbn [lookup list_lookup].
           split.
           ++ intros [[?|[-> ->]]|?]; auto.
           ++ intros [?|[[<- [= <-]]|?]]; auto.
        -- rewrite Hp1 in Cph. intros [|i] Hi; cbn [fmap list_fmap carried]; rewrite Hsel.
           ++ by exists p.
           ++ apply Cph. simpl in Hi. lia.
      * destruct Hphone as [_ <-]. done.
Qed.

Lemma bucket_rows_NoDup hp rows st :
  bucket_rows hp rows = Ok st →
  NoDup (product_ht st).*1 ∧ NoDup (email_ht st).*1 ∧ NoDup (phone_ht st).*1.
Proof.
  unfold bucket_rows. intros Hrun.
  apply (for_each_partial
           (λ st : locals, NoDup (product_ht st).*1 ∧ NoDup (email_ht st).*1 ∧
                           NoDup (phone_ht st).*1)) in Hrun; [done | |].
  - simpl. repeat split; constructor.
  - intros r t t' _ (Np & Ne & Nph) Hstep.
    destruct (bucket_row_Ok _ _ _ _ Hstep) as (-> & (e & _ & _ & ->) & Hphone).
    split; [by apply ht_append_NoDup|]. split; [by apply ht_append_NoDup|].
    destruct hp.
    + destruct Hphone as (p & _ & _ & ->). by apply ht_append_NoDup.
    + by destruct Hphone as [_ ->].
Qed.

Lemma linked_sids hp rows a b :
  linked hp rows a b → a ∈ row_sid <$> rows ∧ b ∈ row_sid <$> rows.
Proof.
  intros (i & j & ri & rj & Hi & Hj & <- & <- & _).
  split; apply list_elem_of_fmap_2; by eapply list_elem_of_lookup_2.
Qed.

Lemma company_classes_exact hp rows ds :
  company_classes hp rows = Ok ds →
  NoDup ds.*1 ∧
  ∀ a b, a ∈ row_sid <$> rows → b ∈ row_sid <$> rows →
    (ds_same ds a b ↔ rtsc (linked hp rows) a b).
Proof.
  unfold company_classes. intros (st & Hst & H)%bind_Ok.
  apply bind_Ok in H as (ds1 & Hds1 & H). apply bind_Ok in H as (ds2 & Hds2 & Hds3).
  destruct (bucket_rows_NoDup _ _ _ Hst) as (Np & Ne & Nph).
  unfold bucket_rows in Hst.
  destruct (bucket_rows_tables _ _ _ _ Hst) as (Tp & Te & Ce & Tph).
  cbn [product_ht email_ht phone_ht email phone] in Tp, Te, Ce, Tph.
  destruct (initial_classes (row_sid <$> rows) []) as (Hnd0 & _ & Hin0); [constructor|].
  set (R := rtsc (linked hp rows)).
  destruct (initial_sound R (row_sid <$> rows) []) as [Hroot0 HR0];
    [apply _ | by intros a r ? | by intros a b (r & ? & _) |].
  set (ds0 := foldl (λ ds sid, (ds_find ds sid).1) [] (row_sid <$> rows)) in *.
  destruct (union_buckets_spec _ _ _ Hds1 Hnd0) as (Hnd1 & Hmono1 & Hsame1).
  destruct (union_buckets_spec _ _ _ Hds2 Hnd1) as (Hnd2 & Hmono2 & Hsame2).
  assert (∀ kv a b, kv ∈ product_ht st → a ∈ kv.2 → b ∈ kv.2 → linked hp rows a b) as Bp.
  { intros kv a b Hkv Ha Hb. rewrite <- (ht_get_bucket _ kv Np Hkv) in Ha, Hb.
    apply Tp in Ha as [Ha|(i & ri & Hi & <- & Hki)]; [by apply elem_of_nil in Ha|].
    apply Tp in Hb as [Hb|(j & rj & Hj & <- & Hkj)]; [by apply elem_of_nil in Hb|].
    exists i, j, ri, rj. repeat (split; [done|]). left. congruence. }
  assert (∀ kv a b, kv ∈ email_ht st → a ∈ kv.2 → b ∈ kv.2 → linked hp rows a b) as Be.
  { intros kv a b Hkv Ha Hb. rewrite <- (ht_get_bucket _ kv Ne Hkv) in Ha, Hb.
    apply Te in Ha as [Ha|(i & ri & Hi & <- & Hki)]; [by apply elem_of_nil in Ha|].
    apply Te in Hb as [Hb|(j & rj & Hj & <- & Hkj)]; [by apply elem_of_nil in Hb|].
    exists i, j, ri, rj. repeat (split; [done|]). right. left. congruence. }
  destruct (union_buckets_sound R _ _ _ _ Hds1) as [Hroot1 HR1];
    [intros kv a b ???; by eapply rtsc_lr, Bp | done | done |].
  destruct (union_buckets_sound R _ _ _ _ Hds2) as [Hroot2 HR2];
    [intros kv a b ???; by eapply rtsc_lr, Be | done | done |].
  assert (∀ a, a ∈ row_sid <$> rows → ds_same ds1 a a) as Hin1 by (intros a ?; by apply Hmono1, Hin0).
  assert (∀ a, a ∈ row_sid <$> rows → ds_same ds2 a a) as Hin2 by (intros a ?; by apply Hmono2, Hin1).
  assert (NoDup ds.*1 ∧ (∀ a b, ds_same ds2 a b → ds_same ds a b) ∧
          (∀ a b, ds_same ds a b → R a b) ∧
          (∀ a b, linked hp rows a b → ds_same ds a b)) as (Hnd & Hmono3 & HR3 & Hlink).
  { assert (∀ i j ri rj, rows !! i = Some ri → rows !! j = Some rj →
              row_product_name ri = row_product_name rj ∨
              carried None (row_email <$> rows) !! i = carried None (row_email <$> rows) !! j →
              ds_same ds2 (row_sid ri) (row_sid rj)) as Hlink2.
    { intros i j ri rj Hi Hj Hcond.
      assert (row_sid ri ∈ row_sid <$> rows) as Hai
        by (apply list_elem_of_fmap_2; by eapply list_elem_of_lookup_2).
      assert (row_sid rj ∈ row_sid <$> rows) as Haj
        by (apply list_elem_of_fmap_2; by eapply list_elem_of_lookup_2).
      destruct Hcond as [Hprod|Hem].
      - apply Hmono2.
        assert (row_sid ri ∈ ht_get (row_product_name ri) (product_ht st)) as Hmi
          by (apply Tp; right; by exists i, ri).
        assert (row_sid rj ∈ ht_get (row_product_name ri) (product_ht st)) as Hmj
          by (apply Tp; right; by exists j, rj).
        eapply (Hsame1 (row_product_name ri, _)); [by eapply ht_get_elem | done | done | |];
          by apply Hin0.
      - destruct (Ce i) as [e He]; [by eapply lookup_lt_Some|].
        assert (row_sid ri ∈ ht_get e (email_ht st)) as Hmi
          by (apply Te; right; by exists i, ri).
        assert (row_sid rj ∈ ht_get e (email_ht st)) as Hmj
          by (apply Te; right; exists j, rj; rewrite <- Hem; done).
        eapply (Hsame2 (e, _)); [by eapply ht_get_elem | done | done | |]; by apply Hin1. }
    destruct hp.
    - destruct Tph as [Tph Cph].
      destruct (union_buckets_spec _ _ _ Hds3 Hnd2) as (Hnd3 & Hmono3 & Hsame3).
      assert (∀ kv a b, kv ∈ phone_ht st → a ∈ kv.2 → b ∈ kv.2 → linked true rows a b) as Bph.
      { intros kv a b Hkv Ha Hb. rewrite <- (ht_get_bucket _ kv Nph Hkv) in Ha, Hb.
        apply Tph in Ha as [Ha|(i & ri & Hi & <- & Hki)]; [by apply elem_of_nil in Ha|].
        apply Tph in Hb as [Hb|(j & rj & Hj & <- & Hkj)]; [by apply elem_of_nil in Hb|].
        exists i, j, ri, rj. repeat (split; [done|]). right. right. split; [done | congruence]. }
      destruct (union_buckets_sound R _ _ _ _ Hds3) as [Hroot3 HR3];
        [intros kv a b ???; by eapply rtsc_lr, Bph | done | done |].
      split; [done|]. split; [done|]. split; [done|].
      intros a b (i & j & ri & rj & Hi & Hj & <- & <- & [Hc|[Hc|[_ Hc]]]).
      + apply Hmono3, (Hlink2 i j); auto.
      + apply Hmono3, (Hlink2 i j); auto.
      + destruct (Cph i) as [p Hp]; [by eapply lookup_lt_Some|].
        assert (row_sid ri ∈ row_sid <$> rows) as Hai
          by (apply list_elem_of_fmap_2; by eapply list_elem_of_lookup_2).
        assert (row_sid rj ∈ row_sid <$> rows) as Haj
          by (apply list_elem_of_fmap_2; by eapply list_elem_of_lookup_2).
        assert (row_sid ri ∈ ht_get p (phone_ht st)) as Hmi
          by (apply Tph; right; by exists i, ri).
        assert (row_sid rj ∈ ht_get p (phone_ht st)) as Hmj
          by (apply Tph; right; exists j, rj; rewrite <- Hc; done).
        eapply (Hsame3 (p, _)); [by eapply ht_get_elem | done | done | |]; by apply Hin2.
    - injection Hds3 as <-. split; [done|]. split; [done|]. split; [done|].
      intros a b (i & j & ri & rj & Hi & Hj & <- & <- & [Hc|[Hc|[? _]]]); [| |done];
        apply (Hlink2 i j); auto. }
  split; [done|]. intros a b Ha Hb. split; [apply HR3|].
  intros Hab. revert Ha. induction Hab as [a|a c b Hac Hcb IH]; intros Ha.
  - by apply Hmono3, Hin2.
  - assert (ds_same ds a c ∧ c ∈ row_sid <$> rows) as [Hsame Hc].
    { destruct Hac as [Hl|Hl].
      - split; [by apply Hlink | by apply (linked_sids _ _ _ _ Hl)].
      - split; [by apply ds_same_sym, Hlink | by apply (linked_sids _ _ _ _ Hl)]. }
    eapply ds_same_trans; [exact Hsame | by apply IH].
Qed.

Lemma last_class_elem n comps a k :
  last_class n comps a = Some k → ∃ comp, comps !! (k - n) = Some comp ∧ n ≤ k ∧ a ∈ comp.
Proof.
  revert n. induction comps as [|comp0 comps IH]; intros n; simpl; [done|].
  destruct (last_class (S n) comps a) as [k'|] eqn:Hlast.
  - intros [= <-]. destruct (IH _ Hlast) as (comp & Hcomp & Hle & Hin).
    exists comp. split; [|split; [lia | done]].
    by replace (k' - n) with (S (k' - S n)) by lia.
  - case_bool_decide; [|done]. intros [= <-]. exists comp0.
    by rewrite Nat.sub_diag.
Qed.

Lemma itersets_class ds comp a b :
  NoDup ds.*1 → comp ∈ ds_itersets ds → a ∈ comp → b ∈ comp → ds_same ds a b.
Proof.
  intros Hnd (r & -> & _)%list_elem_of_fmap Ha Hb.
  apply class_elem in Ha, Hb. exists r. by rewrite !ds_lookup_elem.
Qed.

(** X8: when the identifiers [uuid1] generates never repeat, two slugs of
    the mapping get the same company identifier exactly when a chain of
    slugs leads from one to the other in which each slug and the next were
    filed in a common bucket: they have equal product-name sets, or the
    bucketing loop held the same email (or, with a phone column, the same
    phone) at both. The resolver merges what the buckets connect, and
    nothing else. The product-name set of a slug holds the names of its
    rows and, in a numeric product_name column, one float object for each
    of its rows without a name, which is in the set of no other slug. *)
Theorem company_partition_exact (uuid1 : nat → string) (df : DataFrame)
    (mapping : list (string * cell)) :
  Inj (=) (=) uuid1 →
  gen_company_mapping uuid1 df = Ok mapping →
  ∃ rows,
    group_rows df = Ok rows ∧ mapping.*1 = row_sid <$> rows ∧
    (∀ a b, a ∈ mapping.*1 → b ∈ mapping.*1 →
       (company_of mapping a = company_of mapping b ↔
        rtsc (linked (has_column "phone" df) rows) a b)) ∧
    ∀ r p, r ∈ rows →
      (p ∈ row_product_name r ↔
       ∃ j c, column_of df "slug" !! j = Some (Str (row_sid r)) ∧
              column_of df "product_name" !! j = Some c ∧
              p = if negb (object_dtype (column_of df "product_name")) &&
                     bool_decide (c = NaN)
                  then FloatNaN j else Name c).
Proof.
  intros Hinj. unfold gen_company_mapping. intros (rows & Hrows & H)%bind_Ok.
  apply bind_Ok in H as (ds & Hds & [= <-]).
  exists rows. split; [done|].
  assert ((assign_company_ids uuid1 (ds_itersets ds)
             ((λ r, (row_sid r, Int 0%Z)) <$> rows)).*1 = row_sid <$> rows) as Hkeys.
  { unfold assign_company_ids. by rewrite assign_keys, <- list_fmap_compose. }
  split; [done|]. split.
  2:{ intros r p Hr. rewrite (group_rows_products df rows r Hrows Hr).
      apply group_products_elem. }
  rewrite Hkeys. intros a b Ha Hb.
  destruct (company_classes_exact _ _ _ Hds) as [Hnd Hexact].
  rewrite <- (Hexact a b Ha Hb). split.
  - unfold assign_company_ids.
    rewrite !company_of_assign, !company_of_zeros, !bool_decide_eq_true_2 by done.
    assert (∀ c, c ∈ row_sid <$> rows → is_Some (last_class 0 (ds_itersets ds) c)) as Hsome.
    { intros c Hc. destruct (proj2 (Hexact c c Hc Hc)) as (q & Hq & _); [done|].
      destruct (itersets_cover ds c q Hnd Hq) as (comp & Hcomp & Hmem).
      by apply (last_class_Some 0 _ _ comp). }
    destruct (Hsome a Ha) as [k Hk]. destruct (Hsome b Hb) as [k' Hk'].
    rewrite Hk, Hk'. simpl. intros [= Heq%Hinj]. subst k'.
    destruct (last_class_elem _ _ _ _ Hk) as (comp & Hcomp & _ & Hina).
    destruct (last_class_elem _ _ _ _ Hk') as (comp' & Hcomp' & _ & Hinb).
    assert (comp' = comp) as -> by congruence.
    apply (itersets_class ds comp); [done | by eapply list_elem_of_lookup_2 | done..].
  - intros Hsame.
    destruct (same_class_company uuid1 ds rows a b Hnd Hsame Ha Hb) as (id & -> & ->). done.
Qed.

(** In [unnamed_products] no chain of buckets leads from "a" to "b": the
    two record different emails, and their sets of float NaN objects are
    not equal. *)
Lemma company_partition_exact_witness :
  ∃ rows,
    group_rows unnamed_products = Ok rows ∧
    ¬ rtsc (linked (has_column "phone" unnamed_products) rows) "a" "b".
Proof.
  destruct (company_partition_exact pretty unnamed_products
              [("a", Str "0"); ("b", Str "1"); ("c", Str "2")])
    as (rows & Hrows & _ & Hiff & _).
  - apply pretty_nat_inj.
  - vm_compute. reflexivity.
  - exists rows. split; [exact Hrows|]. intros Hlinked.
    apply (Hiff "a" "b") in Hlinked; [discriminate Hlinked | |].
    + apply list_elem_of_here.
    + apply list_elem_of_further, list_elem_of_here.
Defined.

Lemma carried_step cur values k v :
  values !! S k = Some v → is_null v = true →
  carried cur values !! S k = carried cur values !! k.
Proof.
  revert cur k. induction values as [|v0 values IH]; intros cur k; [done|].
  destruct k as [|k]; cbn [carried lookup list_lookup].
  - destruct values as [|v1 values]; [done|]. intros [= ->] Hv.
    cbn [carried lookup list_lookup]. by rewrite Hv.
  - intros Hk Hv. by apply IH.
Qed.

Lemma carried_stale cur values i j :
  i ≤ j → (∀ k, i < k ≤ j → ∃ v, values !! k = Some v ∧ is_null v = true) →
  carried cur values !! j = carried cur values !! i.
Proof.
  induction 1 as [|j Hij IH]; intros Hnan; [done|].
  destruct (Hnan (S j)) as (v & Hv & Hnull); [lia|].
  rewrite (carried_step _ _ _ v) by done. apply IH. intros k Hk. apply Hnan. lia.
Qed.

(** X9: the bucketing loop of [gen_company_mapping] keeps the email of the
    last slug that recorded one. Whenever a mapping is written, a slug
    whose row and all rows between it and an earlier slug record no email
    gets the company identifier of that earlier slug, whatever else the
    two have in common. *)
Theorem stale_email_company (uuid1 : nat → string) (df : DataFrame)
    (mapping : list (string * cell)) (rows : list row) (i j : nat) (ri rj : row) :
  gen_company_mapping uuid1 df = Ok mapping →
  group_rows df = Ok rows →
  rows !! i = Some ri → rows !! j = Some rj → i ≤ j →
  (∀ k r, i < k ≤ j → rows !! k = Some r → is_null (row_email r) = true) →
  ∃ id, company_of mapping (row_sid ri) = Some (Str id) ∧
        company_of mapping (row_sid rj) = Some (Str id).
Proof.
  unfold gen_company_mapping. intros Hrun Hrows Hi Hj Hij Hnan.
  rewrite Hrows in Hrun. cbn [bind] in Hrun.
  apply bind_Ok in Hrun as (ds & Hds & [= <-]).
  destruct (company_classes_exact _ _ _ Hds) as [Hnd Hexact].
  assert (row_sid ri ∈ row_sid <$> rows) as Hai
    by (apply list_elem_of_fmap_2; by eapply list_elem_of_lookup_2).
  assert (row_sid rj ∈ row_sid <$> rows) as Haj
    by (apply list_elem_of_fmap_2; by eapply list_elem_of_lookup_2).
  apply same_class_company; [done | | done | done].
  apply Hexact; [done..|]. apply rtsc_lr.
  exists i, j, ri, rj. repeat (split; [done|]). right. left. symmetry.
  apply carried_stale; [done|]. intros k Hk.
  destruct (lookup_lt_is_Some_2 rows k) as [r Hr]; [apply lookup_lt_Some in Hj; lia|].
  exists (row_email r). rewrite list_lookup_fmap, Hr. split; [done|]. by apply (Hnan k).
Qed.

Lemma stale_email_company_witness :
  ∃ id, company_of [("a", Str "0"); ("b", Str "0"); ("c", Str "1"); ("d", Str "1")] "a"
          = Some (Str id) ∧
        company_of [("a", Str "0"); ("b", Str "0"); ("c", Str "1"); ("d", Str "1")] "b"
          = Some (Str id).
Proof.
  apply (stale_email_company pretty four_storefronts
           [("a", Str "0"); ("b", Str "0"); ("c", Str "1"); ("d", Str "1")]
           [mkRow "a" (Str "a@x.example") NaN {[Name (Str "og kush")]};
            mkRow "b" PyNone NaN {[Name (Str "sour diesel")]};
            mkRow "c" (Str "c@y.example") NaN {[Name (Str "blue dream")]};
            mkRow "d" PyNone NaN {[Name (Str "gelato")]}]
           0 1 (mkRow "a" (Str "a@x.example") NaN {[Name (Str "og kush")]})
           (mkRow "b" PyNone NaN {[Name (Str "sour diesel")]})).
  - vm_compute. reflexivity.
  - vm_compute. reflexivity.
  - reflexivity.
  - reflexivity.
  - lia.
  - intros k r Hk Hr. assert (k = 1) as -> by lia. simpl in Hr. by injection Hr as <-.
Defined.

(** ** The possible and future license tags *)

Lemma possible_license_column_lookup file j lic iss :
  column_of file "license" !! j = Some lic →
  column_of file "issue_date" !! j = Some iss →
  possible_license_column file !! j = Some (int_of_bool (negb (is_null lic) && is_null iss)).
Proof.
  intros Hl Hi. unfold possible_license_column, apply_int, series_and, notnull, isna.
  by rewrite list_lookup_fmap, lookup_zip_with, !list_lookup_fmap, Hl, Hi.
Qed.

Lemma possible_license_lookup file :
  lookup_col "possible_license"
    (cols (setitem (setitem (foldl (category_step file) file LICENSE_STATUSES)
                            "possible_license" (possible_license_column file))
                   "future_license_explicit" (future_license_column file))) =
  Some (possible_license_column file).
Proof. rewrite lookup_col_setitem_ne by done. apply lookup_col_setitem_eq. Qed.

Lemma dates_gt_true iss acc :
  match parsed_dates fmt_mdY [iss], parsed_dates fmt_Ymd [acc] with
  | [Some p], [Some q] => negb (datetime_le p q)
  | _, _ => false
  end = true ↔
  ∃ d1 d2, convert_str_to_datetime_maker fmt_mdY iss = Ok (Some d1) ∧
           convert_str_to_datetime_maker fmt_Ymd acc = Ok (Some d2) ∧
           datetime_le d1 d2 = false.
Proof.
  unfold parsed_dates. rewrite !fmap_cons, !fmap_nil.
  destruct (convert_str_to_datetime_maker fmt_mdY iss) as [[d1|]|e1];
    destruct (convert_str_to_datetime_maker fmt_Ymd acc) as [[d2|]|e2];
    split; try done; try (intros (? & ? & ? & ? & ?); congruence).
  - intros Hgt%negb_true_iff. by exists d1, d2.
  - intros (? & ? & [= <-] & [= <-] & ->). done.
Qed.

Lemma dates_le_not_gt iss acc :
  match parsed_dates fmt_mdY [iss], parsed_dates fmt_Ymd [acc] with
  | [Some p], [Some q] => datetime_le p q
  | _, _ => false
  end = true →
  match parsed_dates fmt_mdY [iss], parsed_dates fmt_Ymd [acc] with
  | [Some p], [Some q] => negb (datetime_le p q)
  | _, _ => false
  end = false.
Proof.
  unfold parsed_dates. rewrite !fmap_cons, !fmap_nil.
  destruct (convert_str_to_datetime_maker fmt_mdY iss) as [[d1|]|e1];
    destruct (convert_str_to_datetime_maker fmt_Ymd acc) as [[d2|]|e2]; try done.
  by intros ->.
Qed.

Lemma int_of_bool_one b : Some (int_of_bool b) = Some (Int 1%Z) ↔ b = true.
Proof. by destruct b. Qed.

(** X10: on waves that are ready for the license step and whose two date
    columns pandas can compare (the step raises TypeError on a wave with
    records in which every issue date is missing and an access date is
    not), a record of a wave with a license column gets
    possible_license = 1 exactly when its license identifier is present and
    its issue date is missing, and future_license_explicit = 1 exactly when
    both are present and the issue date is after the access date. The two
    tags are never both 1, and a record with a status tag of 1 that the
    step wrote has both at 0. *)
Theorem possible_future_license (files : list DataFrame) (i : nat) (file : DataFrame) :
  (∀ k f, files !! k = Some f → has_column "license" f = true →
          license_ready f ∧ dates_comparable f) →
  files !! i = Some file → has_column "license" file = true →
  ∃ fs file' possible future,
    tag_license_status files = Ok fs ∧ fs !! i = Some file' ∧
    lookup_col "possible_license" (cols file') = Some possible ∧
    lookup_col "future_license_explicit" (cols file') = Some future ∧
    ∀ j lic iss acc st,
      column_of file "license" !! j = Some lic →
      column_of file "issue_date" !! j = Some iss →
      column_of file "access_date" !! j = Some acc →
      column_of file "status" !! j = Some st →
      ∃ p f,
        possible !! j = Some (Int p) ∧ future !! j = Some (Int f) ∧
        (p = 0 ∨ p = 1)%Z ∧ (f = 0 ∨ f = 1)%Z ∧
        (p = 1%Z ↔ is_null lic = false ∧ is_null iss = true) ∧
        (f = 1%Z ↔
         is_null lic = false ∧ is_null iss = false ∧
         ∃ d1 d2, convert_str_to_datetime_maker fmt_mdY iss = Ok (Some d1) ∧
                  convert_str_to_datetime_maker fmt_Ymd acc = Ok (Some d2) ∧
                  datetime_le d1 d2 = false) ∧
        ¬ (p = 1%Z ∧ f = 1%Z) ∧
        ∀ w tags, w ∈ LICENSE_STATUSES → Str w ∈ column_of file "status" →
          lookup_col (w +:+ "_license") (cols file') = Some tags →
          tags !! j = Some (Int 1%Z) → p = 0%Z ∧ f = 0%Z.
Proof.
  intros Hready Hfile Hl.
  destruct (tag_license_status_spec files Hready) as (fs & Hrun & Hfs).
  eexists fs, _, _, _. split; [done|]. split; [by apply Hfs|].
  split; [apply possible_license_lookup|]. split; [apply future_license_lookup|].
  intros j lic iss acc st Hlic Hiss Hacc Hst.
  rewrite (possible_license_column_lookup file j lic iss Hlic Hiss).
  rewrite (future_license_column_lookup file j lic iss acc Hlic Hiss Hacc).
  pose proof (dates_gt_true iss acc) as Hgt. pose proof (dates_le_not_gt iss acc) as Hex.
  set (le := match parsed_dates fmt_mdY [iss], parsed_dates fmt_Ymd [acc] with
             | [Some p], [Some q] => datetime_le p q
             | _, _ => false
             end) in *.
  set (gt := match parsed_dates fmt_mdY [iss], parsed_dates fmt_Ymd [acc] with
             | [Some p], [Some q] => negb (datetime_le p q)
             | _, _ => false
             end) in *.
  assert (negb (is_null lic) && is_null iss = true ↔
          is_null lic = false ∧ is_null iss = true) as Hp.
  { by rewrite andb_true_iff, negb_true_iff. }
  assert (negb (is_null lic) && negb (is_null iss) && gt = true ↔
          is_null lic = false ∧ is_null iss = false ∧
          ∃ d1 d2, convert_str_to_datetime_maker fmt_mdY iss = Ok (Some d1) ∧
                   convert_str_to_datetime_maker fmt_Ymd acc = Ok (Some d2) ∧
                   datetime_le d1 d2 = false) as Hf.
  { rewrite !andb_true_iff, !negb_true_iff, Hgt. tauto. }
  exists (if negb (is_null lic) && is_null iss then 1 else 0)%Z,
         (if negb (is_null lic) && negb (is_null iss) && gt then 1 else 0)%Z.
  split; [done|]. split; [done|].
  split; [destruct (negb (is_null lic) && is_null iss); auto|].
  split; [destruct (negb (is_null lic) && negb (is_null iss) && gt); auto|].
  split; [rewrite <- Hp; destruct (negb (is_null lic) && is_null iss); done|].
  split; [rewrite <- Hf; destruct (negb (is_null lic) && negb (is_null iss) && gt); done|].
  split.
  - destruct (is_null lic), (is_null iss); simpl; intros [? ?]; done.
  - intros w tags Hw Hin. rewrite (license_tag_lookup file w Hw), bool_decide_eq_true_2 by done.
    intros [= <-]. rewrite (category_column_lookup file w j lic iss acc st Hlic Hiss Hacc Hst).
    fold le. intros Hone. apply int_of_bool_one in Hone.
    rewrite !andb_true_iff in Hone. destruct Hone as [[[_ Hi] Hle] _].
    rewrite (Hex Hle). apply negb_true_iff in Hi. rewrite Hi.
    by rewrite !andb_false_r.
Qed.

Lemma possible_future_license_witness :
  ∃ fs file' possible future,
    tag_license_status [license_wave] = Ok fs ∧ fs !! 0 = Some file' ∧
    lookup_col "possible_license" (cols file') = Some possible ∧
    lookup_col "future_license_explicit" (cols file') = Some future.
Proof.
  destruct (possible_future_license [license_wave] 0 license_wave)
    as (fs & file' & po & fu & ? & ? & ? & ? & _).
  - exact license_wave_ready.
  - reflexivity.
  - reflexivity.
  - by exists fs, file', po, fu.
Defined.

(** ** Back-propagation of active licenses *)

Lemma for_each_rev_inv {S} (P : nat → S → Prop) (body : nat → S → result S) n s :
  P n s →
  (∀ i s, i < n → P (Datatypes.S i) s → ∃ s', body i s = Ok s' ∧ P i s') →
  ∃ s', for_each (reverse (seq 0 n)) body s = Ok s' ∧ P 0 s'.
Proof.
  revert s. induction n as [|n IH]; intros s HP Hstep.
  - by exists s.
  - rewrite seq_S, reverse_snoc. cbn [for_each plus].
    destruct (Hstep n s) as (s' & -> & HP'); [lia | done |]. cbn [bind].
    apply IH; [done|]. intros i t Hi. apply Hstep. lia.
Qed.

Lemma map_result_fmap {A B} (f : A → result B) (g : A → B) xs :
  (∀ x, x ∈ xs → f x = Ok (g x)) → map_result f xs = Ok (g <$> xs).
Proof.
  induction xs as [|x xs IH]; intros Hf; simpl; [done|].
  rewrite (Hf x) by by left. simpl. rewrite IH by (intros y Hy; apply Hf; by right). done.
Qed.

Lemma select_mask_elem (s : list cell) (mask : list bool) c :
  c ∈ select_mask s mask ↔ ∃ j, s !! j = Some c ∧ mask !! j = Some true.
Proof.
  unfold select_mask. rewrite list_elem_of_fmap. split.
  - intros ([c' b] & -> & [Hb Hin]%list_elem_of_filter). simpl in Hb. subst b.
    apply list_elem_of_lookup in Hin as [j Hj]. apply lookup_zip_with_Some in Hj.
    destruct Hj as (x & y & [= <- <-] & Hx & Hy). by exists j.
  - intros (j & Hs & Hm). exists (c, true). split; [done|].
    apply list_elem_of_filter. split; [done|]. apply list_elem_of_lookup. exists j.
    apply lookup_zip_with_Some. by exists c, true.
Qed.

Lemma active_at_elem files k slug : slug ∈ active_at files k ↔ shows_active files k slug.
Proof.
  unfold active_at, shows_active. destruct (files !! k) as [f|]; simpl.
  - unfold active_of. destruct (has_column "license" f) eqn:Hl.
    + unfold to_set. rewrite elem_of_list_to_set, select_mask_elem. split.
      * intros (j & Hs & Hm). exists f, j. repeat (split; [done|]).
        rewrite list_lookup_fmap in Hm. apply fmap_Some in Hm as (c & Hc & Hm).
        symmetry in Hm. apply bool_decide_eq_true in Hm. by subst c.
      * intros (f' & j & [= <-] & _ & Hs & Hm). exists j. split; [done|].
        by rewrite list_lookup_fmap, Hm.
    + split; [set_solver | intros (f' & j & [= <-] & ? & _); congruence].
  - split; [set_solver | by intros (f' & j & ? & _)].
Qed.

Lemma active_after_elem files i slug :
  slug ∈ active_after files i ↔ ∃ k, i < k ∧ slug ∈ active_at files k.
Proof.
  unfold active_after. rewrite elem_of_union_list. split.
  - intros (X & HX & Hin). apply list_elem_of_fmap in HX as (k & -> & Hk).
    apply elem_of_seq in Hk. exists k. split; [lia | done].
  - intros (k & Hk & Hin). exists (active_at files k). split; [|done].
    apply list_elem_of_fmap. exists k. split; [done|]. apply elem_of_seq.
    assert (k < length files); [|lia].
    destruct (decide (k < length files)) as [|Hge]; [done|].
    unfold active_at in Hin. rewrite lookup_ge_None_2 in Hin by lia. set_solver.
Qed.

Lemma active_after_last files i : length files ≤ S i → active_after files i = ∅.
Proof. intros Hi. unfold active_after. by replace (length files - S i) with 0 by lia. Qed.

Lemma active_after_step files i :
  S i < length files → active_after files i = active_at files (S i) ∪ active_after files (S i).
Proof.
  intros Hi. unfold active_after.
  by replace (length files - S i) with (S (length files - S (S i))) by lia.
Qed.

Lemma active_license_slugs_Ok files k f :
  files !! k = Some f → has_column "slug" f = true → has_column "license" f = true →
  has_column "active_license" f = true →
  active_license_slugs f = Ok (active_at files k).
Proof.
  intros Hf Hs Hl Ha. unfold active_license_slugs, active_at, active_of.
  rewrite Hf. simpl. rewrite Hl, !getitem_column_of by done. done.
Qed.

Lemma tag_assumed_license_status_spec files :
  Forall (λ f, has_column "slug" f = true) files →
  Forall (λ f, has_column "license" f = true → has_column "active_license" f = true) files →
  ∃ fs, tag_assumed_license_status files = Ok fs ∧
        tagged_upto files "assumed_license" (assumed_license_column files) 0 (length files) fs.
Proof.
  intros Hslug Hact. unfold tag_assumed_license_status.
  assert (∀ k f, files !! k = Some f →
            (if has_column "license" f then active_license_slugs f else Ok ∅) =
            Ok (active_at files k)) as Hat.
  { intros k f Hf. destruct (has_column "license" f) eqn:Hl.
    - apply active_license_slugs_Ok; [done| |done|].
      + by eapply (Forall_lookup_1 _ _ _ _ Hslug).
      + by apply (Forall_lookup_1 _ _ _ _ Hact Hf).
    - unfold active_at, active_of. by rewrite Hf; simpl; rewrite Hl. }
  set (N := length files - 1).
  destruct (for_each_rev_inv
    (λ m (after : list (gset cell)),
       ∀ q, m + q ≤ N → after !! q = Some (active_after files (m + q)))
    (λ i after,
       do file_after_i <- item files (i + 1);
       if has_column "license" file_after_i then
         do file_after_i_active_slugs <- active_license_slugs file_after_i;
         do first <- item after 0;
         Ok ((file_after_i_active_slugs ∪ first) :: after)
       else
         do first <- item after 0;
         Ok (first :: after))
    N [∅]) as (after & Hrun1 & Hafter).
  - intros q Hq. replace q with 0 by lia. simpl.
    rewrite active_after_last by (unfold N; lia). done.
  - intros i acc Hi Hacc.
    destruct (lookup_lt_is_Some_2 files (i + 1)) as [f Hf]; [unfold N in Hi; lia|].
    rewrite (item_lookup _ _ _ Hf). cbn [bind].
    pose proof (Hat _ _ Hf) as Hatf.
    pose proof (Hacc 0 ltac:(lia)) as H0. rewrite Nat.add_0_r in H0.
    assert (active_after files i = active_at files (i + 1) ∪ active_after files (S i)) as Hi'.
    { rewrite active_after_step by (unfold N in Hi; lia). by replace (i + 1) with (S i) by lia. }
    destruct (has_column "license" f) eqn:Hl.
    + rewrite Hatf. cbn [bind]. rewrite (item_lookup _ _ _ H0). cbn [bind].
      eexists. split; [done|]. intros [|q] Hq; simpl.
      * by rewrite Nat.add_0_r, Hi'.
      * rewrite Hacc by lia. by replace (S i + q) with (i + S q) by lia.
    + rewrite (item_lookup _ _ _ H0). cbn [bind].
      eexists. split; [done|]. intros [|q] Hq; simpl.
      * rewrite Nat.add_0_r, Hi'. injection Hatf as <-. by rewrite (left_id_L ∅ (∪)).
      * rewrite Hacc by lia. by replace (S i + q) with (i + S q) by lia.
  - unfold range. rewrite Nat.sub_0_r. fold N. rewrite Hrun1. cbn [bind].
    rewrite (map_result_fmap _ (λ x, if has_column "license" x then active_of x else ∅)).
    2:{ intros x Hx. apply list_elem_of_lookup in Hx as [k Hk]. rewrite (Hat k x Hk).
        unfold active_at. rewrite Hk. simpl. unfold active_of.
        by destruct (has_column "license" x). }
    cbn [bind]. apply (tag_loop files "assumed_license" (assumed_license_column files) 0);
      [done|].
    intros i fs Hi Hinv.
    destruct (lookup_lt_is_Some_2 files i) as [fi Hfi]; [lia|].
    destruct (tagged_upto_slug _ _ _ _ _ _ i fi Hinv) as (gi & _ & -> & Hgi);
      [done | done | by eapply (Forall_lookup_1 _ _ _ _ Hslug) |].
    cbn [bind]. rewrite Hgi. cbn [bind].
    rewrite (item_lookup after i (active_after files i)).
    2:{ specialize (Hafter i). simpl in Hafter. apply Hafter. unfold N. lia. }
    cbn [bind].
    rewrite (item_lookup _ i (active_at files i)).
    2:{ rewrite list_lookup_fmap, Hfi. simpl. unfold active_at. rewrite Hfi. simpl.
        unfold active_of. by destruct (has_column "license" fi). }
    done.
Qed.

(** X11: when every wave has its slug column and every wave with a license
    column has the active_license tag, [tag_assumed_license_status]
    returns, and a record of wave [i] gets assumed_license = 1 exactly when
    some later wave shows its slug with an active license and wave [i]
    itself does not. *)
Theorem tag_assumed_license_status_correct (files : list DataFrame) (i : nat) :
  Forall (λ f, has_column "slug" f = true) files →
  Forall (λ f, has_column "license" f = true → has_column "active_license" f = true) files →
  i < length files →
  ∃ fs assumed,
    tag_assumed_license_status files = Ok fs ∧
    column_at fs i "assumed_license" = Some assumed ∧
    length assumed = length (slug_column files i) ∧
    ∀ j slug, slug_column files i !! j = Some slug →
      ∃ tag, assumed !! j = Some (Int tag) ∧ (tag = 0 ∨ tag = 1)%Z ∧
             (tag = 1%Z ↔
              (∃ k, i < k ∧ shows_active files k slug) ∧ ¬ shows_active files i slug).
Proof.
  intros Hslug Hact Hi.
  destruct (tag_assumed_license_status_spec files Hslug Hact) as (fs & Hrun & Hinv).
  exists fs, (assumed_license_column files i). split; [done|].
  split; [apply (tagged_upto_written _ _ _ _ _ _ _ Hinv); lia|].
  split.
  { unfold assumed_license_column, apply_int, series_and, series_not, isin.
    rewrite length_fmap, length_zip_with, !length_fmap. lia. }
  intros j slug Hj. unfold assumed_license_column, apply_int, series_and, series_not.
  rewrite list_lookup_fmap, lookup_zip_with, list_lookup_fmap, !(isin_lookup _ _ _ _ Hj).
  simpl. apply int_of_bool_tag.
  rewrite andb_true_iff, negb_true_iff, bool_decide_eq_true, bool_decide_eq_false.
  rewrite active_after_elem, active_at_elem.
  split; intros [(k & Hk & Hin) Hno]; (split; [exists k; split; [done|]; by apply active_at_elem | done]).
Qed.

Lemma tag_assumed_license_status_correct_witness :
  ∃ fs assumed,
    tag_assumed_license_status assumed_waves = Ok fs ∧
    column_at fs 0 "assumed_license" = Some assumed.
Proof.
  destruct (tag_assumed_license_status_correct assumed_waves 0) as (fs & a & ? & ? & _).
  - repeat constructor.
  - repeat (apply Forall_cons_2; [by vm_compute|]). apply Forall_nil_2.
  - simpl. lia.
  - by exists fs, a.
Defined.

(** ** The waves after reconciliation *)

(** X12: on a series of at least one wave, each with its slug column,
    [standardize_files] leaves every wave with every tag of the list it
    returns, so that [main]'s selection of the slug and the tags raises no
    KeyError on any wave and gives all waves the same columns. *)
Theorem standardized_selection (files full_files : list DataFrame) :
  length full_files = length files → files ≠ [] →
  Forall (λ f, has_column "slug" f = true) files →
  ∃ fs tags,
    standardize_files files full_files = Ok (fs, tags) ∧ length fs = length files ∧
    ∀ i f', fs !! i = Some f' →
      (∀ tag, tag ∈ tags → has_column tag f' = true) ∧
      ∃ tags_only_file,
        select_columns ("slug" :: tags) f' = Ok tags_only_file ∧
        columns tags_only_file = "slug" :: tags ∧
        nrows tags_only_file = nrows f'.
Proof.
  intros Hlen Hne Hslug.
  destruct (max_file_tags_spec files full_files Hlen Hne) as (m & Hmax & Hm & Hle & Hlow).
  set (tags := file_tags files full_files m) in *.
  set (body := λ (i : nat) (files : list DataFrame),
         do file <- item files i; Ok (<[i := fill_missing_tags tags file]> files)).
  assert (∀ i fs f, fs !! i = Some f →
            body i fs = do f' <- Ok (fill_missing_tags tags f); Ok (<[i := f']> fs)) as Hbody.
  { intros i fs f Hf. unfold body. by rewrite (item_lookup _ _ _ Hf). }
  destruct (wave_loop_total _ body Hbody files) as [fs Hrun]; [eauto|].
  destruct (wave_loop_partial _ body Hbody files fs Hrun) as [Hlenfs Hwave].
  exists fs, tags. split.
  { unfold standardize_files. rewrite Hmax. cbn [bind snd]. fold body. by rewrite Hrun. }
  split; [done|]. intros i f' Hf'.
  destruct (lookup_lt_is_Some_2 files i) as [f Hf];
    [rewrite <- Hlenfs; by eapply lookup_lt_Some|].
  destruct (Hwave i f Hf) as (f'' & Hf'' & [= <-]).
  assert (f' = fill_missing_tags tags f) as -> by congruence.
  assert (∀ name, name = "slug" ∨ name ∈ tags →
            has_column name (fill_missing_tags tags f) = true) as Hall.
  { intros name Hname. apply has_column_lookup. rewrite fill_missing_tags_lookup.
    destruct (lookup_col name (cols f)) as [v|] eqn:Hv; [eauto|].
    destruct Hname as [->|Hin].
    - pose proof (Forall_lookup_1 _ _ _ _ Hslug Hf) as Hs. apply has_column_lookup in Hs.
      rewrite Hv in Hs. by destruct Hs.
    - rewrite bool_decide_eq_true_2 by done. eauto. }
  split; [intros tag Htag; apply Hall; by right|].
  unfold select_columns.
  rewrite (map_result_fmap _ (λ name, (name, column_of (fill_missing_tags tags f) name))).
  - cbn [bind]. eexists. split; [done|]. split; [|done].
    unfold columns. cbn [cols]. rewrite <- list_fmap_compose. apply list_fmap_id.
  - intros name Hname. rewrite getitem_column_of; [done|].
    apply Hall. by apply elem_of_cons in Hname.
Qed.

Lemma standardized_selection_witness :
  ∃ fs tags, standardize_files [first_tagged; last_tagged] [panel_frame; panel_frame] =
               Ok (fs, tags) ∧ length fs = 2.
Proof.
  destruct (standardized_selection [first_tagged; last_tagged] [panel_frame; panel_frame])
    as (fs & tags & ? & ? & _).
  - reflexivity.
  - discriminate.
  - repeat constructor.
  - by exists fs, tags.
Defined.

(** ** The purge of illegal storefronts *)

Lemma index_of_date_Some date filenames idx k :
  index_of_date date filenames idx = Some k ↔
  idx ≤ k ∧ (∃ filename, filenames !! (k - idx) = Some filename ∧
                          contains date filename = true) ∧
  ∀ j name, j < k - idx → filenames !! j = Some name → contains date name = false.
Proof.
  revert idx. induction filenames as [|filename filenames IH]; intros idx; simpl.
  - split; [done | by intros (_ & (? & ? & _) & _)].
  - destruct (contains date filename) eqn:Hc.
    + split.
      * intros [= <-]. split; [done|]. rewrite Nat.sub_diag. split; [by exists filename|].
        intros j name Hj. lia.
      * intros (Hle & (name & Hname & Hin) & Hfirst).
        destruct (k - idx) as [|d] eqn:Hd; [f_equal; lia|].
        specialize (Hfirst 0 filename ltac:(lia) eq_refl). congruence.
    + rewrite IH. split.
      * intros (Hle & (name & Hname & Hin) & Hfirst). split; [lia|].
        replace (k - idx) with (S (k - (idx + 1))) by lia. split; [by exists name|].
        intros [|j] name' Hj; simpl; [congruence|]. apply Hfirst. lia.
      * intros (Hle & (name & Hname & Hin) & Hfirst).
        destruct (k - idx) as [|d] eqn:Hd; [simpl in Hname; congruence|].
        split; [lia|]. replace (k - (idx + 1)) with d by lia. split; [by exists name|].
        intros j name' Hj Hname'. apply (Hfirst (S j) name'); [lia | done].
Qed.

Lemma index_of_date_None date filenames idx :
  index_of_date date filenames idx = None ↔
  ∀ filename, filename ∈ filenames → contains date filename = false.
Proof.
  revert idx. induction filenames as [|filename filenames IH]; intros idx; simpl.
  - split; [by intros _ ? ?%elem_of_nil | done].
  - destruct (contains date filename) eqn:Hc.
    + split; [done|]. intros Hall. rewrite Hall in Hc by by left. done.
    + rewrite IH. split.
      * intros Hall name [->|?]%elem_of_cons; auto.
      * intros Hall name ?. apply Hall. by right.
Qed.

(** X13: [get_index_of_date] fails its assertion on a date that is not six
    characters long; otherwise it returns the index of the first file name
    that contains the date anywhere, not only at its start, and [None] when
    no file name contains it. *)
Theorem get_index_of_date_correct (date : string) (filenames : list string) :
  (String.length date ≠ 6 → get_index_of_date date filenames = AssertionError) ∧
  (String.length date = 6 →
   ∃ idx, get_index_of_date date filenames = Returns idx ∧
     match idx with
     | Some k =>
         (∃ filename, filenames !! k = Some filename ∧ contains date filename = true) ∧
         ∀ j name, j < k → filenames !! j = Some name → contains date name = false
     | None => ∀ filename, filename ∈ filenames → contains date filename = false
     end).
Proof.
  unfold get_index_of_date. split; intros Hlen.
  - by rewrite bool_decide_eq_false_2.
  - rewrite bool_decide_eq_true_2 by done. eexists. split; [done|].
    destruct (index_of_date date filenames 0) as [k|] eqn:Hk.
    + apply index_of_date_Some in Hk as (_ & Hat & Hfirst). rewrite Nat.sub_0_r in *. done.
    + exact (proj1 (index_of_date_None _ _ _) Hk).
Qed.

Lemma get_index_of_date_correct_witness :
  ∃ idx, get_index_of_date "191221" purge_filenames = Returns idx.
Proof.
  destruct (proj2 (get_index_of_date_correct "191221" purge_filenames)) as (idx & ? & _).
  - reflexivity.
  - by exists idx.
Defined.

Lemma contains_prefix pat s : String.prefix pat s = true → contains pat s = true.
Proof. intros H. destruct s; cbn [contains]; by rewrite H. Qed.

Lemma date_prefix_index date filenames :
  String.length date = 6 →
  date ∈ (λ x, String.substring 0 6 x) <$> filenames →
  ∃ k, index_of_date date filenames 0 = Some k ∧ k < length filenames.
Proof.
  intros Hlen (filename & Hdate & Hin)%list_elem_of_fmap.
  destruct (index_of_date date filenames 0) as [k|] eqn:Hk.
  - exists k. split; [done|]. apply index_of_date_Some in Hk as (_ & (name & Hname & _) & _).
    rewrite Nat.sub_0_r in Hname. by eapply lookup_lt_Some.
  - rewrite index_of_date_None in Hk. specialize (Hk filename Hin).
    rewrite contains_prefix in Hk; [done|]. apply String.prefix_correct. by rewrite Hlen.
Qed.

(** A loop that rewrites wave [i] into [G i] of it at its [i]-th
    iteration. *)
Lemma wave_map_loop (G : nat → DataFrame → DataFrame)
    (body : nat → list DataFrame → result (list DataFrame)) files :
  (∀ i fs f, files !! i = Some f → fs !! i = Some f → length fs = length files →
             body i fs = Ok (<[i := G i f]> fs)) →
  ∃ fs, for_each (range 0 (length files)) body files = Ok fs ∧
        length fs = length files ∧
        ∀ k f, files !! k = Some f → fs !! k = Some (G k f).
Proof.
  intros Hbody. unfold range. rewrite Nat.sub_0_r.
  destruct (for_each_seq_inv
    (λ i (fs : list DataFrame),
       length fs = length files ∧ (∀ k, i ≤ k → fs !! k = files !! k) ∧
       (∀ k f, k < i → files !! k = Some f → fs !! k = Some (G k f)))
    body (length files) 0 files) as (fs & Hrun & Hlen & _ & Hdone).
  - split; [done|]. split; [done|]. intros k f Hk. lia.
  - intros i fs Hi (Hlen & Hrest & Hdone).
    destruct (lookup_lt_is_Some_2 files i) as [f Hf]; [lia|].
    rewrite (Hbody i fs f) by (done || by rewrite Hrest).
    eexists. split; [done|]. split; [by rewrite length_insert|]. split.
    + intros k Hk. rewrite list_lookup_insert_ne by lia. apply Hrest. lia.
    + intros k g Hk Hg. destruct (decide (k = i)) as [->|Hne].
      * rewrite list_lookup_insert_eq by lia. congruence.
      * rewrite list_lookup_insert_ne by done. apply Hdone; [lia | done].
  - exists fs. split; [done|]. split; [done|]. intros k f Hf. apply Hdone; [|done].
    apply lookup_lt_Some in Hf. lia.
Qed.

(** X14: [tag_illegal_storefronts] leaves the waves as they are as soon as
    one of the two days 191221 and 200112 starts no file name. When both
    start one, with [i1] and [i2] the first file names that contain them,
    it returns; a wave whose file name contains 200112 is left as it is;
    on every other wave illegal_1912 is 1 exactly for the slugs of wave
    [i1] that wave [i2] lacks, and illegal_other is 1 exactly for the slugs
    of the waves up to the one before [i1] -- up to the last wave when [i1]
    is the first -- that waves [i1] and [i2] both lack; no record has both
    tags at 1. *)
Theorem tag_illegal_storefronts_correct (filenames : list string)
    (slugs_at_i slugs_up_to_i : list (gset cell)) (files : list DataFrame) :
  let dates := (λ x, String.substring 0 6 x) <$> filenames in
  ("191221" ∉ dates ∨ "200112" ∉ dates →
   tag_illegal_storefronts filenames slugs_at_i slugs_up_to_i files = Returns files) ∧
  ("191221" ∈ dates → "200112" ∈ dates →
   length filenames = length files →
   Forall (λ f, has_column "slug" f = true) files →
   (∀ k, k < length files → slugs_at_i !! k = Some (slugs_at files k)) →
   length slugs_up_to_i = length files →
   (∀ k, k < length files → slugs_up_to_i !! k = Some (slugs_up_to files k)) →
   ∃ i1 i2 fs,
     index_of_date "191221" filenames 0 = Some i1 ∧
     index_of_date "200112" filenames 0 = Some i2 ∧
     tag_illegal_storefronts filenames slugs_at_i slugs_up_to_i files = Returns fs ∧
     length fs = length files ∧
     ∀ i filename file, filenames !! i = Some filename → files !! i = Some file →
       (contains "200112" filename = true → fs !! i = Some file) ∧
       (contains "200112" filename = false →
        ∃ illegal_1912 illegal_other,
          column_at fs i "illegal_1912" = Some illegal_1912 ∧
          column_at fs i "illegal_other" = Some illegal_other ∧
          ∀ j slug, slug_column files i !! j = Some slug →
            ∃ a b, illegal_1912 !! j = Some (Int a) ∧ illegal_other !! j = Some (Int b) ∧
              (a = 0 ∨ a = 1)%Z ∧ (b = 0 ∨ b = 1)%Z ∧
              (a = 1%Z ↔ slug ∈ slugs_at files i1 ∧ (slug ∉ slugs_at files i2)) ∧
              (b = 1%Z ↔ slug ∈ slugs_up_to files (wave_before files i1) ∧
                         (slug ∉ slugs_at files i2) ∧ (slug ∉ slugs_at files i1)) ∧
              ¬ (a = 1%Z ∧ b = 1%Z))).
Proof.
  intros dates. split.
  - intros Hno. unfold tag_illegal_storefronts. fold dates.
    destruct Hno as [Hno|Hno].
    + by rewrite (bool_decide_eq_true_2 _ Hno).
    + rewrite (bool_decide_eq_true_2 ("200112" ∉ dates) Hno). by rewrite orb_true_r.
  - intros H1 H2 Hnames Hslug Hat Hlenup Hup.
    destruct (date_prefix_index "191221" filenames eq_refl H1) as (i1 & Hi1 & Hlt1).
    destruct (date_prefix_index "200112" filenames eq_refl H2) as (i2 & Hi2 & Hlt2).
    set (before := slugs_up_to files (wave_before files i1)).
    set (G := λ (i : nat) (f : DataFrame),
           if match filenames !! i with
              | Some filename => contains "200112" filename
              | None => false
              end then f
           else setitem (setitem f "illegal_1912" (illegal_1912_column files i1 i2 i))
                        "illegal_other" (illegal_other_column files before i1 i2 i)).
    destruct (wave_map_loop G
      (λ i files0,
         do filename <- item filenames i;
         if contains "200112" filename then Ok files0
         else
           do file <- item files0 i;
           do slug <- getitem file "slug";
           do files0 <- set_file_column files0 i "illegal_1912"
                          (apply_int (isin slug (slugs_at files i1 ∖ slugs_at files i2)));
           do file <- item files0 i;
           do slug <- getitem file "slug";
           set_file_column files0 i "illegal_other"
             (apply_int (isin slug ((before ∖ slugs_at files i2) ∖ slugs_at files i1))))
      files) as (fs & Hrun & Hlen & Hfs).
    { intros i fs f Hf Hfs Hlen.
      destruct (lookup_lt_is_Some_2 filenames i) as [filename Hname];
        [rewrite Hnames; by eapply lookup_lt_Some|].
      rewrite (item_lookup _ _ _ Hname). cbn [bind]. unfold G. rewrite Hname. cbv beta iota.
      destruct (contains "200112" filename); [by rewrite list_insert_id|].
      pose proof (Forall_lookup_1 _ _ _ _ Hslug Hf) as Hs.
      destruct (slug_column_getitem files i f Hf Hs) as [Hget _].
      assert (i < length fs) as Hi by (by eapply lookup_lt_Some).
      rewrite (item_lookup _ _ _ Hfs). cbn [bind]. rewrite Hget. cbn [bind].
      unfold set_file_column at 1. rewrite (item_lookup _ _ _ Hfs). cbn [bind].
      rewrite (item_lookup _ i (setitem f "illegal_1912"
                 (apply_int (isin (slug_column files i) (slugs_at files i1 ∖ slugs_at files i2)))))
        by by apply list_lookup_insert_eq.
      cbn [bind].
      assert (getitem (setitem f "illegal_1912"
                 (apply_int (isin (slug_column files i) (slugs_at files i1 ∖ slugs_at files i2))))
                "slug" = Ok (slug_column files i)) as ->.
      { apply getitem_Ok. rewrite lookup_col_setitem_ne by done. by apply getitem_Ok. }
      cbn [bind]. unfold set_file_column.
      rewrite (item_lookup _ i (setitem f "illegal_1912"
                 (apply_int (isin (slug_column files i) (slugs_at files i1 ∖ slugs_at files i2)))))
        by by apply list_lookup_insert_eq.
      cbn [bind]. by rewrite list_insert_insert_eq. }
    exists i1, i2, fs. split; [done|]. split; [done|]. split.
    { unfold tag_illegal_storefronts. fold dates.
      rewrite (bool_decide_eq_false_2 ("191221" ∉ dates)) by auto.
      rewrite (bool_decide_eq_false_2 ("200112" ∉ dates)) by auto.
      cbn [orb]. unfold get_index_of_date. cbn [String.length bool_decide]. simpl bool_decide.
      cbn [outcome_bind]. rewrite Hi1, Hi2. cbn [outcome_bind item_at].
      rewrite !(item_lookup slugs_at_i i1 (slugs_at files i1)) by (apply Hat; lia).
      rewrite !(item_lookup slugs_at_i i2 (slugs_at files i2)) by (apply Hat; lia).
      cbn [bind].
      assert (item_before slugs_up_to_i (Some i1) = Ok before) as ->.
      { unfold item_before, before, wave_before. destruct i1 as [|i'].
        - rewrite Hlenup. apply item_lookup, Hup. lia.
        - apply item_lookup, Hup. lia. }
      cbn [bind]. fold before. by rewrite Hrun. }
    split; [done|]. intros i filename file Hname Hfile.
    pose proof (Hfs i file Hfile) as Hfsi. unfold G in Hfsi. rewrite Hname in Hfsi.
    cbv beta iota in Hfsi. split.
    + intros Hc. by rewrite Hc in Hfsi.
    + intros Hc. rewrite Hc in Hfsi.
      exists (illegal_1912_column files i1 i2 i), (illegal_other_column files before i1 i2 i).
      unfold column_at. rewrite Hfsi. cbn [mbind option_bind].
      split; [rewrite lookup_col_setitem_ne by done; apply lookup_col_setitem_eq|].
      split; [apply lookup_col_setitem_eq|].
      intros j slug Hj. unfold illegal_1912_column, illegal_other_column, apply_int.
      rewrite !list_lookup_fmap, !(isin_lookup _ _ _ _ Hj). cbn [fmap option_fmap option_map].
      set (a := bool_decide (slug ∈ slugs_at files i1 ∖ slugs_at files i2)).
      set (b := bool_decide (slug ∈ (before ∖ slugs_at files i2) ∖ slugs_at files i1)).
      assert (a = true ↔ slug ∈ slugs_at files i1 ∧ (slug ∉ slugs_at files i2)) as Ha
        by (unfold a; by rewrite bool_decide_eq_true, elem_of_difference).
      assert (b = true ↔
              slug ∈ before ∧ (slug ∉ slugs_at files i2) ∧ (slug ∉ slugs_at files i1)) as Hb
        by (unfold b; rewrite bool_decide_eq_true, !elem_of_difference; tauto).
      exists (if a then 1 else 0)%Z, (if b then 1 else 0)%Z.
      split; [done|]. split; [done|].
      split; [destruct a; auto|]. split; [destruct b; auto|].
      split; [etrans; [|exact Ha]; by destruct a|].
      split; [etrans; [|exact Hb]; by destruct b|].
      intros [Ha1 Hb1].
      assert (a = true) as Ha' by (by destruct a).
      assert (b = true) as Hb' by (by destruct b).
      apply Ha in Ha'. apply Hb in Hb'. tauto.
Qed.

Lemma tag_illegal_storefronts_correct_witness :
  ∃ i1 i2 fs,
    index_of_date "191221" purge_filenames 0 = Some i1 ∧
    index_of_date "200112" purge_filenames 0 = Some i2 ∧
    tag_illegal_storefronts purge_filenames
      [slugs_at purge_waves 0; slugs_at purge_waves 1; slugs_at purge_waves 2]
      [slugs_up_to purge_waves 0; slugs_up_to purge_waves 1; slugs_up_to purge_waves 2]
      purge_waves = Returns fs.
Proof.
  destruct (proj2 (tag_illegal_storefronts_correct purge_filenames
              [slugs_at purge_waves 0; slugs_at purge_waves 1; slugs_at purge_waves 2]
              [slugs_up_to purge_waves 0; slugs_up_to purge_waves 1; slugs_up_to purge_waves 2]
              purge_waves)) as (i1 & i2 & fs & ? & ? & ? & _).
  - apply (bool_decide_unpack _). by vm_compute.
  - apply (bool_decide_unpack _). by vm_compute.
  - reflexivity.
  - repeat constructor.
  - intros [|[|[|k]]] Hk; simpl in Hk; try lia; reflexivity.
  - reflexivity.
  - intros [|[|[|k]]] Hk; simpl in Hk; try lia; reflexivity.
  - by exists i1, i2, fs.
Defined.

(** ** The value of a field at the last appearance of a slug *)

Lemma lookup_col_filter_rows df mask name :
  lookup_col name (cols (filter_rows df mask)) =
  (λ v, select_mask v mask) <$> lookup_col name (cols df).
Proof.
  unfold filter_rows. cbn [cols]. induction (cols df) as [|[k v] cs IH]; csimpl; [done|].
  by destruct (decide (k = name)).
Qed.

Lemma select_mask_nil_r (v : list cell) : select_mask v [] = [].
Proof. unfold select_mask. by destruct v. Qed.

Lemma select_mask_cons x (v : list cell) b mask :
  select_mask (x :: v) (b :: mask) =
  if b then x :: select_mask v mask else select_mask v mask.
Proof.
  unfold select_mask. cbn [zip_with]. rewrite filter_cons. cbn [snd].
  destruct b.
  - by rewrite decide_True.
  - by rewrite decide_False.
Qed.

Lemma select_mask_first (v : list cell) mask j x :
  v !! j = Some x → mask !! j = Some true →
  (∀ j', j' < j → mask !! j' ≠ Some true) →
  select_mask v mask !! 0 = Some x.
Proof.
  revert v mask. induction j as [|j IH]; intros [|y v] [|b mask] Hv Hm Hfirst; try done.
  - simpl in Hv, Hm. injection Hv as ->. injection Hm as ->. by rewrite select_mask_cons.
  - rewrite select_mask_cons. destruct b.
    + by destruct (Hfirst 0 ltac:(lia)).
    + apply IH; [done | done |]. intros j' Hj'. apply (Hfirst (S j')). lia.
Qed.

Lemma select_mask_none (v : list cell) mask :
  (∀ j, mask !! j ≠ Some true) → select_mask v mask = [].
Proof.
  revert mask. induction v as [|y v IH]; intros [|b mask] Hnone; try done.
  rewrite select_mask_cons. destruct b; [by destruct (Hnone 0)|].
  apply IH. intros j. apply (Hnone (S j)).
Qed.

Lemma series_eq_true c slug :
  negb (is_null c) && negb (is_null slug) && bool_decide (c = slug) = true ↔
  c = slug ∧ is_null slug = false.
Proof.
  rewrite !andb_true_iff, !negb_true_iff, bool_decide_eq_true. split.
  - by intros [[_ ?] ->].
  - by intros [-> ?].
Qed.

Lemma series_eq_lookup s value j c :
  s !! j = Some c →
  series_eq s value !! j =
    Some (negb (is_null c) && negb (is_null value) && bool_decide (c = value)).
Proof. intros H. unfold series_eq. by rewrite list_lookup_fmap, H. Qed.

Lemma last_appearance_wave_found slug slugs_at_i (at_wave : nat → gset cell) n k :
  (∀ k', k' ≤ n → slugs_at_i !! k' = Some (at_wave k')) →
  k ≤ n → slug ∈ at_wave k → (∀ k', k < k' ≤ n → slug ∉ at_wave k') →
  last_appearance_wave slug slugs_at_i n = Ok k.
Proof.
  intros Hat Hk Hin Hlast. induction n as [|n IH]; cbn [last_appearance_wave].
  - rewrite (item_lookup _ _ _ (Hat 0 ltac:(lia))). cbn [bind]. replace k with 0 in * by lia.
    by rewrite bool_decide_eq_true_2.
  - rewrite (item_lookup _ _ _ (Hat (S n) ltac:(lia))). cbn [bind].
    destruct (decide (k = S n)) as [->|Hne].
    + by rewrite bool_decide_eq_true_2.
    + rewrite bool_decide_eq_false_2 by (apply Hlast; lia).
      apply IH; [intros k' Hk'; apply Hat; lia | lia | intros k' Hk'; apply Hlast; lia].
Qed.

Lemma last_appearance_wave_never slug slugs_at_i (at_wave : nat → gset cell) n :
  (∀ k', k' ≤ n → slugs_at_i !! k' = Some (at_wave k')) →
  (∀ k', k' ≤ n → slug ∉ at_wave k') →
  last_appearance_wave slug slugs_at_i n = Ok 0.
Proof.
  intros Hat Hnever. induction n as [|n IH]; cbn [last_appearance_wave].
  - rewrite (item_lookup _ _ _ (Hat 0 ltac:(lia))). cbn [bind].
    by rewrite bool_decide_eq_false_2 by (apply Hnever; lia).
  - rewrite (item_lookup _ _ _ (Hat (S n) ltac:(lia))). cbn [bind].
    rewrite bool_decide_eq_false_2 by (apply Hnever; lia).
    apply IH; [intros k' Hk'; apply Hat; lia | intros k' Hk'; apply Hnever; lia].
Qed.

(** X15: [get_last_appearance_field_value] reads an unbound loop variable
    when [max_wave] is negative. When the slug sets are those of the waves
    and [k] is the last wave up to [max_wave] that holds the slug, a slug
    that is no missing value, it returns the value of the field in the
    first row of wave [k] with that slug (the comparison of pandas finds no
    row for a missing slug). When no wave up to [max_wave] holds the slug,
    it does not return a missing value: it looks for the slug in the first
    wave and raises IndexError. *)
Theorem get_last_appearance_field_value_correct (slug : cell) (max_wave : Z)
    (field : string) (slugs_at_i : list (gset cell)) (files : list DataFrame) :
  ((max_wave < 0)%Z →
   get_last_appearance_field_value slug max_wave field slugs_at_i files =
     Raise (UnboundLocalError "i")) ∧
  ((0 ≤ max_wave)%Z →
   (∀ k, k ≤ Z.to_nat max_wave → slugs_at_i !! k = Some (slugs_at files k)) →
   (∀ k file j v,
      k ≤ Z.to_nat max_wave →
      (∀ k', k < k' ≤ Z.to_nat max_wave → slug ∉ slugs_at files k') →
      files !! k = Some file →
      column_of file "slug" !! j = Some slug → is_null slug = false →
      (∀ j', j' < j → column_of file "slug" !! j' ≠ Some slug) →
      column_of file field !! j = Some v →
      get_last_appearance_field_value slug max_wave field slugs_at_i files = Ok v) ∧
   (∀ file,
      (∀ k, k ≤ Z.to_nat max_wave → slug ∉ slugs_at files k) →
      files !! 0 = Some file →
      has_column "slug" file = true → has_column field file = true →
      get_last_appearance_field_value slug max_wave field slugs_at_i files =
        Raise IndexError)).
Proof.
  unfold get_last_appearance_field_value. split.
  - intros Hneg. by rewrite (proj2 (Z.ltb_lt _ _) Hneg).
  - intros Hpos Hat. rewrite (proj2 (Z.ltb_ge _ _) Hpos). split.
    + intros k file j v Hk Hlast Hfile Hj Hnan Hfirst Hv.
      assert (has_column "slug" file = true) as Hs.
      { apply has_column_lookup. unfold column_of in Hj.
        destruct (lookup_col "slug" (cols file)); [eauto | done]. }
      assert (has_column field file = true) as Hf.
      { apply has_column_lookup. unfold column_of in Hv.
        destruct (lookup_col field (cols file)); [eauto | done]. }
      rewrite (last_appearance_wave_found slug slugs_at_i (slugs_at files) _ k);
        [|done|done| |done].
      2:{ rewrite (slugs_at_eq files k file Hfile). unfold to_set.
          apply elem_of_list_to_set. by eapply list_elem_of_lookup_2. }
      cbn [bind]. rewrite (item_lookup _ _ _ Hfile). cbn [bind].
      rewrite (getitem_column_of _ _ Hs). cbn [bind].
      assert (getitem (filter_rows file (series_eq (column_of file "slug") slug))
                field =
              Ok (select_mask (column_of file field)
                    (series_eq (column_of file "slug") slug))) as ->.
      { apply getitem_Ok. rewrite lookup_col_filter_rows.
        apply getitem_column_of, getitem_Ok in Hf. by rewrite Hf. }
      cbn [bind]. apply item_lookup. apply (select_mask_first _ _ j); [done| |].
      * rewrite (series_eq_lookup _ _ _ _ Hj). f_equal. by apply series_eq_true.
      * intros j' Hj'. unfold series_eq. rewrite list_lookup_fmap.
        destruct (column_of file "slug" !! j') as [c|] eqn:Hc; [|done]. simpl.
        intros [= Heq]. apply series_eq_true in Heq as [-> _].
        by apply (Hfirst j').
    + intros file Hnever Hfile Hs Hf.
      rewrite (last_appearance_wave_never slug slugs_at_i (slugs_at files)) by done.
      cbn [bind]. rewrite (item_lookup _ _ _ Hfile). cbn [bind].
      rewrite (getitem_column_of _ _ Hs). cbn [bind].
      assert (getitem (filter_rows file (series_eq (column_of file "slug") slug))
                field =
              Ok (select_mask (column_of file field)
                    (series_eq (column_of file "slug") slug))) as ->.
      { apply getitem_Ok. rewrite lookup_col_filter_rows.
        apply getitem_column_of, getitem_Ok in Hf. by rewrite Hf. }
      cbn [bind]. rewrite select_mask_none; [done|].
      intros j. unfold series_eq. rewrite list_lookup_fmap.
      destruct (column_of file "slug" !! j) as [c|] eqn:Hc; [|done]. simpl.
      intros [= Heq]. apply series_eq_true in Heq as [-> _].
      apply (Hnever 0 ltac:(lia)). rewrite (slugs_at_eq files 0 file Hfile). unfold to_set.
      apply elem_of_list_to_set. by eapply list_elem_of_lookup_2.
Qed.

Lemma get_last_appearance_field_value_correct_witness :
  get_last_appearance_field_value (Str "a") 0 "email"
    [slugs_at [four_storefronts] 0] [four_storefronts] = Ok (Str "a@x.example").
Proof.
  destruct (get_last_appearance_field_value_correct (Str "a") 0 "email"
              [slugs_at [four_storefronts] 0] [four_storefronts]) as [_ Hret].
  destruct Hret as [Hfound _].
  - lia.
  - intros [|k] Hk; [reflexivity | simpl in Hk; lia].
  - apply (Hfound 0 four_storefronts 0).
    + simpl. lia.
    + intros k' Hk'. simpl in Hk'. lia.
    + reflexivity.
    + reflexivity.
    + reflexivity.
    + intros j' Hj'. lia.
    + reflexivity.
Defined.

(** ** Masks *)

Lemma length_select_mask (v : list cell) mask :
  length v = length mask →
  length (select_mask v mask) = length (filter (λ b, b = true) mask).
Proof.
  revert mask. induction v as [|x v IH]; intros [|b mask] Hlen; try done.
  rewrite select_mask_cons, filter_cons. simpl in Hlen. destruct b.
  - rewrite decide_True by done. simpl. f_equal. apply IH. lia.
  - rewrite decide_False by done. apply IH. lia.
Qed.

Lemma filter_rows_well_formed df mask :
  well_formed df → length mask = nrows df → well_formed (filter_rows df mask).
Proof.
  intros Hwf Hlen. unfold well_formed, filter_rows. cbn [cols nrows].
  apply Forall_fmap. eapply Forall_impl; [exact Hwf|]. intros [k v] Hv. simpl in *.
  apply length_select_mask. congruence.
Qed.

Lemma select_mask_twice (v u : list cell) (p q : cell → bool) :
  length v = length u →
  select_mask (select_mask v (p <$> u)) (q <$> select_mask u (p <$> u)) =
  select_mask v ((λ c, p c && q c) <$> u).
Proof.
  revert u. induction v as [|x v IH]; intros [|c u] Hlen; try done.
  simpl in Hlen. rewrite !fmap_cons, !select_mask_cons. destruct (p c); cbn [andb].
  - rewrite fmap_cons, select_mask_cons. destruct (q c); [f_equal|]; apply IH; lia.
  - apply IH. lia.
Qed.

Lemma select_mask_test (u : list cell) (p : cell → bool) c :
  c ∈ select_mask u (p <$> u) → c ∈ u ∧ p c = true.
Proof.
  intros (j & Hj & Hm)%select_mask_elem. rewrite list_lookup_fmap, Hj in Hm.
  injection Hm as Hm. split; [by eapply list_elem_of_lookup_2 | done].
Qed.

Lemma str_mask_Ok (test : string → bool) (s : list cell) :
  Forall (λ c, is_str c = true) s →
  str_mask test s = Ok ((λ c, match c with Str x => test x | _ => false end) <$> s).
Proof.
  intros Hs. unfold str_mask. apply map_result_fmap. intros c Hc.
  apply (proj1 (Forall_forall _ _) Hs) in Hc. by destruct c.
Qed.

Lemma map_outcome_fmap {A B} (f : A → outcome B) (g : A → B) xs :
  (∀ x, x ∈ xs → f x = Returns (g x)) → map_outcome f xs = Returns (g <$> xs).
Proof.
  induction xs as [|x xs IH]; intros Hf; simpl; [done|].
  rewrite (Hf x) by by left. simpl. rewrite IH by (intros y Hy; apply Hf; by right). done.
Qed.

(** ** Slugs *)

Lemma contains_char_cons (sep a : ascii) x :
  contains (String sep EmptyString) (String a x) =
  bool_decide (a = sep) || contains (String sep EmptyString) x.
Proof.
  cbn [contains String.prefix]. destruct (ascii_dec sep a) as [->|Hne].
  - rewrite bool_decide_eq_true_2 by done. by destruct x.
  - rewrite bool_decide_eq_false_2 by done. done.
Qed.

Lemma split_last (sep : ascii) x :
  ∃ parts s, split sep x = parts ++ [s] ∧
    contains (String sep EmptyString) s = false ∧
    if contains (String sep EmptyString) x
    then parts ≠ [] ∧ ∃ p, x = p +:+ String sep EmptyString +:+ s
    else parts = [] ∧ s = x.
Proof.
  induction x as [|c x IH].
  - exists [], EmptyString. by vm_compute.
  - destruct IH as (parts & s & Hsplit & Hs & Hx). cbn [split].
    rewrite contains_char_cons. destruct (decide (c = sep)) as [->|Hne].
    + rewrite bool_decide_eq_true_2 by done. cbn [orb].
      exists (EmptyString :: parts), s. rewrite Hsplit. split; [done|]. split; [done|].
      split; [done|].
      destruct (contains (String sep EmptyString) x).
      * destruct Hx as [_ [p ->]]. by exists (String sep p).
      * destruct Hx as [_ ->]. by exists EmptyString.
    + rewrite bool_decide_eq_false_2 by done. cbn [orb]. rewrite Hsplit.
      destruct (contains (String sep EmptyString) x).
      * destruct Hx as [Hparts [p ->]]. destruct parts as [|part parts]; [done|].
        exists (String c part :: parts), s. split; [done|]. split; [done|].
        split; [done|]. by exists (String c p).
      * destruct Hx as [-> ->]. exists [], (String c x). split; [done|].
        split; [|done]. rewrite contains_char_cons, Hs.
        by rewrite bool_decide_eq_false_2.
Qed.

(** X16: [add_slug] raises KeyError on a wave without url column, and
    AttributeError on a wave whose url column is one of numbers: it has
    cells, and none of them is a string or [None].
    Otherwise it returns the rows whose url is a string with a ['/'], in
    their order and with all their columns, and gives each the slug that
    follows the last ['/'] of its url: the url is some prefix, a ['/'] and
    the slug, and the slug holds no ['/']. *)
Theorem add_slug_correct (df : DataFrame) :
  (has_column "url" df = false → add_slug df = Raises (KeyError "url")) ∧
  (has_column "url" df = true → object_dtype (column_of df "url") = false →
   add_slug df = AttributeError) ∧
  (has_column "url" df = true → object_dtype (column_of df "url") = true →
   well_formed df →
   ∃ df' slug,
     add_slug df = Returns df' ∧ well_formed df' ∧
     lookup_col "slug" (cols df') = Some slug ∧
     (∀ name v, name ≠ "slug" → lookup_col name (cols df) = Some v →
        lookup_col name (cols df') = Some (select_mask v (url_ok <$> column_of df "url"))) ∧
     length slug = length (column_of df' "url") ∧
     ∀ j u, column_of df' "url" !! j = Some u →
       ∃ x p s, u = Str x ∧ slug !! j = Some (Str s) ∧
                x = p +:+ "/" +:+ s ∧ contains "/" s = false).
Proof.
  split; [|split].
  - intros Hno. apply has_column_false in Hno. unfold add_slug, getitem. by rewrite Hno.
  - intros Hurl Hdtype. unfold add_slug. rewrite (getitem_column_of _ _ Hurl).
    cbn [of_result outcome_bind].
    apply getitem_column_of, getitem_Ok in Hurl.
    assert (∀ m, getitem (filter_rows df m) "url" = Ok (select_mask (column_of df "url") m))
      as -> by (intros m; apply getitem_Ok; by rewrite lookup_col_filter_rows, Hurl).
    cbn [of_result outcome_bind].
    assert (∀ m m', getitem (filter_rows (filter_rows df m) m') "url" =
                    Ok (select_mask (select_mask (column_of df "url") m) m'))
      as -> by (intros m m'; apply getitem_Ok; by rewrite !lookup_col_filter_rows, Hurl).
    cbn [of_result outcome_bind]. by rewrite Hdtype.
  - intros Hurl Hdtype Hwf. unfold add_slug. rewrite (getitem_column_of _ _ Hurl).
    cbn [of_result outcome_bind].
    pose proof Hurl as Hcol. apply getitem_column_of, getitem_Ok in Hcol.
    set (url0 := column_of df "url") in *.
    set (m1 := notnull url0).
    set (url1 := select_mask url0 m1).
    set (m2 := is_str <$> url1).
    set (url2 := select_mask url1 m2).
    set (test := λ c, match c with Str x => contains "/" x | _ => false end).
    set (m3 := test <$> url2).
    set (url3 := select_mask url2 m3).
    assert (length url0 = nrows df) as Hlen0 by by apply (well_formed_lookup df "url").
    assert (getitem (filter_rows df m1) "url" = Ok url1) as ->.
    { apply getitem_Ok. by rewrite lookup_col_filter_rows, Hcol. }
    cbn [of_result outcome_bind]. fold m2.
    assert (getitem (filter_rows (filter_rows df m1) m2) "url" = Ok url2) as ->.
    { apply getitem_Ok. by rewrite !lookup_col_filter_rows, Hcol. }
    cbn [of_result outcome_bind]. rewrite Hdtype.
    assert (Forall (λ c, is_str c = true) url2) as Hstr2.
    { apply Forall_forall. intros c Hc. by apply select_mask_test in Hc as [_ ?]. }
    rewrite (str_mask_Ok _ _ Hstr2). fold test. fold m3. cbn [of_result outcome_bind].
    assert (getitem (filter_rows (filter_rows (filter_rows df m1) m2) m3) "url" = Ok url3) as ->.
    { apply getitem_Ok. by rewrite !lookup_col_filter_rows, Hcol. }
    cbn [of_result outcome_bind].
    assert (∀ c, c ∈ url3 → ∃ x, c = Str x ∧ contains "/" x = true) as Hurl3.
    { intros c Hc. apply select_mask_test in Hc as [_ Hc]. destruct c; try done. eauto. }
    set (slug_of := λ c, match c with
                         | Str x => Str (default EmptyString (last (split "/" x)))
                         | _ => NaN
                         end).
    assert (∀ x, contains "/" x = true →
              ∃ p s, last_part (Str x) = Returns (slug_of (Str x)) ∧ slug_of (Str x) = Str s ∧
                     x = p +:+ "/" +:+ s ∧ contains "/" s = false) as Hlast.
    { intros x Hx. destruct (split_last "/" x) as (parts & s & Hsplit & Hs & Hcase).
      rewrite Hx in Hcase. destruct Hcase as [_ [p Hp]]. exists p, s.
      assert (slug_of (Str x) = Str s) as Hslug
        by (unfold slug_of; by rewrite Hsplit, last_snoc).
      split; [|done]. rewrite Hslug. unfold last_part. rewrite Hsplit, length_app. cbn [length].
      replace (length parts + 1 - 1) with (length parts) by lia.
      rewrite (item_lookup _ _ s); [done|]. rewrite lookup_app_r by lia.
      by rewrite Nat.sub_diag. }
    rewrite (map_outcome_fmap _ slug_of).
    2:{ intros c Hc. destruct (Hurl3 c Hc) as (x & -> & Hx).
        by destruct (Hlast x Hx) as (p & s & -> & _). }
    cbn [outcome_bind].
    assert (length m1 = nrows df) as Hm1 by (unfold m1, notnull; by rewrite length_fmap).
    assert (length url1 = nrows (filter_rows df m1)) as Hlen1.
    { unfold url1. rewrite length_select_mask by lia. done. }
    assert (length m2 = nrows (filter_rows df m1)) as Hm2
      by (unfold m2; by rewrite length_fmap).
    assert (length url2 = nrows (filter_rows (filter_rows df m1) m2)) as Hlen2.
    { unfold url2. rewrite length_select_mask by lia. done. }
    assert (length m3 = nrows (filter_rows (filter_rows df m1) m2)) as Hm3
      by (unfold m3; by rewrite length_fmap).
    assert (length url3 = nrows (filter_rows (filter_rows (filter_rows df m1) m2) m3)) as Hlen3.
    { unfold url3. rewrite length_select_mask by lia. done. }
    assert (lookup_col "url" (cols (filter_rows (filter_rows (filter_rows df m1) m2) m3)) =
            Some url3) as Hcol3 by by rewrite !lookup_col_filter_rows, Hcol.
    eexists _, (slug_of <$> url3). split; [done|]. split; [|split; [|split; [|split]]].
    + apply well_formed_setitem; [|by rewrite length_fmap].
      repeat apply filter_rows_well_formed; done.
    + apply lookup_col_setitem_eq.
    + intros name v Hname Hv. rewrite lookup_col_setitem_ne by done.
      rewrite !lookup_col_filter_rows, Hv. cbn [fmap option_fmap option_map]. f_equal.
      assert (length v = length url0) as Hlenv
        by (rewrite Hlen0; by apply (well_formed_lookup df name)).
      unfold m3, url2, m2, url1, m1, notnull.
      rewrite (select_mask_twice v url0) by done.
      rewrite (select_mask_twice url0 url0) by done.
      rewrite (select_mask_twice v url0) by done.
      f_equal. apply list_fmap_ext. intros i c _. unfold test. by destruct c.
    + unfold column_of. rewrite lookup_col_setitem_ne by done. rewrite Hcol3. simpl.
      by rewrite length_fmap.
    + intros j u. unfold column_of. rewrite lookup_col_setitem_ne by done. rewrite Hcol3.
      simpl. intros Hj. destruct (Hurl3 u) as (x & -> & Hx); [by eapply list_elem_of_lookup_2|].
      destruct (Hlast x Hx) as (p & s & _ & Hs & Hp & Hno).
      exists x, p, s. split; [done|]. split; [|done].
      rewrite list_lookup_fmap, Hj. cbn [fmap option_fmap option_map]. by rewrite Hs.
Qed.

Lemma add_slug_correct_witness :
  ∃ df' slug, add_slug raw_wave = Returns df' ∧ lookup_col "slug" (cols df') = Some slug.
Proof.
  destruct (proj2 (proj2 (add_slug_correct raw_wave))) as (df' & slug & ? & _ & ? & _).
  - reflexivity.
  - reflexivity.
  - repeat constructor.
  - by exists df', slug.
Defined.

(** ** Phone numbers *)

Lemma Forall_select_mask (P : cell → Prop) (v : list cell) mask :
  Forall P v → Forall P (select_mask v mask).
Proof.
  intros Hv. apply Forall_forall. intros c (j & Hj & _)%select_mask_elem.
  by eapply (Forall_lookup_1 _ _ _ _ Hv).
Qed.

Lemma all_digits_digits_of x : all_digits (digits_of x) = true.
Proof.
  induction x as [|c x IH]; [done|]. cbn [digits_of].
  destruct (is_digit c) eqn:Hc; [|done]. cbn [all_digits]. by rewrite Hc.
Qed.

Lemma all_digits_no_newline x : all_digits x = true → no_newline x = true.
Proof.
  induction x as [|c x IH]; [done|]. cbn [all_digits no_newline].
  intros [Hc Hx]%andb_true_iff. rewrite (IH Hx), andb_true_r.
  apply negb_true_iff, bool_decide_eq_false. intros ->. done.
Qed.

Lemma chomp_no_newline x : no_newline x = true → chomp x = x.
Proof.
  induction x as [|c x IH]; [done|]. cbn [no_newline chomp].
  intros [Hc Hx]%andb_true_iff. destruct x as [|c' x].
  - apply negb_true_iff in Hc. by rewrite Hc.
  - by rewrite (IH Hx).
Qed.

Lemma all_digits_substring n x : all_digits x = true → all_digits (String.substring 0 n x) = true.
Proof.
  revert x. induction n as [|n IH]; intros [|c x]; try done.
  cbn [all_digits String.substring]. intros [Hc Hx]%andb_true_iff. by rewrite Hc, (IH x Hx).
Qed.

Lemma get_substring n x : String.get 0 (String.substring 0 (S n) x) = String.get 0 x.
Proof. by destruct x. Qed.

Lemma country_code_Ok n :
  n ≠ EmptyString → all_digits n = true →
  ∃ m, country_code n = Ok m ∧ all_digits m = true ∧ String.get 0 m = Some "1"%char.
Proof.
  destruct n as [|c n]; [done|]. intros _ Hn. cbn [country_code]. case_bool_decide as Hc.
  - eexists. split; [done|]. split; [|done]. simpl. exact Hn.
  - subst c. by eexists.
Qed.

Ltac frame_lookup :=
  repeat first [ rewrite lookup_col_filter_rows
               | rewrite lookup_col_setitem_eq
               | rewrite lookup_col_setitem_ne by done ].

Ltac getitem_next H :=
  unfold getitem at 1; frame_lookup; rewrite ?H; cbn [fmap option_fmap option_map bind].

(** X17: [clean_phone] raises KeyError on a wave without phone column. On
    any wave with one it returns, whatever the cells of the column are; in
    the wave it returns every phone is a string and every standardized
    phone is a string of eleven digits that starts with 1 and holds no six
    zeros in a row. *)
Theorem clean_phone_correct (str_of_number : Z → string) (df : DataFrame) :
  (has_column "phone" df = false →
   clean_phone str_of_number df = Raise (KeyError "phone")) ∧
  (has_column "phone" df = true →
   ∃ df' phone stdrd_phone,
     clean_phone str_of_number df = Ok df' ∧
     lookup_col "phone" (cols df') = Some phone ∧
     lookup_col "stdrd_phone" (cols df') = Some stdrd_phone ∧
     Forall (λ c, is_str c = true) phone ∧
     Forall (λ c, ∃ x, c = Str x ∧ standard_phone x) stdrd_phone).
Proof.
  split.
  - intros Hno. apply has_column_false in Hno. unfold clean_phone, getitem. by rewrite Hno.
  - intros Hphone. apply has_column_lookup in Hphone as [phone0 Hphone].
    unfold clean_phone.
    getitem_next Hphone. getitem_next Hphone.
    set (phone1 := select_mask phone0 (notnull phone0)).
    getitem_next Hphone.
    set (phone2 := (λ c, Str (astype_str str_of_number c)) <$> phone1).
    assert (Forall (λ c, is_str c = true) phone2) as Hstr2.
    { apply Forall_fmap, Forall_forall. by intros c _. }
    rewrite (str_mask_Ok _ _ Hstr2). cbn [bind].
    set (mask2 := (λ c, match c with Str x => starts_like_phone x | _ => false end) <$> phone2).
    getitem_next Hphone.
    set (phone3 := select_mask phone2 mask2).
    assert (Forall (λ c, is_str c = true) phone3) as Hstr3 by by apply Forall_select_mask.
    getitem_next Hphone.
    set (digits := λ c, match c with Str x => Str (digits_of x) | _ => NaN end).
    set (stdrd4 := digits <$> phone3).
    assert (Forall (λ c, ∃ x, c = Str x ∧ all_digits x = true) stdrd4) as Hdig4.
    { apply Forall_fmap. eapply Forall_impl; [exact Hstr3|]. intros [| |x|z] Hc; try done.
      exists (digits_of x). split; [done | apply all_digits_digits_of]. }
    rewrite (map_result_fmap _ (λ c, match c with Str x => String.length x | _ => 0 end)).
    2:{ intros c Hc. apply (proj1 (Forall_forall _ _) Hdig4) in Hc as (x & -> & _). done. }
    cbn [bind]. rewrite <- list_fmap_compose.
    set (nonempty := (λ n, bool_decide (0 < n)) ∘ (λ c, match c with Str x => String.length x | _ => 0 end)).
    getitem_next Hphone.
    set (stdrd5 := select_mask stdrd4 (nonempty <$> stdrd4)).
    assert (Forall (λ c, ∃ x, c = Str x ∧ all_digits x = true ∧ x ≠ EmptyString) stdrd5) as Hdig5.
    { apply Forall_forall. intros c [Hc Hne]%select_mask_test.
      apply (proj1 (Forall_forall _ _) Hdig4) in Hc as (x & -> & Hx).
      exists x. split; [done|]. split; [done|]. intros ->. done. }
    set (code := λ c, match c with
                      | Str n => match country_code n with Ok m => Str m | Raise _ => NaN end
                      | _ => NaN
                      end).
    rewrite (map_result_fmap _ code).
    2:{ intros c Hc. apply (proj1 (Forall_forall _ _) Hdig5) in Hc as (x & -> & Hx & Hne).
        destruct (country_code_Ok x Hne Hx) as (m & Hm & _). unfold code. by rewrite Hm. }
    cbn [bind]. getitem_next Hphone. getitem_next Hphone.
    set (eleven := λ c, match c with Str x => Str (String.substring 0 11 x) | _ => NaN end).
    set (stdrd7 := eleven <$> (code <$> stdrd5)).
    assert (Forall (λ c, ∃ x, c = Str x ∧ all_digits x = true ∧
                              String.get 0 x = Some "1"%char) stdrd7) as Hdig7.
    { unfold stdrd7. rewrite <- list_fmap_compose. apply Forall_fmap.
      eapply Forall_impl; [exact Hdig5|]. intros c (x & -> & Hx & Hne).
      destruct (country_code_Ok x Hne Hx) as (m & Hm & Hdm & H1). unfold compose, code, eleven.
      rewrite Hm. eexists. split; [done|]. split; [by apply all_digits_substring|].
      by rewrite get_substring. }
    assert (Forall (λ c, is_str c = true) stdrd7) as Hstr7.
    { eapply Forall_impl; [exact Hdig7|]. by intros c (x & -> & _). }
    rewrite (str_mask_Ok _ _ Hstr7). cbn [bind].
    getitem_next Hphone.
    set (test7 := λ c, match c with Str x => eleven_chars x | _ => false end).
    set (stdrd8 := select_mask stdrd7 (test7 <$> stdrd7)).
    assert (Forall (λ c, is_str c = true) stdrd8) as Hstr8 by by apply Forall_select_mask.
    rewrite (str_mask_Ok _ _ Hstr8). cbn [bind].
    set (test8 := λ c, match c with Str x => no_six_zeros x | _ => false end).
    eexists _, _, _. split; [done|]. frame_lookup. rewrite ?Hphone.
    cbn [fmap option_fmap option_map]. split; [done|]. split; [done|]. split.
    + fold phone1 phone2 mask2 phone3. by repeat apply Forall_select_mask.
    + fold stdrd8. apply Forall_forall. intros c [Hc H8]%select_mask_test.
      apply select_mask_test in Hc as [Hc H7].
      apply (proj1 (Forall_forall _ _) Hdig7) in Hc as (x & -> & Hx & H1).
      exists x. split; [done|]. unfold test7, eleven_chars in H7. unfold test8, no_six_zeros in H8.
      rewrite (chomp_no_newline x) in H7, H8 by by apply all_digits_no_newline.
      rewrite (all_digits_no_newline x Hx) in H7, H8. cbn [andb] in H7, H8.
      apply bool_decide_eq_true in H7. apply negb_true_iff in H8. done.
Qed.

Lemma clean_phone_correct_witness :
  ∃ df' phone stdrd_phone,
    clean_phone pretty raw_wave = Ok df' ∧
    lookup_col "phone" (cols df') = Some phone ∧
    lookup_col "stdrd_phone" (cols df') = Some stdrd_phone.
Proof.
  destruct (proj2 (clean_phone_correct pretty raw_wave)) as (df' & ph & st & ? & ? & ? & _).
  - reflexivity.
  - by exists df', ph, st.
Defined.

(** ** Dispensary or delivery *)

Lemma for_each_outcome_seq_inv {S} (P : nat → S → Prop) (body : nat → S → outcome S) n a s :
  P a s →
  (∀ i s, a ≤ i < a + n → P i s → ∃ s', body i s = Returns s' ∧ P (Datatypes.S i) s') →
  ∃ s', for_each_outcome (seq a n) body s = Returns s' ∧ P (a + n) s'.
Proof.
  revert a s. induction n as [|n IH]; intros a s HP Hstep; simpl.
  - exists s. by rewrite Nat.add_0_r.
  - destruct (Hstep a s) as (s' & -> & HP'); [lia | done |]. simpl.
    destruct (IH (Datatypes.S a) s') as (s'' & Hrun & HP''); [done | |].
    + intros i t Hi. apply Hstep. lia.
    + exists s''. split; [done|]. by replace (a + Datatypes.S n) with (Datatypes.S a + n) by lia.
Qed.

Lemma wave_map_loop_outcome (G : nat → DataFrame → DataFrame)
    (body : nat → list DataFrame → outcome (list DataFrame)) files :
  (∀ i fs f, files !! i = Some f → fs !! i = Some f → length fs = length files →
             body i fs = Returns (<[i := G i f]> fs)) →
  ∃ fs, for_each_outcome (range 0 (length files)) body files = Returns fs ∧
        length fs = length files ∧
        ∀ k f, files !! k = Some f → fs !! k = Some (G k f).
Proof.
  intros Hbody. unfold range. rewrite Nat.sub_0_r.
  destruct (for_each_outcome_seq_inv
    (λ i (fs : list DataFrame),
       length fs = length files ∧ (∀ k, i ≤ k → fs !! k = files !! k) ∧
       (∀ k f, k < i → files !! k = Some f → fs !! k = Some (G k f)))
    body (length files) 0 files) as (fs & Hrun & Hlen & _ & Hdone).
  - split; [done|]. split; [done|]. intros k f Hk. lia.
  - intros i fs Hi (Hlen & Hrest & Hdone).
    destruct (lookup_lt_is_Some_2 files i) as [f Hf]; [lia|].
    rewrite (Hbody i fs f) by (done || by rewrite Hrest).
    eexists. split; [done|]. split; [by rewrite length_insert|]. split.
    + intros k Hk. rewrite list_lookup_insert_ne by lia. apply Hrest. lia.
    + intros k g Hk Hg. destruct (decide (k = i)) as [->|Hne].
      * rewrite list_lookup_insert_eq by lia. congruence.
      * rewrite list_lookup_insert_ne by done. apply Hdone; [lia | done].
  - exists fs. split; [done|]. split; [done|]. intros k f Hf. apply Hdone; [|done].
    apply lookup_lt_Some in Hf. lia.
Qed.

Lemma append_nil s : EmptyString +:+ s = s.
Proof. done. Qed.

Lemma append_cons p a s : String p a +:+ s = String p (a +:+ s).
Proof. done. Qed.

Lemma wild_prefix_literal pat x : literal pat → wild_prefix pat x = String.prefix pat x.
Proof.
  revert x. induction pat as [|p pat IH]; intros x; [by destruct x|].
  intros [Hp Hpat]. destruct x as [|c x]; [done|]. cbn [wild_prefix String.prefix].
  rewrite bool_decide_eq_false_2 by done. rewrite (IH x Hpat).
  destruct (ascii_dec p c) as [->|Hne].
  - by rewrite bool_decide_eq_true_2.
  - by rewrite bool_decide_eq_false_2 by congruence.
Qed.

Lemma wild_prefix_dot (a b : string) x :
  literal a → literal b →
  wild_prefix (a +:+ String "."%char b) x = true ↔
  ∃ c, c ≠ "010"%char ∧ String.prefix (a +:+ String c b) x = true.
Proof.
  intros Ha Hb. revert x. induction a as [|p a IH]; intros x.
  - rewrite append_nil. setoid_rewrite append_nil. destruct x as [|c x].
    + split; [done | by intros (c & _ & ?)].
    + cbn [wild_prefix]. rewrite bool_decide_eq_true_2 by done.
      rewrite (wild_prefix_literal b x Hb), andb_true_iff, negb_true_iff, bool_decide_eq_false.
      split.
      * intros [Hc Hx]. exists c. split; [done|]. cbn [String.prefix].
        by destruct (ascii_dec c c).
      * intros (c' & Hc' & Hx). cbn [String.prefix] in Hx.
        destruct (ascii_dec c' c) as [->|]; done.
  - destruct Ha as [Hp Ha]. rewrite append_cons. setoid_rewrite append_cons.
    destruct x as [|c x].
    + split; [done | by intros (c & _ & ?)].
    + cbn [wild_prefix]. rewrite bool_decide_eq_false_2 by done.
      rewrite andb_true_iff, bool_decide_eq_true, (IH Ha x). split.
      * intros [-> (c' & Hc' & Hx)]. exists c'. split; [done|]. cbn [String.prefix].
        by destruct (ascii_dec p p).
      * intros (c' & Hc' & Hx). cbn [String.prefix] in Hx.
        destruct (ascii_dec p c) as [->|]; [|done]. split; [done|]. by exists c'.
Qed.

Lemma wild_search_dot (a b : string) x :
  literal a → literal b →
  wild_search (a +:+ String "."%char b) x = true ↔
  ∃ c, c ≠ "010"%char ∧ contains (a +:+ String c b) x = true.
Proof.
  intros Ha Hb. induction x as [|c0 x IH]; cbn [wild_search contains].
  - rewrite !orb_false_r, (wild_prefix_dot a b _ Ha Hb). split.
    + intros (c & Hc & Hx). exists c. by rewrite orb_false_r.
    + intros (c & Hc & Hx). exists c. by rewrite orb_false_r in Hx.
  - rewrite orb_true_iff, (wild_prefix_dot a b _ Ha Hb), IH. split.
    + intros [(c & Hc & Hx)|(c & Hc & Hx)]; exists c; (split; [done|]);
        rewrite orb_true_iff; auto.
    + intros (c & Hc & [Hx|Hx]%orb_true_iff); [left | right]; by exists c.
Qed.

Lemma all_str_object_dtype (s : list cell) :
  Forall (λ c, is_str c = true) s → object_dtype s = true.
Proof.
  unfold object_dtype. destruct 1 as [|c s Hc Hs]; [done|]. simpl. by destruct c.
Qed.

Lemma contains_int_Returns pat (s : list cell) :
  Forall (λ c, is_str c = true) s →
  contains_int pat s =
    Returns ((λ c, match c with Str x => int_of_bool (wild_search pat x) | _ => NaN end) <$> s).
Proof.
  intros Hs. unfold contains_int. rewrite (all_str_object_dtype s Hs).
  rewrite (map_result_fmap _
             (λ c, match c with Str x => int_of_bool (wild_search pat x) | _ => NaN end));
    [done|].
  intros c Hc. apply (proj1 (Forall_forall _ _) Hs) in Hc. by destruct c.
Qed.

(** X18: on waves whose urls are all strings,
    [tag_dispensary_or_delivery] returns, and a record gets
    is_dispensary = 1 exactly when its url holds weedmaps, one character
    that is no newline and com/dispensaries/ in a row -- the dot of the
    pattern stands for any character --, so in particular when it holds
    weedmaps.com/dispensaries/; likewise is_delivery with
    com/deliveries/. *)
Theorem tag_dispensary_or_delivery_correct (files : list DataFrame) (i : nat)
    (file : DataFrame) :
  Forall (λ f, has_column "url" f = true ∧
               Forall (λ c, is_str c = true) (column_of f "url")) files →
  files !! i = Some file →
  ∃ fs is_dispensary is_delivery,
    tag_dispensary_or_delivery files = Returns fs ∧
    column_at fs i "is_dispensary" = Some is_dispensary ∧
    column_at fs i "is_delivery" = Some is_delivery ∧
    ∀ j x, column_of file "url" !! j = Some (Str x) →
      ∃ a b, is_dispensary !! j = Some (Int a) ∧ is_delivery !! j = Some (Int b) ∧
        (a = 0 ∨ a = 1)%Z ∧ (b = 0 ∨ b = 1)%Z ∧
        (a = 1%Z ↔ ∃ c, c ≠ "010"%char ∧
                        contains ("weedmaps" +:+ String c "com/dispensaries/") x = true) ∧
        (b = 1%Z ↔ ∃ c, c ≠ "010"%char ∧
                        contains ("weedmaps" +:+ String c "com/deliveries/") x = true) ∧
        (contains "weedmaps.com/dispensaries/" x = true → a = 1%Z) ∧
        (contains "weedmaps.com/deliveries/" x = true → b = 1%Z).
Proof.
  intros Hurl Hfile.
  set (tags := λ pat (f : DataFrame),
         (λ c, match c with Str x => int_of_bool (wild_search pat x) | _ => NaN end)
           <$> column_of f "url").
  set (G := λ (i : nat) (f : DataFrame),
         setitem (setitem f "is_dispensary" (tags "weedmaps.com/dispensaries/" f))
                 "is_delivery" (tags "weedmaps.com/deliveries/" f)).
  destruct (wave_map_loop_outcome G
    (λ i files0,
       run file <- of_result (item files0 i);
       run url <- of_result (getitem file "url");
       run is_dispensary <- contains_int "weedmaps.com/dispensaries/" url;
       run files1 <- of_result (set_file_column files0 i "is_dispensary" is_dispensary);
       run file <- of_result (item files1 i);
       run url <- of_result (getitem file "url");
       run is_delivery <- contains_int "weedmaps.com/deliveries/" url;
       of_result (set_file_column files1 i "is_delivery" is_delivery))
    files) as (fs & Hrun & Hlen & Hfs).
  { intros k fs f Hf Hfsk Hlen.
    destruct (Forall_lookup_1 _ _ _ _ Hurl Hf) as [Hhas Hstr].
    assert (k < length fs) as Hk by (by eapply lookup_lt_Some).
    rewrite (item_lookup _ _ _ Hfsk). cbn [of_result outcome_bind].
    rewrite (getitem_column_of _ _ Hhas). cbn [of_result outcome_bind].
    rewrite (contains_int_Returns _ _ Hstr). cbn [outcome_bind].
    unfold set_file_column at 1. rewrite (item_lookup _ _ _ Hfsk). cbn [bind of_result outcome_bind].
    rewrite (item_lookup _ k (setitem f "is_dispensary" (tags "weedmaps.com/dispensaries/" f)))
      by by apply list_lookup_insert_eq.
    cbn [of_result outcome_bind].
    assert (getitem (setitem f "is_dispensary" (tags "weedmaps.com/dispensaries/" f)) "url" =
            Ok (column_of f "url")) as ->.
    { apply getitem_Ok. rewrite lookup_col_setitem_ne by done.
      by apply getitem_Ok, getitem_column_of. }
    cbn [of_result outcome_bind]. rewrite (contains_int_Returns _ _ Hstr). cbn [outcome_bind].
    unfold set_file_column.
    rewrite (item_lookup _ k (setitem f "is_dispensary" (tags "weedmaps.com/dispensaries/" f)))
      by by apply list_lookup_insert_eq.
    cbn [bind of_result]. by rewrite list_insert_insert_eq. }
  exists fs, (tags "weedmaps.com/dispensaries/" file), (tags "weedmaps.com/deliveries/" file).
  split; [done|]. unfold column_at. rewrite (Hfs i file Hfile). cbn [mbind option_bind].
  split; [unfold G; rewrite lookup_col_setitem_ne by done; apply lookup_col_setitem_eq|].
  split; [apply lookup_col_setitem_eq|].
  intros j x Hj. unfold tags. rewrite !list_lookup_fmap, Hj. cbn [fmap option_fmap option_map].
  assert (literal "weedmaps") as La by (cbn; repeat split; discriminate).
  assert (literal "com/dispensaries/") as Lb by (cbn; repeat split; discriminate).
  assert (literal "com/deliveries/") as Lc by (cbn; repeat split; discriminate).
  assert (wild_search "weedmaps.com/dispensaries/" x = true ↔
          ∃ c, c ≠ "010"%char ∧
               contains ("weedmaps" +:+ String c "com/dispensaries/") x = true) as Hdisp
    by exact (wild_search_dot "weedmaps" "com/dispensaries/" x La Lb).
  assert (wild_search "weedmaps.com/deliveries/" x = true ↔
          ∃ c, c ≠ "010"%char ∧
               contains ("weedmaps" +:+ String c "com/deliveries/") x = true) as Hdeli
    by exact (wild_search_dot "weedmaps" "com/deliveries/" x La Lc).
  set (a := wild_search "weedmaps.com/dispensaries/" x) in *.
  set (b := wild_search "weedmaps.com/deliveries/" x) in *.
  exists (if a then 1 else 0)%Z, (if b then 1 else 0)%Z.
  split; [done|]. split; [done|].
  split; [destruct a; auto|]. split; [destruct b; auto|].
  split; [etrans; [|exact Hdisp]; by destruct a|].
  split; [etrans; [|exact Hdeli]; by destruct b|].
  split.
  - intros Hc. assert (a = true) as ->; [|done]. apply Hdisp. exists "."%char. by split.
  - intros Hc. assert (b = true) as ->; [|done]. apply Hdeli. exists "."%char. by split.
Qed.

Lemma tag_dispensary_or_delivery_correct_witness :
  ∃ fs is_dispensary is_delivery,
    tag_dispensary_or_delivery url_waves = Returns fs ∧
    column_at fs 1 "is_dispensary" = Some is_dispensary ∧
    column_at fs 1 "is_delivery" = Some is_delivery.
Proof.
  destruct (tag_dispensary_or_delivery_correct url_waves 1
              (mkDF 2 [("slug", [Str "green-door"; Str "fast-leaf"]);
                       ("url", [Str "https://weedmaps.com/dispensaries/green-door";
                                Str "https://weedmaps.com/deliveries/fast-leaf"])]))
    as (fs & a & b & ? & ? & ? & _).
  - repeat constructor.
  - reflexivity.
  - by exists fs, a, b.
Defined.

(** ** Changes on reappearance *)

Lemma get_last_congr slug max_wave field slugs_at_i files fs :
  length fs = length files →
  (∀ k f0, files !! k = Some f0 →
     ∃ f, fs !! k = Some f ∧
          lookup_col "slug" (cols f) = lookup_col "slug" (cols f0) ∧
          lookup_col field (cols f) = lookup_col field (cols f0)) →
  get_last_appearance_field_value slug max_wave field slugs_at_i fs =
  get_last_appearance_field_value slug max_wave field slugs_at_i files.
Proof.
  intros Hlen Hsame. unfold get_last_appearance_field_value.
  destruct (if (max_wave <? 0)%Z then _ else _) as [i|e]; [|done]. cbn [bind].
  unfold item. destruct (files !! i) as [f0|] eqn:Hf0.
  - destruct (Hsame i f0 Hf0) as (f & -> & Hs & Hf). cbn [bind].
    unfold getitem. rewrite Hs. destruct (lookup_col "slug" (cols f0)) as [slugs|]; [|done].
    cbn [bind]. by rewrite !lookup_col_filter_rows, Hf.
  - rewrite lookup_ge_None_2; [done|]. rewrite Hlen. by apply lookup_ge_None_1.
Qed.

Lemma first_index (l : list cell) c :
  c ∈ l → ∃ j, l !! j = Some c ∧ ∀ j', j' < j → l !! j' ≠ Some c.
Proof.
  induction l as [|x l IH]; [by intros ?%elem_of_nil|].
  intros Hin. destruct (decide (x = c)) as [->|Hne].
  - exists 0. split; [done|]. intros j' Hj'. lia.
  - apply elem_of_cons in Hin as [->|Hin]; [done|].
    destruct (IH Hin) as (j & Hj & Hfirst). exists (S j). split; [done|].
    intros [|j'] Hj'; simpl; [congruence|]. apply Hfirst. lia.
Qed.

Lemma get_last_found slug (max_wave : nat) field slugs_at_i files k file j v :
  (∀ k', k' ≤ max_wave → slugs_at_i !! k' = Some (slugs_at files k')) →
  k ≤ max_wave → (∀ k', k < k' ≤ max_wave → slug ∉ slugs_at files k') →
  files !! k = Some file →
  column_of file "slug" !! j = Some slug → is_null slug = false →
  (∀ j', j' < j → column_of file "slug" !! j' ≠ Some slug) →
  column_of file field !! j = Some v →
  get_last_appearance_field_value slug (Z.of_nat max_wave) field slugs_at_i files = Ok v.
Proof.
  intros Hat Hk Hlast Hfile Hj Hnan Hfirst Hv. unfold get_last_appearance_field_value.
  rewrite (proj2 (Z.ltb_ge _ _)) by lia. rewrite Nat2Z.id.
  assert (has_column "slug" file = true) as Hs.
  { apply has_column_lookup. unfold column_of in Hj.
    destruct (lookup_col "slug" (cols file)); [eauto | done]. }
  assert (has_column field file = true) as Hf.
  { apply has_column_lookup. unfold column_of in Hv.
    destruct (lookup_col field (cols file)); [eauto | done]. }
  rewrite (last_appearance_wave_found slug slugs_at_i (slugs_at files) _ k);
    [|done|done| |done].
  2:{ rewrite (slugs_at_eq files k file Hfile). unfold to_set.
      apply elem_of_list_to_set. by eapply list_elem_of_lookup_2. }
  cbn [bind]. rewrite (item_lookup _ _ _ Hfile). cbn [bind].
  rewrite (getitem_column_of _ _ Hs). cbn [bind].
  assert (getitem (filter_rows file (series_eq (column_of file "slug") slug))
            field =
          Ok (select_mask (column_of file field)
                (series_eq (column_of file "slug") slug))) as ->.
  { apply getitem_Ok. rewrite lookup_col_filter_rows.
    apply getitem_column_of, getitem_Ok in Hf. by rewrite Hf. }
  cbn [bind]. apply item_lookup. apply (select_mask_first _ _ j); [done| |].
  - rewrite (series_eq_lookup _ _ _ _ Hj). f_equal. by apply series_eq_true.
  - intros j' Hj'. unfold series_eq. rewrite list_lookup_fmap.
    destruct (column_of file "slug" !! j') as [c|] eqn:Hc; [|done]. simpl.
    intros [= Heq]. apply series_eq_true in Heq as [-> _].
    by apply (Hfirst j').
Qed.

Lemma get_last_exists slug (max_wave : nat) field slugs_at_i files :
  is_null slug = false →
  (∃ k, k ≤ max_wave ∧ slug ∈ slugs_at files k) →
  (∀ k', k' ≤ max_wave → slugs_at_i !! k' = Some (slugs_at files k')) →
  (∀ k f, k ≤ max_wave → files !! k = Some f →
          well_formed f ∧ has_column "slug" f = true ∧ has_column field f = true) →
  ∃ k file j prev,
    k ≤ max_wave ∧ files !! k = Some file ∧
    (∀ k', k < k' ≤ max_wave → slug ∉ slugs_at files k') ∧
    column_of file "slug" !! j = Some slug ∧
    (∀ j', j' < j → column_of file "slug" !! j' ≠ Some slug) ∧
    column_of file field !! j = Some prev ∧
    get_last_appearance_field_value slug (Z.of_nat max_wave) field slugs_at_i files = Ok prev.
Proof.
  intros Hnan Hseen Hat Hwaves.
  destruct (latest_wave (λ k, slug ∈ slugs_at files k) max_wave) as (k & Hk & Hin & Hlast);
    [intros k; apply _ | done |].
  destruct (files !! k) as [file|] eqn:Hfile.
  2:{ unfold slugs_at in Hin. rewrite Hfile in Hin. set_solver. }
  destruct (Hwaves k file Hk Hfile) as (Hwf & Hs & Hf).
  rewrite (slugs_at_eq files k file Hfile) in Hin. unfold to_set in Hin.
  apply elem_of_list_to_set in Hin. destruct (first_index _ _ Hin) as (j & Hj & Hfirst).
  destruct (lookup_lt_is_Some_2 (column_of file field) j) as [prev Hprev].
  { rewrite (column_of_length _ _ Hwf Hf), <- (column_of_length _ "slug" Hwf Hs).
    by eapply lookup_lt_Some. }
  exists k, file, j, prev. repeat (split; [done|]).
  by eapply get_last_found.
Qed.

Lemma reappear_changed_values_length last reappeared slugs vals old n :
  length reappeared = n → length slugs = n → length vals = n → length old = n →
  length (reappear_changed_values last reappeared slugs vals old) = n.
Proof.
  intros. unfold reappear_changed_values. rewrite length_zip_with, !length_zip. lia.
Qed.

Lemma reappear_changed_values_lookup last reappeared slugs vals old j r s v o :
  reappeared !! j = Some r → slugs !! j = Some s → vals !! j = Some v → old !! j = Some o →
  reappear_changed_values last reappeared slugs vals old !! j =
    Some (reappear_changed_row last r s v o).
Proof.
  intros Hr Hs Hv Ho. unfold reappear_changed_values.
  rewrite !lookup_zip_with, Hr. simpl. rewrite Hs. simpl. rewrite Hv. simpl. by rewrite Ho.
Qed.

Lemma reappear_changed_field_spec i field slugs_at_i fs curr last reappeared vals slugs old :
  length reappeared = nrows curr → length vals = nrows curr →
  length slugs = nrows curr → length old = nrows curr →
  (∀ slug, get_last_appearance_field_value slug (Z.of_nat i - 2) field slugs_at_i fs =
           last slug) →
  (∀ j slug, reappeared !! j = Some (Int 1%Z) → slugs !! j = Some slug →
             ∃ prev, last slug = Ok prev) →
  reappear_changed_field i field slugs_at_i fs curr reappeared vals slugs old =
    Ok (reappear_changed_values last reappeared slugs vals old).
Proof.
  intros Hr Hv Hs Ho Hlast Hrows. unfold reappear_changed_field, range. rewrite Nat.sub_0_r.
  destruct (for_each_seq_inv
    (λ j (acc : list cell),
       acc = take j (reappear_changed_values last reappeared slugs vals old))
    (λ j changed_field,
       do r <- item reappeared j;
       if bool_decide (r = Int 1%Z) then
         do slug <- item slugs j;
         do prev_field_value <-
           get_last_appearance_field_value slug (Z.of_nat i - 2) field slugs_at_i fs;
         do curr_field_value <- item vals j;
         Ok (append_tag_conditional changed_field (cell_ne prev_field_value curr_field_value))
       else
         do old <- item old j;
         Ok (changed_field ++ [old]))
    (nrows curr) 0 []) as (acc & Hrun & Hacc).
  - done.
  - intros j acc Hj ->.
    destruct (lookup_lt_is_Some_2 reappeared j) as [r Hrj]; [lia|].
    destruct (lookup_lt_is_Some_2 slugs j) as [s Hsj]; [lia|].
    destruct (lookup_lt_is_Some_2 vals j) as [v Hvj]; [lia|].
    destruct (lookup_lt_is_Some_2 old j) as [o Hoj]; [lia|].
    rewrite (item_lookup _ _ _ Hrj). cbn [bind].
    rewrite (take_S_r _ _ _
               (reappear_changed_values_lookup last _ _ _ _ _ _ _ _ _ Hrj Hsj Hvj Hoj)).
    unfold reappear_changed_row. case_bool_decide as Hone.
    + subst r. destruct (Hrows j s Hrj Hsj) as [prev Hprev].
      rewrite (item_lookup _ _ _ Hsj). cbn [bind]. rewrite Hlast, Hprev. cbn [bind].
      rewrite (item_lookup _ _ _ Hvj). cbn [bind]. eexists. split; [done|].
      unfold append_tag_conditional, int_of_bool. by destruct (cell_ne prev v).
    + rewrite (item_lookup _ _ _ Hoj). cbn [bind]. by eexists.
  - etrans; [exact Hrun|]. f_equal. rewrite Hacc. simpl. rewrite take_ge; [done|].
    rewrite (reappear_changed_values_length _ _ _ _ _ (nrows curr)); done || lia.
Qed.

Lemma not_changed_name name h :
  name ∈ "slug" :: "reappeared" :: TAG_CHANGE_FIELDS → name ≠ "changed_" +:+ h.
Proof.
  unfold TAG_CHANGE_FIELDS. rewrite !elem_of_cons, elem_of_nil.
  intros H Heq. subst name. cbn in H.
  destruct H as [H|[H|[H|[H|[H|[]]]]]]; discriminate H.
Qed.

Lemma agree_except_refl done f : agree_except done f f.
Proof. by split. Qed.

Lemma agree_except_mono done done' f0 f :
  (∀ g, g ∈ done → g ∈ done') → agree_except done f0 f → agree_except done' f0 f.
Proof. intros Hsub [Hn Hsame]. split; [done|]. intros name Hname. apply Hsame. auto. Qed.

Lemma agree_except_setitem done f0 f g v :
  agree_except done f0 f → agree_except (g :: done) f0 (setitem f ("changed_" +:+ g) v).
Proof.
  intros [Hn Hsame]. split; [done|]. intros name Hname.
  rewrite lookup_col_setitem_ne by (intros Heq; by apply (Hname g); [left|]).
  apply Hsame. intros h Hh. apply Hname. by right.
Qed.

Lemma agree_except_read done f0 f name :
  agree_except done f0 f → name ∈ "slug" :: "reappeared" :: TAG_CHANGE_FIELDS →
  lookup_col name (cols f) = lookup_col name (cols f0).
Proof. intros [_ Hsame] Hname. apply Hsame. intros g _. by apply not_changed_name. Qed.

Lemma agree_except_has_column done f0 f name :
  agree_except done f0 f → name ∈ "slug" :: "reappeared" :: TAG_CHANGE_FIELDS →
  has_column name f = has_column name f0.
Proof.
  intros Hagree Hname. pose proof (agree_except_read _ _ _ _ Hagree Hname) as Heq.
  destruct (has_column name f0) eqn:H0.
  - apply has_column_lookup. rewrite Heq. by apply has_column_lookup.
  - apply has_column_false. rewrite Heq. by apply has_column_false.
Qed.

Lemma forallb_lookup {A} (P : A → bool) (l : list A) :
  forallb P l = true ↔ ∀ k x, l !! k = Some x → P x = true.
Proof.
  rewrite forallb_forall. split.
  - intros H k x Hk. apply H. apply list_elem_of_In. by eapply list_elem_of_lookup_2.
  - intros H x Hx. apply list_elem_of_In, list_elem_of_lookup in Hx as [k Hk]. by eapply H.
Qed.

Lemma in_all_waves_agree files0 fs i field :
  length fs = length files0 →
  (∀ k f0, files0 !! k = Some f0 →
     ∃ f, fs !! k = Some f ∧ agree_except TAG_CHANGE_FIELDS f0 f) →
  field ∈ TAG_CHANGE_FIELDS →
  forallb (has_column field) (take (i + 1) fs) = in_all_waves files0 i field.
Proof.
  intros Hlen Hrel Hfield. unfold in_all_waves.
  assert (field ∈ "slug" :: "reappeared" :: TAG_CHANGE_FIELDS) as Hread by by do 2 right.
  apply Bool.eq_iff_eq_true. rewrite !forallb_lookup. split.
  - intros H k f0 Hk. apply lookup_take_Some in Hk as [Hk Hlt].
    destruct (Hrel k f0 Hk) as (f & Hf & Hagree).
    rewrite <- (agree_except_has_column _ _ _ _ Hagree Hread).
    apply (H k). by rewrite lookup_take_lt.
  - intros H k f Hk. apply lookup_take_Some in Hk as [Hk Hlt].
    destruct (lookup_lt_is_Some_2 files0 k) as [f0 Hf0];
      [rewrite <- Hlen; by eapply lookup_lt_Some|].
    destruct (Hrel k f0 Hf0) as (f' & Hf' & Hagree).
    assert (f' = f) as -> by congruence.
    rewrite (agree_except_has_column _ _ _ _ Hagree Hread).
    apply (H k). by rewrite lookup_take_lt.
Qed.

Lemma in_all_waves_lookup files i field k f :
  in_all_waves files i field = true → k ≤ i → files !! k = Some f →
  has_column field f = true.
Proof.
  unfold in_all_waves. rewrite forallb_lookup. intros H Hk Hf. apply (H k).
  rewrite lookup_take_lt by lia. done.
Qed.

Lemma getitem_agree done f0 f name :
  agree_except done f0 f → (∀ g, g ∈ done → name ≠ "changed_" +:+ g) →
  has_column name f0 = true → getitem f name = Ok (column_of f0 name).
Proof.
  intros [_ Hsame] Hname Hhas. rewrite <- (getitem_column_of _ _ Hhas).
  unfold getitem. by rewrite Hsame.
Qed.

Lemma tag_reappear_fields_spec slugs_at_i files0 i curr0 :
  files0 !! i = Some curr0 → well_formed curr0 →
  has_column "slug" curr0 = true → has_column "reappeared" curr0 = true →
  ∀ fields done fs curr,
    NoDup fields → (∀ g, g ∈ fields → g ∈ TAG_CHANGE_FIELDS) →
    (∀ g, g ∈ fields → g ∉ done) → (∀ g, g ∈ done → g ∈ TAG_CHANGE_FIELDS) →
    length fs = length files0 →
    (∀ k f0, files0 !! k = Some f0 →
       ∃ f, fs !! k = Some f ∧ agree_except TAG_CHANGE_FIELDS f0 f) →
    fs !! i = Some curr → agree_except done curr0 curr →
    (∀ n g, fields !! n = Some g →
       (∀ m h, m ≤ n → fields !! m = Some h → in_all_waves files0 i h = true) →
       has_column ("changed_" +:+ g) curr0 = true ∧
       ∀ j slug, column_of curr0 "reappeared" !! j = Some (Int 1%Z) →
                 column_of curr0 "slug" !! j = Some slug →
         ∃ prev, get_last_appearance_field_value slug (Z.of_nat i - 2) g slugs_at_i files0 =
                 Ok prev) →
    ∃ curr', tag_reappear_fields fields i slugs_at_i fs = Ok (<[i := curr']> fs) ∧
      agree_except (fields ++ done) curr0 curr' ∧
      (∀ name, (∀ g, g ∈ fields → name ≠ "changed_" +:+ g) →
               lookup_col name (cols curr') = lookup_col name (cols curr)) ∧
      (∀ n g, fields !! n = Some g →
         (∀ m h, m ≤ n → fields !! m = Some h → in_all_waves files0 i h = true) →
         lookup_col ("changed_" +:+ g) (cols curr') =
           Some (reappear_changed_column slugs_at_i files0 i curr0 g)) ∧
      (∀ n g, fields !! n = Some g →
         (∃ m h, m ≤ n ∧ fields !! m = Some h ∧ in_all_waves files0 i h = false) →
         lookup_col ("changed_" +:+ g) (cols curr') =
           lookup_col ("changed_" +:+ g) (cols curr)).
Proof.
  intros Hcurr0 Hwf Hslug Hre.
  assert (∀ (fs : list DataFrame) curr, fs !! i = Some curr → <[i := curr]> fs = fs) as Hid
    by (intros fs curr Hfs; by apply list_insert_id).
  induction fields as [|field rest IH];
    intros done fs curr Hnd Hsub Hfresh Hdone Hlen Hrel Hfs Hagree Hpre.
  - exists curr. cbn [tag_reappear_fields]. rewrite (Hid fs curr Hfs).
    split; [done|]. split; [done|]. split; [done|]. split; intros n g Hn; done.
  - apply NoDup_cons in Hnd as [Hnew Hnd].
    assert (field ∈ TAG_CHANGE_FIELDS) as Hfield by (apply Hsub; by left).
    cbn [tag_reappear_fields].
    rewrite (in_all_waves_agree files0 fs i field Hlen Hrel Hfield).
    destruct (in_all_waves files0 i field) eqn:Hall; cbn [negb].
    2:{ exists curr. rewrite (Hid fs curr Hfs). split; [done|].
        split; [eapply agree_except_mono; [|exact Hagree]; intros g Hg;
                apply elem_of_app; by right|].
        split; [done|]. split.
        - intros n g Hn Hin. rewrite (Hin 0 field) in Hall; [done | lia | done].
        - done. }
    destruct (Hpre 0 field eq_refl) as [Hold Hrows].
    { intros m h Hm Hh. assert (m = 0) as -> by lia. simpl in Hh. by injection Hh as <-. }
    assert (has_column field curr0 = true) as Hf
      by (by apply (in_all_waves_lookup files0 i field i)).
    assert (∀ g, g ∈ done → "changed_" +:+ field ≠ "changed_" +:+ g) as Hne_done.
    { intros g Hg Heq%changed_name_inj. subst g. by apply (Hfresh field); [left|]. }
    rewrite (item_lookup _ _ _ Hfs). cbn [bind].
    rewrite (getitem_agree done curr0 curr "reappeared") by
      (done || (intros g _; apply not_changed_name; right; by left)).
    cbn [bind].
    rewrite (getitem_agree done curr0 curr field) by
      (done || (intros g _; apply not_changed_name; by do 2 right)).
    cbn [bind].
    rewrite (getitem_agree done curr0 curr "slug") by
      (done || (intros g _; apply not_changed_name; by left)).
    cbn [bind].
    rewrite (getitem_agree done curr0 curr ("changed_" +:+ field)) by done.
    cbn [bind].
    destruct Hagree as [Hn Hsame].
    rewrite (reappear_changed_field_spec i field slugs_at_i fs curr
               (λ slug, get_last_appearance_field_value slug (Z.of_nat i - 2) field
                          slugs_at_i files0)).
    2-5: rewrite Hn; by apply column_of_length.
    2:{ intros slug. apply get_last_congr; [done|]. intros k f0 Hf0.
        destruct (Hrel k f0 Hf0) as (f & Hfk & Hag). exists f. split; [done|].
        split; apply (agree_except_read _ _ _ _ Hag); [by left | by do 2 right]. }
    2:{ exact Hrows. }
    cbn [bind]. fold (reappear_changed_column slugs_at_i files0 i curr0 field).
    unfold set_file_column. rewrite (item_lookup _ _ _ Hfs). cbn [bind].
    set (curr2 := setitem curr ("changed_" +:+ field)
                    (reappear_changed_column slugs_at_i files0 i curr0 field)).
    assert (i < length fs) as Hi by (by eapply lookup_lt_Some).
    destruct (IH (field :: done) (<[i := curr2]> fs) curr2)
      as (curr' & Hrun & Hagree' & Hframe & Hwritten & Hskipped).
    { done. }
    { intros g Hg. apply Hsub. by right. }
    { intros g Hg [->|Hin]%elem_of_cons; [done|]. by apply (Hfresh g); [right|]. }
    { intros g [->|Hg]%elem_of_cons; auto. }
    { by rewrite length_insert. }
    { intros k f0 Hf0. destruct (decide (k = i)) as [->|Hki].
      - exists curr2. split; [by apply list_lookup_insert_eq|].
        assert (f0 = curr0) as -> by congruence.
        apply (agree_except_mono (field :: done)).
        + intros g [->|Hg]%elem_of_cons; auto.
        + by apply agree_except_setitem.
      - rewrite list_lookup_insert_ne by done. by apply Hrel. }
    { by apply list_lookup_insert_eq. }
    { by apply agree_except_setitem. }
    { intros n g Hg Hin. apply (Hpre (S n) g Hg). intros [|m] h Hm Hh; simpl in Hh.
      - by injection Hh as <-.
      - apply (Hin m h); [lia | done]. }
    exists curr'. rewrite list_insert_insert_eq in Hrun. split; [done|].
    assert (∀ g, g ∈ rest → "changed_" +:+ field ≠ "changed_" +:+ g) as Hne_rest.
    { intros g Hg Heq%changed_name_inj. by subst. }
    split; [|split; [|split]].
    + eapply agree_except_mono; [|exact Hagree']. intros g.
      cbn [app]. rewrite elem_of_cons, !elem_of_app, elem_of_cons. tauto.
    + intros name Hname. rewrite Hframe by (intros g Hg; apply Hname; by right).
      apply lookup_col_setitem_ne. intros Heq. by apply (Hname field); [left|].
    + intros [|n] g Hg Hin; simpl in Hg.
      * injection Hg as <-. rewrite Hframe by done. apply lookup_col_setitem_eq.
      * apply (Hwritten n g Hg). intros m h Hm Hh. apply (Hin (S m) h); [lia | done].
    + intros [|n] g Hg (m & h & Hm & Hh & Hmiss); simpl in Hg.
      * assert (m = 0) as -> by lia. simpl in Hh. injection Hh as <-. congruence.
      * destruct m as [|m]; simpl in Hh; [injection Hh as <-; congruence|].
        rewrite (Hskipped n g Hg) by (exists m, h; split; [lia | done]).
        apply lookup_col_setitem_ne. apply Hne_rest. by eapply list_elem_of_lookup_2.
Qed.

Lemma prefix_all_or_fails (l : list string) (P : string → bool) n :
  (∀ m h, m ≤ n → l !! m = Some h → P h = true) ∨
  (∃ m h, m ≤ n ∧ l !! m = Some h ∧ P h = false).
Proof.
  induction n as [|n IH].
  - destruct (l !! 0) as [h|] eqn:Hh.
    + destruct (P h) eqn:HP.
      * left. intros m h' Hm Hh'. assert (m = 0) as -> by lia. congruence.
      * right. exists 0, h. done.
    + left. intros m h' Hm Hh'. assert (m = 0) as -> by lia. congruence.
  - destruct IH as [IH|(m & h & Hm & Hh & HP)]; [|right; exists m, h; split; [lia | done]].
    destruct (l !! S n) as [h|] eqn:Hh.
    + destruct (P h) eqn:HP.
      * left. intros m h' Hm Hh'. destruct (decide (m = S n)) as [->|]; [congruence|].
        apply (IH m); [lia | done].
      * right. exists (S n), h. done.
    + left. intros m h' Hm Hh'. destruct (decide (m = S n)) as [->|]; [congruence|].
      apply (IH m); [lia | done].
Qed.

Lemma tag_reappear_field_changes_spec slugs_at_i files0 :
  Forall well_formed files0 →
  Forall (λ f, has_column "slug" f = true) files0 →
  (∀ i curr0, 2 ≤ i → files0 !! i = Some curr0 → has_column "reappeared" curr0 = true) →
  (∀ i curr0 g, 2 ≤ i → files0 !! i = Some curr0 → reappear_taken files0 i g →
     has_column ("changed_" +:+ g) curr0 = true ∧
     ∀ j slug, column_of curr0 "reappeared" !! j = Some (Int 1%Z) →
               column_of curr0 "slug" !! j = Some slug →
       ∃ prev, get_last_appearance_field_value slug (Z.of_nat i - 2) g slugs_at_i files0 =
               Ok prev) →
  ∃ fs, tag_reappear_field_changes slugs_at_i files0 = Ok fs ∧ length fs = length files0 ∧
    (∀ k, k < 2 → fs !! k = files0 !! k) ∧
    ∀ i curr0, 2 ≤ i → files0 !! i = Some curr0 →
      ∃ curr', fs !! i = Some curr' ∧
        agree_except TAG_CHANGE_FIELDS curr0 curr' ∧
        (∀ g, reappear_taken files0 i g →
           lookup_col ("changed_" +:+ g) (cols curr') =
             Some (reappear_changed_column slugs_at_i files0 i curr0 g)) ∧
        (∀ g, g ∈ TAG_CHANGE_FIELDS → ¬ reappear_taken files0 i g →
           lookup_col ("changed_" +:+ g) (cols curr') =
             lookup_col ("changed_" +:+ g) (cols curr0)).
Proof.
  intros Hwf Hslug Hre Hpre. unfold tag_reappear_field_changes, range.
  destruct (for_each_seq_inv
    (λ i fs, length fs = length files0 ∧
             (∀ k, k < 2 ∨ i ≤ k → fs !! k = files0 !! k) ∧
             (∀ k curr0, 2 ≤ k < i → files0 !! k = Some curr0 →
                ∃ curr', fs !! k = Some curr' ∧
                  agree_except TAG_CHANGE_FIELDS curr0 curr' ∧
                  (∀ g, reappear_taken files0 k g →
                     lookup_col ("changed_" +:+ g) (cols curr') =
                       Some (reappear_changed_column slugs_at_i files0 k curr0 g)) ∧
                  (∀ g, g ∈ TAG_CHANGE_FIELDS → ¬ reappear_taken files0 k g →
                     lookup_col ("changed_" +:+ g) (cols curr') =
                       lookup_col ("changed_" +:+ g) (cols curr0))))
    (λ i files,
       do curr_file <- item files i;
       tag_reappear_fields TAG_CHANGE_FIELDS i slugs_at_i files)
    (length files0 - 2) 2 files0) as (fs & Hrun & Hlen & Hout & Hin).
  - split; [done|]. split; [done|]. intros k ? ?. lia.
  - intros i fs Hi (Hlen & Hout & Hin).
    destruct (lookup_lt_is_Some_2 files0 i) as [curr0 Hcurr0]; [lia|].
    assert (fs !! i = Some curr0) as Hfs by (rewrite Hout by auto; done).
    rewrite (item_lookup _ _ _ Hfs). cbn [bind].
    destruct (tag_reappear_fields_spec slugs_at_i files0 i curr0 Hcurr0)
      with (fields := TAG_CHANGE_FIELDS) (done := @nil string) (fs := fs) (curr := curr0)
      as (curr' & -> & Hagree & _ & Hwritten & Hskipped).
    { by eapply (Forall_lookup_1 _ _ _ _ Hwf). }
    { by eapply (Forall_lookup_1 _ _ _ _ Hslug). }
    { apply (Hre i); [lia | done]. }
    { apply TAG_CHANGE_FIELDS_NoDup. }
    { done. }
    { intros g _ ?%elem_of_nil. done. }
    { intros g ?%elem_of_nil. done. }
    { done. }
    { intros k f0 Hf0. destruct (decide (2 ≤ k < i)) as [Hk|Hk].
      - destruct (Hin k f0 Hk Hf0) as (f & Hf & Hag & _). by exists f.
      - exists f0. split; [|apply agree_except_refl]. rewrite Hout by lia. done. }
    { done. }
    { apply agree_except_refl. }
    { intros n g Hg Hall. apply (Hpre i curr0 g); [lia | done |]. by exists n. }
    rewrite app_nil_r in Hagree.
    eexists. split; [done|]. split; [by rewrite length_insert|]. split.
    + intros k Hk. rewrite list_lookup_insert_ne by lia. apply Hout. lia.
    + intros k c0 Hk Hc0. destruct (decide (k = i)) as [->|Hki].
      * rewrite list_lookup_insert_eq by lia. exists curr'. split; [done|].
        assert (c0 = curr0) as -> by congruence. split; [done|]. split.
        -- intros g (n & Hg & Hall). by apply (Hwritten n g Hg).
        -- intros g Hg Hnot. apply list_elem_of_lookup in Hg as [n Hg].
           destruct (prefix_all_or_fails TAG_CHANGE_FIELDS (in_all_waves files0 i) n)
             as [Hall|Hfail].
           ++ destruct Hnot. by exists n.
           ++ by apply (Hskipped n g Hg).
      * rewrite list_lookup_insert_ne by done. apply Hin; [lia | done].
  - exists fs. split; [done|]. split; [done|]. split; [intros k Hk; apply Hout; auto|].
    intros i curr0 Hi Hcurr0. apply Hin; [|done]. apply lookup_lt_Some in Hcurr0. lia.
Qed.

(** X19: on well-formed waves in which every wave from the third on
    carries the reappeared tag -- set only on slugs that are not missing
    and were seen up to two waves before -- and the changed tag of every
    field the step takes, [tag_reappear_field_changes] returns. It leaves
    the first two waves and every column but the changed tags as they are.
    On a later wave it takes the fields of TAG_CHANGE_FIELDS in order, up
    to the first one some wave so far lacks; for a field it takes, a
    record with reappeared = 1 gets a changed tag of 0 or 1, which is 1
    exactly when its value and the value in the first row of its slug in
    the last wave, two or more waves back, that held the slug are two
    different values or are both the float NaN ([None] in both gives 0);
    every other record keeps the tag it had; the tags of the fields it
    does not take stay as they were. *)
Theorem tag_reappear_field_changes_correct (slugs_at_i : list (gset cell))
    (files : list DataFrame) :
  Forall well_formed files →
  Forall (λ f, has_column "slug" f = true) files →
  (∀ k, k < length files → slugs_at_i !! k = Some (slugs_at files k)) →
  (∀ i f, 2 ≤ i → files !! i = Some f →
     has_column "reappeared" f = true ∧
     ∀ j slug, column_of f "reappeared" !! j = Some (Int 1%Z) →
               column_of f "slug" !! j = Some slug →
       is_null slug = false ∧ ∃ k, k + 2 ≤ i ∧ slug ∈ slugs_at files k) →
  (∀ i f g, 2 ≤ i → files !! i = Some f → reappear_taken files i g →
     has_column ("changed_" +:+ g) f = true) →
  ∃ fs,
    tag_reappear_field_changes slugs_at_i files = Ok fs ∧ length fs = length files ∧
    fs !! 0 = files !! 0 ∧ fs !! 1 = files !! 1 ∧
    ∀ i file, 2 ≤ i → files !! i = Some file →
      ∃ file', fs !! i = Some file' ∧ nrows file' = nrows file ∧
        (∀ name, (∀ g, g ∈ TAG_CHANGE_FIELDS → name ≠ "changed_" +:+ g) →
                 lookup_col name (cols file') = lookup_col name (cols file)) ∧
        (∀ g, g ∈ TAG_CHANGE_FIELDS → ¬ reappear_taken files i g →
              lookup_col ("changed_" +:+ g) (cols file') =
              lookup_col ("changed_" +:+ g) (cols file)) ∧
        (∀ g, reappear_taken files i g →
           ∃ changed,
             lookup_col ("changed_" +:+ g) (cols file') = Some changed ∧
             length changed = nrows file ∧
             ∀ j slug r curr old,
               column_of file "slug" !! j = Some slug →
               column_of file "reappeared" !! j = Some r →
               column_of file g !! j = Some curr →
               column_of file ("changed_" +:+ g) !! j = Some old →
               (r ≠ Int 1%Z → changed !! j = Some old) ∧
               (r = Int 1%Z →
                ∃ k file_k j' prev,
                  k + 2 ≤ i ∧ files !! k = Some file_k ∧
                  (∀ k', k < k' ≤ i - 2 → slug ∉ slugs_at files k') ∧
                  column_of file_k "slug" !! j' = Some slug ∧
                  (∀ j'', j'' < j' → column_of file_k "slug" !! j'' ≠ Some slug) ∧
                  column_of file_k g !! j' = Some prev ∧
                  ∃ tag, changed !! j = Some (Int tag) ∧ (tag = 0 ∨ tag = 1)%Z ∧
                         (tag = 1%Z ↔ prev ≠ curr ∨ (prev = NaN ∧ curr = NaN)))).
Proof.
  intros Hwf Hslug Hat Hre Hch.
  assert (∀ i f g j slug, 2 ≤ i → files !! i = Some f → reappear_taken files i g →
            column_of f "reappeared" !! j = Some (Int 1%Z) →
            column_of f "slug" !! j = Some slug →
            ∃ k file_k j' prev,
              k ≤ i - 2 ∧ files !! k = Some file_k ∧
              (∀ k', k < k' ≤ i - 2 → slug ∉ slugs_at files k') ∧
              column_of file_k "slug" !! j' = Some slug ∧
              (∀ j'', j'' < j' → column_of file_k "slug" !! j'' ≠ Some slug) ∧
              column_of file_k g !! j' = Some prev ∧
              get_last_appearance_field_value slug (Z.of_nat i - 2) g slugs_at_i files =
                Ok prev) as Hlast.
  { intros i f g j slug Hi Hf (n & Hg & Hall) Hr Hs.
    destruct (Hre i f Hi Hf) as [_ Hrows]. destruct (Hrows j slug Hr Hs) as [Hnan (k & Hk & Hin)].
    replace (Z.of_nat i - 2)%Z with (Z.of_nat (i - 2)) by lia.
    apply get_last_exists; [done | exists k; split; [lia | done] | |].
    - intros k' Hk'. apply Hat. apply lookup_lt_Some in Hf. lia.
    - intros k' f' Hk' Hf'. split; [by eapply (Forall_lookup_1 _ _ _ _ Hwf)|].
      split; [by eapply (Forall_lookup_1 _ _ _ _ Hslug)|].
      apply (in_all_waves_lookup files i g k'); [by apply (Hall n) | lia | done]. }
  destruct (tag_reappear_field_changes_spec slugs_at_i files Hwf Hslug)
    as (fs & Hrun & Hlen & Hfirst & Hwaves).
  { intros i f Hi Hf. by apply (Hre i f). }
  { intros i f g Hi Hf Htaken. split; [by apply (Hch i f g)|].
    intros j slug Hr Hs.
    destruct (Hlast i f g j slug Hi Hf Htaken Hr Hs) as (k & fk & j' & prev & Hk); [].
    exists prev. apply Hk. }
  exists fs. split; [done|]. split; [done|].
  split; [apply Hfirst; lia|]. split; [apply Hfirst; lia|].
  intros i file Hi Hfile.
  destruct (Hwaves i file Hi Hfile) as (file' & Hfile' & [Hn Hframe] & Hwritten & Hskipped).
  exists file'. split; [done|]. split; [done|]. split; [done|]. split; [done|].
  intros g Htaken. eexists. split; [by apply Hwritten|].
  pose proof (Forall_lookup_1 _ _ _ _ Hwf Hfile) as Hwff.
  pose proof (Forall_lookup_1 _ _ _ _ Hslug Hfile) as Hs.
  destruct (Hre i file Hi Hfile) as [Hr _]. pose proof (Hch i file g Hi Hfile Htaken) as Hc.
  assert (has_column g file = true) as Hg.
  { destruct Htaken as (n & Hn' & Hall).
    apply (in_all_waves_lookup files i g i); [by apply (Hall n) | lia | done]. }
  split.
  { unfold reappear_changed_column.
    apply reappear_changed_values_length; by apply column_of_length. }
  intros j slug r curr old Hsj Hrj Hcj Hoj. unfold reappear_changed_column.
  rewrite (reappear_changed_values_lookup _ _ _ _ _ _ _ _ _ _ Hrj Hsj Hcj Hoj).
  unfold reappear_changed_row. split.
  - intros Hne. by rewrite bool_decide_eq_false_2.
  - intros ->. rewrite bool_decide_eq_true_2 by done.
    destruct (Hlast i file g j slug Hi Hfile Htaken Hrj Hsj)
      as (k & fk & j' & prev & Hk & Hfk & Hlate & Hj' & Hfst & Hprev & ->).
    exists k, fk, j', prev. split; [lia|]. repeat (split; [done|]).
    apply int_of_bool_tag, cell_ne_spec.
Qed.

Lemma tag_reappear_field_changes_correct_witness :
  ∃ fs,
    tag_reappear_field_changes
      [slugs_at reappear_waves 0; slugs_at reappear_waves 1; slugs_at reappear_waves 2]
      reappear_waves = Ok fs ∧
    length fs = 3.
Proof.
  destruct (tag_reappear_field_changes_correct
              [slugs_at reappear_waves 0; slugs_at reappear_waves 1; slugs_at reappear_waves 2]
              reappear_waves) as (fs & Hrun & Hlen & _).
  - repeat constructor.
  - repeat constructor.
  - intros [|[|[|k]]] Hk; [reflexivity | reflexivity | reflexivity | simpl in Hk; lia].
  - intros [|[|[|i]]] f Hi Hf; [lia | lia | | discriminate Hf].
    injection Hf as <-. split; [reflexivity|].
    intros [|[|j]] slug Hr Hs; [| discriminate Hr | discriminate Hr].
    injection Hs as <-. split; [reflexivity|].
    exists 0. split; [lia|].
    change (slugs_at reappear_waves 0) with (to_set [Str "green-door"]).
    unfold to_set. apply elem_of_list_to_set. by eapply (list_elem_of_lookup_2 _ 0).
  - intros [|[|[|i]]] f g Hi Hf (n & Hg & Hall); [lia | lia | | discriminate Hf].
    injection Hf as <-. destruct n as [|n].
    + injection Hg as <-. reflexivity.
    + specialize (Hall 1 "dispensary_name" ltac:(lia) eq_refl). discriminate Hall.
  - exists fs. split; [exact Hrun | exact Hlen].
Defined.
